(** * JBeam editor: token patcher, node reconciler and table-schema processor

    A shallow embedding of
      - [jbeam_editor/export_vehicle.py]: [to_c_float], [get_float_precision],
        [set_number_node], [compare_and_set_value], [add_jbeam_nodes],
        [delete_jbeam_node], the position pass of
        [_get_nodes_add_delete_rename] and [update_ast_nodes];
      - [jbeam_editor/jbeam/table_schema.py]:
        [process_table_with_schema_destructive],
        [convert_dict_to_list_tables], [check_node_references] and
        [post_process].

    Python objects are values of [pyval]; a function that mutates an argument
    returns the new value of that argument; a raised exception is an explicit
    outcome that still carries the state reached when it was raised. *)

From Stdlib Require Import ZArith List String Ascii Bool Lia.
Import ListNotations.

Set Warnings "-register-all".

Local Open Scope string_scope.
Local Open Scope Z_scope.

(* ------------------------------------------------------------------ *)
(** ** Python floats *)

(** A Python [float] is a binary64 number.  A finite one is kept as the
    dyadic [m * 2^e]; the two infinities appear when a conversion overflows.
    NaN has no literal in a decoded document and no conversion below makes
    one from the other values, so it is not a constructor. *)
Inductive pyfloat : Type :=
| Ffin (m e : Z)
| Finf (neg : bool).

(** [==] on floats. *)
Definition feqb (x y : pyfloat) : bool :=
  match x, y with
  | Ffin m1 e1, Ffin m2 e2 =>
      let e := Z.min e1 e2 in
      m1 * 2 ^ (e1 - e) =? m2 * 2 ^ (e2 - e)
  | Finf a, Finf b => Bool.eqb a b
  | _, _ => false
  end.

(** Nearest integer to [n / d] ([d > 0]), ties to even. *)
Definition round_half_even (n d : Z) : Z :=
  let q := n / d in
  let r := n mod d in
  if 2 * r <? d then q
  else if d <? 2 * r then q + 1
  else if Z.even q then q else q + 1.

(** [floor (log2 (a / d))] for [a, d > 0]. *)
Definition ilog2_frac (a d : Z) : Z :=
  let e0 := Z.log2 a - Z.log2 d in
  let below :=
    if 0 <=? e0 then a <? d * 2 ^ e0 else a * 2 ^ (- e0) <? d in
  if below then e0 - 1 else e0.

(** Rounding of the rational [n / d] ([d > 0]) to the binary format with
    [prec] bits of precision, least exponent [emin] (the exponent of the
    smallest subnormal) and overflow threshold [2 ^ emax]: round to nearest,
    ties to even, as the hardware conversion does. *)
Definition round_to_format (prec emin emax : Z) (n d : Z) : pyfloat :=
  if n =? 0 then Ffin 0 0
  else
    let ex := ilog2_frac (Z.abs n) d in
    let q := Z.max (ex - prec + 1) emin in
    let mant :=
      if 0 <=? q then round_half_even n (d * 2 ^ q)
      else round_half_even (n * 2 ^ (- q)) d in
    let too_big :=
      if 0 <=? q then 2 ^ emax <=? Z.abs mant * 2 ^ q
      else 2 ^ (emax - q) <=? Z.abs mant in
    if too_big then Finf (n <? 0) else Ffin mant q.

Definition round_binary32 : Z -> Z -> pyfloat := round_to_format 24 (-149) 128.
Definition round_binary64 : Z -> Z -> pyfloat := round_to_format 53 (-1074) 1024.

(** The fraction [n / d] of a dyadic. *)
Definition dyadic_frac (m e : Z) : Z * Z :=
  if 0 <=? e then (m * 2 ^ e, 1) else (m, 2 ^ (- e)).

(** The float a decimal literal [digits * 10^(-scale)] denotes: the nearest
    binary64 number. *)
Definition float_of_decimal (digits : Z) (scale : Z) : pyfloat :=
  round_binary64 digits (10 ^ scale).

(** [float(z)] for a Python [int]; [None] is OverflowError. *)
Definition float_of_int (z : Z) : option pyfloat :=
  match round_binary64 z 1 with
  | Finf _ => None
  | f => Some f
  end.

(** [ctypes.c_float(x).value] for a float [x]: the value is cast to a C
    [float] and read back. *)
Definition c_float_of_float (x : pyfloat) : pyfloat :=
  match x with
  | Ffin m e => let '(n, d) := dyadic_frac m e in round_binary32 n d
  | Finf s => Finf s
  end.

(* ------------------------------------------------------------------ *)
(** ** ['%.4g' % v] and [get_float_precision] *)

(** Least [k >= k0] with [n * 10^k >= d], searched over [fuel] candidates. *)
Fixpoint first_digit_pos (fuel : nat) (n d k : Z) : Z :=
  match fuel with
  | O => k
  | S f => if d <=? n * 10 ^ k then k else first_digit_pos f n d (k + 1)
  end.

(** Number of digits of [x] once its trailing zeros are dropped, for a four
    digit [x]. *)
Definition sig_digits4 (x : Z) : Z :=
  if x mod 1000 =? 0 then 1
  else if x mod 100 =? 0 then 2
  else if x mod 10 =? 0 then 3
  else 4.

(** Number of decimal digits of [x > 0]. *)
Fixpoint num_digits_aux (fuel : nat) (x : Z) : Z :=
  match fuel with
  | O => 1
  | S f => if x <? 10 then 1 else 1 + num_digits_aux f (x / 10)
  end.

Definition num_digits (x : Z) : Z := num_digits_aux (Z.to_nat (Z.log2 x)) x.

(** [len('%.4g' % v)] for [v = n / d] with [0 <= n < d].  The value is
    rounded to four significant digits; with decimal exponent [X], fixed
    notation is used when [-4 <= X] and scientific notation otherwise, and
    trailing zeros are removed in both. *)
Definition len_fmt_4g (n d : Z) : Z :=
  if n =? 0 then 1
  else
    let k := first_digit_pos (Z.to_nat (Z.log2 d + 2)) n d 1 in
    let digs := round_half_even (n * 10 ^ (k + 3)) d in
    let X := if digs =? 10000 then - k + 1 else - k in
    let nd := if digs =? 10000 then 1 else sig_digits4 digs in
    if X =? 0 then 1
    else if -4 <=? X then 2 + (- X - 1) + nd
    else nd + (if 1 <? nd then 1 else 0) + 2 + Z.max 2 (num_digits (- X)).

(** [abs(fval - int(fval))] as a fraction, for a finite [fval]. *)
Definition abs_frac_part (m e : Z) : Z * Z :=
  if 0 <=? e then (0, 1) else (Z.abs m mod 2 ^ (- e), 2 ^ (- e)).

(** [min(4, max(len('%.4g' % abs(fval - int(fval))) - 2, 0))]; [int(fval)]
    raises OverflowError on an infinity. *)
Definition precision_of_float (fval : pyfloat) : option Z :=
  match fval with
  | Ffin m e =>
      let '(n, d) := abs_frac_part m e in
      Some (Z.min 4 (Z.max (len_fmt_4g n d - 2) 0))
  | Finf _ => None
  end.

(* ------------------------------------------------------------------ *)
(** ** Python values *)

(** The values the two modules handle: what decoding a document yields
    (None, booleans, ints, floats, strings, lists, dicts in insertion order),
    the class object [jbeam_utils.Metadata], which the table processor uses
    as a dict key, and its instances, which carry a dict [_data]. *)
Inductive pyval : Type :=
| PNone
| PBool (b : bool)
| PInt (z : Z)
| PFloat (f : pyfloat)
| PStr (s : string)
| PList (l : list pyval)
| PDict (d : list (pyval * pyval))
| PMetadataClass
| PMetadata (data : list (pyval * pyval)).

Definition pydict : Type := list (pyval * pyval).

Inductive exn : Type :=
| KeyError | IndexError | TypeError | AttributeError | OverflowError
| UnboundLocalError.

(** Outcome of a Python expression: a value or a raised exception. *)
Inductive res (A : Type) : Type :=
| Ok (a : A)
| Raise (e : exn).
Arguments Ok {A} a.
Arguments Raise {A} e.

Definition bind {A B : Type} (r : res A) (k : A -> res B) : res B :=
  match r with
  | Ok a => k a
  | Raise e => Raise e
  end.

Notation "x <- r ;; k" := (bind r (fun x => k))
  (at level 61, r at next level, right associativity).

(** The number a value denotes in a numeric comparison ([bool] is a subclass
    of [int]). *)
Definition num_value (v : pyval) : option pyfloat :=
  match v with
  | PBool b => Some (Ffin (if b then 1 else 0) 0)
  | PInt z => Some (Ffin z 0)
  | PFloat f => Some f
  | _ => None
  end.

(** [a == b] on values that are not containers. *)
Definition scalar_eqb (a b : pyval) : bool :=
  match num_value a, num_value b with
  | Some x, Some y => feqb x y
  | None, None =>
      match a, b with
      | PNone, PNone => true
      | PStr s, PStr t => String.eqb s t
      | PMetadataClass, PMetadataClass => true
      | _, _ => false
      end
  | _, _ => false
  end.

Definition hashable (v : pyval) : bool :=
  match v with
  | PList _ | PDict _ => false
  | _ => true
  end.

(** Dict lookup; keys are compared with [==]. *)
Fixpoint dict_get (d : pydict) (k : pyval) : option pyval :=
  match d with
  | [] => None
  | (k', v) :: r => if scalar_eqb k' k then Some v else dict_get r k
  end.

Definition dict_mem (d : pydict) (k : pyval) : bool :=
  match dict_get d k with Some _ => true | None => false end.

(** [d[k] = v]: an existing key keeps its place, a new one goes last. *)
Fixpoint dict_set (d : pydict) (k v : pyval) : pydict :=
  match d with
  | [] => [(k, v)]
  | (k', v') :: r =>
      if scalar_eqb k' k then (k', v) :: r else (k', v') :: dict_set r k v
  end.

(** [del d[k]] where [k] is present. *)
Fixpoint dict_del (d : pydict) (k : pyval) : pydict :=
  match d with
  | [] => []
  | (k', v') :: r =>
      if scalar_eqb k' k then r else (k', v') :: dict_del r k
  end.

(** [d.update(other)]. *)
Definition dict_update (d other : pydict) : pydict :=
  fold_left (fun acc kv => dict_set acc (fst kv) (snd kv)) other d.

(** [a == b] on all values: lists elementwise; two dicts are equal when they
    have as many items and every item of the first has its key in the second
    with an equal value (the keys of a dict are distinct, so at most one
    item of the second has that key). *)
Fixpoint py_eqb (a b : pyval) {struct a} : bool :=
  match a, b with
  | PList l1, PList l2 =>
      (fix lists (l1 l2 : list pyval) : bool :=
         match l1, l2 with
         | [], [] => true
         | x :: xs, y :: ys => py_eqb x y && lists xs ys
         | _, _ => false
         end) l1 l2
  | PDict d1, PDict d2 =>
      (Nat.eqb (List.length d1) (List.length d2)) &&
      (fix items (d : pydict) : bool :=
         match d with
         | [] => true
         | (k, v) :: r =>
             existsb (fun kv => py_eqb k (fst kv) && py_eqb v (snd kv)) d2
             && items r
         end) d1
  | PMetadata d1, PMetadata d2 =>
      (Nat.eqb (List.length d1) (List.length d2)) &&
      (fix items (d : pydict) : bool :=
         match d with
         | [] => true
         | (k, v) :: r =>
             existsb (fun kv => py_eqb k (fst kv) && py_eqb v (snd kv)) d2
             && items r
         end) d1
  | PList _, _ | PDict _, _ | PMetadata _, _ => false
  | _, _ => scalar_eqb a b
  end.

(** Sequence access [l[i]] with Python's negative indices. *)
Definition py_nth {A : Type} (l : list A) (i : Z) : option A :=
  let n := Z.of_nat (List.length l) in
  let j := if i <? 0 then i + n else i in
  if (0 <=? j) && (j <? n) then nth_error l (Z.to_nat j) else None.

(** The index a value denotes when used as a subscript of a sequence. *)
Definition as_index (k : pyval) : option Z :=
  match k with
  | PInt z => Some z
  | PBool b => Some (if b then 1 else 0)
  | _ => None
  end.

Fixpoint string_nth (s : string) (n : nat) : option ascii :=
  match s, n with
  | EmptyString, _ => None
  | String c _, O => Some c
  | String _ r, S m => string_nth r m
  end.

(** [c[k]]. *)
Definition py_getitem (c k : pyval) : res pyval :=
  match c with
  | PDict d =>
      if hashable k then
        match dict_get d k with
        | Some v => Ok v
        | None => Raise KeyError
        end
      else Raise TypeError
  | PList l =>
      match as_index k with
      | Some i =>
          match py_nth l i with
          | Some v => Ok v
          | None => Raise IndexError
          end
      | None => Raise TypeError
      end
  | PStr s =>
      match as_index k with
      | Some i =>
          match py_nth (list_ascii_of_string s) i with
          | Some ch => Ok (PStr (String ch EmptyString))
          | None => Raise IndexError
          end
      | None => Raise TypeError
      end
  | _ => Raise TypeError
  end.

(** [type(v) == int or type(v) == float]: exact types, so not [bool]. *)
Definition is_int_or_float (v : pyval) : bool :=
  match v with
  | PInt _ | PFloat _ => true
  | _ => false
  end.

(** [float(v)] for an int or a float. *)
Definition py_float (v : pyval) : res pyfloat :=
  match v with
  | PInt z =>
      match float_of_int z with
      | Some f => Ok f
      | None => Raise OverflowError
      end
  | PBool b => Ok (Ffin (if b then 1 else 0) 0)
  | PFloat f => Ok f
  | _ => Raise TypeError
  end.

(** [to_c_float(num)]: [ctypes.c_float] takes the number as a double first. *)
Definition to_c_float (num : pyval) : res pyfloat :=
  f <- py_float num ;; Ok (c_float_of_float f).

(** [get_float_precision(val)]. *)
Definition get_float_precision (val : pyval) : res Z :=
  fval <- py_float val ;;
  match precision_of_float fval with
  | Some p => Ok p
  | None => Raise OverflowError
  end.

(* ------------------------------------------------------------------ *)
(** ** Strings and list surgery with Python's index conventions *)

Definition newline : ascii := "010"%char.

Definition str_len (s : string) : Z := Z.of_nat (String.length s).

(** Index of the first newline, as [enumerate] meets it. *)
Fixpoint find_nl_from (l : list ascii) (k : Z) : option Z :=
  match l with
  | [] => None
  | c :: r => if Ascii.eqb c newline then Some k else find_nl_from r (k + 1)
  end.

Definition find_nl (s : string) : option Z :=
  find_nl_from (list_ascii_of_string s) 0.

(** Index of the last newline, as a scan from the end meets it. *)
Fixpoint rfind_nl_from (l : list ascii) (k : Z) : option Z :=
  match l with
  | [] => None
  | c :: r =>
      match rfind_nl_from r (k + 1) with
      | Some j => Some j
      | None => if Ascii.eqb c newline then Some k else None
      end
  end.

Definition rfind_nl (s : string) : option Z :=
  rfind_nl_from (list_ascii_of_string s) 0.

(** A slice bound: negative bounds count from the end, then the bound is
    clamped to the sequence. *)
Definition clamp_idx (len i : Z) : Z :=
  let j := if i <? 0 then i + len else i in
  Z.max 0 (Z.min len j).

(** [s[:b]] and [s[a:]]. *)
Definition str_to (s : string) (b : Z) : string :=
  string_of_list_ascii
    (firstn (Z.to_nat (clamp_idx (str_len s) b)) (list_ascii_of_string s)).

Definition str_from (s : string) (a : Z) : string :=
  string_of_list_ascii
    (skipn (Z.to_nat (clamp_idx (str_len s) a)) (list_ascii_of_string s)).

Fixpoint spaces (n : nat) : string :=
  match n with
  | O => EmptyString
  | S m => String " "%char (spaces m)
  end.

Definition llen {A : Type} (l : list A) : Z := Z.of_nat (List.length l).

(** The position [l[i]] refers to, when there is one. *)
Definition resolve_idx {A : Type} (l : list A) (i : Z) : option nat :=
  let j := if i <? 0 then i + llen l else i in
  if (0 <=? j) && (j <? llen l) then Some (Z.to_nat j) else None.

(** [l.insert(i, x)]. *)
Definition py_insert {A : Type} (l : list A) (i : Z) (x : A) : list A :=
  let p := Z.to_nat (clamp_idx (llen l) i) in
  firstn p l ++ x :: skipn p l.

(** [del l[a:b]]. *)
Definition py_del_slice {A : Type} (l : list A) (a b : Z) : list A :=
  let pa := Z.to_nat (clamp_idx (llen l) a) in
  let pb := Z.to_nat (clamp_idx (llen l) b) in
  if (pa <? pb)%nat then firstn pa l ++ skipn pb l else l.

(** Removal and replacement at a position. *)
Definition remove_at {A : Type} (l : list A) (p : nat) : list A :=
  firstn p l ++ skipn (S p) l.

Fixpoint set_at {A : Type} (l : list A) (p : nat) (x : A) : list A :=
  match l, p with
  | [], _ => []
  | _ :: r, O => x :: r
  | y :: r, S q => y :: set_at r q x
  end.

(* ------------------------------------------------------------------ *)
(** ** Tokens *)

(** Token kinds of [sjsonast]: the structural characters, the quote kind for
    a quoted string, ['number'], ['wsc'] for a span of whitespace, comments and comma,
    and any other scalar kind the tokenizer emits for a bare literal. *)
Inductive dtype : Type :=
| DT_lbrace | DT_rbrace | DT_lbracket | DT_rbracket | DT_colon
| DT_string | DT_number | DT_wsc | DT_literal.

Definition dtype_eqb (a b : dtype) : bool :=
  match a, b with
  | DT_lbrace, DT_lbrace | DT_rbrace, DT_rbrace
  | DT_lbracket, DT_lbracket | DT_rbracket, DT_rbracket
  | DT_colon, DT_colon | DT_string, DT_string | DT_number, DT_number
  | DT_wsc, DT_wsc | DT_literal, DT_literal => true
  | _, _ => false
  end.

(** Modelled from the spec: the class [sjsonast.ASTNode] is not among the
    sources.  A token has a kind, a value (the text of a separator, the
    value of a scalar, None for a structural token) and, for a number, the
    count of decimals to render. *)
Record ASTNode : Type := mkNode {
  data_type : dtype;
  value : pyval;
  precision : Z
}.

Definition set_value (n : ASTNode) (v : pyval) : ASTNode :=
  mkNode (data_type n) v (precision n).

Definition set_precision (n : ASTNode) (p : Z) : ASTNode :=
  mkNode (data_type n) (value n) p.

Definition wsc_node (s : string) : ASTNode := mkNode DT_wsc (PStr s) 0.
Definition struct_node (d : dtype) : ASTNode := mkNode d PNone 0.

Definition is_open (d : dtype) : bool :=
  match d with DT_lbrace | DT_lbracket => true | _ => false end.

Definition is_close (d : dtype) : bool :=
  match d with DT_rbrace | DT_rbracket => true | _ => false end.

Definition is_wsc (d : dtype) : bool :=
  match d with DT_wsc => true | _ => false end.

(** The text of a separator token; the token contract makes it a string. *)
Definition node_text (n : ASTNode) : res string :=
  match value n with
  | PStr s => Ok s
  | _ => Raise TypeError
  end.

(* ------------------------------------------------------------------ *)
(** ** Scalar comparison *)

(** [set_number_node(node, val)].  The guard reads
    [(data_type == 'number' and type(val) == int) or type(val) == float];
    the value is stored before the precision is computed. *)
Definition set_number_node (node : ASTNode) (val : pyval)
  : ASTNode * res unit :=
  let guard :=
    match val with
    | PInt _ => dtype_eqb (data_type node) DT_number
    | PFloat _ => true
    | _ => false
    end in
  if guard then
    let node1 := set_value node val in
    match get_float_precision val with
    | Ok p => (set_precision node1 p, Ok tt)
    | Raise e => (node1, Raise e)
    end
  else (node, Ok tt).

(** The two trees followed along the keys of the stack. *)
Fixpoint walk2 (old_data data : pyval) (stack : list (pyval * bool))
  : res (pyval * pyval) :=
  match stack with
  | [] => Ok (old_data, data)
  | entry :: rest =>
      o <- py_getitem old_data (fst entry) ;;
      d <- py_getitem data (fst entry) ;;
      walk2 o d rest
  end.

(** The test of [compare_and_set_value] on a number token. *)
Definition number_changed (old_data data : pyval) : res bool :=
  if negb (is_int_or_float old_data) then Ok true
  else if is_int_or_float data then
    a <- to_c_float old_data ;;
    b <- to_c_float data ;;
    Ok (negb (feqb a b) && negb (py_eqb old_data data))
  else Ok false.

(** [compare_and_set_value(original_jbeam_file_data, jbeam_file_data, stack,
    index, node)]: the token after the call and the returned flag. *)
Definition compare_and_set_value (original_jbeam_file_data jbeam_file_data : pyval)
    (stack : list (pyval * bool)) (index : pyval) (node : ASTNode)
  : ASTNode * res bool :=
  match walk2 original_jbeam_file_data jbeam_file_data stack with
  | Raise e => (node, Raise e)
  | Ok (o, d) =>
      match py_getitem o index with
      | Raise e => (node, Raise e)
      | Ok old_data =>
          match py_getitem d index with
          | Raise e => (node, Raise e)
          | Ok data =>
              if dtype_eqb (data_type node) DT_number then
                match number_changed old_data data with
                | Raise e => (node, Raise e)
                | Ok true =>
                    match set_number_node node data with
                    | (node', Ok _) => (node', Ok true)
                    | (node', Raise e) => (node', Raise e)
                    end
                | Ok false => (node, Ok false)
                end
              else if negb (py_eqb old_data data) then
                (set_value node data, Ok true)
              else (node, Ok false)
          end
      end
  end.

(* ------------------------------------------------------------------ *)
(** ** Row insertion *)

Definition pos3 : Type := (pyfloat * pyfloat * pyfloat)%type.

(** The backward scan of [add_jbeam_nodes] for the indent level: [j] runs
    from [section_end - 2] down to [section_start + 1]; the first separator
    token holding a newline fixes the level as the count of characters after
    its last newline.  The flag tells whether the loop variable [k] has been
    bound, which a later slice depends on. *)
Fixpoint scan_indent (fuel : nat) (ast_nodes : list ASTNode) (j : Z)
    (k_bound : bool) : res (option Z * bool) :=
  match fuel with
  | O => Ok (None, k_bound)
  | S fuel' =>
      match py_nth ast_nodes j with
      | None => Raise IndexError
      | Some node_j =>
          if is_wsc (data_type node_j) then
            wscs <- node_text node_j ;;
            let wscs_len := str_len wscs in
            match rfind_nl wscs with
            | Some k => Ok (Some (wscs_len - k - 1), true)
            | None =>
                scan_indent fuel' ast_nodes (j - 1)
                  (k_bound || (0 <? wscs_len))
            end
          else scan_indent fuel' ast_nodes (j - 1) k_bound
      end
  end.

(** Tokens of one new row, inserted one by one at [i], [i + 1], ...; the
    precision of a coordinate is computed when its token is built. *)
Definition insert_row (ast_nodes : list ASTNode) (i : Z) (node_id : string)
    (node_pos : pos3) : list ASTNode * res unit :=
  let '(x, y, z) := node_pos in
  let a0 := py_insert ast_nodes (i + 0) (struct_node DT_lbracket) in
  let a1 := py_insert a0 (i + 1) (mkNode DT_string (PStr node_id) 0) in
  let a2 := py_insert a1 (i + 2) (wsc_node ", ") in
  match get_float_precision (PFloat x) with
  | Raise e => (a2, Raise e)
  | Ok px =>
      let a3 := py_insert a2 (i + 3) (mkNode DT_number (PFloat x) px) in
      let a4 := py_insert a3 (i + 4) (wsc_node ", ") in
      match get_float_precision (PFloat y) with
      | Raise e => (a4, Raise e)
      | Ok py =>
          let a5 := py_insert a4 (i + 5) (mkNode DT_number (PFloat y) py) in
          let a6 := py_insert a5 (i + 6) (wsc_node ", ") in
          match get_float_precision (PFloat z) with
          | Raise e => (a6, Raise e)
          | Ok pz =>
              let a7 := py_insert a6 (i + 7) (mkNode DT_number (PFloat z) pz) in
              (py_insert a7 (i + 8) (struct_node DT_rbracket), Ok tt)
          end
      end
  end.

(** The loop over [nodes_to_add.items()].  [after] is the position of
    [node_after_entry] while that variable is not None. *)
Fixpoint insert_rows (ast_nodes : list ASTNode) (i : Z) (after : option nat)
    (jbeam_entry_indent : string) (nodes : list (string * pos3))
  : list ASTNode * res Z :=
  match nodes with
  | [] => (ast_nodes, Ok i)
  | (node_id, node_pos) :: rest =>
      let step1 :=
        match after with
        | Some p =>
            match nth_error ast_nodes p with
            | Some n =>
                match node_text n with
                | Ok s =>
                    (set_at ast_nodes p
                       (set_value n (PStr (s ++ jbeam_entry_indent))), Ok i)
                | Raise e => (ast_nodes, Raise e)
                end
            | None => (ast_nodes, Raise IndexError)
            end
        | None =>
            (py_insert ast_nodes (i + 0) (wsc_node jbeam_entry_indent),
             Ok (i + 1))
        end in
      match step1 with
      | (a, Raise e) => (a, Raise e)
      | (a, Ok i1) =>
          match insert_row a i1 node_id node_pos with
          | (a', Raise e) => (a', Raise e)
          | (a', Ok _) =>
              let i2 := i1 + 9 in
              match rest with
              | [] => insert_rows a' i2 None jbeam_entry_indent rest
              | _ :: _ =>
                  insert_rows (py_insert a' i2 (wsc_node ",")) (i2 + 1) None
                    jbeam_entry_indent rest
              end
          end
      end
  end.

(** [add_jbeam_nodes(ast_nodes, jbeam_section_start_node_idx,
    jbeam_section_end_node_idx, jbeam_entry_start_node_idx,
    jbeam_entry_end_node_idx, nodes_to_add)]: the token list after the call
    and the returned index.  An index that is still None raises TypeError
    where it is first used in arithmetic or a comparison. *)
Definition add_jbeam_nodes (ast_nodes : list ASTNode)
    (jbeam_section_start_node_idx jbeam_section_end_node_idx
     jbeam_entry_start_node_idx jbeam_entry_end_node_idx : option Z)
    (nodes_to_add : list (string * pos3)) : list ASTNode * res Z :=
  match jbeam_section_end_node_idx with
  | None => (ast_nodes, Raise TypeError)
  | Some se =>
      let j := se - 2 in
      let scanned :=
        match jbeam_section_start_node_idx with
        | None => Raise TypeError
        | Some ss => scan_indent (Z.to_nat (j - ss)) ast_nodes j false
        end in
      match scanned with
      | Raise e => (ast_nodes, Raise e)
      | Ok (lvl, k_bound) =>
          let jbeam_entry_indent_lvl :=
            match lvl with Some n => n | None => 8 end in
          let jbeam_entry_indent :=
            String newline (spaces (Z.to_nat jbeam_entry_indent_lvl)) in
          match jbeam_entry_end_node_idx with
          | None => (ast_nodes, Raise TypeError)
          | Some ee =>
              let i := ee + 1 in
              match resolve_idx ast_nodes i with
              | None => (ast_nodes, Raise IndexError)
              | Some p =>
                  match nth_error ast_nodes p with
                  | None => (ast_nodes, Raise IndexError)
                  | Some node_after_entry =>
                      let split :=
                        if is_wsc (data_type node_after_entry) then
                          match node_text node_after_entry with
                          | Raise e => (ast_nodes, Raise e)
                          | Ok wscs =>
                              match find_nl wscs with
                              | Some k =>
                                  (set_at ast_nodes p
                                     (set_value node_after_entry
                                        (PStr (str_to wscs k))),
                                   Ok (Some (wsc_node (str_from wscs k))))
                              | None =>
                                  if 0 <? str_len wscs then
                                    (set_at ast_nodes p
                                       (set_value node_after_entry
                                          (PStr (str_to wscs (str_len wscs - 1)))),
                                     Ok None)
                                  else if k_bound then
                                    (set_at ast_nodes p
                                       (set_value node_after_entry (PStr "")),
                                     Ok None)
                                  else (ast_nodes, Raise UnboundLocalError)
                              end
                          end
                        else (py_insert ast_nodes i (wsc_node ""), Ok None) in
                      match split with
                      | (a, Raise e) => (a, Raise e)
                      | (a, Ok node_2_after_entry) =>
                          match insert_rows a (i + 1) (Some p)
                                  jbeam_entry_indent nodes_to_add with
                          | (a', Raise e) => (a', Raise e)
                          | (a', Ok i') =>
                              match node_2_after_entry with
                              | Some n2 => (py_insert a' i' n2, Ok (i' + 1))
                              | None => (a', Ok (i' + 1))
                              end
                          end
                      end
                  end
              end
          end
      end
  end.

(* ------------------------------------------------------------------ *)
(** ** Row deletion *)

Definition has_nl (s : string) : bool :=
  match find_nl s with Some _ => true | None => false end.

(** [delete_jbeam_node(ast_nodes, jbeam_section_start_node_idx,
    jbeam_entry_start_node_idx, jbeam_entry_end_node_idx)].  The tokens
    before and after the row are objects: [prev] is the position of the
    first one while it is still in the list, and it follows the removals
    made before it is written to. *)
Definition delete_jbeam_node (ast_nodes : list ASTNode)
    (jbeam_section_start_node_idx jbeam_entry_start_node_idx
     jbeam_entry_end_node_idx : option Z) : list ASTNode * res Z :=
  match jbeam_entry_start_node_idx, jbeam_entry_end_node_idx with
  | Some es, Some ee =>
      match resolve_idx ast_nodes (es - 1), resolve_idx ast_nodes (ee + 1) with
      | Some p, Some n =>
          match nth_error ast_nodes p, nth_error ast_nodes n with
          | Some node_entry_prev_node, Some node_entry_next_node =>
              (* is the row alone to its left? *)
              let left :=
                if is_wsc (data_type node_entry_prev_node) then
                  s <- node_text node_entry_prev_node ;; Ok (negb (has_nl s))
                else Ok true in
              match left with
              | Raise e => (ast_nodes, Raise e)
              | Ok node_entry_to_left =>
                  (* the separator after the row *)
                  let right :=
                    if is_wsc (data_type node_entry_next_node) then
                      match node_text node_entry_next_node with
                      | Raise e => (ast_nodes, Raise e)
                      | Ok s =>
                          let node_entry_to_right := negb (has_nl s) in
                          let k :=
                            match find_nl s with
                            | Some q =>
                                Some (if node_entry_to_left then q - 1 else q)
                            | None =>
                                if 0 <? str_len s then Some (str_len s - 1)
                                else None
                            end in
                          match k with
                          | None => (ast_nodes, Raise UnboundLocalError)
                          | Some k =>
                              if k =? str_len s - 1 then
                                (remove_at ast_nodes n,
                                 Ok (node_entry_to_right, true,
                                     (if (p =? n)%nat then None
                                      else if (n <? p)%nat then Some (pred p)
                                      else Some p), k))
                              else
                                (set_at ast_nodes n
                                   (set_value node_entry_next_node
                                      (PStr (str_from s (k + 1)))),
                                 Ok (node_entry_to_right, false, Some p, k))
                          end
                      end
                    else (ast_nodes, Ok (true, false, Some p, 0)) in
                  match right with
                  | (a, Raise e) => (a, Raise e)
                  | (a, Ok (node_entry_to_right, deleted_right_wsc, prev, k)) =>
                      (* a row alone on its line: trim the indent before it *)
                      let trimmed :=
                        if negb node_entry_to_left && negb node_entry_to_right
                        then
                          match prev with
                          | None => (a, Ok tt)
                          | Some p' =>
                              match nth_error a p' with
                              | None => (a, Raise IndexError)
                              | Some pn =>
                                  match node_text pn with
                                  | Raise e => (a, Raise e)
                                  | Ok wscs =>
                                      let k' :=
                                        match rfind_nl wscs with
                                        | Some r => r
                                        | None =>
                                            if 0 <? str_len wscs then 0 else k
                                        end in
                                      (set_at a p'
                                         (set_value pn
                                            (PStr (str_to wscs (k' + 1)))),
                                       Ok tt)
                                  end
                              end
                          end
                        else (a, Ok tt) in
                      match trimmed with
                      | (a1, Raise e) => (a1, Raise e)
                      | (a1, Ok _) =>
                          let a2 := py_del_slice a1 es (ee + 1) in
                          let i := es - 1 in
                          let i := if deleted_right_wsc then i - 1 else i in
                          match resolve_idx a2 i, resolve_idx a2 (i + 1) with
                          | Some c, Some d =>
                              match nth_error a2 c, nth_error a2 d with
                              | Some curr_node, Some next_node =>
                                  if is_wsc (data_type curr_node)
                                     && is_wsc (data_type next_node) then
                                    match node_text curr_node,
                                          node_text next_node with
                                    | Ok s1, Ok s2 =>
                                        let a3 :=
                                          set_at a2 d
                                            (set_value next_node
                                               (PStr (s1 ++ s2))) in
                                        (remove_at a3 c, Ok (i - 1))
                                    | _, _ => (a2, Raise TypeError)
                                    end
                                  else (a2, Ok i)
                              | _, _ => (a2, Raise IndexError)
                              end
                          | _, _ => (a2, Raise IndexError)
                          end
                      end
                  end
              end
          | _, _ => (ast_nodes, Raise IndexError)
          end
      | _, _ => (ast_nodes, Raise IndexError)
      end
  | _, _ => (ast_nodes, Raise TypeError)
  end.

(* ------------------------------------------------------------------ *)
(** ** The patch pass *)

(** The local variables of [update_ast_nodes].  The stack is in push order;
    keys that may be None are values, indices that may be None are
    options. *)
Record pstate : Type := mkState {
  ast_nodes : list ASTNode;
  stack : list (pyval * bool);
  in_dict : bool;
  pos_in_arr : Z;
  temp_dict_key : pyval;
  dict_key : pyval;
  jbeam_entry_start_node_idx : option Z;
  jbeam_entry_end_node_idx : option Z;
  jbeam_section_start_node_idx : option Z;
  jbeam_section_end_node_idx : option Z;
  jbeam_node_id : pyval;
  idx : Z
}.

Definition is_none (v : pyval) : bool :=
  match v with PNone => true | _ => false end.

(** [len(stack) == n and stack[0][0] == jbeam_part]. *)
Definition in_part (stack : list (pyval * bool)) (n : nat)
    (jbeam_part : string) : bool :=
  Nat.eqb (List.length stack) n &&
  match stack with
  | e :: _ => py_eqb (fst e) (PStr jbeam_part)
  | [] => false
  end.

(** [... and stack[1][0] == 'nodes']. *)
Definition in_nodes (stack : list (pyval * bool)) (n : nat)
    (jbeam_part : string) : bool :=
  in_part stack n jbeam_part &&
  match stack with
  | _ :: e :: _ => py_eqb (fst e) (PStr "nodes")
  | _ => false
  end.

(** [key in d] for a dict with string keys. *)
Definition id_in {V : Type} (key : pyval) (d : list (string * V)) : res bool :=
  if hashable key then
    Ok (existsb (fun kv => scalar_eqb (PStr (fst kv)) key) d)
  else Raise TypeError.

Section Patch.

Variables (current_jbeam_file_data current_jbeam_file_data_modified : pyval).
Variable jbeam_part : string.
Variables (nodes_to_add nodes_to_delete : list (string * pos3)).

Inductive step_result : Type :=
| Next (st : pstate)
| Fault (tokens : list ASTNode) (e : exn).

(** The first half of an iteration on a token that is not a separator:
    the key and value bookkeeping and the scalar comparison.  The result
    gives the token after the comparison and the updated variables. *)
Definition visit (st : pstate) (node : ASTNode) : ASTNode * res pstate :=
  let dt := data_type node in
  if in_dict st then
    if is_open dt then
      if negb (is_none (dict_key st)) then
        (node, Ok (mkState (ast_nodes st)
                     (stack st ++ [(dict_key st, in_dict st)])
                     (dtype_eqb dt DT_lbrace) 0 PNone PNone
                     (jbeam_entry_start_node_idx st)
                     (jbeam_entry_end_node_idx st)
                     (jbeam_section_start_node_idx st)
                     (jbeam_section_end_node_idx st)
                     (jbeam_node_id st) (idx st)))
      else
        (node, Ok (mkState (ast_nodes st) (stack st) (in_dict st) 0
                     PNone PNone
                     (jbeam_entry_start_node_idx st)
                     (jbeam_entry_end_node_idx st)
                     (jbeam_section_start_node_idx st)
                     (jbeam_section_end_node_idx st)
                     (jbeam_node_id st) (idx st)))
    else if negb (is_close dt) then
      if is_none (temp_dict_key st) then
        if dtype_eqb dt DT_string then
          (node, Ok (mkState (ast_nodes st) (stack st) (in_dict st)
                       (pos_in_arr st) (value node) (dict_key st)
                       (jbeam_entry_start_node_idx st)
                       (jbeam_entry_end_node_idx st)
                       (jbeam_section_start_node_idx st)
                       (jbeam_section_end_node_idx st)
                       (jbeam_node_id st) (idx st)))
        else (node, Ok st)
      else if dtype_eqb dt DT_colon then
        (node, Ok (mkState (ast_nodes st) (stack st) (in_dict st)
                     (pos_in_arr st) (temp_dict_key st) (temp_dict_key st)
                     (jbeam_entry_start_node_idx st)
                     (jbeam_entry_end_node_idx st)
                     (jbeam_section_start_node_idx st)
                     (jbeam_section_end_node_idx st)
                     (jbeam_node_id st) (idx st)))
      else if negb (is_none (dict_key st)) then
        match compare_and_set_value current_jbeam_file_data
                current_jbeam_file_data_modified (stack st) (dict_key st)
                node with
        | (node', Raise e) => (node', Raise e)
        | (node', Ok _) =>
            (node', Ok (mkState (ast_nodes st) (stack st) (in_dict st)
                          (pos_in_arr st) PNone PNone
                          (jbeam_entry_start_node_idx st)
                          (jbeam_entry_end_node_idx st)
                          (jbeam_section_start_node_idx st)
                          (jbeam_section_end_node_idx st)
                          (jbeam_node_id st) (idx st)))
        end
      else (node, Ok st)
    else (node, Ok st)
  else
    if is_open dt then
      (node, Ok (mkState (ast_nodes st)
                   (stack st ++ [(PInt (pos_in_arr st), in_dict st)])
                   (dtype_eqb dt DT_lbrace) 0 PNone PNone
                   (jbeam_entry_start_node_idx st)
                   (jbeam_entry_end_node_idx st)
                   (jbeam_section_start_node_idx st)
                   (jbeam_section_end_node_idx st)
                   (jbeam_node_id st) (idx st)))
    else if negb (is_close dt) then
      let id :=
        if in_nodes (stack st) 3 jbeam_part
           && match jbeam_entry_start_node_idx st with
              | Some _ => true
              | None => false
              end
           && (pos_in_arr st =? 0)
        then
          match walk2 current_jbeam_file_data_modified
                  current_jbeam_file_data_modified (stack st) with
          | Raise e => Raise e
          | Ok (_, data) => py_getitem data (PInt (pos_in_arr st))
          end
        else Ok (jbeam_node_id st) in
      match id with
      | Raise e => (node, Raise e)
      | Ok node_id =>
          match compare_and_set_value current_jbeam_file_data
                  current_jbeam_file_data_modified (stack st)
                  (PInt (pos_in_arr st)) node with
          | (node', Raise e) => (node', Raise e)
          | (node', Ok _) =>
              (node', Ok (mkState (ast_nodes st) (stack st) (in_dict st)
                            (pos_in_arr st + 1) (temp_dict_key st)
                            (dict_key st)
                            (jbeam_entry_start_node_idx st)
                            (jbeam_entry_end_node_idx st)
                            (jbeam_section_start_node_idx st)
                            (jbeam_section_end_node_idx st)
                            node_id (idx st)))
          end
      end
    else (node, Ok st).

(** On an opening token: the start of a section or of an entry of the
    part is recorded. *)
Definition mark_open (st : pstate) : pstate :=
  let i := idx st in
  let s_start :=
    if in_part (stack st) 2 jbeam_part then Some i
    else jbeam_section_start_node_idx st in
  let e_start :=
    if in_part (stack st) 3 jbeam_part then Some i
    else jbeam_entry_start_node_idx st in
  mkState (ast_nodes st) (stack st) (in_dict st) (pos_in_arr st)
    (temp_dict_key st) (dict_key st) e_start
    (jbeam_entry_end_node_idx st) s_start
    (jbeam_section_end_node_idx st) (jbeam_node_id st) i.

(** [stack.pop()] with the container kind and array position restored
    from the popped frame.  A frame whose flag is False was pushed from a
    sequence and holds the int position; [+ 1] on a string or None key
    raises TypeError. *)
Definition pop_frame (stack : list (pyval * bool))
  : res (list (pyval * bool) * bool * Z) :=
  match rev stack with
  | [] => Ok ([], true, 0)
  | stack_head :: rest_rev =>
      let stack' := rev rest_rev in
      let in_dict' := snd stack_head in
      match stack' with
      | _ :: _ =>
          if negb in_dict' then
            match as_index (fst stack_head) with
            | Some p => Ok (stack', in_dict', p + 1)
            | None => Raise TypeError
            end
          else Ok (stack', in_dict', 0)
      | [] => Ok (stack', in_dict', 0)
      end
  end.

(** On a closing token: the end of an entry is recorded, rows are added
    at the end of the nodes section, the frame is popped, and a node row
    whose id is to be deleted is removed. *)
Definition on_close (st : pstate) (dt : dtype) : step_result :=
  let i := idx st in
  let e_end :=
    if in_part (stack st) 3 jbeam_part then Some i
    else jbeam_entry_end_node_idx st in
  let added :=
    if dtype_eqb dt DT_rbracket
       && in_nodes (stack st) 2 jbeam_part
       && match nodes_to_add with [] => false | _ :: _ => true end
    then
      match add_jbeam_nodes (ast_nodes st)
              (jbeam_section_start_node_idx st) (Some i)
              (jbeam_entry_start_node_idx st) e_end nodes_to_add with
      | (a, Raise e) => (a, Some i, Raise e)
      | (a, Ok i') => (a, Some i, Ok i')
      end
    else (ast_nodes st, jbeam_section_end_node_idx st, Ok i) in
  match added with
  | (a, _, Raise e) => Fault a e
  | (a, s_end, Ok i1) =>
      match pop_frame (stack st) with
      | Raise e => Fault a e
      | Ok (stack', in_dict', pos') =>
          if dtype_eqb dt DT_rbracket && in_nodes stack' 2 jbeam_part then
            match id_in (jbeam_node_id st) nodes_to_delete with
            | Raise e => Fault a e
            | Ok true =>
                match delete_jbeam_node a
                        (jbeam_section_start_node_idx st)
                        (jbeam_entry_start_node_idx st) e_end with
                | (a', Raise e) => Fault a' e
                | (a', Ok i2) =>
                    Next (mkState a' stack' in_dict' pos'
                            (temp_dict_key st) (dict_key st) None e_end
                            (jbeam_section_start_node_idx st) s_end
                            PNone (i2 + 1))
                end
            | Ok false =>
                Next (mkState a stack' in_dict' pos'
                        (temp_dict_key st) (dict_key st) None e_end
                        (jbeam_section_start_node_idx st) s_end
                        PNone (i1 + 1))
            end
          else
            Next (mkState a stack' in_dict' pos'
                    (temp_dict_key st) (dict_key st)
                    (jbeam_entry_start_node_idx st) e_end
                    (jbeam_section_start_node_idx st) s_end
                    (jbeam_node_id st) (i1 + 1))
      end
  end.

(** One iteration of the [while] loop, entered with [i < len(ast_nodes)]. *)
Definition step (st : pstate) : step_result :=
  match resolve_idx (ast_nodes st) (idx st) with
  | None => Fault (ast_nodes st) IndexError
  | Some p =>
      match nth_error (ast_nodes st) p with
      | None => Fault (ast_nodes st) IndexError
      | Some node =>
          if is_wsc (data_type node) then
            Next (mkState (ast_nodes st) (stack st) (in_dict st)
                    (pos_in_arr st) (temp_dict_key st) (dict_key st)
                    (jbeam_entry_start_node_idx st)
                    (jbeam_entry_end_node_idx st)
                    (jbeam_section_start_node_idx st)
                    (jbeam_section_end_node_idx st)
                    (jbeam_node_id st) (idx st + 1))
          else
            match visit st node with
            | (node', Raise e) => Fault (set_at (ast_nodes st) p node') e
            | (node', Ok st1) =>
                let st2 :=
                  mkState (set_at (ast_nodes st) p node') (stack st1)
                    (in_dict st1) (pos_in_arr st1) (temp_dict_key st1)
                    (dict_key st1) (jbeam_entry_start_node_idx st1)
                    (jbeam_entry_end_node_idx st1)
                    (jbeam_section_start_node_idx st1)
                    (jbeam_section_end_node_idx st1)
                    (jbeam_node_id st1) (idx st1) in
                if is_open (data_type node) then
                  let st3 := mark_open st2 in
                  Next (mkState (ast_nodes st3) (stack st3) (in_dict st3)
                          (pos_in_arr st3) (temp_dict_key st3)
                          (dict_key st3) (jbeam_entry_start_node_idx st3)
                          (jbeam_entry_end_node_idx st3)
                          (jbeam_section_start_node_idx st3)
                          (jbeam_section_end_node_idx st3)
                          (jbeam_node_id st3) (idx st3 + 1))
                else if is_close (data_type node) then
                  on_close st2 (data_type node)
                else
                  Next (mkState (ast_nodes st2) (stack st2) (in_dict st2)
                          (pos_in_arr st2) (temp_dict_key st2)
                          (dict_key st2) (jbeam_entry_start_node_idx st2)
                          (jbeam_entry_end_node_idx st2)
                          (jbeam_section_start_node_idx st2)
                          (jbeam_section_end_node_idx st2)
                          (jbeam_node_id st2) (idx st2 + 1))
            end
      end
  end.

Inductive run_result : Type :=
| Done (tokens : list ASTNode)
| Raised (tokens : list ASTNode) (e : exn)
| OutOfFuel (st : pstate).

(** [while i < len(ast_nodes)], at most [fuel] iterations. *)
Fixpoint loop (fuel : nat) (st : pstate) : run_result :=
  if idx st <? llen (ast_nodes st) then
    match fuel with
    | O => OutOfFuel st
    | S fuel' =>
        match step st with
        | Next st' => loop fuel' st'
        | Fault tokens e => Raised tokens e
        end
    end
  else Done (ast_nodes st).

Definition initial_state (tokens : list ASTNode) : pstate :=
  mkState tokens [] true 0 PNone PNone None None None None PNone 0.

(** [update_ast_nodes(ast_nodes, current_jbeam_file_data,
    current_jbeam_file_data_modified, jbeam_part, nodes_to_add,
    nodes_to_delete)], cut after [fuel] iterations. *)
Definition update_ast_nodes (fuel : nat) (tokens : list ASTNode)
  : run_result :=
  loop fuel (initial_state tokens).

(** The token list a run leaves behind, whichever way it ends. *)
Definition tokens_of (r : run_result) : list ASTNode :=
  match r with
  | Done t => t
  | Raised t _ => t
  | OutOfFuel st => ast_nodes st
  end.

End Patch.

(* ------------------------------------------------------------------ *)
(** ** Reconciler: renames by matching positions *)

(** Dicts keyed by node id or by position, in insertion order. *)
Definition sdict (V : Type) : Type := list (string * V).

Fixpoint sd_mem {V : Type} (d : sdict V) (k : string) : bool :=
  match d with
  | [] => false
  | (k', _) :: r => String.eqb k' k || sd_mem r k
  end.

Fixpoint sd_pop {V : Type} (d : sdict V) (k : string) : sdict V :=
  match d with
  | [] => []
  | (k', v) :: r => if String.eqb k' k then r else (k', v) :: sd_pop r k
  end.

(** Position triples are compared with [==] on tuples of floats. *)
Definition pos_eqb (a b : pos3) : bool :=
  let '(x1, y1, z1) := a in
  let '(x2, y2, z2) := b in
  feqb x1 x2 && feqb y1 y2 && feqb z1 z2.

(** A dict from position to node id, where the id is None once a second
    node has claimed the position. *)
Definition pos_to_id : Type := list (pos3 * option string).

Fixpoint pi_get (d : pos_to_id) (p : pos3) : option (option string) :=
  match d with
  | [] => None
  | (p', v) :: r => if pos_eqb p' p then Some v else pi_get r p
  end.

Fixpoint pi_set (d : pos_to_id) (p : pos3) (v : option string) : pos_to_id :=
  match d with
  | [] => [(p, v)]
  | (p', v') :: r =>
      if pos_eqb p' p then (p', v) :: r else (p', v') :: pi_set r p v
  end.

(** The two loops that build [deleting_nodes_pos_to_id] and
    [adding_nodes_pos_to_id]. *)
Definition build_pos_to_id (nodes : sdict pos3) : pos_to_id :=
  fold_left
    (fun acc kv =>
       match pi_get acc (snd kv) with
       | Some _ => pi_set acc (snd kv) None
       | None => pi_set acc (snd kv) (Some (fst kv))
       end)
    nodes [].

(** [true_node_renames]: its keys come from [deleting_nodes_pos_to_id], so a
    key can be None. *)
Definition renames : Type := list (option string * string).

Definition opt_string_eqb (a b : option string) : bool :=
  match a, b with
  | Some s, Some t => String.eqb s t
  | None, None => true
  | _, _ => false
  end.

Fixpoint rn_set (d : renames) (k : option string) (v : string) : renames :=
  match d with
  | [] => [(k, v)]
  | (k', v') :: r =>
      if opt_string_eqb k' k then (k', v) :: r else (k', v') :: rn_set r k v
  end.

Record reconcile_state : Type := mkRec {
  true_node_renames : renames;
  rs_nodes_to_delete : sdict pos3;
  rs_nodes_to_add : sdict pos3
}.

(** The loop over [deleting_nodes_pos_to_id.items()].  [dict.pop(key)]
    raises KeyError when the key is absent, which is the case of a None
    key. *)
Fixpoint match_positions (deleting : pos_to_id) (adding : pos_to_id)
    (st : reconcile_state) : reconcile_state * res unit :=
  match deleting with
  | [] => (st, Ok tt)
  | (node_delete_pos, node_delete_id) :: rest =>
      match pi_get adding node_delete_pos with
      | Some (Some node_add_id) =>
          let rn := rn_set (true_node_renames st) node_delete_id node_add_id in
          match node_delete_id with
          | Some del_id =>
              if sd_mem (rs_nodes_to_delete st) del_id then
                let dels := sd_pop (rs_nodes_to_delete st) del_id in
                if sd_mem (rs_nodes_to_add st) node_add_id then
                  match_positions rest adding
                    (mkRec rn dels (sd_pop (rs_nodes_to_add st) node_add_id))
                else (mkRec rn dels (rs_nodes_to_add st), Raise KeyError)
              else
                (mkRec rn (rs_nodes_to_delete st) (rs_nodes_to_add st),
                 Raise KeyError)
          | None =>
              (mkRec rn (rs_nodes_to_delete st) (rs_nodes_to_add st),
               Raise KeyError)
          end
      | _ => match_positions rest adding st
      end
  end.

(** Lines 326-348 of [_get_nodes_add_delete_rename]: the rename pass by
    position, run on the candidates the identity pass left. *)
Definition rename_by_position (st : reconcile_state)
  : reconcile_state * res unit :=
  let deleting_nodes_pos_to_id := build_pos_to_id (rs_nodes_to_delete st) in
  let adding_nodes_pos_to_id := build_pos_to_id (rs_nodes_to_add st) in
  match_positions deleting_nodes_pos_to_id adding_nodes_pos_to_id st.

(* ------------------------------------------------------------------ *)
(** ** Table-schema processor *)

Definition is_list (v : pyval) : bool :=
  match v with PList _ => true | _ => false end.

Definition is_dict (v : pyval) : bool :=
  match v with PDict _ => true | _ => false end.

(** Truth value of an object; an instance of [Metadata] is true, as an
    instance of a plain class is. *)
Definition truthy (v : pyval) : bool :=
  match v with
  | PNone => false
  | PBool b => b
  | PInt z => negb (z =? 0)
  | PFloat f => negb (feqb f (Ffin 0 0))
  | PStr s => negb (String.eqb s "")
  | PList l => match l with [] => false | _ => true end
  | PDict d => match d with [] => false | _ => true end
  | PMetadataClass => true
  | PMetadata _ => true
  end.

(** Modelled from the spec: [utils.row_dict_deepcopy] is not among the
    sources.  A deep copy of a value is the same value. *)
Definition row_dict_deepcopy (d : pydict) : pydict := d.

(** What a call returns or raises, and what it leaves in its mutable
    arguments: the table, the header row (the first row, once it is known to
    be a list), the output dict and the module-level memo. *)
Inductive table_exit : Type :=
| Returned (n : Z)
| Threw (e : exn).

Section TableSchema.

(** Modelled from the spec: the class [jbeam_utils.Metadata] is not among
    the sources.  An instance carries a dict [_data], empty in a new
    instance; [self.merge(other)] updates [self._data] from
    [other._data], and which entries win is left open here. *)
Variable Metadata_merge : pydict -> pydict -> pydict.

(** [pickle.dumps] and [pickle.loads], with equality of pickled bytes. *)
Variable pickled : Type.
Variable pickle_dumps : pyval -> pickled.
Variable pickle_loads : pickled -> pyval.
Variable pickled_eqb : pickled -> pickled -> bool.

Definition memo_t : Type := list ((pickled * pickled) * (pickled * Z)).

Definition key_eqb (a b : pickled * pickled) : bool :=
  pickled_eqb (fst a) (fst b) && pickled_eqb (snd a) (snd b).

Fixpoint memo_get (memo : memo_t) (k : pickled * pickled)
  : option (pickled * Z) :=
  match memo with
  | [] => None
  | (k', v) :: r => if key_eqb k' k then Some v else memo_get r k
  end.

Fixpoint memo_set (memo : memo_t) (k : pickled * pickled)
    (v : pickled * Z) : memo_t :=
  match memo with
  | [] => [(k, v)]
  | (k', v') :: r =>
      if key_eqb k' k then (k', v) :: r else (k', v') :: memo_set r k v
  end.

Definition new_metadata : pyval := PMetadata [].

(** [if Metadata not in d: d[Metadata] = Metadata()]. *)
Definition ensure_metadata (d : pydict) : pydict :=
  if dict_mem d PMetadataClass then d
  else dict_set d PMetadataClass new_metadata.

(** [a.merge(b)] for the objects stored under the [Metadata] key. *)
Definition merge_metadata (a b : pyval) : res pydict :=
  match a, b with
  | PMetadata da, PMetadata db => Ok (Metadata_merge da db)
  | _, _ => Raise AttributeError
  end.

(** The loop that rewrites the integer keys of [_data] to header names:
    [_data[header[var]] = _data.pop(var)] for each key [var] that is an
    int. *)
Fixpoint rekey_metadata (header : list pyval) (keys : list pyval)
    (data : pydict) : res pydict :=
  match keys with
  | [] => Ok data
  | var :: rest =>
      match as_index var with
      | Some i =>
          match dict_get data var with
          | None => Raise KeyError
          | Some v =>
              let data1 := dict_del data var in
              match py_nth header i with
              | None => Raise IndexError
              | Some name =>
                  if hashable name then
                    rekey_metadata header rest (dict_set data1 name v)
                  else Raise TypeError
              end
          end
      | None => rekey_metadata header rest data
      end
  end.

(** [new_row[header[rk]] = rv] for the cells below [header_size]. *)
Fixpoint assign_cells (header : list pyval) (header_size : Z) (rk : Z)
    (cells : list pyval) (new_row : pydict) : res pydict :=
  match cells with
  | [] => Ok new_row
  | rv :: rest =>
      if header_size <=? rk then
        assign_cells header header_size (rk + 1) rest new_row
      else
        match py_nth header rk with
        | None => Raise IndexError
        | Some name =>
            if hashable name then
              assign_cells header header_size (rk + 1) rest
                (dict_set new_row name rv)
            else Raise TypeError
        end
  end.

(** A list row that is not too long: the row as the call leaves it, and
    the id and the map it adds to the output. *)
Definition process_list_row (header : list pyval) (header_size : Z)
    (local_options : pydict) (row_key : Z) (row_value : list pyval)
  : list pyval * res (pyval * pydict) :=
  let new_row := row_dict_deepcopy local_options in
  let row1 :=
    if llen row_value =? header_size then
      (row_value ++ [PDict [(PMetadataClass, new_metadata)]])%list
    else row_value in
  let merged :=
    if header_size <? llen row1 then
      match py_nth row1 header_size with
      | None => (row1, Raise IndexError)
      | Some (PDict rv) =>
          let rv' := ensure_metadata rv in
          let row2 := set_at row1 (Z.to_nat header_size) (PDict rv') in
          match dict_get rv' PMetadataClass, dict_get new_row PMetadataClass with
          | Some rv_metadata, Some new_row_metadata =>
              match merge_metadata new_row_metadata rv_metadata with
              | Raise e => (row2, Raise e)
              | Ok data =>
                  match rekey_metadata header (map fst data) data with
                  | Raise e => (row2, Raise e)
                  | Ok data' =>
                      (remove_at row2 (Z.to_nat header_size),
                       Ok (dict_set (dict_update new_row rv')
                             PMetadataClass (PMetadata data')))
                  end
              end
          | _, _ => (row2, Raise KeyError)
          end
      | Some _ => (row1, Ok new_row)
      end
    else (row1, Ok new_row) in
  match merged with
  | (row3, Raise e) => (row3, Raise e)
  | (row3, Ok new_row1) =>
      match assign_cells header header_size 0 row3 new_row1 with
      | Raise e => (row3, Raise e)
      | Ok new_row2 =>
          match dict_get new_row2 (PStr "id") with
          | Some new_id =>
              (row3,
               Ok (new_id,
                   dict_del (dict_set new_row2 (PStr "name") new_id)
                     (PStr "id")))
          | None => (row3, Ok (PInt row_key, new_row2))
          end
      end
  end.

(** A dict row: the row as the call leaves it and the new options. *)
Definition process_dict_row (local_options : pydict) (row_value : pydict)
  : pydict * res pydict :=
  let row' := ensure_metadata row_value in
  match dict_get row' PMetadataClass, dict_get local_options PMetadataClass with
  | Some row_metadata, Some options_metadata =>
      match merge_metadata options_metadata row_metadata with
      | Raise e => (row', Raise e)
      | Ok data =>
          (row', Ok (dict_set (dict_update local_options row')
                       PMetadataClass (PMetadata data)))
      end
  | _, _ => (row', Raise KeyError)
  end.

(** How the walk over the rows ends: it falls through with the row count,
    returns -1, or raises. *)
Inductive rows_exit : Type :=
| Completed (new_list_size : Z)
| Failed
| Aborted (e : exn).

(** [for row_key, row_value in enumerate(jbeam_table)]: the rows as the
    walk leaves them, the output dict and the way the walk ends. *)
Fixpoint process_rows (header : list pyval) (header_size : Z)
    (rows : list pyval) (row_key : Z) (local_options : pydict)
    (new_dict : pydict) (new_list_size : Z)
  : list pyval * pydict * rows_exit :=
  match rows with
  | [] => ([], new_dict, Completed new_list_size)
  | PDict row_value :: rest =>
      match process_dict_row local_options row_value with
      | (row', Raise e) => (PDict row' :: rest, new_dict, Aborted e)
      | (row', Ok local_options') =>
          let '(rest', nd, ex) :=
            process_rows header header_size rest (row_key + 1)
              local_options' new_dict new_list_size in
          (PDict row' :: rest', nd, ex)
      end
  | PList row_value :: rest =>
      if header_size + 1 <? llen row_value then
        (PList row_value :: rest, new_dict, Failed)
      else
        match process_list_row header header_size local_options row_key
                row_value with
        | (row', Raise e) => (PList row' :: rest, new_dict, Aborted e)
        | (row', Ok (new_id, new_row)) =>
            if hashable new_id then
              let '(rest', nd, ex) :=
                process_rows header header_size rest (row_key + 1)
                  local_options (dict_set new_dict new_id (PDict new_row))
                  (new_list_size + 1) in
              (PList row' :: rest', nd, ex)
            else (PList row' :: rest, new_dict, Aborted TypeError)
        end
  | other :: rest => (other :: rest, new_dict, Failed)
  end.

Record table_result : Type := mkTableResult {
  tr_exit : table_exit;
  tr_table : list pyval;
  tr_header : option (list pyval);
  tr_new_dict : pydict;
  tr_memo : memo_t
}.

Definition options_value (input_options : option pydict) : pyval :=
  match input_options with
  | Some d => PDict d
  | None => PNone
  end.

(** The header once the call has made sure that it ends with [options]. *)
Definition header_with_options (header : list pyval) (last : pyval)
  : list pyval :=
  if negb (py_eqb last (PStr "options"))
  then (header ++ [PStr "options"])%list else header.

(** [local_options] before the rows are walked: a copy of the input options,
    or an empty dict, with an entry for [Metadata] when there is none that
    is true. *)
Definition initial_options (input_options : option pydict) : pydict :=
  let local_options :=
    match input_options with
    | Some d => row_dict_deepcopy d
    | None => []
    end in
  match dict_get local_options PMetadataClass with
  | Some m =>
      if truthy m then local_options
      else dict_set local_options PMetadataClass new_metadata
  | None => dict_set local_options PMetadataClass new_metadata
  end.

(** [encoded = (pickle.dumps(jbeam_table), pickle.dumps(input_options))],
    the fingerprint under which a call is memoized. *)
Definition encoded (jbeam_table : list pyval)
    (input_options : option pydict) : pickled * pickled :=
  (pickle_dumps (PList jbeam_table),
   pickle_dumps (options_value input_options)).

(** [process_table_with_schema_destructive(jbeam_table, new_dict,
    input_options)], run with the module-level [memo]. *)
Definition process_table_with_schema_destructive (memo : memo_t)
    (jbeam_table : list pyval) (new_dict : pydict)
    (input_options : option pydict) : table_result :=
  let encoded := encoded jbeam_table input_options in
  match memo_get memo encoded with
  | Some out =>
      match pickle_loads (fst out) with
      | PDict d =>
          mkTableResult (Returned (snd out)) jbeam_table None
            (dict_update new_dict d) memo
      | _ => mkTableResult (Threw TypeError) jbeam_table None new_dict memo
      end
  | None =>
      match jbeam_table with
      | [] => mkTableResult (Threw IndexError) jbeam_table None new_dict memo
      | PList header :: rows =>
          let header_size := llen header in
          match py_nth header (-1) with
          | None =>
              mkTableResult (Threw IndexError) jbeam_table (Some header)
                new_dict memo
          | Some last =>
              let header' := header_with_options header last in
              let local_options := initial_options input_options in
              match process_rows header' header_size rows 0 local_options
                      new_dict 0 with
              | (rows', nd, Completed n) =>
                  mkTableResult (Returned n) rows' (Some header') nd
                    (memo_set memo encoded (pickle_dumps (PDict nd), n))
              | (rows', nd, Failed) =>
                  mkTableResult (Returned (-1)) rows' (Some header') nd memo
              | (rows', nd, Aborted e) =>
                  mkTableResult (Threw e) rows' (Some header') nd memo
              end
          end
      | _ :: _ => mkTableResult (Returned (-1)) jbeam_table None new_dict memo
      end
  end.

End TableSchema.

Arguments tr_exit {pickled} t.
Arguments tr_table {pickled} t.
Arguments tr_header {pickled} t.
Arguments tr_new_dict {pickled} t.
Arguments tr_memo {pickled} t.
Arguments mkTableResult {pickled} tr_exit tr_table tr_header tr_new_dict tr_memo.
Arguments encoded {pickled} pickle_dumps jbeam_table input_options.
Arguments memo_get {pickled} pickled_eqb memo k.
Arguments memo_set {pickled} pickled_eqb memo k v.

(* ------------------------------------------------------------------ *)
(** ** Vehicle post-processing *)

(** [isinstance(v, int)]: ints and booleans. *)
Definition isinstance_int (v : pyval) : bool :=
  match v with PInt _ | PBool _ => true | _ => false end.

(** The inner loop of [convert_dict_to_list_tables]: the rows of a table in
    key order, or None when a key is not an int. *)
Fixpoint rows_of_int_table (tbl : pydict) : option (list pyval) :=
  match tbl with
  | [] => Some []
  | (row_key, row_value) :: r =>
      if isinstance_int row_key then
        match rows_of_int_table r with
        | Some rows => Some (row_value :: rows)
        | None => None
        end
      else None
  end.

(** The first loop of [convert_dict_to_list_tables]: [new_tables], or None
    when the function returns False. *)
Fixpoint collect_new_tables (items : pydict) (new_tables : pydict)
  : option pydict :=
  match items with
  | [] => Some new_tables
  | (k, tbl) :: r =>
      match tbl with
      | PDict ((first_key, first_value) :: more) =>
          if isinstance_int first_key then
            match rows_of_int_table ((first_key, first_value) :: more) with
            | Some new_table =>
                collect_new_tables r (dict_set new_tables k (PList new_table))
            | None => None
            end
          else collect_new_tables r new_tables
      | _ => collect_new_tables r new_tables
      end
  end.

(** [convert_dict_to_list_tables(vehicle)]: the vehicle after the call and
    the returned value, False on a key that is not an int and None at the
    end of the function. *)
Definition convert_dict_to_list_tables (vehicle : pydict) : pydict * pyval :=
  match collect_new_tables vehicle [] with
  | Some new_tables => (dict_update vehicle new_tables, PNone)
  | None => (vehicle, PBool false)
  end.

Fixpoint has_colon (l : list ascii) : bool :=
  match l with
  | [] => false
  | c :: r => Ascii.eqb c ":"%char || has_colon r
  end.

Fixpoint is_substring (fuel : nat) (a b : string) : bool :=
  String.prefix a b ||
  match fuel, b with
  | S f, String _ r => is_substring f a r
  | _, _ => false
  end.

(** [x in c] for a string [x]. *)
Definition py_contains (c : pyval) (x : string) : res bool :=
  match c with
  | PDict d => Ok (dict_mem d (PStr x))
  | PList l => Ok (existsb (fun v => py_eqb v (PStr x)) l)
  | PStr s => Ok (is_substring (String.length s) x s)
  | _ => Raise TypeError
  end.

(** Does some item of the row name a node that [nodes] lacks? *)
Fixpoint row_is_virtual (nodes : pyval) (items : pydict) : res bool :=
  match items with
  | [] => Ok false
  | (PStr rk, PStr rv) :: r =>
      if has_colon (list_ascii_of_string rk) then
        present <- py_contains nodes rv ;;
        if negb present then Ok true else row_is_virtual nodes r
      else row_is_virtual nodes r
  | _ :: r => row_is_virtual nodes r
  end.

(** The loop over the rows of one list table. *)
Fixpoint check_rows (nodes : option pyval) (rows : list pyval)
  : list pyval * res unit :=
  match rows with
  | [] => ([], Ok tt)
  | row_value :: rest =>
      let marked :=
        match nodes with
        | Some n =>
            match row_value with
            | PDict d =>
                match row_is_virtual n d with
                | Raise e => (row_value, Raise e)
                | Ok true =>
                    (PDict (dict_set d (PStr "__virtual") (PBool true)), Ok tt)
                | Ok false => (row_value, Ok tt)
                end
            | _ => (row_value, Raise AttributeError)
            end
        | None =>
            match row_value with
            | PDict d =>
                (PDict (dict_set d (PStr "__virtual") (PBool true)), Ok tt)
            | _ => (row_value, Raise TypeError)
            end
        end in
      match marked with
      | (row', Raise e) => (row' :: rest, Raise e)
      | (row', Ok _) =>
          let '(rest', r) := check_rows nodes rest in
          (row' :: rest', r)
      end
  end.

(** The loop over the sections of the vehicle. *)
Fixpoint check_tables (nodes : option pyval) (items : pydict)
  : pydict * res unit :=
  match items with
  | [] => ([], Ok tt)
  | (k, jbeam_table) :: rest =>
      if py_eqb k (PStr "nodes") then
        let '(rest', r) := check_tables nodes rest in
        ((k, jbeam_table) :: rest', r)
      else
        match jbeam_table with
        | PList rows =>
            match check_rows nodes rows with
            | (rows', Raise e) => ((k, PList rows') :: rest, Raise e)
            | (rows', Ok _) =>
                let '(rest', r) := check_tables nodes rest in
                ((k, PList rows') :: rest', r)
            end
        | _ =>
            let '(rest', r) := check_tables nodes rest in
            ((k, jbeam_table) :: rest', r)
        end
  end.

(** [check_node_references(vehicle)]; [nodes] counts when it is true. *)
Definition check_node_references (vehicle : pydict) : pydict * res bool :=
  let nodes :=
    match dict_get vehicle (PStr "nodes") with
    | Some n => if truthy n then Some n else None
    | None => None
    end in
  match check_tables nodes vehicle with
  | (v, Raise e) => (v, Raise e)
  | (v, Ok _) => (v, Ok true)
  end.

(** [post_process(vehicle)]: the value [convert_dict_to_list_tables]
    returns is not looked at. *)
Definition post_process (vehicle : pydict) : pydict * res bool :=
  let '(vehicle1, _) := convert_dict_to_list_tables vehicle in
  match check_node_references vehicle1 with
  | (vehicle2, Raise e) => (vehicle2, Raise e)
  | (vehicle2, Ok _) => (vehicle2, Ok true)
  end.

(* ------------------------------------------------------------------ *)
(** ** What the patch pass may change *)

(** The value of a tree at a path of keys. *)
Fixpoint tree_at (t : pyval) (path : list pyval) : res pyval :=
  match path with
  | [] => Ok t
  | k :: rest => v <- py_getitem t k ;; tree_at v rest
  end.

(** The test that decides whether a token is rewritten. *)
Definition differs (d : dtype) (old_data data : pyval) : Prop :=
  if dtype_eqb d DT_number then number_changed old_data data = Ok true
  else py_eqb old_data data = false.

(** The token a comparison leaves when it rewrites it: the value of the
    after-tree is stored, through [set_number_node] for a number. *)
Definition rewritten (node : ASTNode) (data : pyval) : ASTNode :=
  if dtype_eqb (data_type node) DT_number then fst (set_number_node node data)
  else set_value node data.

(** One change the pass makes to the token list: a token that is neither a
    separator nor an opening or closing token is rewritten with the value
    the after-tree holds at a path where the two trees hold different values
    that the test of the comparison tells apart; rows are added
    by [add_jbeam_nodes], which needs a non-empty [nodes_to_add]; a row is
    removed by [delete_jbeam_node], which needs an id of [nodes_to_delete]. *)
Inductive edit (before after : pyval) (adds dels : list (string * pos3))
  : list ASTNode -> list ASTNode -> Prop :=
| edit_scalar : forall l p n path old_data data,
    nth_error l p = Some n ->
    is_wsc (data_type n) = false ->
    is_open (data_type n) = false ->
    is_close (data_type n) = false ->
    path <> [] ->
    tree_at before path = Ok old_data ->
    tree_at after path = Ok data ->
    old_data <> data ->
    differs (data_type n) old_data data ->
    edit before after adds dels l (set_at l p (rewritten n data))
| edit_add : forall l ss se es ee,
    adds <> [] ->
    edit before after adds dels l (fst (add_jbeam_nodes l ss se es ee adds))
| edit_delete : forall l ss es ee id,
    id_in id dels = Ok true ->
    edit before after adds dels l (fst (delete_jbeam_node l ss es ee)).

(** Any number of such changes, one after the other. *)
Inductive edits (before after : pyval) (adds dels : list (string * pos3))
  : list ASTNode -> list ASTNode -> Prop :=
| edits_refl : forall l, edits before after adds dels l l
| edits_step : forall l1 l2 l3,
    edits before after adds dels l1 l2 ->
    edit before after adds dels l2 l3 ->
    edits before after adds dels l1 l3.

(** What a pass without row surgery may do to a token: keep it, or rewrite
    the payload of a token that is neither a separator nor an opening or
    closing token, where the two trees differ at some path. *)
Definition kept_or_rewritten (before after : pyval) (n n' : ASTNode) : Prop :=
  data_type n' = data_type n /\
  (n' = n \/
   (is_wsc (data_type n) = false /\
    is_open (data_type n) = false /\
    is_close (data_type n) = false /\
    exists path old_data data,
      path <> [] /\
      tree_at before path = Ok old_data /\
      tree_at after path = Ok data /\
      old_data <> data /\
      differs (data_type n) old_data data)).

Definition frame (before after : pyval) (l l' : list ASTNode) : Prop :=
  List.length l' = List.length l /\
  forall p n, nth_error l p = Some n ->
    exists n', nth_error l' p = Some n' /\ kept_or_rewritten before after n n'.


(** The two trees hold the same values at every path that does not start
    with the key of the part. *)
Definition agree_outside (part : string) (before after : pyval) : Prop :=
  forall k rest,
    py_eqb k (PStr part) = false ->
    tree_at before (k :: rest) = tree_at after (k :: rest).

(** What one comparison does to the token it rewrites. *)
Definition scalar_change (before after : pyval) (node node' : ASTNode)
  : Prop :=
  is_open (data_type node) = false /\
  is_close (data_type node) = false /\
  exists path old_data data,
    node' = rewritten node data /\
    path <> [] /\
    tree_at before path = Ok old_data /\
    tree_at after path = Ok data /\
    old_data <> data /\
    differs (data_type node) old_data data.

(* ------------------------------------------------------------------ *)
(** ** Concrete inputs of the examples *)

(** A document with two parts, [p] and [q], and its tokens. *)
Definition two_parts_tokens : list ASTNode :=
  [struct_node DT_lbrace;
   mkNode DT_string (PStr "p") 0; struct_node DT_colon;
   struct_node DT_lbrace;
   mkNode DT_string (PStr "k") 0; struct_node DT_colon;
   mkNode DT_number (PInt 1) 0;
   struct_node DT_rbrace;
   wsc_node ",";
   mkNode DT_string (PStr "q") 0; struct_node DT_colon;
   struct_node DT_lbrace;
   mkNode DT_string (PStr "k") 0; struct_node DT_colon;
   mkNode DT_number (PInt 2) 0;
   struct_node DT_rbrace;
   struct_node DT_rbrace].

Definition two_parts_tree (q_value : Z) : pyval :=
  PDict [(PStr "p", PDict [(PStr "k", PInt 1)]);
         (PStr "q", PDict [(PStr "k", PInt q_value)])].

(** Decimal literals of the numeric examples, as Python reads them. *)
Definition lit_1_00005 : pyval := PFloat (float_of_decimal 100005 5).
Definition lit_1_00004 : pyval := PFloat (float_of_decimal 100004 5).
Definition lit_1_0 : pyval := PFloat (float_of_decimal 10 1).
Definition lit_1_0001 : pyval := PFloat (float_of_decimal 10001 4).
Definition lit_0_1 : pyval := PFloat (float_of_decimal 1 1).

(** [0.1] as a live position holds it: rounded to a C float. *)
Definition c_float_0_1 : pyval :=
  PFloat (c_float_of_float (float_of_decimal 1 1)).

Definition number_token (v : pyval) (p : Z) : ASTNode := mkNode DT_number v p.

(** Candidates of the reconciler: two nodes to delete and one node to add,
    all at the position (0, 0, 1); and the same with a second node to add. *)
Definition pos_0_0_1 : pos3 := (Ffin 0 0, Ffin 0 0, Ffin 1 0).

Definition two_deletes_one_add : reconcile_state :=
  mkRec [] [("a1", pos_0_0_1); ("a2", pos_0_0_1)] [("b1", pos_0_0_1)].

Definition two_deletes_two_adds : reconcile_state :=
  mkRec [] [("a1", pos_0_0_1); ("a2", pos_0_0_1)]
        [("b1", pos_0_0_1); ("b2", pos_0_0_1)].

Definition one_delete_one_add : reconcile_state :=
  mkRec [] [("a1", pos_0_0_1)] [("b1", pos_0_0_1)].

(** A vehicle whose section [t] is a dict with an int key and a string
    key. *)
Definition vehicle_mixed_keys : pydict :=
  [(PStr "t",
    PDict [(PInt 0, PDict [(PStr "a", PInt 1)]);
           (PStr "k", PDict [(PStr "b", PInt 2)])])].

(* ------------------------------------------------------------------ *)
(** ** Failure conditions of a table, in the words of the specification *)

(** A row fails when it is neither a map nor a sequence, or when it is a
    sequence longer than the header plus one. *)
Definition row_fails (header_size : Z) (row : pyval) : bool :=
  match row with
  | PDict _ => false
  | PList cells => header_size + 1 <? llen cells
  | _ => true
  end.

(** A table fails when its first element is not a sequence or when one of
    the rows after it fails; the header length is the one the table came
    with. *)
Definition table_fails (jbeam_table : list pyval) : bool :=
  match jbeam_table with
  | [] => false
  | PList header :: rows => existsb (row_fails (llen header)) rows
  | _ :: _ => true
  end.

(** The table of the forward-only overlay example:
    [[["id","x"],["n1",1],{"group":"X"},["n2",2]]]. *)
Definition overlay_table : list pyval :=
  [PList [PStr "id"; PStr "x"];
   PList [PStr "n1"; PInt 1];
   PDict [(PStr "group", PStr "X")];
   PList [PStr "n2"; PInt 2]].

(** A table with a good row followed by a row that is a number. *)
Definition bad_row_table : list pyval :=
  [PList [PStr "id"; PStr "x"]; PList [PStr "n1"; PInt 1]; PInt 5].

(** A stand-in for the pickle module and for [Metadata.merge], to run the
    table processor on concrete tables: a value is its own pickle, and a
    merge updates the first dict with the second. *)
Definition id_dumps (v : pyval) : pyval := v.
Definition id_loads (v : pyval) : pyval := v.
Definition update_merge (a b : pydict) : pydict := dict_update a b.

(* ------------------------------------------------------------------ *)
(** ** Layout of inserted rows, in the words of the specification *)

(** The indent level [add_jbeam_nodes] settles on, 8 when the scan finds
    no newline. *)
Definition indent_level (ast_nodes : list ASTNode) (ss se : Z) : res Z :=
  r <- scan_indent (Z.to_nat (se - 2 - ss)) ast_nodes (se - 2) false ;;
  Ok (match fst r with Some n => n | None => 8 end).

(** The tokens of one row: bracket, quoted id, and the three coordinates
    separated by a comma and a space. *)
Definition row_tokens (node_id : string) (node_pos : pos3)
  : res (list ASTNode) :=
  let '(x, y, z) := node_pos in
  px <- get_float_precision (PFloat x) ;;
  py <- get_float_precision (PFloat y) ;;
  pz <- get_float_precision (PFloat z) ;;
  Ok [struct_node DT_lbracket; mkNode DT_string (PStr node_id) 0;
      wsc_node ", "; mkNode DT_number (PFloat x) px;
      wsc_node ", "; mkNode DT_number (PFloat y) py;
      wsc_node ", "; mkNode DT_number (PFloat z) pz;
      struct_node DT_rbracket].

(** The rows one after the other, each but the first preceded by a comma
    token and a token holding the indentation. *)
Fixpoint rows_layout (indent : string) (nodes : list (string * pos3))
  : res (list ASTNode) :=
  match nodes with
  | [] => Ok []
  | (node_id, node_pos) :: rest =>
      row <- row_tokens node_id node_pos ;;
      more <- rows_layout indent rest ;;
      Ok (row ++
          match rest with
          | [] => []
          | _ :: _ => wsc_node "," :: wsc_node indent :: more
          end)%list
  end.

(** A one-row nodes section indented with a tab, and a node to add. *)
Definition tab : ascii := "009"%char.

Definition tab_section : list ASTNode :=
  [struct_node DT_lbracket;
   wsc_node (String newline (String tab EmptyString));
   struct_node DT_lbracket; mkNode DT_string (PStr "id") 0;
   struct_node DT_rbracket;
   wsc_node (String newline EmptyString);
   struct_node DT_rbracket].

Definition node_c : list (string * pos3) :=
  [("c", (Ffin 2 0, Ffin 0 0, Ffin 0 0))].

(** A list with [xs] put in at position [i]. *)
Definition splice {A : Type} (l : list A) (i : nat) (xs : list A) : list A :=
  (firstn i l ++ xs ++ skipn i l)%list.

(* ------------------------------------------------------------------ *)
(** ** The text of the separators *)

(** What a token list reads as, with the text of the separator tokens
    spelled out character by character and every other token kept whole:
    two lists with the same reading differ only in how the text between two
    tokens is cut into separator tokens. *)
Inductive piece : Type :=
| Ch (c : ascii)
| Tok (n : ASTNode).

Definition chars (s : string) : list piece := map Ch (list_ascii_of_string s).

Definition token_text (n : ASTNode) : list piece :=
  if is_wsc (data_type n) then
    match value n with
    | PStr s => chars s
    | _ => [Tok n]
    end
  else [Tok n].

Definition layout_text (l : list ASTNode) : list piece :=
  flat_map token_text l.

(** The token contract on separators: the text is a string. *)
Definition text_ok (n : ASTNode) : Prop :=
  is_wsc (data_type n) = true -> exists s, value n = PStr s.

(** A nodes section whose only row is followed on its line by a comma and a
    space, and one whose row is followed by the closing bracket. *)
Definition inline_section : list ASTNode :=
  [struct_node DT_lbracket;
   wsc_node (String newline " ");
   struct_node DT_lbracket; mkNode DT_string (PStr "id") 0;
   struct_node DT_rbracket;
   wsc_node ", ";
   struct_node DT_rbracket].

Definition compact_section : list ASTNode :=
  [struct_node DT_lbracket;
   struct_node DT_lbracket; mkNode DT_string (PStr "id") 0;
   struct_node DT_rbracket;
   struct_node DT_rbracket].

(* ------------------------------------------------------------------ *)
(** ** Dicts as Python holds them *)

(** The keys of a dict are equal to themselves and pairwise different under
    [==]. *)
Fixpoint keys_distinct (d : pydict) : Prop :=
  match d with
  | [] => True
  | (k, _) :: r =>
      scalar_eqb k k = true /\
      Forall (fun kv => scalar_eqb k (fst kv) = false) r /\
      keys_distinct r
  end.

(** The sections that [convert_dict_to_list_tables] converts: the non-empty
    dicts whose first key is an int. *)
Definition is_int_table (tbl : pyval) : bool :=
  match tbl with
  | PDict ((first_key, _) :: _) => isinstance_int first_key
  | _ => false
  end.

(** What the conversion makes of a section: the list of the values of a
    dict that it converts, and the section itself otherwise. *)
Definition section_as_list (tbl : pyval) : pyval :=
  match tbl with
  | PDict d => if is_int_table tbl then PList (map snd d) else tbl
  | _ => tbl
  end.

(** What [check_node_references] may do to a row: keep it, or set its
    [__virtual] entry to True. *)
Definition flag_virtual (row : pyval) : pyval :=
  match row with
  | PDict d => PDict (dict_set d (PStr "__virtual") (PBool true))
  | _ => row
  end.

Definition kept_or_flagged (row row' : pyval) : Prop :=
  row' = row \/ (is_dict row = true /\ row' = flag_virtual row).

(** An item of a row that names a node the dict [nodes] does not hold: both
    key and value are strings, the key holds a colon and the value is not a
    key of [nodes]. *)
Definition dangling_reference (nodes : pydict) (item : pyval * pyval) : bool :=
  match item with
  | (PStr rk, PStr rv) =>
      has_colon (list_ascii_of_string rk) && negb (dict_mem nodes (PStr rv))
  | _ => false
  end.

(** A vehicle after [process] and the conversion of its int-keyed tables:
    a dict of nodes by id, and a list of beams, one of which names a node
    that does not exist. *)
Definition vehicle_with_beams : pydict :=
  [(PStr "nodes",
    PDict [(PStr "a", PDict [(PStr "posX", PInt 0)]);
           (PStr "b", PDict [(PStr "posX", PInt 1)])]);
   (PStr "beams",
    PList [PDict [(PStr "id1:", PStr "a"); (PStr "id2:", PStr "b")];
           PDict [(PStr "id1:", PStr "a"); (PStr "id2:", PStr "c")]]);
   (PStr "information", PDict [(PStr "name", PStr "demo")])].

(** A vehicle whose section [beams] is still the dict that [process] made,
    keyed by row index, and that has no nodes. *)
Definition vehicle_int_tables : pydict :=
  [(PStr "beams",
    PDict [(PInt 0, PDict [(PStr "id1:", PStr "a"); (PStr "id2:", PStr "b")]);
           (PInt 2, PDict [(PStr "id1:", PStr "a"); (PStr "id2:", PStr "c")])]);
   (PStr "information", PDict [(PStr "name", PStr "demo")])].

(* ------------------------------------------------------------------ *)
(** ** Reconciler: the whole of [_get_nodes_add_delete_rename] *)

Fixpoint sd_get {V : Type} (d : sdict V) (k : string) : option V :=
  match d with
  | [] => None
  | (k', v) :: r => if String.eqb k' k then Some v else sd_get r k
  end.

(** [d[k] = v] on a dict with string keys. *)
Fixpoint sd_set {V : Type} (d : sdict V) (k : string) (v : V) : sdict V :=
  match d with
  | [] => [(k, v)]
  | (k', v') :: r =>
      if String.eqb k' k then (k', v) :: r else (k', v') :: sd_set r k v
  end.

(** A vertex of the mesh as the function reads it: the three string layers,
    decoded, and the world position [obj.matrix_world @ v.co], whose
    components are floats. *)
Record vertex : Type := mkVertex {
  v_init_node_id : string;
  v_node_id : string;
  v_node_part_origin : string;
  v_new_pos : pos3
}.

(** An entry of [all_nodes]: the dict held under ['blender_node'] (init id,
    current id, position) and the one held under ['jbeam_node'] (current id,
    position), when they are there. *)
Record node_entry : Type := mkEntry {
  blender_node : option (string * string * pos3);
  jbeam_node : option (string * pos3)
}.

(** [(to_c_float(p.x), to_c_float(p.y), to_c_float(p.z))] for floats. *)
Definition c_float_pos (p : pos3) : pos3 :=
  let '(x, y, z) := p in
  (c_float_of_float x, c_float_of_float y, c_float_of_float z).

(** [if not k in all_nodes: all_nodes[k] = {}]. *)
Definition ensure_entry (all_nodes : sdict node_entry) (k : string)
  : sdict node_entry :=
  if sd_mem all_nodes k then all_nodes
  else sd_set all_nodes k (mkEntry None None).

Definition set_blender_node (all_nodes : sdict node_entry) (k : string)
    (b : string * string * pos3) : sdict node_entry :=
  match sd_get all_nodes k with
  | Some e => sd_set all_nodes k (mkEntry (Some b) (jbeam_node e))
  | None => all_nodes
  end.

Definition set_jbeam_node (all_nodes : sdict node_entry) (k : string)
    (j : string * pos3) : sdict node_entry :=
  match sd_get all_nodes k with
  | Some e => sd_set all_nodes k (mkEntry (blender_node e) (Some j))
  | None => all_nodes
  end.

(** The dicts the loop over the vertices fills. *)
Record mesh_state : Type := mkMesh {
  node_id_to_part_origin : sdict string;
  node_renames : sdict string;
  all_nodes : sdict node_entry
}.

(** One iteration of [for v in bm.verts]: the state after it and the vertex
    after it, whose init id layer has been overwritten when the vertex
    belongs to the part. *)
Definition read_vertex (jbeam_part : string) (st : mesh_state) (v : vertex)
  : mesh_state * vertex :=
  let origin := sd_set (node_id_to_part_origin st) (v_node_id v)
                  (v_node_part_origin v) in
  if negb (String.eqb (v_node_part_origin v) jbeam_part) then
    (mkMesh origin (node_renames st) (all_nodes st), v)
  else
    let pos_tup := c_float_pos (v_new_pos v) in
    let renames :=
      if negb (String.eqb (v_init_node_id v) (v_node_id v))
      then sd_set (node_renames st) (v_init_node_id v) (v_node_id v)
      else node_renames st in
    let all1 := ensure_entry (all_nodes st) (v_node_id v) in
    let all2 := set_blender_node all1 (v_node_id v)
                  (v_init_node_id v, v_node_id v, pos_tup) in
    (mkMesh origin renames all2,
     mkVertex (v_node_id v) (v_node_id v) (v_node_part_origin v)
       (v_new_pos v)).

Fixpoint read_vertices (jbeam_part : string) (st : mesh_state)
    (verts : list vertex) : mesh_state * list vertex :=
  match verts with
  | [] => (st, [])
  | v :: rest =>
      let '(st1, v') := read_vertex jbeam_part st v in
      let '(st2, rest') := read_vertices jbeam_part st1 rest in
      (st2, v' :: rest')
  end.

(** [node_id_to_part_origin[key]]: the keys of the dict are strings, so only
    a string can be found; the string is returned with the origin. *)
Definition origin_of (origin : sdict string) (key : pyval)
  : res (string * string) :=
  if hashable key then
    match key with
    | PStr s =>
        match sd_get origin s with
        | Some o => Ok (s, o)
        | None => Raise KeyError
        end
    | _ => Raise KeyError
    end
  else Raise TypeError.

(** The number of items [enumerate(v)] yields. *)
Definition iter_length (v : pyval) : res nat :=
  match v with
  | PList l => Ok (List.length l)
  | PDict d => Ok (List.length d)
  | PStr s => Ok (String.length s)
  | _ => Raise TypeError
  end.

(** [to_c_float(row_data[k])]. *)
Definition cell_c_float (row_data : pyval) (k : Z) : res pyfloat :=
  c <- py_getitem row_data (PInt k) ;; to_c_float c.

(** One iteration of the loop that reads the rows of the file, at index
    [i]. *)
Definition read_row (jbeam_part : string) (origin : sdict string)
    (nodes_section : pyval) (all_nodes : sdict node_entry) (i : Z)
  : res (sdict node_entry) :=
  if i =? 0 then Ok all_nodes
  else
    row_data <- py_getitem nodes_section (PInt i) ;;
    if is_list row_data then
      curr_node_id <- py_getitem row_data (PInt 0) ;;
      found <- origin_of origin curr_node_id ;;
      let '(curr, part_origin) := found in
      if negb (String.eqb jbeam_part part_origin) then Ok all_nodes
      else
        let all1 := ensure_entry all_nodes curr in
        x <- cell_c_float row_data 1 ;;
        y <- cell_c_float row_data 2 ;;
        z <- cell_c_float row_data 3 ;;
        Ok (set_jbeam_node all1 curr (curr, (x, y, z)))
    else Ok all_nodes.

Fixpoint read_rows (jbeam_part : string) (origin : sdict string)
    (nodes_section : pyval) (all_nodes : sdict node_entry) (i : Z)
    (count : nat) : res (sdict node_entry) :=
  match count with
  | O => Ok all_nodes
  | S n =>
      all1 <- read_row jbeam_part origin nodes_section all_nodes i ;;
      read_rows jbeam_part origin nodes_section all1 (i + 1) n
  end.

(** The loop over [all_nodes.items()]: a node the mesh has and the file
    lacks is to add, a node the file has and the mesh lacks is to delete. *)
Fixpoint classify (entries : sdict node_entry)
    (nodes_to_add nodes_to_delete : sdict pos3) : sdict pos3 * sdict pos3 :=
  match entries with
  | [] => (nodes_to_add, nodes_to_delete)
  | (id, data) :: rest =>
      match jbeam_node data with
      | None =>
          match blender_node data with
          | Some (_, _, pos) =>
              classify rest (sd_set nodes_to_add id pos) nodes_to_delete
          | None => classify rest nodes_to_add nodes_to_delete
          end
      | Some (_, pos) =>
          match blender_node data with
          | None => classify rest nodes_to_add (sd_set nodes_to_delete id pos)
          | Some _ => classify rest nodes_to_add nodes_to_delete
          end
      end
  end.

(** The loop over [node_renames.items()]: a rename recorded on the mesh
    counts when the old id is to delete and the new one to add. *)
Fixpoint rename_by_identity (items : sdict string) (st : reconcile_state)
  : reconcile_state :=
  match items with
  | [] => st
  | (init_id, curr_id) :: rest =>
      if sd_mem (rs_nodes_to_delete st) init_id
         && sd_mem (rs_nodes_to_add st) curr_id
      then
        rename_by_identity rest
          (mkRec (rn_set (true_node_renames st) (Some init_id) curr_id)
                 (sd_pop (rs_nodes_to_delete st) init_id)
                 (sd_pop (rs_nodes_to_add st) curr_id))
      else rename_by_identity rest st
  end.

Fixpoint rn_get (d : renames) (k : option string) : option string :=
  match d with
  | [] => None
  | (k', v) :: r => if opt_string_eqb k' k then Some v else rn_get r k
  end.

(** [l[k] = v] on a list, for an index that is not negative. *)
Definition list_assign (l : list pyval) (k : nat) (v : pyval)
  : res (list pyval) :=
  if (k <? List.length l)%nat then Ok (set_at l k v) else Raise IndexError.

(** [all_nodes[k]['blender_node']['pos']]. *)
Definition blender_pos (all_nodes : sdict node_entry) (k : string)
  : res pos3 :=
  match sd_get all_nodes k with
  | Some e =>
      match blender_node e with
      | Some (_, _, pos) => Ok pos
      | None => Raise KeyError
      end
  | None => Raise KeyError
  end.

(** One iteration of the loop that writes the mesh into the rows of the
    copy: the row after it. *)
Definition write_row (jbeam_part : string) (origin : sdict string)
    (all_nodes : sdict node_entry) (renamed : renames) (i : nat)
    (row_data : pyval) : res pyval :=
  if Nat.eqb i 0 then Ok row_data
  else
    match row_data with
    | PList cells =>
        curr_node_id <- py_getitem row_data (PInt 0) ;;
        found <- origin_of origin curr_node_id ;;
        let '(curr, part_origin) := found in
        if negb (String.eqb jbeam_part part_origin) then Ok row_data
        else
          match rn_get renamed (Some curr) with
          | Some new_node_id =>
              new_pos <- blender_pos all_nodes new_node_id ;;
              let '(x, y, z) := new_pos in
              c0 <- list_assign cells 0 (PStr new_node_id) ;;
              c1 <- list_assign c0 1 (PFloat x) ;;
              c2 <- list_assign c1 2 (PFloat y) ;;
              c3 <- list_assign c2 3 (PFloat z) ;;
              Ok (PList c3)
          | None =>
              match sd_get all_nodes curr with
              | None => Raise KeyError
              | Some e =>
                  match blender_node e with
                  | Some (_, _, (x, y, z)) =>
                      c1 <- list_assign cells 1 (PFloat x) ;;
                      c2 <- list_assign c1 2 (PFloat y) ;;
                      c3 <- list_assign c2 3 (PFloat z) ;;
                      Ok (PList c3)
                  | None => Ok row_data
                  end
              end
          end
    | _ => Ok row_data
    end.

Fixpoint write_rows (jbeam_part : string) (origin : sdict string)
    (all_nodes : sdict node_entry) (renamed : renames) (i : nat)
    (rows : list pyval) : res (list pyval) :=
  match rows with
  | [] => Ok []
  | row_data :: rest =>
      row' <- write_row jbeam_part origin all_nodes renamed i row_data ;;
      rest' <- write_rows jbeam_part origin all_nodes renamed (S i) rest ;;
      Ok (row' :: rest')
  end.

(** [jbeam_part in data and 'nodes' in data[jbeam_part]], and the section
    [data[jbeam_part]['nodes']] when the test holds.  A test that holds on a
    value that is not a dict is followed by a subscript that raises. *)
Definition nodes_section_of (data : pyval) (jbeam_part : string)
  : res (option (pydict * pydict * pyval)) :=
  has_part <- py_contains data jbeam_part ;;
  if has_part then
    part_data <- py_getitem data (PStr jbeam_part) ;;
    has_nodes <- py_contains part_data "nodes" ;;
    if has_nodes then
      nodes_section <- py_getitem part_data (PStr "nodes") ;;
      match data, part_data with
      | PDict d, PDict pd => Ok (Some (d, pd, nodes_section))
      | _, _ => Raise TypeError
      end
    else Ok None
  else Ok None.

(** What the function returns. *)
Record reconciled : Type := mkReconciled {
  r_nodes_to_add : sdict pos3;
  r_nodes_to_delete : sdict pos3;
  r_true_node_renames : renames;
  r_current_jbeam_file_data_modified : pyval
}.

(** [_get_nodes_add_delete_rename(obj, bm, current_jbeam_file_data,
    jbeam_part)]: the vertices after the call, whose init id layer has been
    written, and the returned tuple or the exception.  The deep copy of the
    file data is the same value, and the rows are written into the copy. *)
Definition get_nodes_add_delete_rename (verts : list vertex)
    (current_jbeam_file_data : pyval) (jbeam_part : string)
  : list vertex * res reconciled :=
  let '(mesh, verts') :=
    read_vertices jbeam_part (mkMesh [] [] []) verts in
  (verts',
   section <- nodes_section_of current_jbeam_file_data jbeam_part ;;
   all1 <-
     match section with
     | Some (_, _, nodes_section) =>
         count <- iter_length nodes_section ;;
         read_rows jbeam_part (node_id_to_part_origin mesh) nodes_section
           (all_nodes mesh) 0 count
     | None => Ok (all_nodes mesh)
     end ;;
   let '(adds, dels) := classify all1 [] [] in
   let st1 := rename_by_identity (node_renames mesh) (mkRec [] dels adds) in
   match rename_by_position st1 with
   | (_, Raise e) => Raise e
   | (st2, Ok _) =>
       modified <-
         match section with
         | Some (d, pd, PList rows) =>
             rows' <- write_rows jbeam_part (node_id_to_part_origin mesh)
                        all1 (true_node_renames st2) 0 rows ;;
             Ok (PDict (dict_set d (PStr jbeam_part)
                          (PDict (dict_set pd (PStr "nodes")
                                    (PList rows')))))
         | _ => Ok current_jbeam_file_data
         end ;;
       Ok (mkReconciled (rs_nodes_to_add st2) (rs_nodes_to_delete st2)
             (true_node_renames st2) modified)
   end).

(** An entry of [all_nodes] made by the loop over the vertices. *)
Definition from_mesh (e : node_entry) : Prop := blender_node e <> None.

(** After the loop over the vertices every entry comes from the mesh, and
    every id whose origin is the part has an entry. *)
Definition mesh_inv (jbeam_part : string) (origin : sdict string)
    (entries : sdict node_entry) : Prop :=
  Forall (fun kv => from_mesh (snd kv)) entries /\
  (forall k, sd_get origin k = Some jbeam_part ->
             exists e, sd_get entries k = Some e).

(** The entry the loop over the vertices makes for a vertex of the part. *)
Definition entry_of_vertex (jbeam_part : string) (verts : list vertex)
    (key : string) (b : string * string * pos3) : Prop :=
  exists v,
    In v verts /\ v_node_id v = key /\ v_node_part_origin v = jbeam_part /\
    b = (v_init_node_id v, v_node_id v, c_float_pos (v_new_pos v)).

Definition entries_of_mesh (jbeam_part : string) (verts : list vertex)
    (entries : sdict node_entry) : Prop :=
  Forall (fun kv =>
            forall b, blender_node (snd kv) = Some b ->
                      entry_of_vertex jbeam_part verts (fst kv) b) entries.

(** The init id layer of a vertex of the part after the call. *)
Definition commit_node_id (jbeam_part : string) (v : vertex) : vertex :=
  if String.eqb (v_node_part_origin v) jbeam_part then
    mkVertex (v_node_id v) (v_node_id v) (v_node_part_origin v) (v_new_pos v)
  else v.

(** A mesh of two vertices of the part [p], one of which, [b], is not in
    the file, and the file: a part [p] with a nodes section of a header and
    a row for [a], and a part [q]. *)
Definition mesh_a_b : list vertex :=
  [mkVertex "a" "a" "p" (float_of_decimal 1 1, Ffin 0 0, Ffin 0 0);
   mkVertex "b" "b" "p" (Ffin 1 0, Ffin 2 0, Ffin 3 0)].

Definition file_p_q : pyval :=
  PDict [(PStr "p",
          PDict [(PStr "nodes",
                  PList [PList [PStr "id"; PStr "posX"; PStr "posY";
                                PStr "posZ"];
                         PList [PStr "a"; PInt 0; PInt 0; PInt 0]])]);
         (PStr "q", PDict [(PStr "k", PInt 2)])].

(** The mesh once the vertex [a] has been deleted. *)
Definition mesh_b : list vertex :=
  [mkVertex "b" "b" "p" (Ffin 1 0, Ffin 2 0, Ffin 3 0)].

(* ------------------------------------------------------------------ *)
(** ** The values of a C float *)

(** A float that a C [float] holds exactly: an infinity, or [m * 2^q] with a
    mantissa of at most 24 bits on an exponent no less than that of the
    smallest subnormal, below the overflow threshold [2^128]. *)
Definition binary32 (f : pyfloat) : Prop :=
  match f with
  | Ffin m q =>
      -149 <= q /\ Z.abs m <= 2 ^ 24 /\
      (0 <= q -> Z.abs m * 2 ^ q < 2 ^ 128)
  | Finf _ => True
  end.

(* ------------------------------------------------------------------ *)
(** ** Vehicle processing: [process] *)

(** The character classes of the pattern [^[a-zA-Z_]+[a-zA-Z0-9_]*$]. *)
Definition is_letter_or_underscore (c : ascii) : bool :=
  let n := nat_of_ascii c in
  ((97 <=? n) && (n <=? 122) || (65 <=? n) && (n <=? 90) || (n =? 95))%nat.

Definition is_word_char (c : ascii) : bool :=
  let n := nat_of_ascii c in
  is_letter_or_underscore c || ((48 <=? n) && (n <=? 57))%nat.

(** The strings of [[a-zA-Z_]+[a-zA-Z0-9_]*]: a first character of the
    first class, then characters of the second, which holds the first. *)
Definition whole_name (l : list ascii) : bool :=
  match l with
  | [] => false
  | c :: r => is_letter_or_underscore c && forallb is_word_char r
  end.

(** [re.match(r'^[a-zA-Z_]+[a-zA-Z0-9_]*$', s) is not None].  Without the
    MULTILINE flag [$] matches at the end of the string and also just
    before a newline that ends the string. *)
Definition matches_attribute_name (s : string) : bool :=
  let l := list_ascii_of_string s in
  whole_name l ||
  match rev l with
  | c :: r => Ascii.eqb c "010"%char && whole_name (rev r)
  | [] => false
  end.

(** [isinstance(entry, (dict, list))]. *)
Definition is_table (entry : pyval) : bool :=
  is_dict entry || is_list entry.

(** [len(entry)] for a dict or a list. *)
Definition table_len (entry : pyval) : Z :=
  match entry with
  | PDict d => llen d
  | PList l => llen l
  | _ => 0
  end.

(** [c[k] = v].  A dict takes any hashable key, a list an index that is in
    range, and no other value supports item assignment. *)
Definition py_setitem (c k v : pyval) : res pyval :=
  match c with
  | PDict d => if hashable k then Ok (PDict (dict_set d k v))
               else Raise TypeError
  | PList l =>
      match as_index k with
      | Some i =>
          match resolve_idx l i with
          | Some p => Ok (PList (set_at l p v))
          | None => Raise IndexError
          end
      | None => Raise TypeError
      end
  | _ => Raise TypeError
  end.

(** [vehicle[name][k] = v]: the object held under [name] is changed in
    place, so the vehicle holds the changed object. *)
Definition set_in (vehicle : pydict) (name : string) (k v : pyval)
  : res pydict :=
  match dict_get vehicle (PStr name) with
  | Some c =>
      c' <- py_setitem c k v ;;
      Ok (dict_set vehicle (PStr name) c')
  | None => Raise KeyError
  end.

(** [vehicle.get(name, {})]. *)
Definition get_or_empty (vehicle : pydict) (name : string) : pyval :=
  match dict_get vehicle (PStr name) with
  | Some v => v
  | None => PDict []
  end.

(** The first loop of [process], over the keys the vehicle had when the
    loop began: an entry that is no dict and no list is stored in
    [vehicle['options']] and popped. *)
Fixpoint hoist_options (keys : list pyval) (vehicle : pydict)
  : pydict * res unit :=
  match keys with
  | [] => (vehicle, Ok tt)
  | key_entry :: rest =>
      match dict_get vehicle key_entry with
      | None => (vehicle, Raise KeyError)
      | Some entry =>
          if negb (is_table entry) then
            match set_in vehicle "options" key_entry entry with
            | Raise e => (vehicle, Raise e)
            | Ok vehicle' => hoist_options rest (dict_del vehicle' key_entry)
            end
          else hoist_options rest vehicle
      end
  end.

Section VehicleProcess.

Variable Metadata_merge : pydict -> pydict -> pydict.
Variable pickled : Type.
Variable pickle_dumps : pyval -> pickled.
Variable pickle_loads : pickled -> pyval.
Variable pickled_eqb : pickled -> pickled -> bool.

(** Modelled from the spec: [jbeam_utils.ignore_sections] is not among the
    sources.  It is a collection of section names, asked only whether it
    holds a key. *)
Variable ignore_sections : list string.

Definition ignored (name : string) : bool :=
  existsb (String.eqb name) ignore_sections.

(** The call [process_table_with_schema_destructive(entry, new_list,
    vehicle['options'])] with an empty [new_list].  Options that are a dict
    or None are the cases of the function above.  With any other options
    the call still answers from the memo, raises on an empty table or an
    empty header, returns -1 on a header that is no list and appends
    [options] to the header, and then fails where it asks the copy of the
    options for its [get] method. *)
Definition process_section (memo : memo_t pickled) (entry : list pyval)
    (options : pyval) : table_result pickled :=
  match options with
  | PDict o =>
      process_table_with_schema_destructive Metadata_merge pickled
        pickle_dumps pickle_loads pickled_eqb memo entry [] (Some o)
  | PNone =>
      process_table_with_schema_destructive Metadata_merge pickled
        pickle_dumps pickle_loads pickled_eqb memo entry [] None
  | _ =>
      let encoded := (pickle_dumps (PList entry), pickle_dumps options) in
      match memo_get pickled_eqb memo encoded with
      | Some out =>
          match pickle_loads (fst out) with
          | PDict d =>
              mkTableResult (Returned (snd out)) entry None
                (dict_update [] d) memo
          | _ => mkTableResult (Threw TypeError) entry None [] memo
          end
      | None =>
          match entry with
          | [] => mkTableResult (Threw IndexError) entry None [] memo
          | PList header :: rows =>
              match py_nth header (-1) with
              | None =>
                  mkTableResult (Threw IndexError) entry (Some header) []
                    memo
              | Some last =>
                  let header' := header_with_options header last in
                  mkTableResult (Threw AttributeError)
                    (PList header' :: rows) (Some header') [] memo
              end
          | _ :: _ => mkTableResult (Returned (-1)) entry None [] memo
          end
      end
  end.

(** The second loop of [process], over the items of the vehicle.  No key
    is added or removed while it runs, so the items are the keys the
    vehicle had when the loop began, each with the value it holds when its
    turn comes; the lookup of that value does not fail.  The value is
    read once [maxIDs] is set, since under the key [maxIDs] it is that very
    dict.  A table that raises leaves its list as the call changed it. *)
Fixpoint walk_sections (keys : list pyval) (vehicle : pydict)
    (memo : memo_t pickled) : pydict * memo_t pickled * res bool :=
  match keys with
  | [] => (vehicle, memo, Ok true)
  | key_entry :: rest =>
      match key_entry with
      | PStr name =>
          if negb (matches_attribute_name name) then (vehicle, memo, Ok false)
          else
            match set_in vehicle "maxIDs" key_entry (PInt 0) with
            | Raise e => (vehicle, memo, Raise e)
            | Ok vehicle1 =>
                match dict_get vehicle1 key_entry with
                | None => (vehicle1, memo, Raise KeyError)
                | Some entry =>
                    if is_table entry && negb (ignored name)
                       && (0 <? table_len entry)
                    then
                      match entry with
                      | PList tbl =>
                          match dict_get vehicle1 (PStr "validTables") with
                          | None => (vehicle1, memo, Raise KeyError)
                          | Some valid =>
                              match py_contains valid name with
                              | Raise e => (vehicle1, memo, Raise e)
                              | Ok true => walk_sections rest vehicle1 memo
                              | Ok false =>
                                  match dict_get vehicle1 (PStr "options") with
                                  | None => (vehicle1, memo, Raise KeyError)
                                  | Some options =>
                                      let r := process_section memo tbl
                                                 options in
                                      match tr_exit r with
                                      | Threw e =>
                                          (dict_set vehicle1 key_entry
                                             (PList (tr_table r)),
                                           tr_memo r, Raise e)
                                      | Returned new_list_size =>
                                          match
                                            (if 0 <? new_list_size
                                             then set_in vehicle1
                                                    "validTables" key_entry
                                                    (PBool true)
                                             else Ok vehicle1)
                                          with
                                          | Raise e =>
                                              (dict_set vehicle1 key_entry
                                                 (PList (tr_table r)),
                                               tr_memo r, Raise e)
                                          | Ok vehicle2 =>
                                              walk_sections rest
                                                (dict_set vehicle2 key_entry
                                                   (PDict (tr_new_dict r)))
                                                (tr_memo r)
                                          end
                                      end
                                  end
                              end
                          end
                      | _ =>
                          if String.eqb name "slots" then
                            match set_in vehicle1 "validTables" key_entry
                                    (PBool true) with
                            | Raise e => (vehicle1, memo, Raise e)
                            | Ok vehicle2 => walk_sections rest vehicle2 memo
                            end
                          else walk_sections rest vehicle1 memo
                      end
                    else walk_sections rest vehicle1 memo
                end
            end
      | _ => (vehicle, memo, Raise TypeError)
      end
  end.

(** The vehicle as the first four statements of [process] leave it. *)
Definition with_defaults (vehicle : pydict) : pydict :=
  let vehicle := dict_set vehicle (PStr "maxIDs") (PDict []) in
  let vehicle := dict_set vehicle (PStr "validTables") (PDict []) in
  let vehicle :=
    dict_set vehicle (PStr "beams") (get_or_empty vehicle "beams") in
  dict_set vehicle (PStr "options") (get_or_empty vehicle "options").

(** [process(vehicle)], run with the module-level [memo]: the vehicle and
    the memo after the call, and what the call returns or raises. *)
Definition process (memo : memo_t pickled) (vehicle : pydict)
  : pydict * memo_t pickled * res bool :=
  let vehicle := with_defaults vehicle in
  match hoist_options (map fst vehicle) vehicle with
  | (vehicle, Raise e) => (vehicle, memo, Raise e)
  | (vehicle, Ok _) => walk_sections (map fst vehicle) vehicle memo
  end.

(** The list sections in the second loop, for the vehicle [start] the loop
    began with and options [o]: a list under a key the loop has not reached
    is as it was, and a list with rows under a key that is done and not
    ignored has been replaced by the dict the table processor built from it
    with these options. *)
Definition tabled (o : pydict) (start : pydict) (done : list pyval)
    (vehicle : pydict) : Prop :=
  forall name tbl,
    dict_get start (PStr name) = Some (PList tbl) ->
    name <> "maxIDs" -> name <> "validTables" ->
    (~ In (PStr name) done ->
     dict_get vehicle (PStr name) = Some (PList tbl)) /\
    (In (PStr name) done -> tbl <> [] -> ignored name = false ->
     exists memo,
       dict_get vehicle (PStr name)
       = Some (PDict (tr_new_dict (process_section memo tbl (PDict o))))).

End VehicleProcess.

(** A decoded value that is no container. *)
Definition plain_scalar (v : pyval) : bool :=
  match v with
  | PNone | PBool _ | PInt _ | PFloat _ | PStr _ => true
  | _ => false
  end.

(** The entries of a vehicle that [process] keeps at the top level, and
    those it moves into the options. *)
Definition table_entries (vehicle : pydict) : pydict :=
  filter (fun kv => is_table (snd kv)) vehicle.

Definition scalar_entries (vehicle : pydict) : pydict :=
  filter (fun kv => negb (is_table (snd kv))) vehicle.

(** A vehicle with [x] held under [options]. *)
Definition with_options (x : pyval) (vehicle : pydict) : pydict :=
  map (fun kv =>
         if scalar_eqb (fst kv) (PStr "options") then (fst kv, x) else kv)
      vehicle.

(** The options of a vehicle are a dict, or there are none. *)
Definition options_dict_or_absent (vehicle : pydict) : Prop :=
  match dict_get vehicle (PStr "options") with
  | Some (PDict _) | None => True
  | Some _ => False
  end.

(** What the first loop of [process] leaves and the second keeps, on a
    vehicle whose options are a dict: distinct keys, no entry other than
    dicts and lists, the options, and the keys in their order. *)
Definition hoisted (o : pydict) (keys : list pyval) (vehicle : pydict)
  : Prop :=
  keys_distinct vehicle /\
  Forall (fun kv => is_table (snd kv) = true) vehicle /\
  dict_get vehicle (PStr "options") = Some (PDict o) /\
  map fst vehicle = keys.

(** A section that [process] may leave as it found it: anything but a list
    that has rows and a name that is not ignored. *)
Definition settled (ignore_sections : list string) (kv : pyval * pyval)
  : bool :=
  match kv with
  | (_, PList []) => true
  | (PStr name, PList _) => ignored ignore_sections name
  | (_, PList _) => false
  | _ => true
  end.

(** The second loop of [process] after the keys [done]: [maxIDs] holds 0
    under each of [ids], the keys of [validTables] are among [valid], and
    the sections under the keys [done] are settled. *)
Definition max_ids_are (ids : list pyval) (vehicle : pydict) : Prop :=
  dict_get vehicle (PStr "maxIDs")
  = Some (PDict (map (fun k => (k, PInt 0)) ids)).

Definition valid_within (valid : list pyval) (vehicle : pydict) : Prop :=
  exists vt,
    dict_get vehicle (PStr "validTables") = Some (PDict vt) /\
    Forall (fun kv => In (fst kv) valid) vt.

Definition settled_under (ignore_sections : list string)
    (done : list pyval) (vehicle : pydict) : Prop :=
  Forall (fun kv => In (fst kv) done -> settled ignore_sections kv = true)
    vehicle.

(** A vehicle as decoded from a part: a dict, two entries that are no dict
    and no list, one of them under a key that is no name, a table of nodes
    and an empty list. *)
Definition vehicle_raw : pydict :=
  [(PStr "information", PDict [(PStr "name", PStr "demo")]);
   (PStr "slotType", PStr "main");
   (PStr "scale-factor", PInt 3);
   (PStr "nodes", PList overlay_table);
   (PStr "refNodes", PList [])].

(** A vehicle whose options are a number. *)
Definition vehicle_scalar_options : pydict :=
  [(PStr "options", PInt 5); (PStr "nodes", PList overlay_table)].

(** A vehicle with a table under a key that is no name. *)
Definition vehicle_bad_name : pydict :=
  [(PStr "slotType", PStr "main"); (PStr "my nodes", PList overlay_table)].

(** The rows of a table that are lists, each of which the table processor
    turns into one entry of its output. *)
Definition list_rows (rows : list pyval) : list pyval :=
  filter is_list rows.

(** A table with two rows of the same id. *)
Definition twice_n1_table : list pyval :=
  [PList [PStr "id"; PStr "x"];
   PList [PStr "n1"; PInt 1];
   PDict [(PStr "group", PStr "X")];
   PList [PStr "n1"; PInt 2]].

(* ================================================================== *)
(** * Proofs *)

(** ** Induction on values, through the lists nested in them *)

Section PyvalInd.
Variable P : pyval -> Prop.
Hypothesis HNone : P PNone.
Hypothesis HBool : forall b, P (PBool b).
Hypothesis HInt : forall z, P (PInt z).
Hypothesis HFloat : forall f, P (PFloat f).
Hypothesis HStr : forall s, P (PStr s).
Hypothesis HList : forall l, Forall P l -> P (PList l).
Hypothesis HDict :
  forall d, Forall (fun kv => P (fst kv) /\ P (snd kv)) d -> P (PDict d).
Hypothesis HClass : P PMetadataClass.
Hypothesis HMeta :
  forall d, Forall (fun kv => P (fst kv) /\ P (snd kv)) d -> P (PMetadata d).

Fixpoint pyval_nested_ind (v : pyval) : P v :=
  match v with
  | PNone => HNone
  | PBool b => HBool b
  | PInt z => HInt z
  | PFloat f => HFloat f
  | PStr s => HStr s
  | PList l =>
      HList l
        ((fix go (l : list pyval) : Forall P l :=
            match l with
            | [] => Forall_nil P
            | x :: r => Forall_cons x (pyval_nested_ind x) (go r)
            end) l)
  | PDict d =>
      HDict d
        ((fix go (d : pydict) : Forall (fun kv => P (fst kv) /\ P (snd kv)) d :=
            match d with
            | [] => Forall_nil _
            | kv :: r =>
                Forall_cons kv
                  (conj (pyval_nested_ind (fst kv)) (pyval_nested_ind (snd kv)))
                  (go r)
            end) d)
  | PMetadataClass => HClass
  | PMetadata d =>
      HMeta d
        ((fix go (d : pydict) : Forall (fun kv => P (fst kv) /\ P (snd kv)) d :=
            match d with
            | [] => Forall_nil _
            | kv :: r =>
                Forall_cons kv
                  (conj (pyval_nested_ind (fst kv)) (pyval_nested_ind (snd kv)))
                  (go r)
            end) d)
  end.
End PyvalInd.

Lemma feqb_refl : forall x, feqb x x = true.
Proof.
  intros [m e | s]; simpl.
  - apply Z.eqb_refl.
  - apply Bool.eqb_reflx.
Qed.

Lemma items_refl_aux (d2 : pydict) :
  forall d,
    Forall (fun kv => py_eqb (fst kv) (fst kv) = true /\ py_eqb (snd kv) (snd kv) = true) d ->
    incl d d2 ->
    (fix items (d : pydict) : bool :=
       match d with
       | [] => true
       | (k, v) :: r =>
           existsb (fun kv => py_eqb k (fst kv) && py_eqb v (snd kv)) d2
           && items r
       end) d = true.
Proof.
  induction d as [|[k v] r IH]; intros HF Hin; [reflexivity|].
  inversion HF as [|? ? [Hk Hv] HF']; subst. simpl in Hk, Hv.
  apply andb_true_iff. split.
  - apply existsb_exists. exists (k, v). split.
    + apply Hin. left. reflexivity.
    + simpl. rewrite Hk, Hv. reflexivity.
  - apply IH; [assumption|]. intros x Hx. apply Hin. right. assumption.
Qed.

Lemma py_eqb_refl : forall v, py_eqb v v = true.
Proof.
  induction v using pyval_nested_ind; try reflexivity.
  - destruct b; reflexivity.
  - exact (feqb_refl (Ffin z 0)).
  - exact (feqb_refl f).
  - exact (String.eqb_refl s).
  - simpl. induction H as [|x r Hx _ IH]; [reflexivity|].
    rewrite Hx. simpl. exact IH.
  - simpl. rewrite Nat.eqb_refl. simpl.
    apply items_refl_aux; [assumption | apply incl_refl].
  - simpl. rewrite Nat.eqb_refl. simpl.
    apply items_refl_aux; [assumption | apply incl_refl].
Qed.

Lemma set_at_same {A : Type} (l : list A) p x :
  nth_error l p = Some x -> set_at l p x = l.
Proof.
  revert p. induction l as [|y r IH]; intros [|p] H; simpl in *; try discriminate.
  - congruence.
  - f_equal. apply IH. exact H.
Qed.

Lemma set_at_length {A : Type} (l : list A) p x :
  List.length (set_at l p x) = List.length l.
Proof.
  revert p. induction l as [|y r IH]; intros [|p]; simpl; auto.
Qed.

Lemma nth_error_set_at_eq {A : Type} (l : list A) p x y :
  nth_error l p = Some y -> nth_error (set_at l p x) p = Some x.
Proof.
  revert p. induction l as [|z r IH]; intros [|p] H; simpl in *; try discriminate; auto.
Qed.

Lemma nth_error_set_at_neq {A : Type} (l : list A) p q x :
  p <> q -> nth_error (set_at l p x) q = nth_error l q.
Proof.
  revert p q. induction l as [|z r IH]; intros [|p] [|q] H; simpl; auto;
    try contradiction.
Qed.

Lemma tree_at_app t p1 p2 v :
  tree_at t p1 = Ok v -> tree_at t (p1 ++ p2) = tree_at v p2.
Proof.
  revert t. induction p1 as [|k r IH]; intros t H; simpl in *.
  - congruence.
  - destruct (py_getitem t k); simpl in *; [apply IH; exact H | discriminate].
Qed.

Lemma walk2_tree_at old data st o d :
  walk2 old data st = Ok (o, d) ->
  tree_at old (map fst st) = Ok o /\ tree_at data (map fst st) = Ok d.
Proof.
  revert old data. induction st as [|e r IH]; intros old data H; simpl in *.
  - inversion H. auto.
  - destruct (py_getitem old (fst e)); simpl in *; [|discriminate].
    destruct (py_getitem data (fst e)); simpl in *; [|discriminate].
    apply IH. exact H.
Qed.

Lemma set_number_node_kind node v :
  data_type (fst (set_number_node node v)) = data_type node.
Proof.
  unfold set_number_node.
  destruct (match v with PInt _ => _ | PFloat _ => true | _ => false end); [|reflexivity].
  destruct (get_float_precision v); reflexivity.
Qed.

Lemma rewritten_kind node data : data_type (rewritten node data) = data_type node.
Proof.
  unfold rewritten. destruct (dtype_eqb (data_type node) DT_number).
  - apply set_number_node_kind.
  - reflexivity.
Qed.

Lemma number_changed_same v :
  number_changed v v = Ok true -> is_int_or_float v = false.
Proof.
  unfold number_changed. destruct (is_int_or_float v); simpl; [|reflexivity].
  destruct (to_c_float v) as [a|e]; simpl; [|discriminate].
  rewrite feqb_refl. simpl. discriminate.
Qed.

Lemma set_number_node_skip node v :
  is_int_or_float v = false -> set_number_node node v = (node, Ok tt).
Proof.
  unfold set_number_node. destruct v; simpl; try discriminate; reflexivity.
Qed.

Lemma compare_and_set_value_edit before after st index node :
  let node' := fst (compare_and_set_value before after st index node) in
  node' = node \/
  (exists old_data data,
     node' = rewritten node data /\
     tree_at before (map fst st ++ [index]) = Ok old_data /\
     tree_at after (map fst st ++ [index]) = Ok data /\
     old_data <> data /\
     differs (data_type node) old_data data).
Proof.
  unfold compare_and_set_value.
  destruct (walk2 before after st) as [[o d]|e] eqn:Hw; [|left; reflexivity].
  apply walk2_tree_at in Hw. destruct Hw as [Ho Hd].
  destruct (py_getitem o index) as [old_data|e] eqn:Hold; [|left; reflexivity].
  destruct (py_getitem d index) as [data|e] eqn:Hdat; [|left; reflexivity].
  assert (Hb : tree_at before (map fst st ++ [index]) = Ok old_data).
  { rewrite (tree_at_app _ _ _ _ Ho). simpl. rewrite Hold. reflexivity. }
  assert (Ha : tree_at after (map fst st ++ [index]) = Ok data).
  { rewrite (tree_at_app _ _ _ _ Hd). simpl. rewrite Hdat. reflexivity. }
  destruct (dtype_eqb (data_type node) DT_number) eqn:Hn.
  - destruct (number_changed old_data data) as [[|]|e] eqn:Hc;
      try (left; reflexivity).
    destruct (is_int_or_float data) eqn:Hdn.
    + right. exists old_data, data. unfold differs, rewritten. rewrite Hn.
      repeat split; auto.
      * destruct (set_number_node node data) as [n' [u|e]]; reflexivity.
      * intros ->. apply number_changed_same in Hc. congruence.
    + left. rewrite set_number_node_skip by exact Hdn. reflexivity.
  - destruct (py_eqb old_data data) eqn:He; simpl; [left; reflexivity|].
    right. exists old_data, data. unfold differs, rewritten. rewrite Hn.
    repeat split; auto.
    intros ->. rewrite py_eqb_refl in He. discriminate.
Qed.

Section PatchFrame.

Variables (before after : pyval) (part : string).
Variables (adds dels : list (string * pos3)).

Local Abbreviation edit := (edit before after adds dels).
Local Abbreviation edits := (edits before after adds dels).

Local Abbreviation scalar_change := (scalar_change before after).

Lemma visit_edit st node node' r :
  visit before after part st node = (node', r) ->
  (node' = node \/ scalar_change node node') /\
  (forall st1, r = Ok st1 ->
     ast_nodes st1 = ast_nodes st /\ idx st1 = idx st).
Proof.
  unfold visit. intros H.
  destruct (in_dict st).
  - destruct (is_open (data_type node)) eqn:Hop.
    + destruct (negb (is_none (dict_key st))); inversion H; subst;
        (split; [left; reflexivity | intros st1 E; inversion E; subst; simpl; auto]).
    + destruct (negb (is_close (data_type node))) eqn:Hcl.
      * destruct (is_none (temp_dict_key st)).
        { destruct (dtype_eqb (data_type node) DT_string); inversion H; subst;
            (split; [left; reflexivity | intros st1 E; inversion E; subst; simpl; auto]). }
        destruct (dtype_eqb (data_type node) DT_colon).
        { inversion H; subst.
          split; [left; reflexivity | intros st1 E; inversion E; subst; simpl; auto]. }
        destruct (negb (is_none (dict_key st))).
        2:{ inversion H; subst.
            split; [left; reflexivity | intros st1 E; inversion E; subst; simpl; auto]. }
        pose proof (compare_and_set_value_edit before after (stack st) (dict_key st) node) as Hc.
        destruct (compare_and_set_value before after (stack st) (dict_key st) node)
          as [n' [b|e]]; simpl in Hc; inversion H; subst.
        { split.
          - destruct Hc as [->|Hex]; [left; reflexivity|].
            right. unfold scalar_change. rewrite negb_true_iff in Hcl.
            destruct Hex as (o & d & Hr & Ho & Hd & Hne & Hdf).
            repeat split; auto.
            exists (map fst (stack st) ++ [dict_key st])%list, o, d.
            repeat split; auto. intros E; symmetry in E; revert E; apply app_cons_not_nil.
          - intros st1 E; inversion E; subst; simpl; auto. }
        { split.
          - destruct Hc as [->|Hex]; [left; reflexivity|].
            right. unfold scalar_change. rewrite negb_true_iff in Hcl.
            destruct Hex as (o & d & Hr & Ho & Hd & Hne & Hdf).
            repeat split; auto.
            exists (map fst (stack st) ++ [dict_key st])%list, o, d.
            repeat split; auto. intros E; symmetry in E; revert E; apply app_cons_not_nil.
          - intros st1 E; discriminate. }
      * inversion H; subst.
        split; [left; reflexivity | intros st1 E; inversion E; subst; simpl; auto].
  - destruct (is_open (data_type node)) eqn:Hop.
    + inversion H; subst.
      split; [left; reflexivity | intros st1 E; inversion E; subst; simpl; auto].
    + destruct (negb (is_close (data_type node))) eqn:Hcl.
      2:{ inversion H; subst.
          split; [left; reflexivity | intros st1 E; inversion E; subst; simpl; auto]. }
      match type of H with
      | (match ?X with _ => _ end) = _ => destruct X as [nid|e]
      end.
      2:{ inversion H; subst. split; [left; reflexivity | intros st1 E; discriminate]. }
      pose proof (compare_and_set_value_edit before after (stack st)
                    (PInt (pos_in_arr st)) node) as Hc.
      destruct (compare_and_set_value before after (stack st) (PInt (pos_in_arr st)) node)
        as [n' [b|e]]; simpl in Hc; inversion H; subst.
      { split.
        - destruct Hc as [->|Hex]; [left; reflexivity|].
          right. unfold scalar_change. rewrite negb_true_iff in Hcl.
          destruct Hex as (o & d & Hr & Ho & Hd & Hne & Hdf).
          repeat split; auto.
          exists (map fst (stack st) ++ [PInt (pos_in_arr st)])%list, o, d.
          repeat split; auto. intros E; symmetry in E; revert E; apply app_cons_not_nil.
        - intros st1 E; inversion E; subst; simpl; auto. }
      { split.
        - destruct Hc as [->|Hex]; [left; reflexivity|].
          right. unfold scalar_change. rewrite negb_true_iff in Hcl.
          destruct Hex as (o & d & Hr & Ho & Hd & Hne & Hdf).
          repeat split; auto.
          exists (map fst (stack st) ++ [PInt (pos_in_arr st)])%list, o, d.
          repeat split; auto. intros E; symmetry in E; revert E; apply app_cons_not_nil.
        - intros st1 E; discriminate. }
Qed.

Lemma edits_one l l' : edit l l' -> edits l l'.
Proof. intros H. eapply edits_step; [apply edits_refl | exact H]. Qed.

Lemma edits_trans l1 l2 l3 : edits l1 l2 -> edits l2 l3 -> edits l1 l3.
Proof.
  intros H12 H23. revert H12.
  induction H23 as [l|a b c Hab IH Hbc]; intros H12; [exact H12|].
  eapply edits_step; [apply IH; exact H12 | exact Hbc].
Qed.

Lemma on_close_edits st dt :
  match on_close part adds dels st dt with
  | Next st' => edits (ast_nodes st) (ast_nodes st')
  | Fault tk _ => edits (ast_nodes st) tk
  end.
Proof.
  unfold on_close.
  set (e_end := if in_part (stack st) 3 part then Some (idx st)
                else jbeam_entry_end_node_idx st).
  assert (Hadd :
    exists a s_end r,
      (if dtype_eqb dt DT_rbracket && in_nodes (stack st) 2 part &&
          match adds with [] => false | _ :: _ => true end
       then
         match add_jbeam_nodes (ast_nodes st) (jbeam_section_start_node_idx st)
                 (Some (idx st)) (jbeam_entry_start_node_idx st) e_end adds with
         | (a, Raise e) => (a, Some (idx st), Raise e)
         | (a, Ok i') => (a, Some (idx st), Ok i')
         end
       else (ast_nodes st, jbeam_section_end_node_idx st, Ok (idx st)))
      = (a, s_end, r) /\ edits (ast_nodes st) a).
  { destruct (dtype_eqb dt DT_rbracket && in_nodes (stack st) 2 part &&
              match adds with [] => false | _ :: _ => true end) eqn:Hc.
    - assert (Hne : adds <> []).
      { destruct adds; [rewrite andb_false_r in Hc; discriminate | discriminate]. }
      pose proof (edit_add before after adds dels (ast_nodes st) (jbeam_section_start_node_idx st)
                    (Some (idx st)) (jbeam_entry_start_node_idx st) e_end Hne) as HE.
      destruct (add_jbeam_nodes (ast_nodes st) (jbeam_section_start_node_idx st)
                  (Some (idx st)) (jbeam_entry_start_node_idx st) e_end adds)
        as [a [i'|e]]; simpl in HE; do 3 eexists; (split; [reflexivity|]);
        apply edits_one; exact HE.
    - do 3 eexists. split; [reflexivity | apply edits_refl]. }
  destruct Hadd as (a & s_end & r & -> & Ha).
  destruct r as [i1|e]; [|exact Ha].
  destruct (pop_frame (stack st)) as [[[stack' in_dict'] pos']|e]; [|exact Ha].
  destruct (dtype_eqb dt DT_rbracket && in_nodes stack' 2 part); [|exact Ha].
  destruct (id_in (jbeam_node_id st) dels) as [[|]|e] eqn:Hid;
    [|exact Ha|exact Ha].
  pose proof (edit_delete before after adds dels a (jbeam_section_start_node_idx st)
                (jbeam_entry_start_node_idx st) e_end _ Hid) as HE.
  destruct (delete_jbeam_node a (jbeam_section_start_node_idx st)
              (jbeam_entry_start_node_idx st) e_end) as [a' [i2|e]];
    simpl in HE; simpl; eapply edits_step; eauto.
Qed.

Lemma step_edits st :
  match step before after part adds dels st with
  | Next st' => edits (ast_nodes st) (ast_nodes st')
  | Fault tk _ => edits (ast_nodes st) tk
  end.
Proof.
  unfold step.
  destruct (resolve_idx (ast_nodes st) (idx st)) as [p|]; [|apply edits_refl].
  destruct (nth_error (ast_nodes st) p) as [node|] eqn:Hn; [|apply edits_refl].
  destruct (is_wsc (data_type node)) eqn:Hw; [apply edits_refl|].
  destruct (visit before after part st node) as [node' r] eqn:Hv.
  apply visit_edit in Hv. destruct Hv as [Hnode Hst].
  assert (HE : edits (ast_nodes st) (set_at (ast_nodes st) p node')).
  { destruct Hnode as [->|(Ho & Hc & path & o & d & -> & Hp & Hb & Ha & Hne & Hd)].
    - rewrite set_at_same by exact Hn. apply edits_refl.
    - apply edits_one. eapply edit_scalar; eauto. }
  destruct r as [st1|e]; [|exact HE].
  destruct (is_open (data_type node)); [exact HE|].
  destruct (is_close (data_type node)); [|exact HE].
  match goal with
  | |- match on_close _ _ _ ?s ?d with _ => _ end =>
      pose proof (on_close_edits s d) as Hoc;
      destruct (on_close part adds dels s d); simpl in Hoc
  end.
  - eapply edits_trans; [exact HE | exact Hoc].
  - eapply edits_trans; [exact HE | exact Hoc].
Qed.

Lemma loop_edits fuel :
  forall st,
    edits (ast_nodes st)
      (tokens_of (loop before after part adds dels fuel st)).
Proof.
  induction fuel as [|f IH]; intros st; simpl.
  - destruct (idx st <? llen (ast_nodes st)); apply edits_refl.
  - destruct (idx st <? llen (ast_nodes st)); [|apply edits_refl].
    pose proof (step_edits st) as Hs.
    destruct (step before after part adds dels st) as [st'|tk e].
    + eapply edits_trans; [exact Hs | apply IH].
    + exact Hs.
Qed.

End PatchFrame.

Lemma rewritten_same node v :
  differs (data_type node) v v -> rewritten node v = node.
Proof.
  unfold differs, rewritten.
  destruct (dtype_eqb (data_type node) DT_number); intros H.
  - apply number_changed_same in H. rewrite set_number_node_skip by exact H.
    reflexivity.
  - rewrite py_eqb_refl in H. discriminate.
Qed.

Lemma id_in_empty {V : Type} (key : pyval) : @id_in V key [] <> Ok true.
Proof. unfold id_in. destruct (hashable key); simpl; discriminate. Qed.

Lemma edits_same_tree tree l l' : edits tree tree [] [] l l' -> l' = l.
Proof.
  induction 1 as [l|l1 l2 l3 H12 IH H23]; [reflexivity|].
  subst l2.
  inversion H23 as [l p n path o d Hn Hw Ho Hc Hp Hb Ha Hne' Hd
                   | l ss se es ee Hne | l ss es ee id Hid]; subst.
  - rewrite Hb in Ha. inversion Ha; subst. contradiction.
  - congruence.
  - exfalso. eapply id_in_empty. exact Hid.
Qed.

Lemma edits_frame before after l l' :
  edits before after [] [] l l' -> frame before after l l'.
Proof.
  induction 1 as [l|l1 l2 l3 H12 IH H23].
  - split; [reflexivity|]. intros p n Hn. exists n. split; [exact Hn|].
    split; [reflexivity | left; reflexivity].
  - destruct IH as [Hlen Hall].
    inversion H23 as [l p0 n0 path o d Hn0 Hw Ho Hc Hp Hb Ha Hne' Hd
                     | l ss se es ee Hne | l ss es ee id Hid]; subst.
    + split; [rewrite set_at_length; exact Hlen|].
      intros p n Hn. destruct (Hall p n Hn) as (n2 & Hn2 & Hk & Hcase).
      destruct (Nat.eq_dec p0 p) as [->|Hne].
      * rewrite Hn0 in Hn2. inversion Hn2; subst n2.
        exists (rewritten n0 d). split.
        { eapply nth_error_set_at_eq. exact Hn0. }
        split; [rewrite rewritten_kind; exact Hk|].
        right. rewrite <- Hk. repeat split; auto.
        exists path, o, d. auto.
      * exists n2. split.
        { rewrite nth_error_set_at_neq by exact Hne. exact Hn2. }
        split; assumption.
    + congruence.
    + exfalso. eapply id_in_empty. exact Hid.
Qed.

Lemma step_no_surgery before after part st :
  match step before after part [] [] st with
  | Next st' =>
      idx st' = idx st + 1 /\
      List.length (ast_nodes st') = List.length (ast_nodes st)
  | Fault _ _ => True
  end.
Proof.
  unfold step.
  destruct (resolve_idx (ast_nodes st) (idx st)) as [p|]; [|exact I].
  destruct (nth_error (ast_nodes st) p) as [node|] eqn:Hn; [|exact I].
  destruct (is_wsc (data_type node)) eqn:Hw; [simpl; auto|].
  destruct (visit before after part st node) as [node' r] eqn:Hv.
  apply visit_edit in Hv. destruct Hv as [_ Hst].
  destruct r as [st1|e]; [|exact I].
  destruct (Hst st1 eq_refl) as [Ha Hi].
  destruct (is_open (data_type node)).
  { simpl. rewrite set_at_length, Hi. auto. }
  destruct (is_close (data_type node)).
  2:{ simpl. rewrite set_at_length, Hi. auto. }
  unfold on_close. simpl.
  rewrite !andb_false_r.
  destruct (pop_frame (stack st1)) as [[[stack' in_dict'] pos']|e]; [|exact I].
  destruct (dtype_eqb (data_type node) DT_rbracket && in_nodes stack' 2 part).
  - unfold id_in. destruct (hashable (jbeam_node_id st1)); simpl; [|exact I].
    rewrite set_at_length, Hi. auto.
  - simpl. rewrite set_at_length, Hi. auto.
Qed.

Lemma loop_no_surgery_ends before after part fuel :
  forall st,
    llen (ast_nodes st) - idx st <= Z.of_nat fuel ->
    forall st', loop before after part [] [] fuel st <> OutOfFuel st'.
Proof.
  induction fuel as [|f IH]; intros st Hm st'; simpl.
  - destruct (idx st <? llen (ast_nodes st)) eqn:Hlt; [|discriminate].
    apply Z.ltb_lt in Hlt. simpl in Hm. lia.
  - destruct (idx st <? llen (ast_nodes st)) eqn:Hlt; [|discriminate].
    pose proof (step_no_surgery before after part st) as Hs.
    destruct (step before after part [] [] st) as [st1|tk e]; [|discriminate].
    destruct Hs as [Hi Hl]. apply IH. unfold llen in *. rewrite Hl, Hi. lia.
Qed.

(* ------------------------------------------------------------------ *)
(** ** Claims on the patch pass *)





(* ------------------------------------------------------------------ *)
(** ** Claims on the scalar comparison *)

Lemma dtype_eqb_eq a b : dtype_eqb a b = true <-> a = b.
Proof.
  split; [|intros ->; destruct b; reflexivity].
  destruct a, b; simpl; intros H; try discriminate; reflexivity.
Qed.

Lemma compare_and_set_value_unfold before after stack index node o d old_data data :
  walk2 before after stack = Ok (o, d) ->
  py_getitem o index = Ok old_data ->
  py_getitem d index = Ok data ->
  compare_and_set_value before after stack index node =
    if dtype_eqb (data_type node) DT_number then
      match number_changed old_data data with
      | Raise e => (node, Raise e)
      | Ok true =>
          match set_number_node node data with
          | (node', Ok _) => (node', Ok true)
          | (node', Raise e) => (node', Raise e)
          end
      | Ok false => (node, Ok false)
      end
    else if negb (py_eqb old_data data) then (set_value node data, Ok true)
    else (node, Ok false).
Proof.
  intros Hw Ho Hd. unfold compare_and_set_value. rewrite Hw, Ho, Hd. reflexivity.
Qed.

(** C3, as stated, fails: a number token whose before value is 1.00005 and
    whose after value is 1.00004 is flagged changed and rewritten, since
    the two differ as 32-bit floats. *)
Lemma compare_and_set_value_flags_1_00005_to_1_00004 :
  compare_and_set_value (PList [lit_1_00005]) (PList [lit_1_00004]) []
    (PInt 0) (number_token lit_1_00005 4)
  = (number_token lit_1_00004 3, Ok true)
  /\ to_c_float lit_1_00005 = Ok (Ffin 8389027 (-23))
  /\ to_c_float lit_1_00004 = Ok (Ffin 8388944 (-23)).
Proof. repeat split; vm_compute; reflexivity. Qed.

(** C3 (amended): for a number token whose before value is an int or a
    float, the flag is raised only if the after value is an int or a float
    and the two values differ after conversion to 32-bit floats (and differ
    as Python numbers); when the conversions agree the token is neither
    flagged nor rewritten; a number token whose before value is no number is
    always flagged; any other token is flagged, and takes the after value,
    exactly when the two values differ under [!=].  So 1.00005 to 1.00004 and
    1.0 to 1.0001 are both flagged, while 0.1 against 0.1 rounded to a C
    float is not. *)
Theorem compare_and_set_value_float32 :
  (forall before after stack index node o d old_data data,
      walk2 before after stack = Ok (o, d) ->
      py_getitem o index = Ok old_data ->
      py_getitem d index = Ok data ->
      data_type node = DT_number ->
      is_int_or_float old_data = true ->
      snd (compare_and_set_value before after stack index node) = Ok true ->
      is_int_or_float data = true /\
      exists a b,
        to_c_float old_data = Ok a /\ to_c_float data = Ok b /\
        feqb a b = false /\ py_eqb old_data data = false)
  /\ (forall before after stack index node o d old_data data a b,
      walk2 before after stack = Ok (o, d) ->
      py_getitem o index = Ok old_data ->
      py_getitem d index = Ok data ->
      data_type node = DT_number ->
      is_int_or_float old_data = true ->
      to_c_float old_data = Ok a ->
      to_c_float data = Ok b ->
      feqb a b = true ->
      compare_and_set_value before after stack index node = (node, Ok false))
  /\ (forall old_data data,
      is_int_or_float old_data = false ->
      number_changed old_data data = Ok true)
  /\ (forall before after stack index node o d old_data data,
      walk2 before after stack = Ok (o, d) ->
      py_getitem o index = Ok old_data ->
      py_getitem d index = Ok data ->
      data_type node <> DT_number ->
      compare_and_set_value before after stack index node =
        if py_eqb old_data data then (node, Ok false)
        else (set_value node data, Ok true))
  /\ snd (compare_and_set_value (PList [lit_1_00005]) (PList [lit_1_00004]) []
            (PInt 0) (number_token lit_1_00005 4)) = Ok true
  /\ snd (compare_and_set_value (PList [lit_1_0]) (PList [lit_1_0001]) []
            (PInt 0) (number_token lit_1_0 1)) = Ok true
  /\ compare_and_set_value (PList [lit_0_1]) (PList [c_float_0_1]) []
       (PInt 0) (number_token lit_0_1 1) = (number_token lit_0_1 1, Ok false).
Proof.
  split; [|split; [|split; [|split; [|repeat split; vm_compute; reflexivity]]]].
  - intros before after stack index node o d old_data data Hw Ho Hd Hn Hold Hflag.
    rewrite (compare_and_set_value_unfold _ _ _ _ _ _ _ _ _ Hw Ho Hd) in Hflag.
    apply dtype_eqb_eq in Hn. rewrite Hn in Hflag.
    unfold number_changed in *. rewrite Hold in *. simpl in Hflag.
    destruct (is_int_or_float data); [|discriminate Hflag].
    split; [reflexivity|].
    destruct (to_c_float old_data) as [a|e]; simpl in *; [|discriminate Hflag].
    destruct (to_c_float data) as [b|e]; simpl in *; [|discriminate Hflag].
    exists a, b.
    destruct (feqb a b); simpl in *; [discriminate Hflag|].
    destruct (py_eqb old_data data); simpl in *; [discriminate Hflag|].
    auto.
  - intros before after stack index node o d old_data data a b
      Hw Ho Hd Hn Hold Ha Hb Hab.
    rewrite (compare_and_set_value_unfold _ _ _ _ _ _ _ _ _ Hw Ho Hd).
    apply dtype_eqb_eq in Hn. rewrite Hn.
    unfold number_changed. rewrite Hold. simpl.
    destruct (is_int_or_float data); [|reflexivity].
    rewrite Ha, Hb. simpl. rewrite Hab. reflexivity.
  - intros old_data data Hold. unfold number_changed. rewrite Hold. reflexivity.
  - intros before after stack index node o d old_data data Hw Ho Hd Hn.
    rewrite (compare_and_set_value_unfold _ _ _ _ _ _ _ _ _ Hw Ho Hd).
    destruct (dtype_eqb (data_type node) DT_number) eqn:E.
    + apply dtype_eqb_eq in E. contradiction.
    + destruct (py_eqb old_data data); reflexivity.
Qed.

Lemma compare_and_set_value_float32_witness :
  compare_and_set_value (PList [lit_0_1]) (PList [c_float_0_1]) []
    (PInt 0) (number_token lit_0_1 1) = (number_token lit_0_1 1, Ok false).
Proof.
  refine (proj1 (proj2 compare_and_set_value_float32)
            (PList [lit_0_1]) (PList [c_float_0_1]) [] (PInt 0)
            (number_token lit_0_1 1) (PList [lit_0_1]) (PList [c_float_0_1])
            lit_0_1 c_float_0_1 (Ffin 13421773 (-27)) (Ffin 13421773 (-27))
            _ _ _ _ _ _ _ _); vm_compute; reflexivity.
Defined.

(* ------------------------------------------------------------------ *)
(** ** Claims on the reconciler *)


(* ------------------------------------------------------------------ *)
(** ** Claims on post-processing *)

(** C8 (code defect): on a section with a key that is not an int,
    [convert_dict_to_list_tables] gives up and returns False, but
    [post_process] does not look at that value and returns True. *)
Theorem post_process_ignores_failed_conversion :
  convert_dict_to_list_tables vehicle_mixed_keys
  = (vehicle_mixed_keys, PBool false)
  /\ post_process vehicle_mixed_keys = (vehicle_mixed_keys, Ok true).
Proof. split; vm_compute; reflexivity. Qed.

(* ------------------------------------------------------------------ *)
(** ** Claims on the table-schema processor *)

Section TableProofs.

Variable Metadata_merge : pydict -> pydict -> pydict.
Variable pickled : Type.
Variable pickle_dumps : pyval -> pickled.
Variable pickle_loads : pickled -> pyval.
Variable pickled_eqb : pickled -> pickled -> bool.

Local Abbreviation process_table :=
  (process_table_with_schema_destructive Metadata_merge pickled
     pickle_dumps pickle_loads pickled_eqb).
Local Abbreviation fingerprint := (encoded pickle_dumps).

(** The walk keeps the number of rows; it completes only when no row
    fails, with a count that has not decreased, and it returns -1 exactly
    at the first failing row, leaving that row and the rows after it as
    they were. *)
Lemma process_rows_exit header hs :
  forall rows rk opts nd n rows' nd' ex,
    process_rows Metadata_merge header hs rows rk opts nd n = (rows', nd', ex) ->
    List.length rows' = List.length rows /\
    match ex with
    | Completed m => n <= m /\ existsb (row_fails hs) rows = false
    | Failed =>
        exists pre bad post pre' k,
          rows = (pre ++ bad :: post)%list /\
          row_fails hs bad = true /\
          existsb (row_fails hs) pre = false /\
          rows' = (pre' ++ bad :: post)%list /\
          process_rows Metadata_merge header hs pre rk opts nd n = (pre', nd', Completed k)
    | Aborted _ => True
    end.
Proof.
  induction rows as [|row rest IH]; intros rk opts nd n rows' nd' ex H.
  - simpl in H. inversion H; subst. split; [reflexivity|]. split; [lia|reflexivity].
  - simpl in H.
    destruct row as [| b | z | f | s | cells | d | | m];
      try (inversion H; subst; split; [reflexivity|];
           exists []; eexists; exists rest, [], n; simpl;
           repeat split; reflexivity).
    + (* list row *)
      destruct (hs + 1 <? llen cells) eqn:Hlen.
      { inversion H; subst. split; [reflexivity|].
        exists [], (PList cells), rest, [], n. simpl. rewrite Hlen.
        repeat split; reflexivity. }
      destruct (process_list_row Metadata_merge header hs opts rk cells)
        as [row' [[new_id new_row]|e]] eqn:Hrow.
      2:{ inversion H; subst. simpl. auto. }
      destruct (hashable new_id) eqn:Hh.
      2:{ inversion H; subst. simpl. auto. }
      destruct (process_rows Metadata_merge header hs rest (rk + 1) opts
                  (dict_set nd new_id (PDict new_row)) (n + 1))
        as [[rest' nd1] ex1] eqn:Hrest.
      inversion H; subst.
      destruct (IH _ _ _ _ _ _ _ Hrest) as [Hl Hex].
      split; [simpl; congruence|].
      destruct ex as [m| |e].
      * destruct Hex as [Hm Hno]. split; [lia|]. simpl. rewrite Hlen. exact Hno.
      * destruct Hex as (pre & bad & post & pre' & k & -> & Hbad & Hpre & -> & Hp).
        exists (PList cells :: pre), bad, post, (PList row' :: pre'), k.
        simpl. rewrite Hlen, Hrow, Hh, Hp. repeat split; auto.
      * exact I.
    + (* dict row *)
      destruct (process_dict_row Metadata_merge opts d) as [row' [opts'|e]] eqn:Hrow.
      2:{ inversion H; subst. simpl. auto. }
      destruct (process_rows Metadata_merge header hs rest (rk + 1) opts' nd n)
        as [[rest' nd1] ex1] eqn:Hrest.
      inversion H; subst.
      destruct (IH _ _ _ _ _ _ _ Hrest) as [Hl Hex].
      split; [simpl; congruence|].
      destruct ex as [m| |e].
      * destruct Hex as [Hm Hno]. split; [lia|]. simpl. exact Hno.
      * destruct Hex as (pre & bad & post & pre' & k & -> & Hbad & Hpre & -> & Hp).
        exists (PDict d :: pre), bad, post, (PDict row' :: pre'), k.
        simpl. rewrite Hrow, Hp. repeat split; auto.
      * exact I.
Qed.


Lemma existsb_middle {A : Type} (f : A -> bool) pre x post :
  f x = true -> existsb f (pre ++ x :: post) = true.
Proof.
  intros H. rewrite existsb_app. simpl. rewrite H.
  rewrite orb_true_r. reflexivity.
Qed.

(** The rows before a point are processed the same whatever follows. *)
Lemma process_rows_app header hs :
  forall pre rest rk opts nd n pre' nd1 k,
    process_rows Metadata_merge header hs pre rk opts nd n = (pre', nd1, Completed k) ->
    exists opts1,
      process_rows Metadata_merge header hs (pre ++ rest) rk opts nd n
      = (let '(rest', nd2, ex) :=
           process_rows Metadata_merge header hs rest (rk + llen pre) opts1 nd1 k in
         ((pre' ++ rest')%list, nd2, ex)).
Proof.
  induction pre as [|row pre IH]; intros rest rk opts nd n pre' nd1 k H.
  - simpl in H. inversion H; subst. exists opts. simpl.
    replace (rk + llen (@nil pyval)) with rk by (unfold llen; simpl; lia).
    destruct (process_rows Metadata_merge header hs rest rk opts nd1 k) as [[a b] c].
    reflexivity.
  - simpl in H.
    destruct row as [| b | z | f | s | cells | d | | m]; try discriminate H.
    + destruct (hs + 1 <? llen cells) eqn:Hlen; [discriminate H|].
      destruct (process_list_row Metadata_merge header hs opts rk cells)
        as [row' [[new_id new_row]|e]] eqn:Hrow; [|discriminate H].
      destruct (hashable new_id) eqn:Hh; [|discriminate H].
      destruct (process_rows Metadata_merge header hs pre (rk + 1) opts
                  (dict_set nd new_id (PDict new_row)) (n + 1))
        as [[p1 n1] e1] eqn:Hp.
      inversion H; subst.
      destruct (IH rest _ _ _ _ _ _ _ Hp) as [opts1 E].
      exists opts1. simpl. rewrite Hlen, Hrow, Hh, E.
      replace (rk + llen (PList cells :: pre)) with (rk + 1 + llen pre)
        by (unfold llen; simpl List.length; lia).
      destruct (process_rows Metadata_merge header hs rest (rk + 1 + llen pre) opts1 nd1 k)
        as [[a b] c]. reflexivity.
    + destruct (process_dict_row Metadata_merge opts d)
        as [row' [opts'|e]] eqn:Hrow; [|discriminate H].
      destruct (process_rows Metadata_merge header hs pre (rk + 1) opts' nd n)
        as [[p1 n1] e1] eqn:Hp.
      inversion H; subst.
      destruct (IH rest _ _ _ _ _ _ _ Hp) as [opts1 E].
      exists opts1. simpl. rewrite Hrow, E.
      replace (rk + llen (PDict d :: pre)) with (rk + 1 + llen pre)
        by (unfold llen; simpl List.length; lia).
      destruct (process_rows Metadata_merge header hs rest (rk + 1 + llen pre) opts1 nd1 k)
        as [[a b] c]. reflexivity.
Qed.



Lemma memo_get_set_other memo key x k v :
  memo_get pickled_eqb memo key = None ->
  memo_get pickled_eqb memo k = Some v ->
  memo_get pickled_eqb (memo_set pickled_eqb memo key x) k = Some v.
Proof.
  induction memo as [|[k' v'] r IH]; simpl; intros Hkey Hk; [discriminate|].
  destruct (key_eqb pickled pickled_eqb k' key) eqn:E1; [discriminate|].
  simpl. destruct (key_eqb pickled pickled_eqb k' k); [exact Hk|].
  apply IH; assumption.
Qed.

Hypothesis pickle_loads_dumps : forall v, pickle_loads (pickle_dumps v) = v.
Hypothesis pickled_eqb_refl : forall a, pickled_eqb a a = true.

Lemma memo_get_set_same memo key x :
  memo_get pickled_eqb (memo_set pickled_eqb memo key x) key = Some x.
Proof.
  induction memo as [|[k' v'] r IH]; simpl.
  - unfold key_eqb. rewrite !pickled_eqb_refl. reflexivity.
  - destruct (key_eqb pickled pickled_eqb k' key) eqn:E; simpl; rewrite E;
      [reflexivity | exact IH].
Qed.


Hypothesis merge_empty : Metadata_merge [] [] = [].


End TableProofs.

(** The claims above, run on concrete tables with the stand-ins for pickle
    and for the merge of metadata. *)





(* ------------------------------------------------------------------ *)
(** ** Claims on row insertion *)

Lemma clamp_idx_in len i : 0 <= i <= len -> clamp_idx len i = i.
Proof.
  intros H. unfold clamp_idx.
  destruct (i <? 0) eqn:E; [apply Z.ltb_lt in E; lia|]. lia.
Qed.

Lemma py_insert_splice {A : Type} (l : list A) (i : nat) (xs : list A) (x : A) :
  (i <= List.length l)%nat ->
  py_insert (splice l i xs) (Z.of_nat i + llen xs) x = splice l i (xs ++ [x]).
Proof.
  intros Hi. unfold py_insert, splice, llen.
  rewrite clamp_idx_in.
  2:{ rewrite !length_app, firstn_length_le by exact Hi. lia. }
  replace (Z.to_nat (Z.of_nat i + Z.of_nat (List.length xs)))
    with (List.length (firstn i l ++ xs)) 
    by (rewrite length_app, firstn_length_le by exact Hi; lia).
  rewrite (app_assoc (firstn i l) xs (skipn i l)).
  rewrite firstn_app, firstn_all, Nat.sub_diag, firstn_O, app_nil_r.
  rewrite skipn_app, skipn_all, Nat.sub_diag. simpl.
  rewrite <- !app_assoc. reflexivity.
Qed.

Lemma py_insert_splice_at {A : Type} (l : list A) (i : nat) (xs : list A)
    (j : Z) (x : A) :
  (i <= List.length l)%nat ->
  j = Z.of_nat i + llen xs ->
  py_insert (splice l i xs) j x = splice l i (xs ++ [x]).
Proof. intros Hi ->. apply py_insert_splice. exact Hi. Qed.

Lemma splice_nil {A : Type} (l : list A) i : splice l i [] = l.
Proof. unfold splice. simpl. apply firstn_skipn. Qed.

Lemma llen_app {A : Type} (a b : list A) : llen (a ++ b) = llen a + llen b.
Proof. unfold llen. rewrite length_app. lia. Qed.

Lemma llen_cons {A : Type} (x : A) (l : list A) : llen (x :: l) = 1 + llen l.
Proof. unfold llen. simpl List.length. lia. Qed.

Lemma llen_nil {A : Type} : llen (@nil A) = 0.
Proof. reflexivity. Qed.

Lemma bind_ok {A B : Type} (r : res A) (k : A -> res B) b :
  bind r k = Ok b -> exists a, r = Ok a /\ k a = Ok b.
Proof. destruct r; simpl; intros H; [eauto | discriminate]. Qed.

Lemma insert_row_splice l i xs j node_id node_pos out :
  (i <= List.length l)%nat ->
  j = Z.of_nat i + llen xs ->
  insert_row (splice l i xs) j node_id node_pos = (out, Ok tt) ->
  exists row,
    row_tokens node_id node_pos = Ok row /\
    llen row = 9 /\
    out = splice l i (xs ++ row).
Proof.
  intros Hi Hj H. unfold insert_row in H. unfold row_tokens.
  destruct node_pos as [[x y] z].
  repeat (erewrite py_insert_splice_at in H;
          [ | exact Hi | rewrite ?llen_app, ?llen_cons, ?llen_nil; lia ]).
  destruct (get_float_precision (PFloat x)) as [px|e]; [|discriminate H].
  repeat (erewrite py_insert_splice_at in H;
          [ | exact Hi | rewrite ?llen_app, ?llen_cons, ?llen_nil; lia ]).
  destruct (get_float_precision (PFloat y)) as [py|e]; [|discriminate H].
  repeat (erewrite py_insert_splice_at in H;
          [ | exact Hi | rewrite ?llen_app, ?llen_cons, ?llen_nil; lia ]).
  destruct (get_float_precision (PFloat z)) as [pz|e]; [|discriminate H].
  repeat (erewrite py_insert_splice_at in H;
          [ | exact Hi | rewrite ?llen_app, ?llen_cons, ?llen_nil; lia ]).
  inversion H; subst. simpl.
  eexists. split; [reflexivity|]. split; [reflexivity|].
  rewrite <- !app_assoc. reflexivity.
Qed.

(** The loop over the rows when no separator is left to extend: each row is
    preceded by a token holding the indentation. *)
Lemma insert_rows_none_splice indent :
  forall nodes l i xs j out i',
    (i <= List.length l)%nat ->
    j = Z.of_nat i + llen xs ->
    insert_rows (splice l i xs) j None indent nodes = (out, Ok i') ->
    exists rows,
      rows_layout indent nodes = Ok rows /\
      let added :=
        match nodes with
        | [] => []
        | _ :: _ => wsc_node indent :: rows
        end in
      out = splice l i (xs ++ added) /\ i' = Z.of_nat i + llen (xs ++ added).
Proof.
  induction nodes as [|[node_id node_pos] rest IH];
    intros l i xs j out i' Hi Hj H.
  - simpl in H. inversion H; subst. exists []. split; [reflexivity|].
    simpl. rewrite app_nil_r. auto.
  - simpl in H.
    erewrite py_insert_splice_at in H; [ | exact Hi | lia ].
    destruct (insert_row (splice l i (xs ++ [wsc_node indent])) (j + 1)
                node_id node_pos) as [a' [[]|e]] eqn:Hrow; [|discriminate H].
    apply insert_row_splice in Hrow;
      [ | exact Hi | rewrite llen_app, llen_cons, llen_nil; lia ].
    destruct Hrow as (row & Hrt & Hlen & ->).
    destruct rest as [|next rest'].
    + simpl in H. inversion H; subst.
      exists row. simpl. rewrite Hrt. simpl. rewrite app_nil_r.
      split; [reflexivity|].
      rewrite <- !app_assoc. simpl. split; [reflexivity|].
      rewrite llen_app, llen_cons, Hlen. lia.
    + erewrite py_insert_splice_at in H;
        [ | exact Hi
          | rewrite !llen_app, Hlen, !llen_cons, llen_nil; lia ].
      apply IH in H;
        [ | exact Hi
          | rewrite !llen_app, Hlen, !llen_cons, llen_nil; lia ].
      destruct H as (rows & Hrows & Hout & Hi').
      change (rows_layout indent ((node_id, node_pos) :: next :: rest'))
        with (row <- row_tokens node_id node_pos ;;
              more <- rows_layout indent (next :: rest') ;;
              Ok (row ++ wsc_node "," :: wsc_node indent :: more)%list).
      rewrite Hrt, Hrows. simpl bind.
      eexists. split; [reflexivity|].
      cbv zeta in Hout, Hi' |- *. rewrite Hout, Hi'.
      rewrite <- !app_assoc. simpl. auto.
Qed.

Lemma firstn_S_set_at {A : Type} (l : list A) p x y :
  nth_error l p = Some y ->
  firstn (S p) (set_at l p x) = (firstn p l ++ [x])%list.
Proof.
  revert p. induction l as [|z r IH]; intros [|p] H; simpl in *; try discriminate.
  - reflexivity.
  - f_equal. apply IH. exact H.
Qed.

Lemma skipn_S_set_at {A : Type} (l : list A) p x :
  skipn (S p) (set_at l p x) = skipn (S p) l.
Proof.
  revert p. induction l as [|z r IH]; intros [|p]; simpl; auto.
  apply (IH p).
Qed.

Lemma firstn_set_at {A : Type} (l : list A) p x :
  firstn p (set_at l p x) = firstn p l.
Proof.
  revert p. induction l as [|z r IH]; intros [|p]; simpl; auto.
  f_equal. apply IH.
Qed.

Lemma nth_error_lt {A : Type} (l : list A) p x :
  nth_error l p = Some x -> (p < List.length l)%nat.
Proof. intros H. apply nth_error_Some. congruence. Qed.

(** The loop over the rows when the separator after the last row is still
    to be extended: it receives the indentation, and the rows follow it. *)
Lemma insert_rows_some_splice indent node rest l p n s out i' :
  nth_error l p = Some n ->
  node_text n = Ok s ->
  insert_rows l (Z.of_nat p + 1) (Some p) indent (node :: rest) = (out, Ok i') ->
  exists rows,
    rows_layout indent (node :: rest) = Ok rows /\
    out = (firstn p l ++ set_value n (PStr (s ++ indent)) :: rows
           ++ skipn (S p) l)%list /\
    i' = Z.of_nat p + 1 + llen rows.
Proof.
  intros Hn Hs H. destruct node as [node_id node_pos].
  simpl in H. rewrite Hn, Hs in H.
  set (n' := set_value n (PStr (s ++ indent))) in *.
  set (l' := set_at l p n') in *.
  assert (Hlen : (S p <= List.length l')%nat).
  { unfold l'. rewrite set_at_length. apply nth_error_lt in Hn. lia. }
  rewrite <- (splice_nil l' (S p)) in H.
  destruct (insert_row (splice l' (S p) []) (Z.of_nat p + 1) node_id node_pos)
    as [a' [[]|e]] eqn:Hrow; [|discriminate H].
  apply insert_row_splice in Hrow; [ | exact Hlen | rewrite llen_nil; lia ].
  destruct Hrow as (row & Hrt & Hrl & ->). simpl app in H.
  assert (Hsplice : forall xs,
    splice l' (S p) xs = (firstn p l ++ n' :: xs ++ skipn (S p) l)%list).
  { intros xs. unfold splice, l'.
    rewrite (firstn_S_set_at _ _ _ _ Hn), skipn_S_set_at.
    rewrite <- app_assoc. reflexivity. }
  destruct rest as [|next rest'].
  - simpl in H. inversion H; subst.
    exists row. simpl. rewrite Hrt. simpl. rewrite app_nil_r.
    split; [reflexivity|]. split; [apply Hsplice | lia].
  - erewrite py_insert_splice_at in H; [ | exact Hlen | lia ].
    apply insert_rows_none_splice in H;
      [ | exact Hlen | rewrite llen_app, Hrl, llen_cons, llen_nil; lia ].
    destruct H as (rows & Hrows & Hout & Hi').
    change (rows_layout indent ((node_id, node_pos) :: next :: rest'))
      with (row <- row_tokens node_id node_pos ;;
            more <- rows_layout indent (next :: rest') ;;
            Ok (row ++ wsc_node "," :: wsc_node indent :: more)%list).
    rewrite Hrt, Hrows. simpl bind.
    eexists. split; [reflexivity|].
    cbv zeta in Hout, Hi'. rewrite Hout, Hi', Hsplice.
    rewrite <- !app_assoc. simpl app. split; [reflexivity|].
    rewrite !llen_app, !llen_cons. lia.
Qed.

Lemma str_len_list s : str_len s = llen (list_ascii_of_string s).
Proof.
  unfold str_len, llen. f_equal.
  induction s as [|c r IH]; simpl; [reflexivity|]. f_equal. exact IH.
Qed.

Lemma rfind_nl_from_none l k :
  rfind_nl_from l k = None -> ~ In newline l.
Proof.
  revert k. induction l as [|c r IH]; intros k H; simpl in *; [tauto|].
  destruct (rfind_nl_from r (k + 1)) eqn:E; [discriminate|].
  destruct (Ascii.eqb c newline) eqn:Ec; [discriminate|].
  intros [Hc|Hr].
  - subst. rewrite Ascii.eqb_refl in Ec. discriminate.
  - eapply IH; eauto.
Qed.

Lemma rfind_nl_from_some l :
  forall k j,
    rfind_nl_from l k = Some j ->
    exists a b,
      l = (a ++ newline :: b)%list /\ ~ In newline b /\ j = k + llen a.
Proof.
  induction l as [|c r IH]; intros k j H; simpl in H; [discriminate|].
  destruct (rfind_nl_from r (k + 1)) as [j'|] eqn:E.
  - inversion H; subst. destruct (IH _ _ E) as (a & b & -> & Hb & Hj).
    exists (c :: a), b. simpl. repeat split; auto.
    rewrite llen_cons. lia.
  - destruct (Ascii.eqb c newline) eqn:Ec; [|discriminate].
    inversion H; subst. apply Ascii.eqb_eq in Ec. subst c.
    exists [], r. simpl. repeat split.
    + eapply rfind_nl_from_none. exact E.
    + rewrite llen_nil. lia.
Qed.

(** The level is the number of characters after the last newline. *)
Lemma rfind_nl_level s k :
  rfind_nl s = Some k ->
  exists a b,
    list_ascii_of_string s = (a ++ newline :: b)%list /\
    ~ In newline b /\
    str_len s - k - 1 = llen b.
Proof.
  unfold rfind_nl. intros H.
  destruct (rfind_nl_from_some _ _ _ H) as (a & b & E & Hb & Hk).
  exists a, b. repeat split; auto.
  rewrite str_len_list, E, llen_app, llen_cons. lia.
Qed.

Lemma is_wsc_eq d : is_wsc d = true <-> d = DT_wsc.
Proof. destruct d; simpl; split; intros H; try discriminate; reflexivity. Qed.

(** What the backward scan returns: the level read in the first separator
    token with a newline that it meets, no token between that one and the
    start of the scan being a separator with a newline; or nothing, no token
    of the scanned range being one. *)
Lemma scan_indent_spec fuel :
  forall ast j kb lvl kb',
    scan_indent fuel ast j kb = Ok (lvl, kb') ->
    let clear_between (lo hi : Z) :=
      forall j'' node'' s'',
        lo < j'' <= hi ->
        py_nth ast j'' = Some node'' ->
        data_type node'' = DT_wsc ->
        value node'' = PStr s'' ->
        rfind_nl s'' = None in
    match lvl with
    | Some n =>
        exists j' node s k,
          j - Z.of_nat fuel < j' <= j /\
          py_nth ast j' = Some node /\
          data_type node = DT_wsc /\
          value node = PStr s /\
          rfind_nl s = Some k /\
          n = str_len s - k - 1 /\
          clear_between j' j
    | None => clear_between (j - Z.of_nat fuel) j
    end.
Proof.
  induction fuel as [|f IH]; intros ast j kb lvl kb' H clear_between.
  - simpl in H. inversion H; subst. unfold clear_between. intros; lia.
  - simpl in H.
    destruct (py_nth ast j) as [node_j|] eqn:Hj; [|discriminate].
    assert (Hstep : forall kb1 ,
      scan_indent f ast (j - 1) kb1 = Ok (lvl, kb') ->
      (forall s, data_type node_j = DT_wsc -> value node_j = PStr s ->
                 rfind_nl s = None) ->
      match lvl with
      | Some n =>
          exists j' node s k,
            j - Z.of_nat (S f) < j' <= j /\
            py_nth ast j' = Some node /\
            data_type node = DT_wsc /\
            value node = PStr s /\
            rfind_nl s = Some k /\
            n = str_len s - k - 1 /\
            clear_between j' j
      | None => clear_between (j - Z.of_nat (S f)) j
      end).
    { intros kb1 Hrec Hhere. specialize (IH _ _ _ _ _ Hrec). cbv zeta in IH.
      destruct lvl as [n|].
      - destruct IH as (j' & node & s & k & Hr & Hn & Hd & Hv & Hk & Hl & Hc).
        exists j', node, s, k. repeat split; auto; try lia.
        unfold clear_between. intros j'' node'' s'' Hrange Hn'' Hd'' Hv''.
        destruct (Z.eq_dec j'' j) as [->|Hne].
        + rewrite Hj in Hn''. inversion Hn''; subst. eapply Hhere; eauto.
        + eapply Hc; eauto. lia.
      - unfold clear_between. intros j'' node'' s'' Hrange Hn'' Hd'' Hv''.
        destruct (Z.eq_dec j'' j) as [->|Hne].
        + rewrite Hj in Hn''. inversion Hn''; subst. eapply Hhere; eauto.
        + eapply IH; eauto. lia. }
    destruct (is_wsc (data_type node_j)) eqn:Hw.
    + apply is_wsc_eq in Hw.
      unfold node_text in H.
      destruct (value node_j) as [| | | | s | | | |] eqn:Hv; simpl in H;
        try discriminate.
      destruct (rfind_nl s) as [k|] eqn:Hk.
      * inversion H; subst.
        exists j, node_j, s, k. repeat split; auto; try lia.
        unfold clear_between. intros; lia.
      * eapply Hstep; [exact H|]. intros s0 _ E. inversion E; subst. exact Hk.
    + eapply Hstep; [exact H|]. intros s0 Hd _.
      apply is_wsc_eq in Hd. congruence.
Qed.

Lemma py_insert_end {A : Type} (pre post : list A) (j : Z) (x : A) :
  j = llen pre ->
  py_insert (pre ++ post) j x = (pre ++ x :: post)%list.
Proof.
  intros ->. unfold py_insert.
  rewrite clamp_idx_in by (rewrite llen_app; unfold llen; lia).
  unfold llen. rewrite Nat2Z.id.
  rewrite firstn_app, firstn_all, Nat.sub_diag, firstn_O, app_nil_r.
  rewrite skipn_app, skipn_all, Nat.sub_diag. reflexivity.
Qed.

Lemma resolve_idx_nonneg {A : Type} (l : list A) (i : Z) (p : nat) :
  0 <= i -> resolve_idx l i = Some p -> p = Z.to_nat i.
Proof.
  intros Hi. unfold resolve_idx.
  destruct (i <? 0) eqn:E; [apply Z.ltb_lt in E; lia|].
  destruct ((0 <=? i) && (i <? llen l)); intros H; inversion H; reflexivity.
Qed.




(* ------------------------------------------------------------------ *)
(** ** Row surgery on the token list *)

Lemma nth_error_mid {A : Type} (a b : list A) (x : A) :
  nth_error (a ++ x :: b) (List.length a) = Some x.
Proof. rewrite nth_error_app2 by lia. rewrite Nat.sub_diag. reflexivity. Qed.

Lemma set_at_mid {A : Type} (a b : list A) (x y : A) :
  set_at (a ++ x :: b) (List.length a) y = (a ++ y :: b)%list.
Proof. induction a as [|z r IH]; simpl; [reflexivity|]. f_equal. exact IH. Qed.

Lemma remove_at_mid {A : Type} (a b : list A) (x : A) :
  remove_at (a ++ x :: b) (List.length a) = (a ++ b)%list.
Proof.
  unfold remove_at.
  rewrite firstn_app, firstn_all, Nat.sub_diag, firstn_O, app_nil_r.
  replace (S (List.length a)) with (List.length (a ++ [x]))
    by (rewrite length_app; simpl; lia).
  replace (a ++ x :: b)%list with ((a ++ [x]) ++ b)%list
    by (rewrite <- app_assoc; reflexivity).
  rewrite skipn_app, skipn_all, Nat.sub_diag. reflexivity.
Qed.

Lemma resolve_idx_in {A : Type} (l : list A) (i : Z) :
  0 <= i < llen l -> resolve_idx l i = Some (Z.to_nat i).
Proof.
  intros H. unfold resolve_idx.
  destruct (i <? 0) eqn:E; [apply Z.ltb_lt in E; lia|].
  replace ((0 <=? i) && (i <? llen l)) with true; [reflexivity|].
  symmetry. apply andb_true_iff. split; [apply Z.leb_le | apply Z.ltb_lt]; lia.
Qed.

Lemma py_del_slice_mid {A : Type} (a m b : list A) (x y : Z) :
  x = llen a -> y = llen a + llen m ->
  py_del_slice (a ++ m ++ b) x y = (a ++ b)%list.
Proof.
  intros -> ->. unfold py_del_slice.
  rewrite !clamp_idx_in by (rewrite !llen_app; unfold llen; lia).
  unfold llen. rewrite Nat2Z.id.
  replace (Z.to_nat (Z.of_nat (List.length a) + Z.of_nat (List.length m)))
    with (List.length a + List.length m)%nat by lia.
  destruct (List.length a <? List.length a + List.length m)%nat eqn:E.
  - rewrite firstn_app, firstn_all, Nat.sub_diag, firstn_O, app_nil_r.
    rewrite skipn_app, skipn_all2 by lia.
    replace (List.length a + List.length m - List.length a)%nat
      with (List.length m) by lia.
    rewrite skipn_app, skipn_all, Nat.sub_diag. reflexivity.
  - apply Nat.ltb_ge in E. destruct m; [reflexivity|simpl in E; lia].
Qed.

Lemma layout_text_app l1 l2 :
  layout_text (l1 ++ l2) = (layout_text l1 ++ layout_text l2)%list.
Proof. unfold layout_text. apply flat_map_app. Qed.

Lemma chars_app s t : chars (s ++ t) = (chars s ++ chars t)%list.
Proof.
  unfold chars. rewrite <- map_app. f_equal.
  induction s as [|ch s IH]; simpl; [reflexivity|]. f_equal. exact IH.
Qed.

Lemma text_ok_fails n :
  is_wsc (data_type n) = true -> (forall s, value n <> PStr s) -> ~ text_ok n.
Proof. intros Hw Hv Hok. destruct (Hok Hw) as (s & E). exact (Hv s E). Qed.

Lemma node_text_cases n :
  (exists s, value n = PStr s /\ node_text n = Ok s) \/
  ((forall s, value n <> PStr s) /\ node_text n = Raise TypeError).
Proof.
  unfold node_text. destruct (value n); try (right; split; [discriminate|reflexivity]).
  left. eauto.
Qed.

(** The last stage of [delete_jbeam_node]: at two tokens [x] and [y] that
    have become neighbours, two separators are merged into one. *)
Lemma delete_merge_stage (A B : list ASTNode) (x y : ASTNode) (i : Z)
    (out : list ASTNode) (r : res Z) :
  i = llen A ->
  let a2 := (A ++ x :: y :: B)%list in
  match resolve_idx a2 i, resolve_idx a2 (i + 1) with
  | Some c, Some d =>
      match nth_error a2 c, nth_error a2 d with
      | Some curr_node, Some next_node =>
          if is_wsc (data_type curr_node)
             && is_wsc (data_type next_node) then
            match node_text curr_node,
                  node_text next_node with
            | Ok s1, Ok s2 =>
                let a3 :=
                  set_at a2 d
                    (set_value next_node
                       (PStr (s1 ++ s2))) in
                (remove_at a3 c, Ok (i - 1))
            | _, _ => (a2, Raise TypeError)
            end
          else (a2, Ok i)
      | _, _ => (a2, Raise IndexError)
      end
  | _, _ => (a2, Raise IndexError)
  end = (out, r) ->
  (r = Raise TypeError /\ ~ (text_ok x /\ text_ok y)) \/
  exists j mids,
    r = Ok j /\ out = (A ++ mids ++ B)%list /\
    j + 2 = llen A + llen mids /\ 1 <= llen mids <= 2 /\
    layout_text mids = layout_text [x; y].
Proof.
  intros Hi a2 H. subst i.
  assert (HA : 0 <= llen A) by (unfold llen; lia).
  assert (HB : 0 <= llen B) by (unfold llen; lia).
  assert (Hlen : llen a2 = llen A + 2 + llen B).
  { unfold a2. rewrite llen_app, !llen_cons. lia. }
  rewrite (resolve_idx_in a2 (llen A)) in H by lia.
  rewrite (resolve_idx_in a2 (llen A + 1)) in H by lia.
  replace (Z.to_nat (llen A)) with (List.length A) in H by (unfold llen in *; lia).
  replace (Z.to_nat (llen A + 1)) with (List.length (A ++ [x])) in H
    by (rewrite length_app; simpl; unfold llen in *; lia).
  assert (E2 : a2 = ((A ++ [x]) ++ y :: B)%list).
  { unfold a2. rewrite <- app_assoc. reflexivity. }
  unfold a2 in H at 1. rewrite nth_error_mid in H.
  rewrite E2 in H at 1. rewrite nth_error_mid in H.
  destruct (is_wsc (data_type x)) eqn:Wx.
  - destruct (is_wsc (data_type y)) eqn:Wy; simpl andb in H.
    + destruct (node_text_cases x) as [(s1 & Vx & Tx)|(Vx & Tx)]; rewrite Tx in H.
      2:{ left. inversion H; subst. split; [reflexivity|].
          intros [Hx _]. exact (text_ok_fails _ Wx Vx Hx). }
      destruct (node_text_cases y) as [(s2 & Vy & Ty)|(Vy & Ty)]; rewrite Ty in H.
      2:{ left. inversion H; subst. split; [reflexivity|].
          intros [_ Hy]. exact (text_ok_fails _ Wy Vy Hy). }
      cbv zeta in H.
      rewrite E2 in H. rewrite set_at_mid in H.
      rewrite <- app_assoc in H. simpl app in H.
      rewrite remove_at_mid in H.
      inversion H; subst out r. right.
      exists (llen A - 1), [set_value y (PStr (s1 ++ s2))].
      repeat split; try (rewrite ?llen_cons, ?llen_nil; lia).
      unfold layout_text. cbn [flat_map]. unfold token_text, set_value.
      cbn [data_type value].
      rewrite Wx, Wy, Vx, Vy, chars_app, !app_nil_r. reflexivity.
    + inversion H; subst out r. right. exists (llen A), [x; y].
      repeat split; try (rewrite ?llen_cons, ?llen_nil; lia).
  - simpl andb in H. inversion H; subst out r. right. exists (llen A), [x; y].
    repeat split; try (rewrite ?llen_cons, ?llen_nil; lia).
Qed.

(** The cut of the row and the merge that follows it, on a list in which
    the tokens around the row have their final text: [dr] tells whether the
    separator after the row has been taken out. *)
Lemma delete_cut_stage pre0 c prev' row next' post (dr : bool) out r :
  row <> [] ->
  let a1 := (pre0 ++ c :: prev' :: row
             ++ (if dr then post else next' :: post))%list in
  let a2 := py_del_slice a1 (llen pre0 + 2) (llen pre0 + 1 + llen row + 1) in
  let i := if dr then llen pre0 + 2 - 1 - 1 else llen pre0 + 2 - 1 in
  match resolve_idx a2 i, resolve_idx a2 (i + 1) with
  | Some c, Some d =>
      match nth_error a2 c, nth_error a2 d with
      | Some curr_node, Some next_node =>
          if is_wsc (data_type curr_node)
             && is_wsc (data_type next_node) then
            match node_text curr_node,
                  node_text next_node with
            | Ok s1, Ok s2 =>
                let a3 :=
                  set_at a2 d
                    (set_value next_node
                       (PStr (s1 ++ s2))) in
                (remove_at a3 c, Ok (i - 1))
            | _, _ => (a2, Raise TypeError)
            end
          else (a2, Ok i)
      | _, _ => (a2, Raise IndexError)
      end
  | _, _ => (a2, Raise IndexError)
  end = (out, r) ->
  (r = Raise TypeError /\
   ~ (text_ok c /\ text_ok prev' /\ (dr = false -> text_ok next'))) \/
  exists j mids,
    r = Ok j /\ out = (pre0 ++ mids ++ post)%list /\
    j + 2 = llen pre0 + llen mids /\ 1 <= llen mids <= 3 /\
    layout_text mids
    = layout_text ([c; prev'] ++ if dr then [] else [next']).
Proof.
  intros Hrow a1 a2 i H.
  assert (Ha2 : a2 = (pre0 ++ c :: prev'
                      :: (if dr then post else next' :: post))%list).
  { unfold a2, a1.
    change (pre0 ++ c :: prev' :: row ++ (if dr then post else next' :: post))%list
      with (pre0 ++ [c; prev'] ++ row ++ (if dr then post else next' :: post))%list.
    rewrite app_assoc.
    rewrite py_del_slice_mid
      by (rewrite ?llen_app, ?llen_cons, ?llen_nil; lia).
    rewrite <- app_assoc. reflexivity. }
  rewrite Ha2 in H. clear Ha2. clear a2 a1.
  destruct dr.
  - apply delete_merge_stage in H; [|unfold i; lia].
    destruct H as [[Hr Hn]|(j & mids & Hr & Ho & Hj & Hl & Ht)].
    + left. split; [exact Hr|]. intros (Hc & Hp & _). apply Hn. auto.
    + right. exists j, mids. repeat split; auto; try lia.
  - change (pre0 ++ c :: prev' :: next' :: post)%list
      with (pre0 ++ [c] ++ prev' :: next' :: post)%list in H.
    rewrite app_assoc in H.
    apply delete_merge_stage in H;
      [|unfold i; rewrite llen_app, llen_cons, llen_nil; lia].
    destruct H as [[Hr Hn]|(j & mids & Hr & Ho & Hj & Hl & Ht)].
    + left. split; [exact Hr|]. intros (Hc & Hp & Hx). apply Hn. auto.
    + right. exists j, (c :: mids). rewrite <- app_assoc in Ho.
      rewrite llen_app, llen_cons, llen_nil in Hj.
      repeat split; auto; try (rewrite llen_cons; lia).
      change (c :: mids) with ([c] ++ mids)%list.
      rewrite layout_text_app, Ht.
      change ([c; prev'] ++ [next'])%list with ([c] ++ [prev'; next'])%list.
      rewrite layout_text_app. reflexivity.
Qed.

Lemma find_nl_from_in l k : In newline l -> exists j, find_nl_from l k = Some j.
Proof.
  revert k. induction l as [|c r IH]; intros k H; simpl in *; [tauto|].
  destruct (Ascii.eqb c newline) eqn:E; [eauto|].
  destruct H as [H|H]; [subst; rewrite Ascii.eqb_refl in E; discriminate|].
  apply IH. exact H.
Qed.

Lemma find_nl_from_some l k j :
  find_nl_from l k = Some j -> In newline l.
Proof.
  revert k. induction l as [|c r IH]; intros k H; simpl in *; [discriminate|].
  destruct (Ascii.eqb c newline) eqn:E.
  - apply Ascii.eqb_eq in E. auto.
  - right. eapply IH. exact H.
Qed.

Lemma has_nl_rfind s : has_nl s = true -> exists r, rfind_nl s = Some r.
Proof.
  unfold has_nl, find_nl, rfind_nl. intros H.
  destruct (find_nl_from (list_ascii_of_string s) 0) as [j|] eqn:E;
    [|discriminate].
  apply find_nl_from_some in E.
  destruct (rfind_nl_from (list_ascii_of_string s) 0) as [r|] eqn:R; [eauto|].
  apply rfind_nl_from_none in R. contradiction.
Qed.

Lemma str_from_end s : str_from s (str_len s) = "".
Proof.
  unfold str_from. rewrite clamp_idx_in by (unfold str_len; lia).
  unfold str_len. rewrite Nat2Z.id.
  rewrite skipn_all2; [reflexivity|].
  clear. induction s; simpl; lia.
Qed.

Lemma str_len_zero s : str_len s <= 0 -> s = "".
Proof. unfold str_len. destruct s; simpl; [reflexivity|lia]. Qed.

Lemma text_ok_set n s : text_ok (set_value n (PStr s)).
Proof. intros _. exists s. reflexivity. Qed.

Lemma layout_text_wsc n s l :
  data_type n = DT_wsc -> value n = PStr s ->
  layout_text (n :: l) = (chars s ++ layout_text l)%list.
Proof.
  intros Hd Hv. unfold layout_text. cbn [flat_map]. unfold token_text.
  rewrite Hd, Hv. reflexivity.
Qed.

Lemma layout_text_set n s l :
  data_type n = DT_wsc ->
  layout_text (set_value n (PStr s) :: l) = (chars s ++ layout_text l)%list.
Proof. intros Hd. apply layout_text_wsc; [exact Hd|reflexivity]. Qed.

(** The stages of [delete_jbeam_node] on a row that has two tokens before
    it and one after it. *)
Lemma delete_jbeam_node_shape pre0 c prev row next post ss out r :
  row <> [] ->
  delete_jbeam_node (pre0 ++ c :: prev :: row ++ next :: post) ss
    (Some (llen pre0 + 2)) (Some (llen pre0 + 1 + llen row)) = (out, r) ->
  (r = Raise UnboundLocalError /\
   out = (pre0 ++ c :: prev :: row ++ next :: post)%list /\
   data_type next = DT_wsc /\ value next = PStr "")
  \/
  (r = Raise TypeError /\ ~ (text_ok c /\ text_ok prev /\ text_ok next))
  \/
  (exists i mids,
     r = Ok i /\ out = (pre0 ++ mids ++ post)%list /\
     i + 2 = llen pre0 + llen mids /\ 1 <= llen mids <= 3 /\
     (data_type next = DT_wsc -> value next <> PStr "") /\
     forall sp sn,
       data_type prev = DT_wsc -> value prev = PStr sp ->
       data_type next = DT_wsc -> value next = PStr sn ->
       layout_text mids
       = (layout_text [c]
          ++ chars (if has_nl sp && has_nl sn then
                      match rfind_nl sp with
                      | Some r0 => str_to sp (r0 + 1)
                      | None => sp
                      end
                    else sp)
          ++ chars (match find_nl sn with
                    | Some q => str_from sn (if has_nl sp then q + 1 else q)
                    | None => ""
                    end))%list).
Proof.
  intros Hrow H.
  set (P := (pre0 ++ [c])%list).
  assert (HP : llen P = llen pre0 + 1).
  { unfold P. rewrite llen_app, llen_cons, llen_nil. lia. }
  assert (Hrl : 1 <= llen row).
  { destruct row; [congruence|]. rewrite llen_cons. unfold llen. lia. }
  remember (pre0 ++ c :: prev :: row ++ next :: post)%list as ast eqn:E0.
  assert (E1 : ast = (P ++ prev :: (row ++ next :: post))%list).
  { subst ast. unfold P. rewrite <- app_assoc. reflexivity. }
  assert (E2 : ast = ((P ++ prev :: row) ++ next :: post)%list).
  { rewrite E1. rewrite <- app_assoc. reflexivity. }
  assert (Hn : llen (P ++ prev :: row) = llen pre0 + 2 + llen row).
  { rewrite llen_app, llen_cons, HP. lia. }
  assert (Hlen : llen ast = llen pre0 + 3 + llen row + llen post).
  { rewrite E2, llen_app, llen_cons, Hn. lia. }
  assert (Hp0 : 0 <= llen pre0) by (unfold llen; lia).
  assert (Hpo : 0 <= llen post) by (unfold llen; lia).
  unfold delete_jbeam_node in H.
  rewrite (resolve_idx_in ast (llen pre0 + 2 - 1)) in H by lia.
  rewrite (resolve_idx_in ast (llen pre0 + 1 + llen row + 1)) in H by lia.
  replace (Z.to_nat (llen pre0 + 2 - 1)) with (List.length P) in H
    by (unfold llen in *; lia).
  replace (Z.to_nat (llen pre0 + 1 + llen row + 1))
    with (List.length (P ++ prev :: row)) in H by (unfold llen in *; lia).
  rewrite E1 in H at 1. rewrite nth_error_mid in H.
  rewrite E2 in H at 1. rewrite nth_error_mid in H.
  assert (Hne : (List.length P =? List.length (P ++ prev :: row))%nat = false).
  { apply Nat.eqb_neq. rewrite length_app. simpl. lia. }
  assert (Hnl : (List.length (P ++ prev :: row) <? List.length P)%nat = false).
  { apply Nat.ltb_ge. rewrite length_app. lia. }
  rewrite Hne, Hnl in H. clear Hne Hnl.
  (* the side of the row that is alone on its line *)
  assert (Hleft : exists tl,
    (if is_wsc (data_type prev)
     then s <- node_text prev;; Ok (negb (has_nl s))
     else Ok true) = Ok tl /\
    (tl = false -> exists sp, value prev = PStr sp /\ has_nl sp = true) /\
    (forall sp, data_type prev = DT_wsc -> value prev = PStr sp ->
                tl = negb (has_nl sp))
    \/
    (if is_wsc (data_type prev)
     then s <- node_text prev;; Ok (negb (has_nl s))
     else Ok true) = Raise TypeError /\ ~ text_ok prev).
  { destruct (is_wsc (data_type prev)) eqn:Wp.
    - destruct (node_text_cases prev) as [(sp & Vp & Tp)|(Vp & Tp)]; rewrite Tp.
      + exists (negb (has_nl sp)). left. simpl. split; [reflexivity|]. split.
        * intros E. exists sp. split; [exact Vp|].
          destruct (has_nl sp); [reflexivity|discriminate].
        * intros sp' _ E. rewrite Vp in E. inversion E. reflexivity.
      + exists true. right. split; [reflexivity|].
        exact (text_ok_fails _ Wp Vp).
    - exists true. left. split; [reflexivity|]. split; [discriminate|].
      intros sp Hd _. rewrite Hd in Wp. discriminate. }
  destruct Hleft as (tl & [(Hl & Htl & Htl')|(Hl & Hbad)]); rewrite Hl in H.
  2:{ right. left. inversion H; subst. split; [reflexivity|]. tauto. }
  clear Hl.
  assert (Hlist : forall x T, (P ++ x :: T)%list = (pre0 ++ c :: x :: T)%list).
  { intros x T. unfold P. rewrite <- app_assoc. reflexivity. }
  destruct (is_wsc (data_type next)) eqn:Wn.
  2:{ (* no separator after the row *)
      rewrite andb_false_r in H. rewrite E0 in H.
      apply (delete_cut_stage pre0 c prev row next post false) in H;
        [|exact Hrow].
      destruct H as [[Hr Hbad]|(j & mids & Hr & Ho & Hj & Hm & Ht)].
      - right. left. split; [exact Hr|]. intros (Hc & Hp & Hx). apply Hbad. auto.
      - right. right. exists j, mids. repeat split; auto; try lia.
        + intros Hd. rewrite Hd in Wn. discriminate.
        + intros sp sn _ _ Hd _. rewrite Hd in Wn. discriminate. }
  destruct (node_text_cases next) as [(sn & Vn & Tn)|(Vn & Tn)]; rewrite Tn in H.
  2:{ right. left. inversion H; subst. split; [reflexivity|].
      intros (_ & _ & Hx). exact (text_ok_fails _ Wn Vn Hx). }
  apply is_wsc_eq in Wn.
  (* the index [k] at which the separator after the row is cut *)
  match type of H with
  | context [match ?ko with Some _ => _ | None => (ast, Raise UnboundLocalError) end] =>
      set (kopt := ko) in H
  end.
  destruct kopt as [k|] eqn:Hk.
  2:{ left. unfold kopt in Hk.
      destruct (find_nl sn); [discriminate|].
      destruct (0 <? str_len sn) eqn:L; [discriminate|].
      apply Z.ltb_ge in L. apply str_len_zero in L. subst sn.
      inversion H; subst. auto. }
  assert (HK : forall sp, tl = negb (has_nl sp) ->
    match find_nl sn with
    | Some q => str_from sn (if has_nl sp then q + 1 else q)
    | None => ""
    end = str_from sn (k + 1)).
  { intros sp Et. unfold kopt in Hk. destruct (find_nl sn) as [q|].
    - inversion Hk; subst k. rewrite Et.
      destruct (has_nl sp); cbn [negb]; f_equal; lia.
    - destruct (0 <? str_len sn); inversion Hk; subst k.
      replace (str_len sn - 1 + 1) with (str_len sn) by lia.
      symmetry. apply str_from_end. }
  assert (Hne : sn <> "").
  { intros ->. unfold kopt in Hk. vm_compute in Hk. discriminate. }
  clear Hk. clearbody kopt.
  (* the list and the flags after the separator has been cut *)
  assert (Hcut : exists dr T,
    (if k =? str_len sn - 1
     then
      (remove_at ast (Datatypes.length (P ++ prev :: row)),
       Ok (negb (has_nl sn), true, Some (Datatypes.length P), k))
     else
      (set_at ast (Datatypes.length (P ++ prev :: row))
         (set_value next (PStr (str_from sn (k + 1)))),
       Ok (negb (has_nl sn), false, Some (Datatypes.length P), k)))
    = ((P ++ prev :: row ++ T)%list,
       Ok (negb (has_nl sn), dr, Some (Datatypes.length P), k)) /\
    T = (if dr then post
         else set_value next (PStr (str_from sn (k + 1))) :: post) /\
    (dr = true -> str_from sn (k + 1) = "")).
  { destruct (k =? str_len sn - 1) eqn:Ek.
    - exists true, post. rewrite E2, remove_at_mid, <- app_assoc.
      split; [reflexivity|]. split; [reflexivity|]. intros _.
      apply Z.eqb_eq in Ek. rewrite Ek.
      replace (str_len sn - 1 + 1) with (str_len sn) by lia.
      apply str_from_end.
    - exists false, (set_value next (PStr (str_from sn (k + 1))) :: post).
      rewrite E2, set_at_mid, <- app_assoc.
      split; [reflexivity|]. split; [reflexivity|]. discriminate. }
  destruct Hcut as (dr & T & Hcut & HT & Hdr). rewrite Hcut in H. clear Hcut.
  (* the trimmed separator before the row *)
  assert (Htrim : exists prev',
    (if negb tl && negb (negb (has_nl sn))
     then
      match nth_error (P ++ prev :: row ++ T) (Datatypes.length P) with
      | Some pn =>
          match node_text pn with
          | Ok wscs =>
              (set_at (P ++ prev :: row ++ T) (Datatypes.length P)
                 (set_value pn
                    (PStr
                       (str_to wscs
                          (match rfind_nl wscs with
                           | Some r0 => r0
                           | None => if 0 <? str_len wscs then 0 else k
                           end + 1)))),
               Ok tt)
          | Raise e => ((P ++ prev :: row ++ T)%list, Raise e)
          end
      | None => ((P ++ prev :: row ++ T)%list, Raise IndexError)
      end
     else ((P ++ prev :: row ++ T)%list, Ok tt))
    = ((pre0 ++ c :: prev' :: row ++ T)%list, Ok tt) /\
    (text_ok prev -> text_ok prev') /\
    forall sp, data_type prev = DT_wsc -> value prev = PStr sp ->
      layout_text [prev']
      = chars (if has_nl sp && has_nl sn then
                 match rfind_nl sp with
                 | Some r0 => str_to sp (r0 + 1)
                 | None => sp
                 end
               else sp)).
  { assert (Hsame : forall sp, data_type prev = DT_wsc -> value prev = PStr sp ->
              layout_text [prev] = chars sp).
    { intros sp Hd Hv. rewrite (layout_text_wsc _ _ _ Hd Hv).
      apply app_nil_r. }
    destruct tl; cbn [negb andb].
    - exists prev. rewrite Hlist. split; [reflexivity|]. split; [auto|].
      intros sp Hd Hv. specialize (Htl' sp Hd Hv).
      destruct (has_nl sp); [discriminate|]. cbn [andb]. auto.
    - rewrite negb_involutive. destruct (has_nl sn) eqn:Hs.
      + destruct (Htl eq_refl) as (sp & Vp & Hsp).
        rewrite nth_error_mid. unfold node_text. rewrite Vp.
        rewrite set_at_mid, Hlist.
        eexists. split; [reflexivity|]. split; [intros _; apply text_ok_set|].
        intros sp' Hd Hv. inversion Hv; subst sp'.
        rewrite Hsp. cbn [andb].
        destruct (has_nl_rfind _ Hsp) as (r0 & Hr0). rewrite Hr0.
        rewrite (layout_text_set _ _ _ Hd). apply app_nil_r.
      + exists prev. rewrite Hlist. split; [reflexivity|]. split; [auto|].
        intros sp Hd Hv. rewrite andb_false_r. auto. }
  destruct Htrim as (prev' & Htrim & Hok & Htext).
  cbv beta iota zeta in H. rewrite Htrim in H. clear Htrim.
  cbv beta iota zeta in H. rewrite HT in H.
  apply (delete_cut_stage pre0 c prev' row
           (set_value next (PStr (str_from sn (k + 1)))) post dr) in H;
    [|exact Hrow].
  destruct H as [[Hr Hbad]|(j & mids & Hr & Ho & Hj & Hm & Ht)].
  - right. left. split; [exact Hr|]. intros (Hc & Hp & Hx). apply Hbad.
    split; [exact Hc|]. split; [auto|]. intros _. apply text_ok_set.
  - right. right. exists j, mids.
    split; [exact Hr|]. split; [exact Ho|]. split; [exact Hj|].
    split; [lia|]. split.
    { intros _ E. rewrite Vn in E. inversion E. contradiction. }
    intros sp sn' Hdp Hvp Hdn Hvn. rewrite Vn in Hvn. inversion Hvn; subst sn'.
    rewrite Ht.
    change ([c; prev'] ++ (if dr then [] else
              [set_value next (PStr (str_from sn (k + 1)))]))%list
      with ([c] ++ [prev'] ++ (if dr then [] else
              [set_value next (PStr (str_from sn (k + 1)))]))%list.
    rewrite !layout_text_app, (Htext sp Hdp Hvp).
    rewrite (HK sp (Htl' sp Hdp Hvp)).
    f_equal. f_equal.
    destruct dr.
    + rewrite (Hdr eq_refl). reflexivity.
    + rewrite (layout_text_set _ _ _ Wn). apply app_nil_r.
Qed.

Lemma find_nl_from_split l :
  forall k j,
    find_nl_from l k = Some j ->
    exists a b,
      l = (a ++ newline :: b)%list /\ ~ In newline a /\ j = k + llen a.
Proof.
  induction l as [|c r IH]; intros k j H; simpl in H; [discriminate|].
  destruct (Ascii.eqb c newline) eqn:Ec.
  - inversion H; subst. apply Ascii.eqb_eq in Ec. subst c.
    exists [], r. repeat split; auto. rewrite llen_nil. lia.
  - destruct (IH _ _ H) as (a & b & -> & Ha & Hj).
    exists (c :: a), b. repeat split.
    + intros [E|E]; [|tauto]. subst c. rewrite Ascii.eqb_refl in Ec.
      discriminate.
    + rewrite llen_cons. lia.
Qed.

Lemma find_nl_split s k :
  find_nl s = Some k ->
  exists a b,
    list_ascii_of_string s = (a ++ newline :: b)%list /\
    ~ In newline a /\ k = llen a.
Proof.
  unfold find_nl. intros H.
  destruct (find_nl_from_split _ _ _ H) as (a & b & E & Ha & Hk).
  exists a, b. repeat split; auto.
Qed.

Lemma string_of_list_ascii_app a b :
  string_of_list_ascii (a ++ b)
  = (string_of_list_ascii a ++ string_of_list_ascii b)%string.
Proof. induction a as [|c a IH]; simpl; [reflexivity|]. f_equal. exact IH. Qed.

Lemma str_to_prefix s a b :
  list_ascii_of_string s = (a ++ b)%list ->
  str_to s (llen a) = string_of_list_ascii a.
Proof.
  intros E. unfold str_to. rewrite str_len_list, E.
  rewrite clamp_idx_in by (rewrite llen_app; unfold llen; lia).
  unfold llen. rewrite Nat2Z.id.
  rewrite firstn_app, firstn_all, Nat.sub_diag, firstn_O, app_nil_r.
  reflexivity.
Qed.

Lemma str_from_suffix s a b :
  list_ascii_of_string s = (a ++ b)%list ->
  str_from s (llen a) = string_of_list_ascii b.
Proof.
  intros E. unfold str_from. rewrite str_len_list, E.
  rewrite clamp_idx_in by (rewrite llen_app; unfold llen; lia).
  unfold llen. rewrite Nat2Z.id.
  rewrite skipn_app, skipn_all, Nat.sub_diag. reflexivity.
Qed.

Lemma string_of_list s l :
  list_ascii_of_string s = l -> s = string_of_list_ascii l.
Proof. intros <-. symmetry. apply string_of_list_ascii_of_string. Qed.

Lemma chars_of_list l : chars (string_of_list_ascii l) = map Ch l.
Proof. unfold chars. rewrite list_ascii_of_string_of_list_ascii. reflexivity. Qed.

Lemma rfind_has_nl s r : rfind_nl s = Some r -> has_nl s = true.
Proof.
  unfold rfind_nl, has_nl, find_nl. intros H.
  destruct (rfind_nl_from_some _ _ _ H) as (a & b & E & _).
  destruct (find_nl_from_in (list_ascii_of_string s) 0) as (j & Hj).
  { rewrite E. apply in_or_app. right. left. reflexivity. }
  rewrite Hj. reflexivity.
Qed.

Lemma nth_error_split_at {A : Type} (l : list A) (p : nat) (x : A) :
  nth_error l p = Some x -> l = (firstn p l ++ x :: skipn (S p) l)%list.
Proof.
  revert p. induction l as [|y r IH]; intros [|p] H; simpl in *;
    try discriminate.
  - inversion H. reflexivity.
  - f_equal. apply IH. exact H.
Qed.

(** A row with two tokens before it and one after it, cut out of the
    list. *)
Lemma row_context (ast : list ASTNode) (es ee : Z) :
  2 <= es <= ee -> ee + 1 < llen ast ->
  exists pre0 c prev row next post,
    ast = (pre0 ++ c :: prev :: row ++ next :: post)%list /\
    llen pre0 = es - 2 /\ llen row = ee - es + 1 /\ row <> [] /\
    pre0 = firstn (Z.to_nat (es - 2)) ast /\
    post = skipn (Z.to_nat (ee + 2)) ast /\
    nth_error ast (Z.to_nat (es - 2)) = Some c /\
    nth_error ast (Z.to_nat (es - 1)) = Some prev /\
    nth_error ast (Z.to_nat (ee + 1)) = Some next.
Proof.
  intros Hes Hee. unfold llen in Hee.
  set (a := Z.to_nat (es - 2)). set (n := Z.to_nat (ee - es + 1)).
  assert (Hlen : (a + 2 + n + 1 <= List.length ast)%nat) by lia.
  exists (firstn a ast).
  destruct (skipn a ast) as [|c l1] eqn:E1.
  { apply (f_equal (@List.length _)) in E1. rewrite length_skipn in E1.
    simpl in E1. lia. }
  destruct l1 as [|prev l2].
  { apply (f_equal (@List.length _)) in E1. rewrite length_skipn in E1.
    simpl in E1. lia. }
  assert (Hl2 : (n + 1 <= List.length l2)%nat).
  { apply (f_equal (@List.length _)) in E1. rewrite length_skipn in E1.
    simpl in E1. lia. }
  destruct (skipn n l2) as [|next post] eqn:E2.
  { apply (f_equal (@List.length _)) in E2. rewrite length_skipn in E2.
    simpl in E2. lia. }
  exists c, prev, (firstn n l2), next, post.
  assert (Hast : ast = (firstn a ast ++ c :: prev :: firstn n l2 ++ next :: post)%list).
  { rewrite <- E2, firstn_skipn, <- E1, firstn_skipn. reflexivity. }
  assert (Hfa : List.length (firstn a ast) = a) by (apply firstn_length_le; lia).
  assert (Hfn : List.length (firstn n l2) = n) by (apply firstn_length_le; lia).
  split; [exact Hast|].
  split; [unfold llen; rewrite Hfa; lia|].
  split; [unfold llen; rewrite Hfn; lia|].
  split.
  { intros E. rewrite E in Hfn. simpl in Hfn. lia. }
  split; [reflexivity|].
  split.
  { replace (Z.to_nat (ee + 2)) with (S n + (2 + a))%nat by lia.
    rewrite <- (skipn_skipn (S n) (2 + a) ast).
    rewrite <- (skipn_skipn 2 a ast), E1.
    change (skipn 2 (c :: prev :: l2)) with l2.
    replace (S n) with (1 + n)%nat by lia.
    rewrite <- (skipn_skipn 1 n l2), E2. reflexivity. }
  split.
  { pose proof (nth_error_mid (firstn a ast)
                  (prev :: firstn n l2 ++ next :: post) c) as Hm.
    rewrite Hfa, <- Hast in Hm. exact Hm. }
  split.
  { pose proof (nth_error_mid (firstn a ast ++ [c])
                  (firstn n l2 ++ next :: post) prev) as Hm.
    rewrite <- app_assoc in Hm. simpl app in Hm. rewrite <- Hast in Hm.
    rewrite length_app, Hfa in Hm. simpl in Hm.
    replace (Z.to_nat (es - 1)) with (a + 1)%nat by lia. exact Hm. }
  pose proof (nth_error_mid (firstn a ast ++ c :: prev :: firstn n l2)
                post next) as Hm.
  rewrite <- app_assoc in Hm. simpl app in Hm.
  rewrite <- Hast in Hm.
  rewrite length_app, Hfa in Hm. simpl in Hm. rewrite Hfn in Hm.
  replace (Z.to_nat (ee + 1)) with (a + S (S n))%nat by lia. exact Hm.
Qed.

(** X4: a call of [delete_jbeam_node] that returns, on a row that starts at
    index 2 or later and has a token after it, keeps every token up to the
    two before the row and every token past the one after the row; the
    returned index [i] is such that the tokens from [i + 2] on are those
    that followed the token after the row, it lies between [es - 3] and
    [es - 1], and the list shrinks by at least the tokens of the row. *)
Theorem delete_jbeam_node_frame :
  forall (ast_nodes : list ASTNode) (ss : option Z) (es ee : Z)
         (out : list ASTNode) (i : Z),
    2 <= es <= ee -> ee + 1 < llen ast_nodes ->
    delete_jbeam_node ast_nodes ss (Some es) (Some ee) = (out, Ok i) ->
    firstn (Z.to_nat (es - 2)) out = firstn (Z.to_nat (es - 2)) ast_nodes
    /\ skipn (Z.to_nat (i + 2)) out = skipn (Z.to_nat (ee + 2)) ast_nodes
    /\ es - 3 <= i <= es - 1
    /\ llen out + (ee - es + 1) <= llen ast_nodes.
Proof.
  intros ast ss es ee out i Hes Hee H.
  destruct (row_context ast es ee Hes Hee)
    as (pre0 & c & prev & row & next & post & Hast & Hl0 & Hlr & Hrow
        & Hpre & Hpost & _).
  rewrite Hast in H.
  replace es with (llen pre0 + 2) in H by lia.
  replace ee with (llen pre0 + 1 + llen row) in H by lia.
  apply delete_jbeam_node_shape in H; [|exact Hrow].
  destruct H as [(Hr & _)|[(Hr & _)|(j & mids & Hr & Ho & Hj & Hm & _)]];
    try discriminate.
  inversion Hr; subst j. clear Hr.
  assert (Hlp : List.length pre0 = Z.to_nat (es - 2)) by (unfold llen in Hl0; lia).
  rewrite <- Hpre, <- Hpost.
  split.
  { rewrite Ho, <- Hlp, firstn_app, firstn_all, Nat.sub_diag, firstn_O.
    apply app_nil_r. }
  split.
  { rewrite Ho, app_assoc.
    replace (Z.to_nat (i + 2)) with (List.length (pre0 ++ mids))
      by (rewrite length_app; unfold llen in *; lia).
    rewrite skipn_app, skipn_all, Nat.sub_diag. reflexivity. }
  split; [lia|].
  rewrite Ho, Hast, !llen_app, !llen_cons, !llen_app, !llen_cons. lia.
Qed.

(** X5: the text [delete_jbeam_node] leaves around a row that stands between
    two separators.  A row alone on its line (a newline before and after
    it) loses its indentation and the rest of its line with the newline; a
    row that follows another on its line and ends the line loses what
    follows it up to the newline; a row followed on its line by something
    else loses the whole separator after it.  All other text and tokens
    are kept. *)
Theorem delete_jbeam_node_text :
  forall (ast_nodes : list ASTNode) (ss : option Z) (es ee : Z)
         (out : list ASTNode) (i : Z) (prev next : ASTNode) (sp sn : string),
    2 <= es <= ee -> ee + 1 < llen ast_nodes ->
    nth_error ast_nodes (Z.to_nat (es - 1)) = Some prev ->
    data_type prev = DT_wsc -> value prev = PStr sp ->
    nth_error ast_nodes (Z.to_nat (ee + 1)) = Some next ->
    data_type next = DT_wsc -> value next = PStr sn ->
    delete_jbeam_node ast_nodes ss (Some es) (Some ee) = (out, Ok i) ->
    let before := layout_text (firstn (Z.to_nat (es - 1)) ast_nodes) in
    let after := layout_text (skipn (Z.to_nat (ee + 2)) ast_nodes) in
    (forall r q, rfind_nl sp = Some r -> find_nl sn = Some q ->
       layout_text out
       = (before ++ chars (str_to sp (r + 1))
          ++ chars (str_from sn (q + 1)) ++ after)%list)
    /\ (forall q, find_nl sp = None -> find_nl sn = Some q ->
          layout_text out
          = (before ++ chars sp ++ chars (str_from sn q) ++ after)%list)
    /\ (find_nl sn = None ->
          layout_text out = (before ++ chars sp ++ after)%list).
Proof.
  intros ast ss es ee out i prev next sp sn Hes Hee Hp Hdp Hvp Hn Hdn Hvn H.
  destruct (row_context ast es ee Hes Hee)
    as (pre0 & c & prev0 & row & next0 & post & Hast & Hl0 & Hlr & Hrow
        & Hpre & Hpost & Hc & Hp0 & Hn0).
  rewrite Hp in Hp0. inversion Hp0; subst prev0.
  rewrite Hn in Hn0. inversion Hn0; subst next0. clear Hp0 Hn0.
  rewrite Hast in H.
  replace es with (llen pre0 + 2) in H by lia.
  replace ee with (llen pre0 + 1 + llen row) in H by lia.
  apply delete_jbeam_node_shape in H; [|exact Hrow].
  destruct H as [(Hr & _)|[(Hr & _)|(j & mids & Hr & Ho & Hj & Hm & _ & Ht)]];
    try discriminate.
  specialize (Ht sp sn Hdp Hvp Hdn Hvn).
  assert (Hbefore : firstn (Z.to_nat (es - 1)) ast = (pre0 ++ [c])%list).
  { rewrite Hast at 1.
    change (pre0 ++ c :: prev :: row ++ next :: post)%list
      with (pre0 ++ [c] ++ prev :: row ++ next :: post)%list.
    rewrite app_assoc.
    replace (Z.to_nat (es - 1)) with (List.length (pre0 ++ [c]))
      by (rewrite length_app; simpl; unfold llen in *; lia).
    rewrite firstn_app, firstn_all, Nat.sub_diag, firstn_O.
    apply app_nil_r. }
  cbv zeta. rewrite Hbefore, <- Hpost, Ho, !layout_text_app, Ht.
  rewrite <- !app_assoc.
  split; [|split].
  - intros r q Hr' Hq.
    rewrite (rfind_has_nl _ _ Hr'), Hr', Hq.
    unfold has_nl at 1. rewrite Hq. cbn [andb].
    rewrite <- ?app_assoc. reflexivity.
  - intros q Hsp Hq. unfold has_nl. rewrite Hsp, Hq. cbn [andb].
    rewrite <- ?app_assoc. reflexivity.
  - intros Hq. unfold has_nl at 2. rewrite Hq, andb_false_r.
    rewrite <- ?app_assoc. reflexivity.
Qed.

(** X6: on a list whose separators hold strings, with a row that starts at
    index 2 or later and has a token after it, [delete_jbeam_node] raises
    UnboundLocalError and leaves the list as it is when the token after the
    row is a separator with empty text, and returns an index in every other
    case. *)
Theorem delete_jbeam_node_fails_on_empty_separator :
  forall (ast_nodes : list ASTNode) (ss : option Z) (es ee : Z)
         (next : ASTNode),
    2 <= es <= ee -> ee + 1 < llen ast_nodes ->
    Forall text_ok ast_nodes ->
    nth_error ast_nodes (Z.to_nat (ee + 1)) = Some next ->
    let empty := data_type next = DT_wsc /\ value next = PStr "" in
    (empty ->
     delete_jbeam_node ast_nodes ss (Some es) (Some ee)
     = (ast_nodes, Raise UnboundLocalError))
    /\ (~ empty ->
        exists i,
          snd (delete_jbeam_node ast_nodes ss (Some es) (Some ee)) = Ok i).
Proof.
  intros ast ss es ee next Hes Hee Hok Hn.
  destruct (row_context ast es ee Hes Hee)
    as (pre0 & c & prev & row & next0 & post & Hast & Hl0 & Hlr & Hrow
        & Hpre & Hpost & Hc & Hp & Hn0).
  rewrite Hn in Hn0. inversion Hn0; subst next0. clear Hn0.
  rewrite Forall_forall in Hok.
  assert (Hoks : text_ok c /\ text_ok prev /\ text_ok next).
  { repeat split; apply Hok; eapply nth_error_In; eauto. }
  destruct (delete_jbeam_node ast ss (Some es) (Some ee)) as [out r] eqn:H.
  pose proof H as H'. rewrite Hast in H'.
  replace es with (llen pre0 + 2) in H' by lia.
  replace ee with (llen pre0 + 1 + llen row) in H' by lia.
  apply delete_jbeam_node_shape in H'; [|exact Hrow].
  rewrite <- Hast in H'. cbv zeta.
  destruct H' as [(Hr & Ho & Hd & Hv)|[(Hr & Hbad)|(j & mids & Hr & _ & _ & _ & Hne & _)]].
  - subst. split; [reflexivity|]. intros Hne. exfalso. apply Hne. auto.
  - contradiction.
  - subst r. split.
    + intros [Hd Hv]. exfalso. exact (Hne Hd Hv).
    + intros _. exists j. reflexivity.
Qed.

(** What [add_jbeam_nodes] returns for a non-empty map of rows, by the kind
    of the token that follows the last row. *)
Lemma add_jbeam_nodes_shape ast_nodes ss se es ee node rest out i' sep :
  0 <= ee ->
  nth_error ast_nodes (Z.to_nat (ee + 1)) = Some sep ->
  add_jbeam_nodes ast_nodes (Some ss) (Some se) es (Some ee) (node :: rest)
    = (out, Ok i') ->
  exists lvl rows,
    indent_level ast_nodes ss se = Ok lvl /\
    rows_layout (String newline (spaces (Z.to_nat lvl))) (node :: rest)
      = Ok rows /\
    i' = ee + 3 + llen rows /\
    let indent := String newline (spaces (Z.to_nat lvl)) in
    let pre := firstn (Z.to_nat (ee + 1)) ast_nodes in
    let post := skipn (Z.to_nat (ee + 2)) ast_nodes in
    if is_wsc (data_type sep) then
      exists w, value sep = PStr w /\
        match find_nl w with
        | Some k =>
            out = (pre ++ set_value sep (PStr (str_to w k ++ indent)) :: rows
                   ++ wsc_node (str_from w k) :: post)%list
        | None =>
            out = (pre ++ set_value sep
                            (PStr (str_to w (str_len w - 1) ++ indent)) :: rows
                   ++ post)%list
        end
    else
      out = (pre ++ wsc_node indent :: rows ++ sep :: post)%list.
Proof.
  intros Hee Hsep H.
  unfold add_jbeam_nodes in H. unfold indent_level.
  destruct (scan_indent (Z.to_nat (se - 2 - ss)) ast_nodes (se - 2) false)
    as [[lvl kb]|e] eqn:Hscan; [|discriminate H].
  simpl bind. simpl fst.
  set (level := match lvl with Some n => n | None => 8 end) in *.
  set (indent := String newline (spaces (Z.to_nat level))) in *.
  destruct (resolve_idx ast_nodes (ee + 1)) as [p|] eqn:Hp; [|discriminate H].
  assert (E : p = Z.to_nat (ee + 1))
    by (eapply resolve_idx_nonneg; [|exact Hp]; lia).
  assert (Hpe : Z.of_nat p = ee + 1) by lia.
  replace (Z.to_nat (ee + 2)) with (S p) by lia.
  rewrite <- E in *. rewrite Hsep in H.
  assert (Hlt : (p < List.length ast_nodes)%nat)
    by (eapply nth_error_lt; exact Hsep).
  assert (Hplen : llen (firstn p ast_nodes) = Z.of_nat p).
  { unfold llen. rewrite firstn_length_le; [reflexivity|lia]. }
  (* the rows go after a separator [sep1] at [p] in a list [a] *)
  assert (Hgo : forall a sep1 head n2,
    nth_error a p = Some sep1 -> node_text sep1 = Ok head ->
    firstn p a = firstn p ast_nodes ->
    match insert_rows a (ee + 1 + 1) (Some p) indent (node :: rest) with
    | (a', Raise e) => (a', Raise e)
    | (a', Ok i1) =>
        match n2 with
        | Some n2 => (py_insert a' i1 n2, Ok (i1 + 1))
        | None => (a', Ok (i1 + 1))
        end
    end = (out, Ok i') ->
    exists rows,
      rows_layout indent (node :: rest) = Ok rows /\
      i' = ee + 3 + llen rows /\
      out = (firstn p ast_nodes ++ set_value sep1 (PStr (head ++ indent))
             :: rows ++ match n2 with Some n => [n] | None => [] end
             ++ skipn (S p) a)%list).
  { intros a sep1 head n2 Hn Ht Hf Hr.
    destruct (insert_rows a (ee + 1 + 1) (Some p) indent (node :: rest))
      as [a' [i1|e]] eqn:Hrows; [|discriminate Hr].
    replace (ee + 1 + 1) with (Z.of_nat p + 1) in Hrows by lia.
    destruct (insert_rows_some_splice _ _ _ _ _ _ _ _ _ Hn Ht Hrows)
      as (rows & Hlay & Hout & Hi1).
    exists rows. split; [exact Hlay|].
    destruct n2 as [node2|]; inversion Hr; subst out i'.
    - split; [lia|]. rewrite Hout, Hf.
      change (firstn p ast_nodes ++
              set_value sep1 (PStr (head ++ indent)) :: rows ++ skipn (S p) a)%list
        with (firstn p ast_nodes ++
              (set_value sep1 (PStr (head ++ indent)) :: rows) ++ skipn (S p) a)%list.
      rewrite app_assoc.
      rewrite py_insert_end
        by (rewrite llen_app, llen_cons, Hplen; lia).
      rewrite <- app_assoc. reflexivity.
    - split; [lia|]. rewrite Hout, Hf. reflexivity. }
  assert (Hset : forall t,
    nth_error (set_at ast_nodes p (set_value sep (PStr t))) p
      = Some (set_value sep (PStr t)) /\
    firstn p (set_at ast_nodes p (set_value sep (PStr t))) = firstn p ast_nodes /\
    skipn (S p) (set_at ast_nodes p (set_value sep (PStr t)))
      = skipn (S p) ast_nodes).
  { intros t. split; [eapply nth_error_set_at_eq; exact Hsep|].
    split; [apply firstn_set_at | apply skipn_S_set_at]. }
  destruct (is_wsc (data_type sep)) eqn:Hw.
  - unfold node_text in H.
    destruct (value sep) as [| | | | w | | | |] eqn:Hv; try discriminate H.
    destruct (find_nl w) as [k|] eqn:Hk.
    + destruct (Hset (str_to w k)) as (Hn & Hf & Hs).
      destruct (Hgo _ _ _ (Some (wsc_node (str_from w k))) Hn eq_refl Hf H)
        as (rows & Hlay & Hi & Hout).
      exists level, rows. repeat split; auto.
      exists w. split; [reflexivity|]. rewrite Hk, Hout, Hs. reflexivity.
    + assert (Hcase : exists t,
        (t = str_to w (str_len w - 1)) /\
        match insert_rows (set_at ast_nodes p (set_value sep (PStr t)))
                (ee + 1 + 1) (Some p) indent (node :: rest) with
        | (a', Raise e) => (a', Raise e)
        | (a', Ok i1) => (a', Ok (i1 + 1))
        end = (out, Ok i')).
      { destruct (0 <? str_len w) eqn:Hl.
        - eexists. split; [reflexivity|]. exact H.
        - destruct kb; [|discriminate H].
          exists "". split; [|exact H].
          apply Z.ltb_ge in Hl. unfold str_len in *.
          destruct w; [reflexivity|]. simpl String.length in Hl. lia. }
      destruct Hcase as (t & Ht & Hrun).
      destruct (Hset t) as (Hn & Hf & Hs).
      destruct (Hgo _ _ t None Hn eq_refl Hf Hrun) as (rows & Hlay & Hi & Hout).
      exists level, rows. repeat split; auto.
      exists w. split; [reflexivity|]. rewrite Hk, Hout, Hs, Ht. reflexivity.
  - assert (Hins : py_insert ast_nodes (ee + 1) (wsc_node "")
                   = (firstn p ast_nodes ++ wsc_node "" :: skipn p ast_nodes)%list).
    { unfold py_insert. rewrite <- Hpe.
      rewrite clamp_idx_in by (unfold llen; lia).
      rewrite Nat2Z.id. reflexivity. }
    rewrite Hins in H.
    assert (Hn : nth_error (firstn p ast_nodes ++ wsc_node "" :: skipn p ast_nodes) p
                 = Some (wsc_node "")).
    { rewrite nth_error_app2 by (rewrite firstn_length_le; lia).
      rewrite firstn_length_le, Nat.sub_diag by lia. reflexivity. }
    assert (Hf : firstn p (firstn p ast_nodes ++ wsc_node "" :: skipn p ast_nodes)
                 = firstn p ast_nodes).
    { rewrite firstn_app, firstn_firstn, Nat.min_id.
      rewrite firstn_length_le, Nat.sub_diag, firstn_O, app_nil_r by lia.
      reflexivity. }
    destruct (Hgo _ _ "" None Hn eq_refl Hf H) as (rows & Hlay & Hi & Hout).
    assert (Hfl : List.length (firstn p ast_nodes) = p)
      by (apply firstn_length_le; lia).
    assert (Hone : skipn p ast_nodes = sep :: skipn (S p) ast_nodes).
    { clear - Hsep. revert p Hsep.
      induction ast_nodes as [|x r IH]; intros [|p] Hs;
        simpl in *; try discriminate.
      - inversion Hs; subst. reflexivity.
      - apply IH. exact Hs. }
    assert (Hsk : skipn (S p) (firstn p ast_nodes ++ wsc_node "" :: skipn p ast_nodes)
                  = (sep :: skipn (S p) ast_nodes)%list).
    { rewrite skipn_app, Hfl.
      replace (skipn (S p) (firstn p ast_nodes)) with (@nil ASTNode)
        by (symmetry; apply skipn_all2; rewrite Hfl; lia).
      replace (S p - p)%nat with 1%nat by lia. simpl. exact Hone. }
    rewrite Hsk in Hout.
    exists level, rows. repeat split; auto.
Qed.

Lemma skipn_past {A : Type} (pre mid post : list A) (n : nat) :
  n = (List.length pre + List.length mid)%nat ->
  skipn n (pre ++ mid ++ post) = post.
Proof.
  intros ->. rewrite app_assoc.
  replace (List.length pre + List.length mid)%nat
    with (List.length (pre ++ mid)) by (rewrite length_app; reflexivity).
  rewrite skipn_app, skipn_all, Nat.sub_diag. reflexivity.
Qed.

Lemma length_firstn_nth {A : Type} (l : list A) (p : nat) (x : A) :
  nth_error l p = Some x -> List.length (firstn p l) = p.
Proof.
  intros H. apply firstn_length_le. apply nth_error_lt in H. lia.
Qed.

Lemma cons_app_end {A : Type} (x : A) (rows : list A) (y : A) (post : list A) :
  (x :: rows ++ y :: post)%list = ((x :: rows ++ [y]) ++ post)%list.
Proof. simpl. rewrite <- app_assoc. reflexivity. Qed.

(** X1: when the token after the last row is a separator whose text holds a
    newline, [add_jbeam_nodes] cuts that text at its first newline: the
    separator keeps the text before the newline and receives the
    indentation, the new rows follow it, and the text from the newline on
    goes into a new separator token put after the rows; the two halves make
    up the old text, the tokens before and after are kept, and the returned
    index is that of the token that followed the separator. *)
Theorem add_jbeam_nodes_splits_separator_at_newline :
  forall (ast_nodes : list ASTNode) (ss se ee : Z) (es : option Z)
         (node : string * pos3) (rest : list (string * pos3))
         (out : list ASTNode) (i' : Z) (sep : ASTNode) (w : string) (k : Z),
    0 <= ee ->
    nth_error ast_nodes (Z.to_nat (ee + 1)) = Some sep ->
    data_type sep = DT_wsc -> value sep = PStr w ->
    find_nl w = Some k ->
    add_jbeam_nodes ast_nodes (Some ss) (Some se) es (Some ee) (node :: rest)
      = (out, Ok i') ->
    exists lvl rows,
      indent_level ast_nodes ss se = Ok lvl
      /\ rows_layout (String newline (spaces (Z.to_nat lvl))) (node :: rest)
         = Ok rows
      /\ out = (firstn (Z.to_nat (ee + 1)) ast_nodes
                ++ set_value sep
                     (PStr (str_to w k
                            ++ String newline (spaces (Z.to_nat lvl))))
                :: rows
                ++ wsc_node (str_from w k)
                :: skipn (Z.to_nat (ee + 2)) ast_nodes)%list
      /\ (str_to w k ++ str_from w k)%string = w
      /\ find_nl (str_to w k) = None
      /\ find_nl (str_from w k) = Some 0
      /\ skipn (Z.to_nat i') out = skipn (Z.to_nat (ee + 2)) ast_nodes.
Proof.
  intros ast ss se ee es node rest out i' sep w k Hee Hsep Hd Hv Hk H.
  destruct (add_jbeam_nodes_shape _ _ _ _ _ _ _ _ _ _ Hee Hsep H)
    as (lvl & rows & Hlvl & Hrows & Hi & Hout).
  cbv zeta in Hout. rewrite Hd in Hout. simpl is_wsc in Hout. cbv iota in Hout.
  destruct Hout as (w' & Hv' & Hout). rewrite Hv in Hv'. inversion Hv'; subst w'.
  rewrite Hk in Hout.
  exists lvl, rows. split; [exact Hlvl|]. split; [exact Hrows|].
  split; [exact Hout|].
  destruct (find_nl_split _ _ Hk) as (a & b & E & Ha & Hka). subst k.
  rewrite (str_to_prefix _ _ _ E), (str_from_suffix _ _ _ E).
  split.
  { rewrite <- string_of_list_ascii_app, <- E.
    apply string_of_list_ascii_of_string. }
  split.
  { unfold find_nl. rewrite list_ascii_of_string_of_list_ascii.
    destruct (find_nl_from a 0) as [j|] eqn:F; [|reflexivity].
    apply find_nl_from_some in F. contradiction. }
  split.
  { unfold find_nl. rewrite list_ascii_of_string_of_list_ascii. reflexivity. }
  rewrite Hout, (cons_app_end (set_value sep _)). apply skipn_past.
  rewrite (length_firstn_nth _ _ _ Hsep). simpl List.length.
  rewrite length_app. simpl. unfold llen in Hi. lia.
Qed.

(** X2: when the token after the last row is a separator whose text is not
    empty and holds no newline, [add_jbeam_nodes] drops the last character
    of that text before it appends the indentation, no token is put after
    the new rows, and the returned index is one past the token that followed
    the separator. *)
Theorem add_jbeam_nodes_drops_last_character :
  forall (ast_nodes : list ASTNode) (ss se ee : Z) (es : option Z)
         (node : string * pos3) (rest : list (string * pos3))
         (out : list ASTNode) (i' : Z) (sep : ASTNode) (w : string),
    0 <= ee ->
    nth_error ast_nodes (Z.to_nat (ee + 1)) = Some sep ->
    data_type sep = DT_wsc -> value sep = PStr w ->
    find_nl w = None -> w <> "" ->
    add_jbeam_nodes ast_nodes (Some ss) (Some se) es (Some ee) (node :: rest)
      = (out, Ok i') ->
    exists lvl rows kept c,
      indent_level ast_nodes ss se = Ok lvl
      /\ rows_layout (String newline (spaces (Z.to_nat lvl))) (node :: rest)
         = Ok rows
      /\ w = (kept ++ String c "")%string
      /\ out = (firstn (Z.to_nat (ee + 1)) ast_nodes
                ++ set_value sep
                     (PStr (kept ++ String newline (spaces (Z.to_nat lvl))))
                :: rows
                ++ skipn (Z.to_nat (ee + 2)) ast_nodes)%list
      /\ skipn (Z.to_nat i') out = skipn (Z.to_nat (ee + 3)) ast_nodes.
Proof.
  intros ast ss se ee es node rest out i' sep w Hee Hsep Hd Hv Hk Hw H.
  destruct (add_jbeam_nodes_shape _ _ _ _ _ _ _ _ _ _ Hee Hsep H)
    as (lvl & rows & Hlvl & Hrows & Hi & Hout).
  cbv zeta in Hout. rewrite Hd in Hout. simpl is_wsc in Hout. cbv iota in Hout.
  destruct Hout as (w' & Hv' & Hout). rewrite Hv in Hv'. inversion Hv'; subst w'.
  rewrite Hk in Hout.
  assert (Hl : list_ascii_of_string w <> []).
  { intros E. apply Hw. rewrite (string_of_list _ _ E). reflexivity. }
  destruct (exists_last Hl) as (l' & c & E).
  assert (Hlen : str_len w - 1 = llen l').
  { rewrite str_len_list, E, llen_app, llen_cons, llen_nil. lia. }
  rewrite Hlen, (str_to_prefix _ _ _ E) in Hout.
  exists lvl, rows, (string_of_list_ascii l'), c.
  split; [exact Hlvl|]. split; [exact Hrows|].
  split.
  { rewrite (string_of_list _ _ E), string_of_list_ascii_app. reflexivity. }
  split; [exact Hout|].
  rewrite Hout.
  replace (Z.to_nat i')
    with (1 + (List.length (firstn (Z.to_nat (ee + 1)) ast)
               + List.length (set_value sep (PStr (string_of_list_ascii l'
                    ++ String newline (spaces (Z.to_nat lvl)))) :: rows)))%nat.
  2:{ rewrite (length_firstn_nth _ _ _ Hsep). simpl List.length.
      unfold llen in Hi. lia. }
  rewrite <- skipn_skipn.
  rewrite (app_comm_cons rows), skipn_past by reflexivity.
  rewrite skipn_skipn. f_equal. lia.
Qed.

(** X3: when the token after the last row is not a separator,
    [add_jbeam_nodes] puts a separator holding the indentation and the new
    rows before that token, keeps every token of the list, and returns the
    index one past that token. *)
Theorem add_jbeam_nodes_without_separator :
  forall (ast_nodes : list ASTNode) (ss se ee : Z) (es : option Z)
         (node : string * pos3) (rest : list (string * pos3))
         (out : list ASTNode) (i' : Z) (tok : ASTNode),
    0 <= ee ->
    nth_error ast_nodes (Z.to_nat (ee + 1)) = Some tok ->
    data_type tok <> DT_wsc ->
    add_jbeam_nodes ast_nodes (Some ss) (Some se) es (Some ee) (node :: rest)
      = (out, Ok i') ->
    exists lvl rows,
      indent_level ast_nodes ss se = Ok lvl
      /\ rows_layout (String newline (spaces (Z.to_nat lvl))) (node :: rest)
         = Ok rows
      /\ out = (firstn (Z.to_nat (ee + 1)) ast_nodes
                ++ wsc_node (String newline (spaces (Z.to_nat lvl)))
                :: rows
                ++ tok :: skipn (Z.to_nat (ee + 2)) ast_nodes)%list
      /\ skipn (Z.to_nat i') out = skipn (Z.to_nat (ee + 2)) ast_nodes.
Proof.
  intros ast ss se ee es node rest out i' tok Hee Hsep Hd H.
  destruct (add_jbeam_nodes_shape _ _ _ _ _ _ _ _ _ _ Hee Hsep H)
    as (lvl & rows & Hlvl & Hrows & Hi & Hout).
  cbv zeta in Hout.
  destruct (is_wsc (data_type tok)) eqn:Hw;
    [apply is_wsc_eq in Hw; contradiction|].
  exists lvl, rows. split; [exact Hlvl|]. split; [exact Hrows|].
  split; [exact Hout|].
  rewrite Hout, (cons_app_end (wsc_node _)). apply skipn_past.
  rewrite (length_firstn_nth _ _ _ Hsep). simpl List.length.
  rewrite length_app. simpl. unfold llen in Hi. lia.
Qed.

Lemma rfind_nl_from_last a b :
  ~ In newline b ->
  forall k, rfind_nl_from (a ++ newline :: b) k = Some (k + llen a).
Proof.
  intros Hb. induction a as [|c a IH]; intros k.
  - simpl app. simpl rfind_nl_from.
    destruct (rfind_nl_from b (k + 1)) as [j|] eqn:E.
    + destruct (rfind_nl_from_some _ _ _ E) as (x & y & -> & _).
      exfalso. apply Hb. apply in_or_app. right. left. reflexivity.
    + rewrite ?Ascii.eqb_refl, llen_nil. simpl. f_equal. lia.
  - simpl app. simpl rfind_nl_from. rewrite IH, llen_cons. f_equal. lia.
Qed.

Lemma spaces_no_newline n : ~ In newline (list_ascii_of_string (spaces n)).
Proof.
  induction n as [|n IH]; simpl; [tauto|].
  intros [E|E]; [discriminate|tauto].
Qed.

Lemma list_ascii_app s t :
  list_ascii_of_string (s ++ t)
  = (list_ascii_of_string s ++ list_ascii_of_string t)%list.
Proof. induction s as [|c s IH]; simpl; [reflexivity|]. f_equal. exact IH. Qed.

Lemma row_tokens_length node_id node_pos row :
  row_tokens node_id node_pos = Ok row -> llen row = 9 /\ row <> [].
Proof.
  unfold row_tokens. destruct node_pos as [[x y] z]. intros H.
  destruct (get_float_precision (PFloat x)); [|discriminate].
  destruct (get_float_precision (PFloat y)); [|discriminate].
  destruct (get_float_precision (PFloat z)); [|discriminate].
  simpl in H. inversion H. split; [reflexivity|discriminate].
Qed.

(** X7: adding one row with [add_jbeam_nodes] after a last row whose
    separator holds a newline, and then deleting that row with
    [delete_jbeam_node], gives a token list that reads as the original one:
    the same tokens and the same separator text. *)
Theorem add_then_delete_restores_text :
  forall (ast_nodes : list ASTNode) (ss se ee : Z) (es ss' : option Z)
         (node : string * pos3) (mid out : list ASTNode) (i' i : Z)
         (sep : ASTNode) (w : string) (k : Z),
    0 <= ee ->
    nth_error ast_nodes (Z.to_nat (ee + 1)) = Some sep ->
    data_type sep = DT_wsc -> value sep = PStr w ->
    find_nl w = Some k ->
    add_jbeam_nodes ast_nodes (Some ss) (Some se) es (Some ee) [node]
      = (mid, Ok i') ->
    delete_jbeam_node mid ss' (Some (ee + 2)) (Some (ee + 10)) = (out, Ok i) ->
    layout_text out = layout_text ast_nodes.
Proof.
  intros ast ss se ee es ss' node mid out i' i sep w k
         Hee Hsep Hd Hv Hk Hadd Hdel.
  destruct (add_jbeam_nodes_shape _ _ _ _ _ _ _ _ _ _ Hee Hsep Hadd)
    as (lvl & rows & Hlvl & Hrows & Hi & Hmid).
  cbv zeta in Hmid. rewrite Hd in Hmid. simpl is_wsc in Hmid. cbv iota in Hmid.
  destruct Hmid as (w' & Hv' & Hmid). rewrite Hv in Hv'. inversion Hv'; subst w'.
  rewrite Hk in Hmid. clear Hv'.
  set (indent := String newline (spaces (Z.to_nat lvl))) in *.
  (* the row *)
  destruct node as [node_id node_pos].
  assert (Hrow : llen rows = 9 /\ rows <> []).
  { simpl in Hrows.
    destruct (row_tokens node_id node_pos) as [row|] eqn:Hr; [|discriminate].
    simpl in Hrows. inversion Hrows; subst rows. rewrite app_nil_r.
    eapply row_tokens_length. exact Hr. }
  destruct Hrow as (Hrl & Hrne).
  (* the tokens before the separator *)
  pose proof (length_firstn_nth _ _ _ Hsep) as Hpl.
  destruct (exists_last (l := firstn (Z.to_nat (ee + 1)) ast)) as (pre0 & c & Hpre).
  { intros E. rewrite E in Hpl. simpl in Hpl. lia. }
  assert (Hp0 : llen pre0 = ee).
  { rewrite Hpre, length_app in Hpl. simpl in Hpl. unfold llen. lia. }
  (* the text of the separator *)
  destruct (find_nl_split _ _ Hk) as (a & b & E & Ha & Hka). subst k.
  rewrite (str_to_prefix _ _ _ E), (str_from_suffix _ _ _ E) in Hmid.
  set (sp := (string_of_list_ascii a ++ indent)%string) in *.
  set (sn := string_of_list_ascii (newline :: b)) in *.
  assert (Hsp : list_ascii_of_string sp
                = (a ++ newline :: list_ascii_of_string (spaces (Z.to_nat lvl)))%list).
  { unfold sp, indent. rewrite list_ascii_app, list_ascii_of_string_of_list_ascii.
    reflexivity. }
  assert (Hrf : rfind_nl sp = Some (llen a)).
  { unfold rfind_nl. rewrite Hsp, rfind_nl_from_last by apply spaces_no_newline.
    f_equal. }
  assert (Hfn : find_nl sn = Some 0).
  { unfold find_nl, sn. rewrite list_ascii_of_string_of_list_ascii. reflexivity. }
  (* the deletion *)
  rewrite Hmid, Hpre, <- app_assoc in Hdel. simpl app in Hdel.
  replace (ee + 2) with (llen pre0 + 2) in Hdel by lia.
  replace (ee + 10) with (llen pre0 + 1 + llen rows) in Hdel by lia.
  apply delete_jbeam_node_shape in Hdel; [|exact Hrne].
  destruct Hdel as [(Hr & _)|[(Hr & _)|(j & mids & Hr & Ho & Hj & Hm & _ & Ht)]];
    try discriminate.
  specialize (Ht sp sn Hd eq_refl eq_refl eq_refl).
  rewrite (rfind_has_nl _ _ Hrf), Hrf, Hfn in Ht.
  unfold has_nl in Ht. rewrite Hfn in Ht. cbn [andb] in Ht.
  replace (str_to sp (llen a + 1)) with (string_of_list_ascii (a ++ [newline]))
    in Ht.
  2:{ symmetry. replace (llen a + 1) with (llen (a ++ [newline]))
        by (rewrite llen_app, llen_cons, llen_nil; lia).
      eapply str_to_prefix. rewrite Hsp, <- app_assoc. reflexivity. }
  replace (str_from sn (0 + 1)) with (string_of_list_ascii b) in Ht.
  2:{ symmetry. change (0 + 1) with (llen [newline]).
      eapply str_from_suffix. unfold sn.
      rewrite list_ascii_of_string_of_list_ascii. reflexivity. }
  rewrite !chars_of_list in Ht.
  rewrite Hp0 in Ho.
  rewrite Ho, !layout_text_app, Ht.
  rewrite (nth_error_split_at _ _ _ Hsep) at 2.
  replace (S (Z.to_nat (ee + 1))) with (Z.to_nat (ee + 2)) by lia.
  rewrite Hpre, !layout_text_app, (layout_text_wsc _ _ _ Hd Hv).
  unfold chars. rewrite E, !map_app. cbn [map].
  rewrite <- !app_assoc. simpl app. reflexivity.
Qed.

Lemma delete_jbeam_node_frame_witness :
  let out := fst (delete_jbeam_node tab_section None (Some 2) (Some 4)) in
  firstn (Z.to_nat (2 - 2)) out = firstn (Z.to_nat (2 - 2)) tab_section
  /\ skipn (Z.to_nat (0 + 2)) out = skipn (Z.to_nat (4 + 2)) tab_section
  /\ 2 - 3 <= 0 <= 2 - 1
  /\ llen out + (4 - 2 + 1) <= llen tab_section.
Proof.
  eapply (delete_jbeam_node_frame tab_section None 2 4 _ 0);
    [lia | vm_compute; reflexivity | vm_compute; reflexivity].
Defined.

Lemma delete_jbeam_node_text_witness :
  layout_text (fst (delete_jbeam_node tab_section None (Some 2) (Some 4)))
  = (layout_text (firstn (Z.to_nat (2 - 1)) tab_section)
     ++ chars (str_to (String newline (String tab EmptyString)) (0 + 1))
     ++ chars (str_from (String newline EmptyString) (0 + 1))
     ++ layout_text (skipn (Z.to_nat (4 + 2)) tab_section))%list.
Proof.
  eapply (delete_jbeam_node_text tab_section None 2 4 _ 0
           (wsc_node (String newline (String tab EmptyString)))
           (wsc_node (String newline EmptyString))
           (String newline (String tab EmptyString))
           (String newline EmptyString));
    try reflexivity; try lia; try (vm_compute; reflexivity).
Defined.

Lemma delete_jbeam_node_fails_on_empty_separator_witness :
  exists i, snd (delete_jbeam_node tab_section None (Some 2) (Some 4)) = Ok i.
Proof.
  eapply (delete_jbeam_node_fails_on_empty_separator tab_section None 2 4
           (wsc_node (String newline EmptyString))).
  - lia.
  - vm_compute; reflexivity.
  - unfold tab_section.
    repeat (apply Forall_cons;
            [intros Hw; first [discriminate Hw | eexists; reflexivity] |]).
    apply Forall_nil.
  - reflexivity.
  - intros [_ E]. discriminate E.
Defined.

Lemma add_jbeam_nodes_splits_separator_at_newline_witness :
  exists lvl rows,
    indent_level tab_section 0 6 = Ok lvl
    /\ rows_layout (String newline (spaces (Z.to_nat lvl))) node_c = Ok rows
    /\ fst (add_jbeam_nodes tab_section (Some 0) (Some 6) (Some 2) (Some 4)
              node_c)
       = (firstn (Z.to_nat (4 + 1)) tab_section
          ++ set_value (wsc_node (String newline EmptyString))
               (PStr (str_to (String newline EmptyString) 0
                      ++ String newline (spaces (Z.to_nat lvl))))
          :: rows
          ++ wsc_node (str_from (String newline EmptyString) 0)
          :: skipn (Z.to_nat (4 + 2)) tab_section)%list
    /\ (str_to (String newline EmptyString) 0
        ++ str_from (String newline EmptyString) 0)%string
       = String newline EmptyString
    /\ find_nl (str_to (String newline EmptyString) 0) = None
    /\ find_nl (str_from (String newline EmptyString) 0) = Some 0
    /\ skipn (Z.to_nat 16)
         (fst (add_jbeam_nodes tab_section (Some 0) (Some 6) (Some 2) (Some 4)
                 node_c))
       = skipn (Z.to_nat (4 + 2)) tab_section.
Proof.
  eapply (add_jbeam_nodes_splits_separator_at_newline tab_section 0 6 4
           (Some 2) ("c", (Ffin 2 0, Ffin 0 0, Ffin 0 0)) [] _ 16
           (wsc_node (String newline EmptyString)) (String newline EmptyString)
           0);
    try reflexivity; try lia; try (vm_compute; reflexivity).
Defined.

Lemma add_jbeam_nodes_drops_last_character_witness :
  exists lvl rows kept c,
    indent_level inline_section 0 6 = Ok lvl
    /\ rows_layout (String newline (spaces (Z.to_nat lvl))) node_c = Ok rows
    /\ ", " = (kept ++ String c "")%string
    /\ fst (add_jbeam_nodes inline_section (Some 0) (Some 6) (Some 2) (Some 4)
              node_c)
       = (firstn (Z.to_nat (4 + 1)) inline_section
          ++ set_value (wsc_node ", ")
               (PStr (kept ++ String newline (spaces (Z.to_nat lvl))))
          :: rows
          ++ skipn (Z.to_nat (4 + 2)) inline_section)%list
    /\ skipn (Z.to_nat 16)
         (fst (add_jbeam_nodes inline_section (Some 0) (Some 6) (Some 2)
                 (Some 4) node_c))
       = skipn (Z.to_nat (4 + 3)) inline_section.
Proof.
  eapply (add_jbeam_nodes_drops_last_character inline_section 0 6 4
           (Some 2) ("c", (Ffin 2 0, Ffin 0 0, Ffin 0 0)) [] _ 16
           (wsc_node ", ") ", ");
    try reflexivity; try lia; try discriminate; try (vm_compute; reflexivity).
Defined.

Lemma add_jbeam_nodes_without_separator_witness :
  exists lvl rows,
    indent_level compact_section 0 4 = Ok lvl
    /\ rows_layout (String newline (spaces (Z.to_nat lvl))) node_c = Ok rows
    /\ fst (add_jbeam_nodes compact_section (Some 0) (Some 4) (Some 1) (Some 3)
              node_c)
       = (firstn (Z.to_nat (3 + 1)) compact_section
          ++ wsc_node (String newline (spaces (Z.to_nat lvl)))
          :: rows
          ++ struct_node DT_rbracket
          :: skipn (Z.to_nat (3 + 2)) compact_section)%list
    /\ skipn (Z.to_nat 15)
         (fst (add_jbeam_nodes compact_section (Some 0) (Some 4) (Some 1)
                 (Some 3) node_c))
       = skipn (Z.to_nat (3 + 2)) compact_section.
Proof.
  eapply (add_jbeam_nodes_without_separator compact_section 0 4 3
           (Some 1) ("c", (Ffin 2 0, Ffin 0 0, Ffin 0 0)) [] _ 15
           (struct_node DT_rbracket));
    try reflexivity; try lia; try discriminate; try (vm_compute; reflexivity).
Defined.

Lemma add_then_delete_restores_text_witness :
  layout_text
    (fst (delete_jbeam_node
            (fst (add_jbeam_nodes tab_section (Some 0) (Some 6) (Some 2)
                    (Some 4) node_c))
            None (Some (4 + 2)) (Some (4 + 10))))
  = layout_text tab_section.
Proof.
  eapply (add_then_delete_restores_text tab_section 0 6 4 (Some 2) None
           ("c", (Ffin 2 0, Ffin 0 0, Ffin 0 0)) _ _ 16 4
           (wsc_node (String newline EmptyString)) (String newline EmptyString)
           0);
    try reflexivity; try lia; try (vm_compute; reflexivity).
Defined.

(* ------------------------------------------------------------------ *)
(** ** Conversion of int-keyed dicts to lists *)

Lemma rows_of_int_table_some tbl rows :
  rows_of_int_table tbl = Some rows ->
  rows = map snd tbl /\ Forall (fun kv => isinstance_int (fst kv) = true) tbl.
Proof.
  revert rows. induction tbl as [|[k v] r IH]; intros rows H; simpl in H.
  - inversion H. split; [reflexivity|constructor].
  - destruct (isinstance_int k) eqn:Hk; [|discriminate].
    destruct (rows_of_int_table r) as [rs|]; [|discriminate].
    inversion H; subst. destruct (IH rs eq_refl) as [-> Hall].
    split; [reflexivity|]. constructor; assumption.
Qed.

Lemma rows_of_int_table_none tbl :
  rows_of_int_table tbl = None <->
  exists k v, In (k, v) tbl /\ isinstance_int k = false.
Proof.
  induction tbl as [|[k v] r IH]; simpl.
  - split; [discriminate|]. intros (k & v & [] & _).
  - destruct (isinstance_int k) eqn:Hk.
    + destruct (rows_of_int_table r) as [rs|].
      * split; [discriminate|]. intros (k' & v' & [E|Hin] & Hf).
        { inversion E; subst. congruence. }
        { assert (Hn : @None (list pyval) = None) by reflexivity.
          destruct IH as [_ IH]. discriminate IH. eauto. }
      * split; [|reflexivity]. intros _.
        destruct IH as [IH _]. destruct (IH eq_refl) as (k' & v' & Hin & Hf).
        exists k', v'. auto.
    + split; [|reflexivity]. intros _. exists k, v. auto.
Qed.

(** The first loop stops exactly at a section that starts with an int key
    and holds a key that is not an int. *)
Lemma collect_new_tables_none items :
  forall acc,
    collect_new_tables items acc = None <->
    exists k first_key first_value more bad_key bad_value,
      In (k, PDict ((first_key, first_value) :: more)) items /\
      isinstance_int first_key = true /\
      In (bad_key, bad_value) more /\
      isinstance_int bad_key = false.
Proof.
  induction items as [|[k tbl] r IH]; intros acc.
  - simpl. split; [discriminate|]. intros (k & fk & fv & m & bk & bv & [] & _).
  - assert (Hskip : forall acc',
      (forall fk fv m, tbl = PDict ((fk, fv) :: m) -> isinstance_int fk = true ->
         rows_of_int_table m <> None) ->
      (collect_new_tables r acc' = None <->
       exists k0 fk fv m bk bv,
         In (k0, PDict ((fk, fv) :: m)) ((k, tbl) :: r) /\
         isinstance_int fk = true /\ In (bk, bv) m /\
         isinstance_int bk = false)).
    { intros acc' Hgood. rewrite IH. split.
      - intros (k0 & fk & fv & m & bk & bv & Hin & H1 & H2 & H3).
        exists k0, fk, fv, m, bk, bv. simpl. auto.
      - intros (k0 & fk & fv & m & bk & bv & [E|Hin] & H1 & H2 & H3).
        + inversion E; subst. exfalso. apply (Hgood fk fv m eq_refl H1).
          apply rows_of_int_table_none. eauto.
        + exists k0, fk, fv, m, bk, bv. auto. }
    simpl.
    destruct tbl as [| | | | |l|d| |]; try (apply Hskip; discriminate).
    destruct d as [|[fk fv] m]; [apply Hskip; discriminate|].
    destruct (isinstance_int fk) eqn:Hfk.
    + simpl. rewrite ?Hfk.
      destruct (rows_of_int_table m) as [rows|] eqn:Hrows.
      * apply Hskip. intros fk' fv' m' E _. inversion E; subst. congruence.
      * split; [|reflexivity]. intros _.
        apply rows_of_int_table_none in Hrows.
        destruct Hrows as (bk & bv & Hin & Hb).
        exists k, fk, fv, m, bk, bv. simpl. auto.
    + apply Hskip. intros fk' fv' m' E Hi. inversion E; subst. congruence.
Qed.

(** X8: [convert_dict_to_list_tables] returns False exactly when some
    section is a dict that starts with an int key and holds a key that is
    not an int; it then leaves the vehicle as it was, also the sections that
    could have been converted; in every other case it returns None. *)
Theorem convert_dict_to_list_tables_fails_iff :
  forall vehicle : pydict,
    (snd (convert_dict_to_list_tables vehicle) = PBool false <->
     exists k first_key first_value more bad_key bad_value,
       In (k, PDict ((first_key, first_value) :: more)) vehicle /\
       isinstance_int first_key = true /\
       In (bad_key, bad_value) more /\
       isinstance_int bad_key = false)
    /\ (snd (convert_dict_to_list_tables vehicle) = PBool false ->
        fst (convert_dict_to_list_tables vehicle) = vehicle)
    /\ (snd (convert_dict_to_list_tables vehicle) = PBool false \/
        snd (convert_dict_to_list_tables vehicle) = PNone).
Proof.
  intros vehicle. unfold convert_dict_to_list_tables.
  pose proof (collect_new_tables_none vehicle []) as H.
  destruct (collect_new_tables vehicle []) as [nt|]; simpl.
  - split; [|split; [discriminate | right; reflexivity]].
    split; [discriminate|]. intros Hex. apply H in Hex. discriminate.
  - split; [|split; [reflexivity | left; reflexivity]].
    split; [intros _; apply H; reflexivity | reflexivity].
Qed.

Lemma dict_set_append (acc : pydict) k v :
  Forall (fun kv => scalar_eqb (fst kv) k = false) acc ->
  dict_set acc k v = (acc ++ [(k, v)])%list.
Proof.
  induction acc as [|[k' v'] r IH]; intros H; simpl; [reflexivity|].
  inversion H as [|x l Hk Hr]; subst. simpl in Hk. rewrite Hk.
  f_equal. apply IH. exact Hr.
Qed.

Lemma dict_set_mid (P r : pydict) k t v :
  Forall (fun kv => scalar_eqb (fst kv) k = false) P ->
  scalar_eqb k k = true ->
  dict_set (P ++ (k, t) :: r)%list k v = (P ++ (k, v) :: r)%list.
Proof.
  induction P as [|[k' v'] P IH]; intros H Hk; simpl.
  - rewrite Hk. reflexivity.
  - inversion H as [|x l Hk' Hr]; subst. simpl in Hk'. rewrite Hk'.
    f_equal. apply IH; assumption.
Qed.

(** The sections the first loop collects, in order. *)
Lemma collect_new_tables_some items :
  forall acc nt,
    keys_distinct items ->
    (forall kv kv', In kv acc -> In kv' items ->
                    scalar_eqb (fst kv) (fst kv') = false) ->
    collect_new_tables items acc = Some nt ->
    nt = (acc ++ flat_map (fun kv =>
                   if is_int_table (snd kv)
                   then [(fst kv, section_as_list (snd kv))] else [])
                 items)%list.
Proof.
  induction items as [|[k tbl] r IH]; intros acc nt Hd Hacc H.
  - simpl in H. inversion H. simpl. symmetry. apply app_nil_r.
  - destruct Hd as (Hkk & Hkr & Hd).
    assert (Hskip : is_int_table tbl = false ->
                    collect_new_tables r acc = Some nt ->
                    nt = (acc ++ flat_map (fun kv =>
                             if is_int_table (snd kv)
                             then [(fst kv, section_as_list (snd kv))] else [])
                           ((k, tbl) :: r))%list).
    { intros Hno Hc. cbn [flat_map fst snd]. rewrite Hno. simpl app.
      apply IH; [exact Hd| |exact Hc].
      intros kv kv' Hin Hin'. apply Hacc; [exact Hin|right; exact Hin']. }
    simpl in H.
    destruct tbl as [| | | | |l|d| |]; try (apply Hskip; [reflexivity|exact H]).
    destruct d as [|[fk fv] m]; [apply Hskip; [reflexivity|exact H]|].
    destruct (isinstance_int fk) eqn:Hfk; [|apply Hskip; [exact Hfk|exact H]].
    destruct (rows_of_int_table m) as [rows|] eqn:Hrows; [|discriminate].
    apply rows_of_int_table_some in Hrows. destruct Hrows as [-> _].
    rewrite dict_set_append in H.
    2:{ apply Forall_forall. intros kv Hin.
        apply (Hacc kv (k, PDict ((fk, fv) :: m)) Hin). left. reflexivity. }
    apply IH in H; [|exact Hd|].
    + rewrite H, <- app_assoc. cbn [flat_map fst snd is_int_table].
      rewrite Hfk. unfold section_as_list. cbn [is_int_table]. rewrite Hfk.
      reflexivity.
    + intros kv kv' Hin Hin'. apply in_app_or in Hin. destruct Hin as [Hin|[<-|[]]].
      * apply Hacc; [exact Hin|right; exact Hin'].
      * rewrite Forall_forall in Hkr. apply (Hkr kv' Hin').
Qed.

(** The second loop puts each collected list in the place of its dict. *)
Lemma dict_update_converted (v : pydict) :
  forall P,
    keys_distinct v ->
    (forall kv kv', In kv P -> In kv' v ->
                    scalar_eqb (fst kv) (fst kv') = false) ->
    dict_update (P ++ v)%list
      (flat_map (fun kv =>
         if is_int_table (snd kv)
         then [(fst kv, section_as_list (snd kv))] else []) v)
    = (P ++ map (fun kv => (fst kv, section_as_list (snd kv))) v)%list.
Proof.
  unfold dict_update.
  induction v as [|[k tbl] r IH]; intros P Hd HP; [reflexivity|].
  destruct Hd as (Hkk & Hkr & Hd).
  assert (Hnext : forall t,
    fold_left (fun acc kv => dict_set acc (fst kv) (snd kv))
      (flat_map (fun kv =>
         if is_int_table (snd kv)
         then [(fst kv, section_as_list (snd kv))] else []) r)
      (P ++ (k, t) :: r)%list
    = (P ++ (k, t) :: map (fun kv => (fst kv, section_as_list (snd kv))) r)%list).
  { intros t.
    change (P ++ (k, t) :: r)%list with (P ++ [(k, t)] ++ r)%list.
    rewrite app_assoc, IH.
    - rewrite <- app_assoc. reflexivity.
    - exact Hd.
    - intros kv kv' Hin Hin'. apply in_app_or in Hin.
      destruct Hin as [Hin|[<-|[]]].
      + apply HP; [exact Hin|right; exact Hin'].
      + rewrite Forall_forall in Hkr. apply (Hkr kv' Hin'). }
  cbn [flat_map map fst snd].
  destruct (is_int_table tbl) eqn:Hi.
  - simpl app. cbn [fold_left fst snd].
    rewrite dict_set_mid; [apply Hnext| |exact Hkk].
    apply Forall_forall. intros kv Hin.
    apply (HP kv (k, tbl) Hin). left. reflexivity.
  - simpl app. rewrite Hnext. f_equal. f_equal. f_equal.
    unfold section_as_list. destruct tbl; try reflexivity. rewrite Hi.
    reflexivity.
Qed.

(** X9: when [convert_dict_to_list_tables] returns None on a vehicle with
    distinct keys, every section that is a non-empty dict starting with an
    int key has become the list of its values in key order, and every other
    section, the keys and the order of the sections are as before. *)
Theorem convert_dict_to_list_tables_converts :
  forall vehicle : pydict,
    keys_distinct vehicle ->
    snd (convert_dict_to_list_tables vehicle) = PNone ->
    fst (convert_dict_to_list_tables vehicle)
    = map (fun kv => (fst kv, section_as_list (snd kv))) vehicle.
Proof.
  intros vehicle Hd H. unfold convert_dict_to_list_tables in *.
  destruct (collect_new_tables vehicle []) as [nt|] eqn:Hc; [|discriminate H].
  simpl. apply collect_new_tables_some in Hc; [|exact Hd|intros kv kv' []].
  simpl in Hc. subst nt.
  apply (dict_update_converted vehicle [] Hd). intros kv kv' [].
Qed.

(* ------------------------------------------------------------------ *)
(** ** Node references *)

Lemma check_rows_frame nodes rows :
  Forall2 kept_or_flagged rows (fst (check_rows nodes rows)).
Proof.
  induction rows as [|row rest IH]; simpl; [constructor|].
  assert (Hrest : Forall2 kept_or_flagged rest rest).
  { clear. induction rest; constructor; [left; reflexivity|assumption]. }
  destruct nodes as [n|].
  - destruct row as [| | | | |l|d| |];
      try (simpl; constructor; [left; reflexivity|exact Hrest]).
    destruct (row_is_virtual n d) as [[|]|e].
    + destruct (check_rows (Some n) rest) as [rest' r]. simpl in *.
      constructor; [right; split; reflexivity|exact IH].
    + destruct (check_rows (Some n) rest) as [rest' r]. simpl in *.
      constructor; [left; reflexivity|exact IH].
    + simpl. constructor; [left; reflexivity|exact Hrest].
  - destruct row as [| | | | |l|d| |];
      try (simpl; constructor; [left; reflexivity|exact Hrest]).
    destruct (check_rows None rest) as [rest' r]. simpl in *.
    constructor; [right; split; reflexivity|exact IH].
Qed.

Lemma check_tables_frame nodes items :
  Forall2
    (fun kv kv' =>
       fst kv' = fst kv /\
       (snd kv' = snd kv \/
        exists rows rows',
          snd kv = PList rows /\ snd kv' = PList rows' /\
          py_eqb (fst kv) (PStr "nodes") = false /\
          Forall2 kept_or_flagged rows rows'))
    items (fst (check_tables nodes items)).
Proof.
  induction items as [|[k tbl] rest IH]; simpl; [constructor|].
  assert (Hrest : forall l : pydict,
    Forall2
      (fun kv kv' =>
         fst kv' = fst kv /\
         (snd kv' = snd kv \/
          exists rows rows',
            snd kv = PList rows /\ snd kv' = PList rows' /\
            py_eqb (fst kv) (PStr "nodes") = false /\
            Forall2 kept_or_flagged rows rows')) l l).
  { induction l; constructor; [split; [|left]; reflexivity|assumption]. }
  assert (Hkeep : forall rest' (r : res unit),
    check_tables nodes rest = (rest', r) ->
    Forall2
      (fun kv kv' =>
         fst kv' = fst kv /\
         (snd kv' = snd kv \/
          exists rows rows',
            snd kv = PList rows /\ snd kv' = PList rows' /\
            py_eqb (fst kv) (PStr "nodes") = false /\
            Forall2 kept_or_flagged rows rows'))
      ((k, tbl) :: rest) ((k, tbl) :: rest')).
  { intros rest' r E. rewrite E in IH. simpl in IH.
    constructor; [split; [|left]; reflexivity|exact IH]. }
  destruct (py_eqb k (PStr "nodes")) eqn:Hk.
  - destruct (check_tables nodes rest) as [rest' r] eqn:E. simpl.
    eapply Hkeep. reflexivity.
  - destruct tbl as [| | | | |rows|d| |];
      try (destruct (check_tables nodes rest) as [rest' r] eqn:E; simpl;
           eapply Hkeep; reflexivity).
    pose proof (check_rows_frame nodes rows) as Hrows.
    destruct (check_rows nodes rows) as [rows' [[]|e]]; simpl in Hrows.
    + destruct (check_tables nodes rest) as [rest' r] eqn:E. simpl in *.
      constructor; [|exact IH].
      split; [reflexivity|]. right. exists rows, rows'. auto.
    + simpl. constructor; [|apply Hrest].
      split; [reflexivity|]. right. exists rows, rows'. auto.
Qed.

(** X10: whatever the vehicle, and whether the call returns or raises,
    [check_node_references] keeps the keys and the order of the sections;
    it changes only list sections other than [nodes], and there it only
    sets the entry [__virtual] of rows that are dicts to True. *)
Theorem check_node_references_frame :
  forall vehicle : pydict,
    Forall2
      (fun section section' =>
         fst section' = fst section /\
         (snd section' = snd section \/
          exists rows rows',
            snd section = PList rows /\ snd section' = PList rows' /\
            py_eqb (fst section) (PStr "nodes") = false /\
            Forall2 kept_or_flagged rows rows'))
      vehicle (fst (check_node_references vehicle)).
Proof.
  intros vehicle. unfold check_node_references.
  match goal with
  | |- context [check_tables ?n vehicle] =>
      pose proof (check_tables_frame n vehicle) as H;
      destruct (check_tables n vehicle) as [v [[]|e]]
  end; exact H.
Qed.

Lemma check_rows_flags_all rows :
  Forall (fun row => is_dict row = true) rows ->
  check_rows None rows = (map flag_virtual rows, Ok tt).
Proof.
  induction rows as [|row rest IH]; intros H; [reflexivity|].
  inversion H as [|x l Hrow Hrest]; subst.
  destruct row; try discriminate Hrow.
  simpl. rewrite (IH Hrest). reflexivity.
Qed.

Lemma row_is_virtual_dict nd items :
  row_is_virtual (PDict nd) items = Ok (existsb (dangling_reference nd) items).
Proof.
  induction items as [|[rk rv] r IH]; [reflexivity|].
  simpl.
  destruct rk; try exact IH. destruct rv; try exact IH.
  destruct (has_colon (list_ascii_of_string s)); [|exact IH].
  simpl. destruct (dict_mem nd (PStr s0)); simpl; [exact IH|reflexivity].
Qed.

Lemma check_rows_flags_dangling nd rows :
  Forall (fun row => is_dict row = true) rows ->
  check_rows (Some (PDict nd)) rows
  = (map (fun row =>
            match row with
            | PDict d =>
                if existsb (dangling_reference nd) d then flag_virtual row
                else row
            | _ => row
            end) rows, Ok tt).
Proof.
  induction rows as [|row rest IH]; intros H; [reflexivity|].
  inversion H as [|x l Hrow Hrest]; subst.
  destruct row; try discriminate Hrow.
  cbn [check_rows]. rewrite row_is_virtual_dict, (IH Hrest).
  cbn [map]. destruct (existsb (dangling_reference nd) d); reflexivity.
Qed.

(** The loop over the sections, when the loop over the rows of every list
    section other than [nodes] runs to its end with the rows given by
    [on_rows]. *)
Lemma check_tables_map nodes (on_rows : list pyval -> list pyval) items :
  (forall k rows, In (k, PList rows) items ->
                  py_eqb k (PStr "nodes") = false ->
                  check_rows nodes rows = (on_rows rows, Ok tt)) ->
  check_tables nodes items
  = (map (fun section =>
            if py_eqb (fst section) (PStr "nodes") then section
            else match snd section with
                 | PList rows => (fst section, PList (on_rows rows))
                 | _ => section
                 end) items, Ok tt).
Proof.
  induction items as [|[k tbl] rest IH]; intros H; [reflexivity|].
  cbn [check_tables map fst snd].
  rewrite IH by (intros k' rows Hin; apply H; right; exact Hin).
  destruct (py_eqb k (PStr "nodes")) eqn:Hk; [reflexivity|].
  destruct tbl; try reflexivity.
  rewrite (H k l) by (auto; left; reflexivity). reflexivity.
Qed.

(** X11: on a vehicle without a [nodes] section, or with an empty one, whose
    list sections hold only dicts, [check_node_references] returns True and
    flags every row of every list section as virtual. *)
Theorem check_node_references_without_nodes :
  forall vehicle : pydict,
    match dict_get vehicle (PStr "nodes") with
    | Some n => truthy n = false
    | None => True
    end ->
    (forall k rows row,
       In (k, PList rows) vehicle -> py_eqb k (PStr "nodes") = false ->
       In row rows -> is_dict row = true) ->
    check_node_references vehicle
    = (map (fun section =>
              if py_eqb (fst section) (PStr "nodes") then section
              else match snd section with
                   | PList rows => (fst section, PList (map flag_virtual rows))
                   | _ => section
                   end) vehicle,
       Ok true).
Proof.
  intros vehicle Hn Hrows. unfold check_node_references.
  assert (E : match dict_get vehicle (PStr "nodes") with
              | Some n => if truthy n then Some n else None
              | None => None
              end = None).
  { destruct (dict_get vehicle (PStr "nodes")) as [n|]; [|reflexivity].
    rewrite Hn. reflexivity. }
  rewrite E.
  rewrite (check_tables_map None (map flag_virtual)); [reflexivity|].
  intros k rows Hin Hk. apply check_rows_flags_all.
  apply Forall_forall. intros row Hrow. eapply Hrows; eauto.
Qed.

(** X12: on a vehicle whose [nodes] section is a non-empty dict and whose
    other list sections hold only dicts, [check_node_references] returns
    True and flags exactly the rows that hold an item whose key and value
    are strings, whose key holds a colon and whose value is not a key of
    [nodes]; every other row is kept as it is. *)
Theorem check_node_references_flags_dangling :
  forall (vehicle nodes : pydict),
    dict_get vehicle (PStr "nodes") = Some (PDict nodes) ->
    nodes <> [] ->
    (forall k rows row,
       In (k, PList rows) vehicle -> py_eqb k (PStr "nodes") = false ->
       In row rows -> is_dict row = true) ->
    check_node_references vehicle
    = (map (fun section =>
              if py_eqb (fst section) (PStr "nodes") then section
              else match snd section with
                   | PList rows =>
                       (fst section,
                        PList (map (fun row =>
                                 match row with
                                 | PDict d =>
                                     if existsb (dangling_reference nodes) d
                                     then flag_virtual row else row
                                 | _ => row
                                 end) rows))
                   | _ => section
                   end) vehicle,
       Ok true).
Proof.
  intros vehicle nodes Hn Hne Hrows. unfold check_node_references.
  rewrite Hn.
  replace (truthy (PDict nodes)) with true
    by (destruct nodes; [congruence|reflexivity]).
  rewrite (check_tables_map (Some (PDict nodes))
             (map (fun row =>
                     match row with
                     | PDict d =>
                         if existsb (dangling_reference nodes) d
                         then flag_virtual row else row
                     | _ => row
                     end))); [reflexivity|].
  intros k rows Hin Hk. apply check_rows_flags_dangling.
  apply Forall_forall. intros row Hrow. eapply Hrows; eauto.
Qed.

Lemma convert_dict_to_list_tables_converts_witness :
  fst (convert_dict_to_list_tables vehicle_int_tables)
  = map (fun kv => (fst kv, section_as_list (snd kv))) vehicle_int_tables.
Proof.
  apply (convert_dict_to_list_tables_converts vehicle_int_tables).
  - simpl. repeat split; repeat constructor.
  - reflexivity.
Defined.

Lemma check_node_references_without_nodes_witness :
  check_node_references (fst (convert_dict_to_list_tables vehicle_int_tables))
  = ([(PStr "beams",
       PList [PDict [(PStr "id1:", PStr "a"); (PStr "id2:", PStr "b");
                     (PStr "__virtual", PBool true)];
              PDict [(PStr "id1:", PStr "a"); (PStr "id2:", PStr "c");
                     (PStr "__virtual", PBool true)]]);
      (PStr "information", PDict [(PStr "name", PStr "demo")])],
     Ok true).
Proof.
  rewrite (check_node_references_without_nodes
             (fst (convert_dict_to_list_tables vehicle_int_tables))).
  - reflexivity.
  - exact I.
  - intros k rows row Hin _ Hrow. vm_compute in Hin.
    destruct Hin as [E|[E|[]]]; inversion E; subst.
    destruct Hrow as [<-|[<-|[]]]; reflexivity.
Defined.

Lemma check_node_references_flags_dangling_witness :
  check_node_references vehicle_with_beams
  = ([(PStr "nodes",
       PDict [(PStr "a", PDict [(PStr "posX", PInt 0)]);
              (PStr "b", PDict [(PStr "posX", PInt 1)])]);
      (PStr "beams",
       PList [PDict [(PStr "id1:", PStr "a"); (PStr "id2:", PStr "b")];
              PDict [(PStr "id1:", PStr "a"); (PStr "id2:", PStr "c");
                     (PStr "__virtual", PBool true)]]);
      (PStr "information", PDict [(PStr "name", PStr "demo")])],
     Ok true).
Proof.
  rewrite (check_node_references_flags_dangling vehicle_with_beams
             [(PStr "a", PDict [(PStr "posX", PInt 0)]);
              (PStr "b", PDict [(PStr "posX", PInt 1)])]).
  - reflexivity.
  - reflexivity.
  - discriminate.
  - intros k rows row Hin _ Hrow. unfold vehicle_with_beams in Hin.
    destruct Hin as [E|[E|[E|[]]]]; inversion E; subst.
    destruct Hrow as [<-|[<-|[]]]; reflexivity.
Defined.

(* ------------------------------------------------------------------ *)
(** ** The reconciler as a whole *)

Lemma sd_get_set {V : Type} (d : sdict V) k v k' :
  sd_get (sd_set d k v) k' = if String.eqb k k' then Some v else sd_get d k'.
Proof.
  induction d as [|[k0 v0] r IH]; simpl.
  - reflexivity.
  - destruct (String.eqb k0 k) eqn:E; simpl.
    + apply String.eqb_eq in E. subst k0.
      destruct (String.eqb k k'); reflexivity.
    + rewrite IH. destruct (String.eqb k0 k') eqn:E'; [|reflexivity].
      apply String.eqb_eq in E'. subst k0. rewrite String.eqb_sym, E.
      reflexivity.
Qed.

Lemma sd_set_set {V : Type} (d : sdict V) k x v :
  sd_set (sd_set d k x) k v = sd_set d k v.
Proof.
  induction d as [|[k0 v0] r IH]; simpl.
  - rewrite String.eqb_refl. reflexivity.
  - destruct (String.eqb k0 k) eqn:E; simpl; rewrite E; [reflexivity|].
    f_equal. exact IH.
Qed.

Lemma sd_set_Forall {V : Type} (P : string * V -> Prop) (d : sdict V) k v :
  Forall P d -> P (k, v) -> Forall P (sd_set d k v).
Proof.
  intros Hd Hv. induction Hd as [|[k0 v0] r H0 Hr IH]; simpl.
  - constructor; [exact Hv|constructor].
  - destruct (String.eqb k0 k) eqn:E; constructor; auto.
    apply String.eqb_eq in E. subst k0. exact Hv.
Qed.

Lemma sd_mem_get {V : Type} (d : sdict V) k :
  sd_mem d k = match sd_get d k with Some _ => true | None => false end.
Proof.
  induction d as [|[k0 v0] r IH]; simpl; [reflexivity|].
  destruct (String.eqb k0 k); simpl; [reflexivity|exact IH].
Qed.

Lemma sd_get_in {V : Type} (d : sdict V) k v :
  sd_get d k = Some v -> exists k', In (k', v) d /\ String.eqb k' k = true.
Proof.
  induction d as [|[k0 v0] r IH]; simpl; [discriminate|].
  destruct (String.eqb k0 k) eqn:E.
  - intros H. inversion H; subst. eauto.
  - intros H. destruct (IH H) as (k' & Hin & Hk). eauto.
Qed.

Lemma set_blender_eq all k b :
  set_blender_node (ensure_entry all k) k b
  = sd_set all k (mkEntry (Some b)
                    match sd_get all k with
                    | Some e => jbeam_node e
                    | None => None
                    end).
Proof.
  unfold set_blender_node, ensure_entry. rewrite sd_mem_get.
  destruct (sd_get all k) as [e|] eqn:E.
  - rewrite E. reflexivity.
  - rewrite sd_get_set, String.eqb_refl. apply sd_set_set.
Qed.

Lemma set_jbeam_eq all k j :
  set_jbeam_node (ensure_entry all k) k j
  = sd_set all k (mkEntry
                    match sd_get all k with
                    | Some e => blender_node e
                    | None => None
                    end (Some j)).
Proof.
  unfold set_jbeam_node, ensure_entry. rewrite sd_mem_get.
  destruct (sd_get all k) as [e|] eqn:E.
  - rewrite E. reflexivity.
  - rewrite sd_get_set, String.eqb_refl. apply sd_set_set.
Qed.

Lemma read_vertex_inv jbeam_part st v :
  mesh_inv jbeam_part (node_id_to_part_origin st) (all_nodes st) ->
  let st' := fst (read_vertex jbeam_part st v) in
  mesh_inv jbeam_part (node_id_to_part_origin st') (all_nodes st').
Proof.
  intros [Hall Hor]. unfold read_vertex.
  destruct (String.eqb (v_node_part_origin v) jbeam_part) eqn:Eo;
    cbn [negb fst]; unfold mesh_inv;
    cbn [all_nodes node_id_to_part_origin].
  - rewrite set_blender_eq. split.
    + apply sd_set_Forall; [exact Hall|].
      unfold from_mesh. simpl. discriminate.
    + intros k. rewrite !sd_get_set.
      destruct (String.eqb (v_node_id v) k); [eauto|apply Hor].
  - split; [exact Hall|]. intros k. rewrite sd_get_set.
    destruct (String.eqb (v_node_id v) k) eqn:Ek.
    + intros H. inversion H as [H1]. rewrite H1, String.eqb_refl in Eo.
      discriminate.
    + apply Hor.
Qed.

Lemma read_vertices_inv jbeam_part verts :
  forall st,
    mesh_inv jbeam_part (node_id_to_part_origin st) (all_nodes st) ->
    let st' := fst (read_vertices jbeam_part st verts) in
    mesh_inv jbeam_part (node_id_to_part_origin st') (all_nodes st').
Proof.
  induction verts as [|v rest IH]; intros st H; simpl; [exact H|].
  pose proof (read_vertex_inv jbeam_part st v H) as H1.
  destruct (read_vertex jbeam_part st v) as [st1 v'] eqn:E1. simpl in H1.
  specialize (IH st1 H1).
  destruct (read_vertices jbeam_part st1 rest) as [st2 rest'] eqn:E2.
  exact IH.
Qed.

Lemma origin_of_ok origin key s o :
  origin_of origin key = Ok (s, o) -> key = PStr s /\ sd_get origin s = Some o.
Proof.
  unfold origin_of. destruct (hashable key); [|discriminate].
  destruct key; try discriminate.
  destruct (sd_get origin s0) as [o'|] eqn:E; [|discriminate].
  intros H. inversion H; subst. auto.
Qed.

(** What reading one row of the file does to [all_nodes]: nothing, or the
    entry of the row's id receives the row. *)
Lemma read_row_ok jbeam_part origin section all i all' :
  read_row jbeam_part origin section all i = Ok all' ->
  all' = all \/
  exists row_data s x y z,
    i <> 0 /\
    py_getitem section (PInt i) = Ok row_data /\ is_list row_data = true /\
    py_getitem row_data (PInt 0) = Ok (PStr s) /\
    sd_get origin s = Some jbeam_part /\
    cell_c_float row_data 1 = Ok x /\
    cell_c_float row_data 2 = Ok y /\
    cell_c_float row_data 3 = Ok z /\
    all' = set_jbeam_node (ensure_entry all s) s (s, (x, y, z)).
Proof.
  unfold read_row. destruct (i =? 0) eqn:Ei.
  { intros H. inversion H. auto. }
  apply Z.eqb_neq in Ei.
  destruct (py_getitem section (PInt i)) as [row_data|] eqn:Hrow;
    [|discriminate]. simpl bind.
  destruct (is_list row_data) eqn:Hl; [|intros H; inversion H; auto].
  destruct (py_getitem row_data (PInt 0)) as [curr|] eqn:Hc; [|discriminate].
  simpl bind.
  destruct (origin_of origin curr) as [[s o]|] eqn:Ho; [|discriminate].
  simpl bind. apply origin_of_ok in Ho. destruct Ho as [-> Ho].
  destruct (String.eqb jbeam_part o) eqn:Eo; simpl negb; cbv iota.
  2:{ intros H. inversion H. auto. }
  apply String.eqb_eq in Eo. subst o.
  destruct (cell_c_float row_data 1) as [x|] eqn:Hx; [|discriminate].
  simpl bind.
  destruct (cell_c_float row_data 2) as [y|] eqn:Hy; [|discriminate].
  simpl bind.
  destruct (cell_c_float row_data 3) as [z|] eqn:Hz; [|discriminate].
  simpl bind.
  intros H. inversion H. right.
  exists row_data, s, x, y, z.
  split; [exact Ei|]. split; [reflexivity|]. split; [exact Hl|].
  split; [exact Hc|]. split; [exact Ho|]. auto.
Qed.

Lemma read_row_inv jbeam_part origin section all i all' :
  mesh_inv jbeam_part origin all ->
  read_row jbeam_part origin section all i = Ok all' ->
  mesh_inv jbeam_part origin all'.
Proof.
  intros [Hall Hor] H. apply read_row_ok in H.
  destruct H as [->|(row & s & x & y & z & _ & _ & _ & _ & Ho & _ & _ & _ & ->)];
    [split; assumption|].
  destruct (Hor s Ho) as (e0 & He0).
  rewrite set_jbeam_eq, He0. split.
  - apply sd_set_Forall; [exact Hall|]. unfold from_mesh. simpl.
    destruct (sd_get_in _ _ _ He0) as (k0 & Hin & _).
    rewrite Forall_forall in Hall. exact (Hall _ Hin).
  - intros k Hk. rewrite sd_get_set.
    destruct (String.eqb s k); [eauto|apply Hor; exact Hk].
Qed.

Lemma read_rows_inv jbeam_part origin section count :
  forall all i all',
    mesh_inv jbeam_part origin all ->
    read_rows jbeam_part origin section all i count = Ok all' ->
    mesh_inv jbeam_part origin all'.
Proof.
  induction count as [|n IH]; intros all i all' Hinv H; simpl in H.
  - inversion H; subst. exact Hinv.
  - destruct (read_row jbeam_part origin section all i) as [all1|] eqn:E;
      [|discriminate].
    simpl in H. eapply IH; [|exact H]. eapply read_row_inv; eauto.
Qed.

Lemma classify_from_mesh entries :
  forall adds dels,
    Forall (fun kv => from_mesh (snd kv)) entries ->
    snd (classify entries adds dels) = dels.
Proof.
  induction entries as [|[id data] rest IH]; intros adds dels H; [reflexivity|].
  inversion H as [|x l Hd Hr]; subst. simpl in Hd.
  simpl. unfold from_mesh in Hd.
  destruct (jbeam_node data) as [[c p]|];
    destruct (blender_node data) as [[[a b] q]|]; try congruence;
    apply IH; exact Hr.
Qed.

Lemma rename_by_identity_no_deletes items :
  forall rn adds,
    rename_by_identity items (mkRec rn [] adds) = mkRec rn [] adds.
Proof.
  induction items as [|[a b] rest IH]; intros rn adds; [reflexivity|].
  simpl. apply IH.
Qed.

(** The state the function is in when the rows of the file have been read
    and the call goes on to return. *)
Lemma get_nodes_add_delete_rename_ok verts verts' data part r :
  get_nodes_add_delete_rename verts data part = (verts', Ok r) ->
  exists mesh section all1,
    read_vertices part (mkMesh [] [] []) verts = (mesh, verts') /\
    nodes_section_of data part = Ok section /\
    match section with
    | Some (_, _, nodes_section) =>
        exists count,
          iter_length nodes_section = Ok count /\
          read_rows part (node_id_to_part_origin mesh) nodes_section
            (all_nodes mesh) 0 count = Ok all1
    | None => all1 = all_nodes mesh
    end /\
    mesh_inv part (node_id_to_part_origin mesh) all1 /\
    r_nodes_to_add r = fst (classify all1 [] []) /\
    r_nodes_to_delete r = [] /\
    r_true_node_renames r = [] /\
    match section with
    | Some (d, pd, PList rows) =>
        exists rows',
          write_rows part (node_id_to_part_origin mesh) all1 [] 0 rows
            = Ok rows' /\
          r_current_jbeam_file_data_modified r
          = PDict (dict_set d (PStr part)
                     (PDict (dict_set pd (PStr "nodes") (PList rows'))))
    | _ => r_current_jbeam_file_data_modified r = data
    end.
Proof.
  intros H. unfold get_nodes_add_delete_rename in H.
  pose proof (read_vertices_inv part verts (mkMesh [] [] [])) as Hinv.
  destruct (read_vertices part (mkMesh [] [] []) verts) as [mesh vs] eqn:Ev.
  simpl in Hinv.
  assert (Hinv0 : mesh_inv part [] []).
  { split; [constructor|]. intros k; simpl; discriminate. }
  specialize (Hinv Hinv0). clear Hinv0.
  inversion H as [[Hv Hr]]. subst vs. clear H.
  destruct (nodes_section_of data part) as [section|]; [|discriminate].
  simpl bind in Hr.
  match type of Hr with
  | bind ?rd _ = _ => destruct rd as [all1|] eqn:Hread; [|discriminate]
  end.
  simpl bind in Hr.
  exists mesh, section, all1.
  split; [reflexivity|]. split; [reflexivity|].
  assert (Hsec : match section with
    | Some (_, _, nodes_section) =>
        exists count,
          iter_length nodes_section = Ok count /\
          read_rows part (node_id_to_part_origin mesh) nodes_section
            (all_nodes mesh) 0 count = Ok all1
    | None => all1 = all_nodes mesh
    end).
  { destruct section as [[[d pd] ns]|].
    - destruct (iter_length ns) as [count|]; [|discriminate]. simpl in Hread.
      exists count. auto.
    - inversion Hread. reflexivity. }
  split; [exact Hsec|].
  assert (Hinv1 : mesh_inv part (node_id_to_part_origin mesh) all1).
  { destruct section as [[[d pd] ns]|].
    - destruct Hsec as (count & _ & Hrd). eapply read_rows_inv; eauto.
    - subst all1. exact Hinv. }
  split; [exact Hinv1|].
  pose proof (classify_from_mesh all1 [] [] (proj1 Hinv1)) as Hcl.
  destruct (classify all1 [] []) as [adds dels]. simpl in Hcl. subst dels.
  rewrite rename_by_identity_no_deletes in Hr.
  unfold rename_by_position in Hr. simpl in Hr.
  destruct section as [[[d pd] ns]|].
  - destruct ns as [| | | | |rows| | |]; simpl in Hr;
      try (inversion Hr; subst r; simpl; auto).
    destruct (write_rows part (node_id_to_part_origin mesh) all1 [] 0 rows)
      as [rows'|] eqn:Hw; [|discriminate].
    simpl in Hr. inversion Hr; subst r. simpl.
    repeat split; auto. exists rows'. auto.
  - simpl in Hr. inversion Hr; subst r. simpl. auto.
Qed.

(** X13: whenever [_get_nodes_add_delete_rename] returns, the map of nodes to
    delete and the map of renames are empty: a row of the file is looked up
    in [node_id_to_part_origin], which holds live vertices only, so a row
    that has an entry under ['jbeam_node'] has one under ['blender_node']
    too. *)
Theorem get_nodes_add_delete_rename_never_deletes :
  forall (verts verts' : list vertex) (current_jbeam_file_data : pyval)
         (jbeam_part : string) (r : reconciled),
    get_nodes_add_delete_rename verts current_jbeam_file_data jbeam_part
      = (verts', Ok r) ->
    r_nodes_to_delete r = [] /\ r_true_node_renames r = [].
Proof.
  intros verts verts' data part r H.
  destruct (get_nodes_add_delete_rename_ok _ _ _ _ _ H)
    as (mesh & section & all1 & _ & _ & _ & _ & _ & Hd & Hr & _).
  auto.
Qed.

Lemma nodes_section_of_some data part d pd ns :
  nodes_section_of data part = Ok (Some (d, pd, ns)) ->
  data = PDict d /\
  dict_get d (PStr part) = Some (PDict pd) /\
  dict_get pd (PStr "nodes") = Some ns.
Proof.
  unfold nodes_section_of.
  destruct (py_contains data part) as [[|]|]; simpl bind; try discriminate.
  destruct (py_getitem data (PStr part)) as [part_data|] eqn:Hp;
    [|discriminate]. simpl bind.
  destruct (py_contains part_data "nodes") as [[|]|]; simpl bind;
    try discriminate.
  destruct (py_getitem part_data (PStr "nodes")) as [ns'|] eqn:Hn;
    [|discriminate]. simpl bind.
  destruct data; try discriminate. destruct part_data; try discriminate.
  intros H. inversion H; subst.
  simpl in Hp, Hn.
  destruct (dict_get d (PStr part)); [|discriminate].
  destruct (dict_get pd (PStr "nodes")); [|discriminate].
  inversion Hp. inversion Hn. auto.
Qed.

Lemma read_rows_each jbeam_part origin section count :
  forall all i all',
    read_rows jbeam_part origin section all i count = Ok all' ->
    forall j, (j < count)%nat ->
      exists a a',
        read_row jbeam_part origin section a (i + Z.of_nat j) = Ok a'.
Proof.
  induction count as [|n IH]; intros all i all' H j Hj; [lia|].
  simpl in H.
  destruct (read_row jbeam_part origin section all i) as [all1|] eqn:E;
    [|discriminate].
  simpl in H. destruct j as [|j].
  - exists all, all1. rewrite Z.add_0_r. exact E.
  - destruct (IH _ _ _ H j) as (a & a' & Ha); [lia|].
    exists a, a'. rewrite <- Ha. f_equal. lia.
Qed.

Lemma read_vertices_origin jbeam_part verts :
  forall st s o,
    sd_get (node_id_to_part_origin (fst (read_vertices jbeam_part st verts))) s
      = Some o ->
    sd_get (node_id_to_part_origin st) s = Some o \/
    exists v, In v verts /\ v_node_id v = s.
Proof.
  induction verts as [|v rest IH]; intros st s o H; simpl in H; [auto|].
  destruct (read_vertex jbeam_part st v) as [st1 v'] eqn:E1.
  destruct (read_vertices jbeam_part st1 rest) as [st2 rest'] eqn:E2.
  simpl in H.
  pose proof (IH st1 s o) as IH1. rewrite E2 in IH1. simpl in IH1.
  destruct (IH1 H) as [H1|(v0 & Hin & Hv)].
  - assert (Ho : node_id_to_part_origin st1
                 = sd_set (node_id_to_part_origin st) (v_node_id v)
                     (v_node_part_origin v)).
    { unfold read_vertex in E1.
      destruct (negb (String.eqb (v_node_part_origin v) jbeam_part));
        inversion E1; reflexivity. }
    rewrite Ho, sd_get_set in H1.
    destruct (String.eqb (v_node_id v) s) eqn:Es.
    + right. exists v. apply String.eqb_eq in Es. simpl. auto.
    + left. exact H1.
  - right. exists v0. simpl. auto.
Qed.

(** X14: when the nodes section of the part is a list that holds, after its
    header, a row whose id is the id of no vertex of the mesh, the call
    raises: the id is missing from [node_id_to_part_origin]. *)
Theorem get_nodes_add_delete_rename_raises_without_vertex :
  forall (verts : list vertex) (current_jbeam_file_data : pyval)
         (jbeam_part : string) (d pd : pydict) (rows cells : list pyval)
         (i : nat) (s : string),
    nodes_section_of current_jbeam_file_data jbeam_part
      = Ok (Some (d, pd, PList rows)) ->
    (1 <= i)%nat ->
    nth_error rows i = Some (PList (PStr s :: cells)) ->
    (forall v, In v verts -> v_node_id v <> s) ->
    exists e,
      snd (get_nodes_add_delete_rename verts current_jbeam_file_data
             jbeam_part) = Raise e.
Proof.
  intros verts data part d pd rows cells i s Hsec Hi Hrow Hnone.
  destruct (get_nodes_add_delete_rename verts data part) as [verts' [r|e]]
    eqn:H; [|exists e; reflexivity].
  exfalso.
  destruct (get_nodes_add_delete_rename_ok _ _ _ _ _ H)
    as (mesh & section & all1 & Hv & Hs & Hread & _).
  rewrite Hsec in Hs. inversion Hs; subst section. clear Hs.
  destruct Hread as (count & Hc & Hread). simpl in Hc. inversion Hc; subst count.
  assert (Hlt : (i < List.length rows)%nat).
  { apply nth_error_Some. congruence. }
  destruct (read_rows_each _ _ _ _ _ _ _ Hread i Hlt) as (a & a' & Hr).
  simpl in Hr. unfold read_row in Hr.
  replace (Z.of_nat i =? 0) with false in Hr
    by (symmetry; apply Z.eqb_neq; lia).
  assert (Hget : py_getitem (PList rows) (PInt (Z.of_nat i))
                 = Ok (PList (PStr s :: cells))).
  { unfold py_getitem, as_index, py_nth.
    replace (Z.of_nat i <? 0) with false by (symmetry; apply Z.ltb_ge; lia).
    replace ((0 <=? Z.of_nat i) && (Z.of_nat i <? Z.of_nat (List.length rows)))
      with true.
    2:{ symmetry. apply andb_true_iff.
        split; [apply Z.leb_le | apply Z.ltb_lt]; lia. }
    rewrite Nat2Z.id, Hrow. reflexivity. }
  rewrite Hget in Hr. simpl in Hr.
  destruct (origin_of (node_id_to_part_origin mesh) (PStr s)) as [[s' o]|]
    eqn:Ho; [|discriminate].
  apply origin_of_ok in Ho. destruct Ho as [Es Ho]. inversion Es; subst s'.
  pose proof (read_vertices_origin part verts (mkMesh [] [] []) s o) as Hor.
  rewrite Hv in Hor. simpl in Hor.
  destruct (Hor Ho) as [Hx|(v & Hin & Hid)]; [discriminate|].
  exact (Hnone v Hin Hid).
Qed.

Lemma read_vertices_commit jbeam_part verts :
  forall st,
    snd (read_vertices jbeam_part st verts)
    = map (commit_node_id jbeam_part) verts.
Proof.
  induction verts as [|v rest IH]; intros st; [reflexivity|].
  simpl.
  destruct (read_vertex jbeam_part st v) as [st1 v'] eqn:E1.
  specialize (IH st1).
  destruct (read_vertices jbeam_part st1 rest) as [st2 rest'] eqn:E2.
  simpl in *. rewrite IH. f_equal.
  unfold read_vertex in E1. unfold commit_node_id.
  destruct (String.eqb (v_node_part_origin v) jbeam_part);
    simpl in E1; inversion E1; reflexivity.
Qed.

(** X15: after the call, also when it raises, the init id layer of every
    vertex of the part holds the current id of the vertex, and the other
    vertices are as before. *)
Theorem get_nodes_add_delete_rename_commits_node_ids :
  forall (verts : list vertex) (current_jbeam_file_data : pyval)
         (jbeam_part : string),
    fst (get_nodes_add_delete_rename verts current_jbeam_file_data jbeam_part)
    = map (commit_node_id jbeam_part) verts.
Proof.
  intros verts data part. unfold get_nodes_add_delete_rename.
  pose proof (read_vertices_commit part verts (mkMesh [] [] [])) as H.
  destruct (read_vertices part (mkMesh [] [] []) verts) as [mesh vs].
  exact H.
Qed.

Lemma scalar_eqb_str_l k p : scalar_eqb k (PStr p) = true -> k = PStr p.
Proof.
  destruct k; try discriminate. unfold scalar_eqb. simpl.
  intros H. apply String.eqb_eq in H. subst. reflexivity.
Qed.

Lemma scalar_eqb_str_r k p : scalar_eqb (PStr p) k = true -> k = PStr p.
Proof.
  destruct k; try discriminate. unfold scalar_eqb. simpl.
  intros H. apply String.eqb_eq in H. subst. reflexivity.
Qed.

Lemma dict_get_set_str (d : pydict) p v k :
  k <> PStr p ->
  dict_get (dict_set d (PStr p) v) k = dict_get d k.
Proof.
  intros Hk. induction d as [|[k0 v0] r IH]; simpl.
  - destruct (scalar_eqb (PStr p) k) eqn:E; [|reflexivity].
    apply scalar_eqb_str_r in E. contradiction.
  - destruct (scalar_eqb k0 (PStr p)) eqn:E0; simpl.
    + apply scalar_eqb_str_l in E0. subst k0.
      destruct (scalar_eqb (PStr p) k) eqn:E; [|reflexivity].
      apply scalar_eqb_str_r in E. contradiction.
    + rewrite IH. reflexivity.
Qed.

Lemma dict_get_set_same (d : pydict) p v x :
  dict_get d (PStr p) = Some x ->
  dict_get (dict_set d (PStr p) v) (PStr p) = Some v.
Proof.
  induction d as [|[k0 v0] r IH]; simpl; [discriminate|].
  destruct (scalar_eqb k0 (PStr p)) eqn:E0; simpl; rewrite E0.
  - reflexivity.
  - exact IH.
Qed.

Lemma py_eqb_str_neq k p : py_eqb k (PStr p) = false -> k <> PStr p.
Proof.
  intros H E. subst k. simpl in H. unfold scalar_eqb in H. simpl in H.
  rewrite String.eqb_refl in H. discriminate.
Qed.

(** X16: the tree a call returns agrees with the file data at every path
    outside the part and, inside the part, at every path outside its nodes
    section. *)
Theorem get_nodes_add_delete_rename_frame :
  forall (verts verts' : list vertex) (current_jbeam_file_data : pyval)
         (jbeam_part : string) (r : reconciled),
    get_nodes_add_delete_rename verts current_jbeam_file_data jbeam_part
      = (verts', Ok r) ->
    agree_outside jbeam_part current_jbeam_file_data
      (r_current_jbeam_file_data_modified r)
    /\ forall k rest,
         py_eqb k (PStr "nodes") = false ->
         tree_at current_jbeam_file_data (PStr jbeam_part :: k :: rest)
         = tree_at (r_current_jbeam_file_data_modified r)
             (PStr jbeam_part :: k :: rest).
Proof.
  intros verts verts' data part r H.
  destruct (get_nodes_add_delete_rename_ok _ _ _ _ _ H)
    as (mesh & section & all1 & _ & Hs & _ & _ & _ & _ & _ & Hm).
  assert (Hsame : r_current_jbeam_file_data_modified r = data ->
    agree_outside part data (r_current_jbeam_file_data_modified r) /\
    forall k rest,
      py_eqb k (PStr "nodes") = false ->
      tree_at data (PStr part :: k :: rest)
      = tree_at (r_current_jbeam_file_data_modified r)
          (PStr part :: k :: rest)).
  { intros ->. split; [intros k rest _; reflexivity|reflexivity]. }
  destruct section as [[[d pd] ns]|]; [|exact (Hsame Hm)].
  destruct ns as [| | | | |rows| | |]; try exact (Hsame Hm).
  destruct Hm as (rows' & _ & ->). clear Hsame.
  apply nodes_section_of_some in Hs. destruct Hs as (-> & Hp & Hn).
  split.
  - intros k rest Hk. apply py_eqb_str_neq in Hk.
    simpl. rewrite dict_get_set_str by exact Hk. reflexivity.
  - intros k rest Hk. apply py_eqb_str_neq in Hk.
    simpl. rewrite (dict_get_set_same _ _ _ _ Hp), Hp. simpl.
    rewrite dict_get_set_str by exact Hk. reflexivity.
Qed.

Lemma read_vertices_entries jbeam_part full verts :
  forall st,
    (forall v, In v verts -> In v full) ->
    entries_of_mesh jbeam_part full (all_nodes st) ->
    entries_of_mesh jbeam_part full
      (all_nodes (fst (read_vertices jbeam_part st verts))).
Proof.
  induction verts as [|v rest IH]; intros st Hin H; simpl; [exact H|].
  destruct (read_vertex jbeam_part st v) as [st1 v'] eqn:E1.
  assert (H1 : entries_of_mesh jbeam_part full (all_nodes st1)).
  { unfold read_vertex in E1.
    destruct (String.eqb (v_node_part_origin v) jbeam_part) eqn:Eo;
      simpl in E1; inversion E1; subst st1; simpl; [|exact H].
    rewrite set_blender_eq. apply sd_set_Forall; [exact H|].
    simpl. intros b Hb. inversion Hb; subst b.
    exists v. apply String.eqb_eq in Eo.
    split; [apply Hin; left; reflexivity|]. auto. }
  specialize (IH st1 (fun v0 Hv0 => Hin v0 (or_intror Hv0)) H1).
  destruct (read_vertices jbeam_part st1 rest) as [st2 rest'].
  exact IH.
Qed.

Lemma read_rows_entries jbeam_part full origin section count :
  forall all i all',
    entries_of_mesh jbeam_part full all ->
    read_rows jbeam_part origin section all i count = Ok all' ->
    entries_of_mesh jbeam_part full all'.
Proof.
  induction count as [|n IH]; intros all i all' Hall H; simpl in H.
  - inversion H; subst. exact Hall.
  - destruct (read_row jbeam_part origin section all i) as [all1|] eqn:E;
      [|discriminate].
    simpl in H. eapply IH; [|exact H].
    apply read_row_ok in E.
    destruct E as [->|(row & s & x & y & z & _ & _ & _ & _ & _ & _ & _ & _ & ->)];
      [exact Hall|].
    rewrite set_jbeam_eq. apply sd_set_Forall; [exact Hall|].
    simpl. intros b Hb.
    destruct (sd_get all s) as [e|] eqn:He; [|discriminate].
    destruct (sd_get_in _ _ _ He) as (k0 & Hin & Hk).
    apply String.eqb_eq in Hk. subst k0.
    unfold entries_of_mesh in Hall. rewrite Forall_forall in Hall.
    exact (Hall _ Hin b Hb).
Qed.

Lemma get_nodes_add_delete_rename_entries verts verts' data part r :
  get_nodes_add_delete_rename verts data part = (verts', Ok r) ->
  exists mesh all1,
    entries_of_mesh part verts all1 /\
    r_nodes_to_add r = fst (classify all1 [] []) /\
    forall d pd rows,
      nodes_section_of data part = Ok (Some (d, pd, PList rows)) ->
      exists rows',
        write_rows part (node_id_to_part_origin mesh) all1 [] 0 rows
          = Ok rows' /\
        r_current_jbeam_file_data_modified r
        = PDict (dict_set d (PStr part)
                   (PDict (dict_set pd (PStr "nodes") (PList rows')))).
Proof.
  intros H.
  destruct (get_nodes_add_delete_rename_ok _ _ _ _ _ H)
    as (mesh & section & all1 & Hv & Hs & Hread & _ & Ha & _ & _ & Hm).
  exists mesh, all1.
  assert (H0 : entries_of_mesh part verts (all_nodes mesh)).
  { pose proof (read_vertices_entries part verts verts (mkMesh [] [] [])
                  (fun v Hv0 => Hv0)) as He.
    rewrite Hv in He. apply He. constructor. }
  split.
  - destruct section as [[[d pd] ns]|].
    + destruct Hread as (count & _ & Hr). eapply read_rows_entries; eauto.
    + subst all1. exact H0.
  - split; [exact Ha|]. intros d pd rows Hsec.
    rewrite Hsec in Hs. inversion Hs; subst section. exact Hm.
Qed.

Lemma sd_set_in {V : Type} (d : sdict V) k v k' v' :
  In (k', v') (sd_set d k v) -> In (k', v') d \/ (k' = k /\ v' = v).
Proof.
  induction d as [|[k0 v0] r IH]; simpl.
  - intros [E|[]]. inversion E. auto.
  - destruct (String.eqb k0 k) eqn:E0; simpl.
    + intros [E|Hin]; [|auto]. inversion E; subst.
      apply String.eqb_eq in E0. auto.
    + intros [E|Hin]; [auto|]. destruct (IH Hin) as [Hr|Hr]; auto.
Qed.

Lemma classify_adds entries :
  forall adds dels id pos,
    In (id, pos) (fst (classify entries adds dels)) ->
    In (id, pos) adds \/
    exists e a b,
      In (id, e) entries /\ blender_node e = Some (a, b, pos) /\
      jbeam_node e = None.
Proof.
  induction entries as [|[k data] rest IH]; intros adds dels id pos H;
    simpl in H; [auto|].
  assert (Hrest : forall adds' dels',
    In (id, pos) (fst (classify rest adds' dels')) ->
    adds' = adds ->
    In (id, pos) adds \/
    exists e a b,
      In (id, e) ((k, data) :: rest) /\ blender_node e = Some (a, b, pos) /\
      jbeam_node e = None).
  { intros adds' dels' Hc ->. destruct (IH _ _ _ _ Hc) as [Hl|(e & a & b & Hin & Hb)].
    - auto.
    - right. exists e, a, b. simpl. tauto. }
  destruct (jbeam_node data) as [[c p]|] eqn:Hj.
  - destruct (blender_node data) as [bn|]; eapply Hrest; eauto.
  - destruct (blender_node data) as [[[a b] q]|] eqn:Hb;
      [|eapply Hrest; eauto].
    destruct (IH _ _ _ _ H) as [Hl|(e & a' & b' & Hin & Hb')].
    + apply sd_set_in in Hl. destruct Hl as [Hl|[-> ->]]; [auto|].
      right. exists data, a, b. simpl. auto.
    + right. exists e, a', b'. simpl. tauto.
Qed.

(** X17: every node a call returns as to add is the id of a vertex of the
    mesh that belongs to the part, with the world position of that vertex
    rounded to C floats. *)
Theorem get_nodes_add_delete_rename_adds_live_nodes :
  forall (verts verts' : list vertex) (current_jbeam_file_data : pyval)
         (jbeam_part : string) (r : reconciled) (id : string) (pos : pos3),
    get_nodes_add_delete_rename verts current_jbeam_file_data jbeam_part
      = (verts', Ok r) ->
    In (id, pos) (r_nodes_to_add r) ->
    exists v,
      In v verts /\ v_node_id v = id /\ v_node_part_origin v = jbeam_part /\
      pos = c_float_pos (v_new_pos v).
Proof.
  intros verts verts' data part r id pos H Hin.
  destruct (get_nodes_add_delete_rename_entries _ _ _ _ _ H)
    as (mesh & all1 & He & Ha & _).
  rewrite Ha in Hin. apply classify_adds in Hin.
  destruct Hin as [[]|(e & a & b & Hin & Hb & _)].
  unfold entries_of_mesh in He. rewrite Forall_forall in He.
  destruct (He _ Hin _ Hb) as (v & Hv & Hid & Ho & Eb).
  exists v. inversion Eb. auto.
Qed.

Lemma py_getitem_list_0 cells v :
  py_getitem (PList cells) (PInt 0) = Ok v -> nth_error cells 0 = Some v.
Proof.
  unfold py_getitem, as_index, py_nth. simpl.
  destruct cells as [|c r]; simpl; [discriminate|].
  replace (0 <? Z.pos (Pos.of_succ_nat (List.length r))) with true
    by (symmetry; apply Z.ltb_lt; lia).
  simpl. intros H. inversion H. reflexivity.
Qed.

Lemma list_assign_ok l k v l' :
  list_assign l k v = Ok l' -> (k < List.length l)%nat /\ l' = set_at l k v.
Proof.
  unfold list_assign. destruct (k <? List.length l)%nat eqn:E; [|discriminate].
  apply Nat.ltb_lt in E. intros H. inversion H. auto.
Qed.

(** What the loop that writes the rows does to one row when no rename has
    been recorded. *)
Lemma write_row_ok part full origin all i row row' :
  entries_of_mesh part full all ->
  write_row part origin all [] i row = Ok row' ->
  row' = row \/
  exists cells s v,
    i <> O /\ row = PList cells /\ nth_error cells 0 = Some (PStr s) /\
    (3 < List.length cells)%nat /\
    In v full /\ v_node_id v = s /\ v_node_part_origin v = part /\
    row' = PList
             (set_at
                (set_at
                   (set_at cells 1
                      (PFloat (fst (fst (c_float_pos (v_new_pos v))))))
                   2 (PFloat (snd (fst (c_float_pos (v_new_pos v))))))
                3 (PFloat (snd (c_float_pos (v_new_pos v))))).
Proof.
  intros Hall. unfold write_row.
  destruct (Nat.eqb i 0) eqn:Ei; [intros H; inversion H; auto|].
  apply Nat.eqb_neq in Ei.
  destruct row as [| | | | |cells| | |];
    try solve [intros H; inversion H; auto].
  destruct (py_getitem (PList cells) (PInt 0)) as [curr|] eqn:Hc;
    [|discriminate]. simpl bind.
  destruct (origin_of origin curr) as [[s o]|] eqn:Ho; [|discriminate].
  simpl bind. apply origin_of_ok in Ho. destruct Ho as [-> Ho].
  destruct (String.eqb part o) eqn:Eo; simpl negb; cbv iota;
    [|intros H; inversion H; auto].
  simpl rn_get. cbv iota.
  destruct (sd_get all s) as [e|] eqn:He; [|discriminate].
  destruct (blender_node e) as [[[a b] [[x y] z]]|] eqn:Hb;
    [|intros H; inversion H; auto].
  destruct (list_assign cells 1 (PFloat x)) as [c1|] eqn:H1; [|discriminate].
  simpl bind.
  destruct (list_assign c1 2 (PFloat y)) as [c2|] eqn:H2; [|discriminate].
  simpl bind.
  destruct (list_assign c2 3 (PFloat z)) as [c3|] eqn:H3; [|discriminate].
  simpl bind. intros H. inversion H; subst row'.
  apply list_assign_ok in H1, H2, H3.
  destruct H1 as [L1 ->]. destruct H2 as [L2 ->]. destruct H3 as [L3 ->].
  rewrite !set_at_length in L3.
  destruct (sd_get_in _ _ _ He) as (k0 & Hin & Hk).
  apply String.eqb_eq in Hk. subst k0.
  unfold entries_of_mesh in Hall. rewrite Forall_forall in Hall.
  destruct (Hall _ Hin _ Hb) as (v & Hv & Hid & Hor & Eb).
  inversion Eb as [[Ea Eb' Ep]].
  right. exists cells, s, v.
  split; [exact Ei|]. split; [reflexivity|].
  split; [apply py_getitem_list_0; exact Hc|].
  split; [exact L3|]. split; [exact Hv|]. split; [exact Hid|].
  split; [exact Hor|]. rewrite <- Ep. reflexivity.
Qed.

Lemma write_rows_ok part full origin all rows :
  forall i rows',
    entries_of_mesh part full all ->
    write_rows part origin all [] i rows = Ok rows' ->
    Forall2
      (fun row row' =>
         row' = row \/
         exists cells s v,
           row = PList cells /\ nth_error cells 0 = Some (PStr s) /\
           (3 < List.length cells)%nat /\
           In v full /\ v_node_id v = s /\ v_node_part_origin v = part /\
           row' = PList
                    (set_at
                       (set_at
                          (set_at cells 1
                             (PFloat (fst (fst (c_float_pos (v_new_pos v))))))
                          2 (PFloat (snd (fst (c_float_pos (v_new_pos v))))))
                       3 (PFloat (snd (c_float_pos (v_new_pos v))))))
      rows rows' /\
    (i = O -> hd_error rows' = hd_error rows).
Proof.
  induction rows as [|row rest IH]; intros i rows' Hall H; simpl in H.
  - inversion H. split; [constructor|reflexivity].
  - destruct (write_row part origin all [] i row) as [row1|] eqn:E;
      [|discriminate]. simpl in H.
    destruct (write_rows part origin all [] (S i) rest) as [rest1|] eqn:Er;
      [|discriminate]. simpl in H. inversion H; subst rows'.
    destruct (IH _ _ Hall Er) as [IHr _].
    split.
    + constructor; [|exact IHr].
      destruct (write_row_ok _ _ _ _ _ _ _ Hall E)
        as [->|(cells & s & v & _ & Hrest)]; [left; reflexivity|].
      right. exists cells, s, v. exact Hrest.
    + intros ->. simpl. unfold write_row in E. simpl in E.
      inversion E. reflexivity.
Qed.

(** X18: when the nodes section of the part is a list, the tree a call
    returns holds, in the place of that section, a list with the same
    header in which every row either is as before or is a list that starts
    with the id of a vertex of the part and has received, in its cells 1 to
    3, the world position of that vertex rounded to C floats, its id and
    its further cells being kept. *)
Theorem get_nodes_add_delete_rename_writes_positions :
  forall (verts verts' : list vertex) (current_jbeam_file_data : pyval)
         (jbeam_part : string) (r : reconciled) (d pd : pydict)
         (rows : list pyval),
    get_nodes_add_delete_rename verts current_jbeam_file_data jbeam_part
      = (verts', Ok r) ->
    nodes_section_of current_jbeam_file_data jbeam_part
      = Ok (Some (d, pd, PList rows)) ->
    exists rows',
      r_current_jbeam_file_data_modified r
      = PDict (dict_set d (PStr jbeam_part)
                 (PDict (dict_set pd (PStr "nodes") (PList rows'))))
      /\ hd_error rows' = hd_error rows
      /\ Forall2
           (fun row row' =>
              row' = row \/
              exists cells s v,
                row = PList cells /\ nth_error cells 0 = Some (PStr s) /\
                (3 < List.length cells)%nat /\
                In v verts /\ v_node_id v = s /\
                v_node_part_origin v = jbeam_part /\
                row' = PList
                         (set_at
                            (set_at
                               (set_at cells 1
                                  (PFloat
                                     (fst (fst (c_float_pos (v_new_pos v))))))
                               2
                               (PFloat
                                  (snd (fst (c_float_pos (v_new_pos v))))))
                            3 (PFloat (snd (c_float_pos (v_new_pos v))))))
           rows rows'.
Proof.
  intros verts verts' data part r d pd rows H Hsec.
  destruct (get_nodes_add_delete_rename_entries _ _ _ _ _ H)
    as (mesh & all1 & He & _ & Hm).
  destruct (Hm _ _ _ Hsec) as (rows' & Hw & Hr).
  exists rows'. split; [exact Hr|].
  destruct (write_rows_ok _ _ _ _ _ _ _ He Hw) as [HF Hh].
  split; [apply Hh; reflexivity|exact HF].
Qed.

Lemma get_nodes_add_delete_rename_never_deletes_witness :
  match snd (get_nodes_add_delete_rename mesh_a_b file_p_q "p") with
  | Ok r => r_nodes_to_delete r = [] /\ r_true_node_renames r = []
  | Raise _ => False
  end.
Proof.
  destruct (get_nodes_add_delete_rename mesh_a_b file_p_q "p")
    as [verts' [r|e]] eqn:H.
  - exact (get_nodes_add_delete_rename_never_deletes _ _ _ _ _ H).
  - vm_compute in H. discriminate H.
Defined.

Lemma get_nodes_add_delete_rename_raises_without_vertex_witness :
  exists e, snd (get_nodes_add_delete_rename mesh_b file_p_q "p") = Raise e.
Proof.
  eapply (get_nodes_add_delete_rename_raises_without_vertex mesh_b file_p_q
            "p" _ _ _ [PInt 0; PInt 0; PInt 0] 1 "a").
  - vm_compute. reflexivity.
  - lia.
  - reflexivity.
  - intros v [<-|[]]. discriminate.
Defined.

Lemma get_nodes_add_delete_rename_adds_live_nodes_witness :
  exists v,
    In v mesh_a_b /\ v_node_id v = "b" /\ v_node_part_origin v = "p" /\
    (Ffin 8388608 (-23), Ffin 8388608 (-22), Ffin 12582912 (-22))
    = c_float_pos (v_new_pos v).
Proof.
  destruct (get_nodes_add_delete_rename mesh_a_b file_p_q "p")
    as [verts' [r|e]] eqn:H.
  - apply (get_nodes_add_delete_rename_adds_live_nodes _ _ _ _ _ _ _ H).
    vm_compute in H. inversion H. left. reflexivity.
  - vm_compute in H. discriminate H.
Defined.

Lemma get_nodes_add_delete_rename_frame_witness :
  match snd (get_nodes_add_delete_rename mesh_a_b file_p_q "p") with
  | Ok r =>
      agree_outside "p" file_p_q (r_current_jbeam_file_data_modified r)
  | Raise _ => False
  end.
Proof.
  destruct (get_nodes_add_delete_rename mesh_a_b file_p_q "p")
    as [verts' [r|e]] eqn:H.
  - exact (proj1 (get_nodes_add_delete_rename_frame _ _ _ _ _ H)).
  - vm_compute in H. discriminate H.
Defined.

Lemma get_nodes_add_delete_rename_writes_positions_witness :
  match snd (get_nodes_add_delete_rename mesh_a_b file_p_q "p") with
  | Ok r =>
      exists rows',
        tree_at (r_current_jbeam_file_data_modified r)
          [PStr "p"; PStr "nodes"] = Ok (PList rows') /\
        hd_error rows'
        = Some (PList [PStr "id"; PStr "posX"; PStr "posY"; PStr "posZ"])
  | Raise _ => False
  end.
Proof.
  destruct (get_nodes_add_delete_rename mesh_a_b file_p_q "p")
    as [verts' [r|e]] eqn:H.
  - destruct (get_nodes_add_delete_rename_writes_positions
                _ _ _ _ _ _ _ _ H eq_refl) as (rows' & Hm & Hh & _).
    exists rows'. rewrite Hm. split; [reflexivity|exact Hh].
  - vm_compute in H. discriminate H.
Defined.

(* ------------------------------------------------------------------ *)
(** ** Rounding to a C float *)

Lemma pow2_pos k : 0 <= k -> 0 < 2 ^ k.
Proof. intros H. apply Z.pow_pos_nonneg; lia. Qed.

Lemma pow2_add a b : 0 <= a -> 0 <= b -> 2 ^ (a + b) = 2 ^ a * 2 ^ b.
Proof. intros Ha Hb. apply Z.pow_add_r; assumption. Qed.

Lemma pow2_le a b : 0 <= a <= b -> 2 ^ a <= 2 ^ b.
Proof. intros H. apply Z.pow_le_mono_r; lia. Qed.

Lemma pow2_lt a b : 0 <= a < b -> 2 ^ a < 2 ^ b.
Proof. intros H. apply Z.pow_lt_mono_r; lia. Qed.

Lemma round_half_even_exact k d : 0 < d -> round_half_even (k * d) d = k.
Proof.
  intros Hd. unfold round_half_even.
  rewrite Z.div_mul by lia. rewrite Z.mod_mul by lia.
  replace (2 * 0 <? d) with true by (symmetry; apply Z.ltb_lt; lia).
  reflexivity.
Qed.

Lemma round_half_even_bound n d B :
  0 < d -> - (B * d) <= n <= B * d ->
  - B <= round_half_even n d <= B.
Proof.
  intros Hd Hn. unfold round_half_even.
  pose proof (Z.div_mod n d ltac:(lia)) as Hdm.
  pose proof (Z.mod_pos_bound n d Hd) as Hr.
  assert (Hq1 : - B <= n / d) by (apply Z.div_le_lower_bound; lia).
  assert (Hq2 : n / d <= B) by (apply Z.div_le_upper_bound; lia).
  assert (Hq3 : n / d = B -> n mod d = 0) by nia.
  destruct (2 * (n mod d) <? d) eqn:E1; [lia|].
  apply Z.ltb_ge in E1.
  assert (n / d < B) by (destruct (Z.eq_dec (n / d) B); [|lia];
                         specialize (Hq3 e); lia).
  destruct (d <? 2 * (n mod d)); [lia|].
  destruct (Z.even (n / d)); lia.
Qed.

(** [ilog2_frac a d] is an upper bound on the binary exponent of [a / d]. *)
Lemma ilog2_frac_upper a d k :
  0 < a -> 0 < d -> ilog2_frac a d + 1 <= k ->
  (0 <= k -> a < d * 2 ^ k) /\ (k < 0 -> a * 2 ^ (- k) < d).
Proof.
  intros Ha Hd Hk. unfold ilog2_frac in Hk.
  pose proof (Z.log2_spec a Ha) as [La1 La2].
  pose proof (Z.log2_spec d Hd) as [Ld1 Ld2].
  pose proof (Z.log2_nonneg a) as Hla. pose proof (Z.log2_nonneg d) as Hld.
  set (la := Z.log2 a) in *. set (ld := Z.log2 d) in *.
  replace (Z.succ la) with (la + 1) in La2 by lia.
  destruct (0 <=? la - ld) eqn:E0.
  - apply Z.leb_le in E0.
    destruct (a <? d * 2 ^ (la - ld)) eqn:Eb.
    + apply Z.ltb_lt in Eb. split; [|lia]. intros _.
      assert (2 ^ (la - ld) <= 2 ^ k) by (apply pow2_le; lia). nia.
    + split; [|lia]. intros _.
      assert (2 ^ (la + 1) <= 2 ^ (ld + k)) by (apply pow2_le; lia).
      rewrite (pow2_add ld k) in H by lia. nia.
  - apply Z.leb_gt in E0.
    destruct (a * 2 ^ (- (la - ld)) <? d) eqn:Eb.
    + apply Z.ltb_lt in Eb. split.
      * intros Hk0. pose proof (pow2_pos (- (la - ld)) ltac:(lia)).
        pose proof (pow2_pos k Hk0). nia.
      * intros Hk0.
        assert (2 ^ (- k) <= 2 ^ (- (la - ld))) by (apply pow2_le; lia).
        pose proof (pow2_pos (- k) ltac:(lia)). nia.
    + split.
      * intros Hk0.
        assert (2 ^ (la + 1) <= 2 ^ (ld + k)) by (apply pow2_le; lia).
        rewrite (pow2_add ld k) in H by lia. nia.
      * intros Hk0.
        assert (2 ^ (la + 1 + - k) <= 2 ^ ld) by (apply pow2_le; lia).
        rewrite (pow2_add (la + 1) (- k)) in H by lia.
        pose proof (pow2_pos (- k) ltac:(lia)). nia.
Qed.

(** What [round_binary32] returns is a value of a C float. *)
Lemma round_binary32_binary32 n d : 0 < d -> binary32 (round_binary32 n d).
Proof.
  intros Hd. unfold round_binary32, round_to_format.
  destruct (n =? 0) eqn:En.
  { simpl. repeat split; lia. }
  apply Z.eqb_neq in En.
  set (ex := ilog2_frac (Z.abs n) d).
  set (q := Z.max (ex - 24 + 1) (-149)).
  assert (Hq : -149 <= q) by lia.
  assert (Hk : ex + 1 <= q + 24) by lia.
  destruct (ilog2_frac_upper (Z.abs n) d (q + 24) ltac:(lia) Hd Hk)
    as [Hup1 Hup2].
  assert (H24 : 0 < 2 ^ 24) by (apply pow2_pos; lia).
  destruct (0 <=? q) eqn:E0.
  - apply Z.leb_le in E0.
    destruct (2 ^ 128 <=? Z.abs (round_half_even n (d * 2 ^ q)) * 2 ^ q) eqn:Eb;
      [exact I|].
    apply Z.leb_gt in Eb. simpl. split; [exact Hq|]. split; [|intros _; exact Eb].
    pose proof (pow2_pos q E0) as Hpq.
    specialize (Hup1 ltac:(lia)). rewrite (pow2_add q 24) in Hup1 by lia.
    apply Z.abs_le.
    apply round_half_even_bound; [nia|]. lia.
  - apply Z.leb_gt in E0.
    destruct (2 ^ (128 - q) <=? Z.abs (round_half_even (n * 2 ^ (- q)) d)) eqn:Eb;
      [exact I|].
    simpl. split; [exact Hq|]. split; [|intros; lia].
    pose proof (pow2_pos (- q) ltac:(lia)) as Hpq.
    assert (Hb : Z.abs n * 2 ^ (- q) < d * 2 ^ 24).
    { destruct (Z_lt_le_dec (q + 24) 0) as [Hneg|Hpos].
      - specialize (Hup2 Hneg).
        replace (- q) with (- (q + 24) + 24) by lia.
        rewrite (pow2_add (- (q + 24)) 24) by lia. nia.
      - specialize (Hup1 Hpos).
        assert (E : 2 ^ (q + 24) * 2 ^ (- q) = 2 ^ 24).
        { rewrite <- pow2_add by lia. f_equal. lia. }
        nia. }
    apply Z.abs_le.
    apply round_half_even_bound; [exact Hd|].
    assert (Z.abs (n * 2 ^ (- q)) = Z.abs n * 2 ^ (- q)).
    { rewrite Z.abs_mul. f_equal. apply Z.abs_eq. lia. }
    lia.
Qed.

Lemma log2_abs_pos m : m <> 0 -> 2 ^ Z.log2 (Z.abs m) <= Z.abs m < 2 ^ (Z.log2 (Z.abs m) + 1).
Proof.
  intros Hm. pose proof (Z.log2_spec (Z.abs m) ltac:(lia)) as H.
  replace (Z.succ (Z.log2 (Z.abs m))) with (Z.log2 (Z.abs m) + 1) in H by lia.
  exact H.
Qed.

(** The binary exponent the rounding computes for the dyadic [m * 2^q]. *)
Lemma ilog2_frac_dyadic m q :
  m <> 0 ->
  ilog2_frac (Z.abs (fst (dyadic_frac m q))) (snd (dyadic_frac m q))
  = Z.log2 (Z.abs m) + q.
Proof.
  intros Hm. unfold dyadic_frac, ilog2_frac.
  pose proof (log2_abs_pos m Hm) as [L1 L2].
  pose proof (Z.log2_nonneg (Z.abs m)) as Hl.
  set (l := Z.log2 (Z.abs m)) in *.
  destruct (0 <=? q) eqn:Eq; cbn [fst snd].
  - apply Z.leb_le in Eq.
    pose proof (pow2_pos q Eq) as Hpq.
    rewrite Z.abs_mul, (Z.abs_eq (2 ^ q)) by lia.
    rewrite Z.log2_mul_pow2 by lia. fold l.
    change (Z.log2 1) with 0. rewrite Z.sub_0_r.
    replace (0 <=? q + l) with true by (symmetry; apply Z.leb_le; lia).
    replace (Z.abs m * 2 ^ q <? 1 * 2 ^ (q + l)) with false; [lia|].
    symmetry. apply Z.ltb_ge. rewrite (pow2_add q l) by lia. nia.
  - apply Z.leb_gt in Eq.
    rewrite Z.log2_pow2 by lia. fold l.
    destruct (0 <=? l - - q) eqn:E0.
    + apply Z.leb_le in E0.
      replace (Z.abs m <? 2 ^ (- q) * 2 ^ (l - - q)) with false; [lia|].
      symmetry. apply Z.ltb_ge. rewrite <- pow2_add by lia.
      replace (- q + (l - - q)) with l by lia. exact L1.
    + apply Z.leb_gt in E0.
      replace (Z.abs m * 2 ^ (- (l - - q)) <? 2 ^ (- q)) with false; [lia|].
      symmetry. apply Z.ltb_ge.
      replace (- q) with (l + - (l - - q)) at 1 by lia.
      rewrite (pow2_add l (- (l - - q))) by lia.
      pose proof (pow2_pos (- (l - - q)) ltac:(lia)). nia.
Qed.

(** The mantissa the rounding computes for a dyadic [m * 2^q] that the grid
    of exponent [q'] holds exactly. *)
Lemma mantissa_exact m q q' M :
  (q' <= q /\ M = m * 2 ^ (q - q')) \/ (q' = q + 1 /\ m = 2 * M) ->
  (if 0 <=? q'
   then round_half_even (fst (dyadic_frac m q))
          (snd (dyadic_frac m q) * 2 ^ q')
   else round_half_even (fst (dyadic_frac m q) * 2 ^ (- q'))
          (snd (dyadic_frac m q))) = M.
Proof.
  intros H. unfold dyadic_frac.
  destruct (0 <=? q) eqn:Eq; destruct (0 <=? q') eqn:Eq'; cbn [fst snd];
    try apply Z.leb_le in Eq; try apply Z.leb_le in Eq';
    try apply Z.leb_gt in Eq; try apply Z.leb_gt in Eq'.
  - replace (m * 2 ^ q) with (M * (1 * 2 ^ q')).
    { apply round_half_even_exact. pose proof (pow2_pos q' Eq'). lia. }
    destruct H as [[Hle ->]|[-> ->]].
    + replace q with ((q - q') + q') at 2 by lia.
      rewrite (pow2_add (q - q') q') by lia. ring.
    + rewrite (pow2_add q 1) by lia. change (2 ^ 1) with 2. ring.
  - replace (m * 2 ^ q * 2 ^ (- q')) with (M * 1).
    { apply round_half_even_exact. lia. }
    destruct H as [[Hle ->]|[-> ->]]; [|lia].
    replace (q - q') with (q + - q') by lia.
    rewrite (pow2_add q (- q')) by lia. ring.
  - destruct H as [[Hle ->]|[-> ->]]; [lia|].
    assert (q = -1) by lia. subst q.
    replace (2 ^ (- -1) * 2 ^ (-1 + 1)) with 2 by reflexivity.
    replace (2 * M) with (M * 2) by ring.
    apply round_half_even_exact. lia.
  - replace (m * 2 ^ (- q')) with (M * 2 ^ (- q)).
    { apply round_half_even_exact. apply pow2_pos. lia. }
    destruct H as [[Hle ->]|[-> ->]].
    + replace (- q') with ((q - q') + - q) by lia.
      rewrite (pow2_add (q - q') (- q)) by lia. ring.
    + replace (- q) with (1 + - (q + 1)) by lia.
      rewrite (pow2_add 1 (- (q + 1))) by lia. change (2 ^ 1) with 2. ring.
Qed.

Lemma feqb_scaled m q q' M :
  (q' <= q /\ M = m * 2 ^ (q - q')) \/ (q' = q + 1 /\ m = 2 * M) ->
  feqb (Ffin M q') (Ffin m q) = true.
Proof.
  intros H. unfold feqb. apply Z.eqb_eq.
  destruct H as [[Hle ->]|[-> ->]].
  - rewrite Z.min_l by lia. rewrite Z.sub_diag. change (2 ^ 0) with 1. ring.
  - rewrite Z.min_r by lia. rewrite Z.sub_diag.
    replace (q + 1 - q) with 1 by lia. change (2 ^ 0) with 1.
    change (2 ^ 1) with 2. ring.
Qed.

(** Rounding a value of a C float to a C float gives back the value. *)
Lemma c_float_of_binary32 y :
  binary32 y -> feqb (c_float_of_float y) y = true.
Proof.
  destruct y as [m q|s]; [|intros _; simpl; apply Bool.eqb_reflx].
  intros (Hq & Hm & Hbig). unfold c_float_of_float.
  destruct (dyadic_frac m q) as [n d] eqn:Ed.
  assert (En : n = fst (dyadic_frac m q)) by (rewrite Ed; reflexivity).
  assert (Edd : d = snd (dyadic_frac m q)) by (rewrite Ed; reflexivity).
  unfold round_binary32, round_to_format.
  destruct (Z.eq_dec m 0) as [->|Hm0].
  { replace n with 0.
    2:{ rewrite En. unfold dyadic_frac. destruct (0 <=? q); reflexivity. }
    reflexivity. }
  assert (Hn0 : n <> 0).
  { rewrite En. unfold dyadic_frac. destruct (0 <=? q) eqn:E; cbn [fst].
    - apply Z.leb_le in E. pose proof (pow2_pos q E). nia.
    - exact Hm0. }
  replace (n =? 0) with false by (symmetry; apply Z.eqb_neq; exact Hn0).
  rewrite En, Edd, ilog2_frac_dyadic by exact Hm0.
  pose proof (log2_abs_pos m Hm0) as [L1 L2].
  pose proof (Z.log2_nonneg (Z.abs m)) as Hl.
  set (l := Z.log2 (Z.abs m)) in *.
  assert (Hl24 : l <= 24).
  { destruct (Z_le_gt_dec l 24) as [H|H]; [exact H|].
    assert (2 ^ 25 <= 2 ^ l) by (apply pow2_le; lia).
    assert (2 ^ 24 < 2 ^ 25) by (apply pow2_lt; lia). lia. }
  set (q' := Z.max (l + q - 24 + 1) (-149)).
  (* the mantissa on the new grid *)
  assert (Hrel : exists M,
    (q' <= q /\ M = m * 2 ^ (q - q')) \/ (q' = q + 1 /\ m = 2 * M)).
  { destruct (Z.eq_dec l 24) as [E24|N24].
    - assert (Ea : Z.abs m = 2 ^ 24) by (rewrite E24 in L1; lia).
      exists (m / 2). right. split; [lia|].
      assert (Hdiv : m = 2 * (m / 2) + m mod 2) by (apply Z.div_mod; lia).
      assert (Hmod : m mod 2 = 0).
      { change (2 ^ 24) with 16777216 in Ea.
        destruct (Z.abs_spec m) as [[_ E]|[_ E]]; rewrite E in Ea.
        - subst m. reflexivity.
        - replace m with (-16777216) by lia. reflexivity. }
      lia.
    - exists (m * 2 ^ (q - q')). left. split; [lia|reflexivity]. }
  destruct Hrel as (M & Hrel).
  rewrite (mantissa_exact m q q' M Hrel).
  (* no overflow *)
  assert (HM : (0 <= q' -> Z.abs M * 2 ^ q' < 2 ^ 128) /\
               (q' < 0 -> Z.abs M < 2 ^ (128 - q'))).
  { assert (H24 : 2 ^ 24 < 2 ^ 128) by (apply pow2_lt; lia).
    destruct Hrel as [[Hle ->]|[Hq' Em]].
    - pose proof (pow2_pos (q - q') ltac:(lia)) as Hp.
      rewrite Z.abs_mul, (Z.abs_eq (2 ^ (q - q'))) by lia.
      split.
      + intros H0. rewrite <- Z.mul_assoc, <- pow2_add by lia.
        replace (q - q' + q') with q by lia. apply Hbig. lia.
      + intros H0. destruct (Z_le_gt_dec 0 q) as [Hq0|Hq0].
        * specialize (Hbig Hq0).
          replace (q - q') with (q + - q') by lia.
          rewrite (pow2_add q (- q')) by lia.
          replace (128 - q') with (128 + - q') by lia.
          rewrite (pow2_add 128 (- q')) by lia.
          pose proof (pow2_pos (- q') ltac:(lia)). nia.
        * assert (2 ^ (24 + (q - q')) < 2 ^ (128 - q'))
            by (apply pow2_lt; lia).
          rewrite (pow2_add 24 (q - q')) in H by lia. nia.
    - assert (Ea : Z.abs M <= 2 ^ 23).
      { change (2 ^ 24) with 16777216 in Hm. change (2 ^ 23) with 8388608.
        lia. }
      assert (H23 : 2 ^ 23 < 2 ^ 24) by (apply pow2_lt; lia).
      split.
      + intros H0. destruct (Z_le_gt_dec 0 q) as [Hq0|Hq0].
        * specialize (Hbig Hq0). rewrite Hq', (pow2_add q 1) by lia.
          change (2 ^ 1) with 2.
          replace (Z.abs m) with (2 * Z.abs M) in Hbig by lia. lia.
        * assert (q' = 0) by lia. rewrite H. simpl. lia.
      + intros H0.
        assert (2 ^ 24 <= 2 ^ (128 - q')) by (apply pow2_le; lia). lia. }
  destruct HM as [HM1 HM2].
  destruct (0 <=? q') eqn:E0.
  - apply Z.leb_le in E0. specialize (HM1 E0).
    replace (2 ^ 128 <=? Z.abs M * 2 ^ q') with false
      by (symmetry; apply Z.leb_gt; exact HM1).
    apply feqb_scaled. exact Hrel.
  - apply Z.leb_gt in E0. specialize (HM2 E0).
    replace (2 ^ (128 - q') <=? Z.abs M) with false
      by (symmetry; apply Z.leb_gt; exact HM2).
    apply feqb_scaled. exact Hrel.
Qed.

Lemma feqb_sym x y : feqb x y = feqb y x.
Proof.
  destruct x as [m1 e1|a]; destruct y as [m2 e2|b]; simpl; try reflexivity.
  - rewrite (Z.min_comm e2 e1). apply Z.eqb_sym.
  - destruct a, b; reflexivity.
Qed.

Lemma feqb_trans x y z : feqb x y = true -> feqb y z = true -> feqb x z = true.
Proof.
  destruct x as [m1 e1|a]; destruct y as [m2 e2|b]; destruct z as [m3 e3|c];
    simpl; try discriminate.
  - intros H12 H23. apply Z.eqb_eq in H12, H23. apply Z.eqb_eq.
    set (E := Z.min e1 (Z.min e2 e3)).
    assert (S12 : m1 * 2 ^ (e1 - E) = m2 * 2 ^ (e2 - E)).
    { replace (e1 - E) with ((e1 - Z.min e1 e2) + (Z.min e1 e2 - E)) by lia.
      replace (e2 - E) with ((e2 - Z.min e1 e2) + (Z.min e1 e2 - E)) by lia.
      rewrite !pow2_add by lia. rewrite !Z.mul_assoc, H12. reflexivity. }
    assert (S23 : m2 * 2 ^ (e2 - E) = m3 * 2 ^ (e3 - E)).
    { replace (e2 - E) with ((e2 - Z.min e2 e3) + (Z.min e2 e3 - E)) by lia.
      replace (e3 - E) with ((e3 - Z.min e2 e3) + (Z.min e2 e3 - E)) by lia.
      rewrite !pow2_add by lia. rewrite !Z.mul_assoc, H23. reflexivity. }
    pose proof (pow2_pos (Z.min e1 e3 - E) ltac:(lia)) as Hp.
    apply (Z.mul_reg_r _ _ (2 ^ (Z.min e1 e3 - E))); [lia|].
    rewrite <- !Z.mul_assoc, <- !pow2_add by lia.
    replace (e1 - Z.min e1 e3 + (Z.min e1 e3 - E)) with (e1 - E) by lia.
    replace (e3 - Z.min e1 e3 + (Z.min e1 e3 - E)) with (e3 - E) by lia.
    congruence.
  - intros H12 H23. destruct a, b, c; simpl in *; congruence.
Qed.

Lemma c_float_of_float_binary32 x : binary32 (c_float_of_float x).
Proof.
  destruct x as [m e|s]; [|exact I]. unfold c_float_of_float.
  destruct (dyadic_frac m e) as [n d] eqn:Ed.
  apply round_binary32_binary32.
  unfold dyadic_frac in Ed. destruct (0 <=? e) eqn:E; inversion Ed; [lia|].
  apply pow2_pos. apply Z.leb_gt in E. lia.
Qed.


(** X20: a number token whose before value is an int or a float is neither
    flagged nor rewritten when the after value is a float that a C float
    holds exactly and that equals the before value converted to a C float:
    a position that comes back from the mesh unmoved leaves its token as it
    is. *)
Theorem compare_and_set_value_keeps_unmoved :
  forall (before after : pyval) (stack : list (pyval * bool))
         (index : pyval) (node : ASTNode) (o d old_data : pyval)
         (a b : pyfloat),
    walk2 before after stack = Ok (o, d) ->
    py_getitem o index = Ok old_data ->
    py_getitem d index = Ok (PFloat b) ->
    data_type node = DT_number ->
    is_int_or_float old_data = true ->
    to_c_float old_data = Ok a ->
    binary32 b -> feqb a b = true ->
    compare_and_set_value before after stack index node = (node, Ok false).
Proof.
  intros before after stack index node o d old_data a b
         Hw Ho Hd Hk Hnum Ha Hb Hab.
  rewrite (compare_and_set_value_unfold _ _ _ _ _ _ _ _ _ Hw Ho Hd).
  rewrite Hk. simpl dtype_eqb. cbv iota.
  unfold number_changed. rewrite Hnum. simpl negb. cbv iota.
  simpl is_int_or_float. cbv iota. rewrite Ha. simpl bind.
  replace (feqb a (c_float_of_float b)) with true; [reflexivity|].
  symmetry. eapply feqb_trans; [exact Hab|].
  rewrite feqb_sym. apply c_float_of_binary32. exact Hb.
Qed.

Lemma round_half_even_1 n : round_half_even n 1 = n.
Proof. rewrite <- (Z.mul_1_r n) at 1. apply round_half_even_exact. lia. Qed.

(** The precision of a float without a fractional part. *)
Lemma float_of_int_precision z f :
  float_of_int z = Some f -> precision_of_float f = Some 0.
Proof.
  unfold float_of_int, round_binary64, round_to_format.
  destruct (z =? 0) eqn:Ez.
  { intros H. inversion H. reflexivity. }
  set (ex := ilog2_frac (Z.abs z) 1).
  set (q := Z.max (ex - 53 + 1) (-1074)).
  destruct (0 <=? q) eqn:E0.
  - destruct (2 ^ 1024 <=? Z.abs (round_half_even z (1 * 2 ^ q)) * 2 ^ q);
      [discriminate|].
    intros H. inversion H. unfold precision_of_float, abs_frac_part.
    rewrite E0. reflexivity.
  - destruct (2 ^ (1024 - q) <=? Z.abs (round_half_even (z * 2 ^ (- q)) 1));
      [discriminate|].
    intros H. inversion H. unfold precision_of_float, abs_frac_part.
    rewrite E0. rewrite round_half_even_1.
    apply Z.leb_gt in E0.
    pose proof (pow2_pos (- q) ltac:(lia)) as Hp.
    rewrite Z.abs_mul, (Z.abs_eq (2 ^ (- q))) by lia.
    rewrite Z.mod_mul by lia. reflexivity.
Qed.

(** X21: on a number token, [set_number_node] stores an int with precision
    0, so that it is written without decimals; an int too large for a float
    is stored before [float] raises OverflowError, and the precision is
    left as it was. *)
Theorem set_number_node_int_precision :
  forall (node : ASTNode) (z : Z),
    data_type node = DT_number ->
    (float_of_int z <> None ->
     set_number_node node (PInt z) = (mkNode DT_number (PInt z) 0, Ok tt))
    /\ (float_of_int z = None ->
        set_number_node node (PInt z)
        = (set_value node (PInt z), Raise OverflowError)).
Proof.
  intros node z Hk. unfold set_number_node. rewrite Hk. simpl dtype_eqb.
  cbv iota. unfold get_float_precision, py_float.
  destruct (float_of_int z) as [f|] eqn:Hf.
  - split; [|discriminate]. intros _. simpl bind.
    rewrite (float_of_int_precision _ _ Hf).
    unfold set_precision, set_value. simpl. rewrite Hk. reflexivity.
  - split; [congruence|]. intros _. reflexivity.
Qed.


Lemma compare_and_set_value_keeps_unmoved_witness :
  compare_and_set_value (PDict [(PStr "k", lit_0_1)])
    (PDict [(PStr "k", c_float_0_1)]) [] (PStr "k") (number_token lit_0_1 1)
  = (number_token lit_0_1 1, Ok false).
Proof.
  apply (compare_and_set_value_keeps_unmoved
           (PDict [(PStr "k", lit_0_1)]) (PDict [(PStr "k", c_float_0_1)])
           [] (PStr "k") (number_token lit_0_1 1)
           (PDict [(PStr "k", lit_0_1)]) (PDict [(PStr "k", c_float_0_1)])
           lit_0_1 (Ffin 13421773 (-27)) (Ffin 13421773 (-27)));
    first [ vm_compute; reflexivity
          | unfold binary32; repeat split; try lia; vm_compute; discriminate ].
Defined.

Lemma set_number_node_int_precision_witness :
  set_number_node (number_token (PInt 1) 3) (PInt 5)
  = (mkNode DT_number (PInt 5) 0, Ok tt).
Proof.
  apply (proj1 (set_number_node_int_precision (number_token (PInt 1) 3) 5
                  eq_refl)).
  vm_compute. discriminate.
Defined.
(* ------------------------------------------------------------------ *)
(** ** Vehicle processing *)

Lemma scalar_eqb_sym a b : scalar_eqb a b = scalar_eqb b a.
Proof.
  unfold scalar_eqb.
  destruct (num_value a) as [x|] eqn:Ha; destruct (num_value b) as [y|] eqn:Hb;
    try reflexivity.
  - apply feqb_sym.
  - destruct a; destruct b; try reflexivity; try discriminate.
    apply String.eqb_sym.
Qed.

Lemma scalar_eqb_trans a b c :
  scalar_eqb a b = true -> scalar_eqb b c = true -> scalar_eqb a c = true.
Proof.
  unfold scalar_eqb.
  destruct (num_value a) as [x|] eqn:Ha; destruct (num_value b) as [y|] eqn:Hb;
    destruct (num_value c) as [z|] eqn:Hc; try discriminate.
  - apply feqb_trans.
  - destruct a; try discriminate; destruct b; try discriminate;
      destruct c; try discriminate; try reflexivity.
    intros H1 H2. apply String.eqb_eq in H1, H2. apply String.eqb_eq.
    congruence.
Qed.

Lemma scalar_eqb_hashable k : scalar_eqb k k = true -> hashable k = true.
Proof. destruct k; try reflexivity; discriminate. Qed.

Lemma dict_get_some_in (d : pydict) k v :
  dict_get d k = Some v ->
  exists k', In (k', v) d /\ scalar_eqb k' k = true.
Proof.
  induction d as [|[k0 v0] r IH]; simpl; [discriminate|].
  destruct (scalar_eqb k0 k) eqn:E.
  - intros H. injection H as <-. exists k0. split; [left; reflexivity|exact E].
  - intros H. destruct (IH H) as (k' & Hin & Hk). exists k'.
    split; [right; exact Hin|exact Hk].
Qed.

Lemma dict_get_in_distinct (d : pydict) k v :
  keys_distinct d -> In (k, v) d -> dict_get d k = Some v.
Proof.
  induction d as [|[k0 v0] r IH]; simpl; [contradiction|].
  intros (Hself & Hfa & Hr) [Heq|Hin].
  - injection Heq as -> ->. rewrite Hself. reflexivity.
  - rewrite Forall_forall in Hfa. pose proof (Hfa _ Hin) as E. simpl in E.
    rewrite E. apply IH; assumption.
Qed.

Lemma keys_distinct_self (d : pydict) k v :
  keys_distinct d -> In (k, v) d -> scalar_eqb k k = true.
Proof.
  induction d as [|[k0 v0] r IH]; simpl; [contradiction|].
  intros (Hself & _ & Hr) [Heq|Hin].
  - injection Heq as -> _. exact Hself.
  - apply IH; assumption.
Qed.

Lemma in_dict_set (d : pydict) k v x :
  In x (dict_set d k v) ->
  In x d \/ (snd x = v /\ scalar_eqb (fst x) k = true) \/ x = (k, v).
Proof.
  induction d as [|[k0 v0] r IH]; simpl.
  - intros [<-|[]]. right. right. reflexivity.
  - destruct (scalar_eqb k0 k) eqn:E; simpl.
    + intros [<-|Hin]; [right; left; split; [reflexivity|exact E]|].
      left. right. exact Hin.
    + intros [<-|Hin]; [left; left; reflexivity|].
      destruct (IH Hin) as [H|H]; [left; right; exact H|right; exact H].
Qed.

Lemma in_dict_del (d : pydict) k x : In x (dict_del d k) -> In x d.
Proof.
  induction d as [|[k0 v0] r IH]; simpl; [tauto|].
  destruct (scalar_eqb k0 k); simpl; [tauto|].
  intros [H|H]; [left; exact H|right; apply IH; exact H].
Qed.

Lemma keys_dict_set (d : pydict) k v :
  map fst (dict_set d k v)
  = if dict_mem d k then map fst d else (map fst d ++ [k])%list.
Proof.
  unfold dict_mem. induction d as [|[k0 v0] r IH]; simpl; [reflexivity|].
  destruct (scalar_eqb k0 k) eqn:E; simpl; [reflexivity|].
  rewrite IH. destruct (dict_get r k); reflexivity.
Qed.

Lemma keys_distinct_dict_set (d : pydict) k v :
  keys_distinct d -> scalar_eqb k k = true -> keys_distinct (dict_set d k v).
Proof.
  intros Hd Hk. induction d as [|[k0 v0] r IH]; simpl.
  - repeat split; [exact Hk|constructor].
  - destruct Hd as (Hself & Hfa & Hr).
    destruct (scalar_eqb k0 k) eqn:E; simpl.
    + repeat split; assumption.
    + repeat split; [exact Hself| |apply IH; exact Hr].
      rewrite Forall_forall in *. intros x Hx.
      destruct (in_dict_set _ _ _ _ Hx) as [H|[[_ H]| ->]].
      * apply Hfa; exact H.
      * destruct (scalar_eqb k0 (fst x)) eqn:E2; [|reflexivity].
        rewrite <- E. symmetry. apply (scalar_eqb_trans k0 (fst x) k); assumption.
      * exact E.
Qed.

Lemma keys_distinct_dict_del (d : pydict) k :
  keys_distinct d -> keys_distinct (dict_del d k).
Proof.
  induction d as [|[k0 v0] r IH]; simpl; [tauto|].
  intros (Hself & Hfa & Hr).
  destruct (scalar_eqb k0 k); simpl; [exact Hr|].
  repeat split; [exact Hself| |apply IH; exact Hr].
  rewrite Forall_forall in *. intros x Hx. apply Hfa.
  apply (in_dict_del _ _ _ Hx).
Qed.

Lemma with_options_keys x (V : pydict) :
  map fst (with_options x V) = map fst V.
Proof.
  unfold with_options. rewrite map_map. apply map_ext. intros [k v]; simpl.
  destruct (scalar_eqb k (PStr "options")); reflexivity.
Qed.

Lemma with_options_app x (A B : pydict) :
  with_options x (A ++ B)%list
  = (with_options x A ++ with_options x B)%list.
Proof. apply map_app. Qed.

Lemma keys_distinct_keys (V W : pydict) :
  map fst V = map fst W -> keys_distinct V -> keys_distinct W.
Proof.
  revert W. induction V as [|[k v] r IH]; intros [|[k' v'] r'] H; simpl in *;
    try discriminate; [tauto|].
  injection H as -> Hr. intros (Hs & Hfa & Hd).
  repeat split; [exact Hs| |apply IH; assumption].
  clear - Hfa Hr. rewrite Forall_forall in *. intros x Hx.
  assert (Hin : In (fst x) (map fst r)) by (rewrite Hr; apply in_map; exact Hx).
  apply in_map_iff in Hin. destruct Hin as (y & Hy & Hyin).
  rewrite <- Hy. apply Hfa. exact Hyin.
Qed.

Lemma dict_get_keys_none (V W : pydict) k :
  map fst V = map fst W -> dict_get V k = None -> dict_get W k = None.
Proof.
  revert W. induction V as [|[k0 v0] r IH]; intros [|[k' v'] r'] H; simpl in *;
    try discriminate; [reflexivity|].
  injection H as -> Hr. destruct (scalar_eqb k' k); [discriminate|].
  apply IH. exact Hr.
Qed.

Lemma with_options_absent x (V : pydict) :
  Forall (fun kv => scalar_eqb (fst kv) (PStr "options") = false) V ->
  with_options x V = V.
Proof.
  induction 1 as [|[k v] r Hk _ IH]; simpl; [reflexivity|].
  simpl in Hk. rewrite Hk. f_equal. exact IH.
Qed.

Lemma options_once (k : pyval) (r : pydict) :
  scalar_eqb k (PStr "options") = true ->
  Forall (fun kv => scalar_eqb k (fst kv) = false) r ->
  Forall (fun kv => scalar_eqb (fst kv) (PStr "options") = false) r.
Proof.
  intros Hk H. apply scalar_eqb_str_l in Hk. subst k.
  rewrite Forall_forall in *. intros x Hx.
  destruct (scalar_eqb (fst x) (PStr "options")) eqn:E; [|reflexivity].
  apply scalar_eqb_str_l in E. specialize (H x Hx). rewrite E in H.
  vm_compute in H. discriminate.
Qed.

Lemma dict_get_with_options x (V : pydict) c :
  dict_get V (PStr "options") = Some c ->
  dict_get (with_options x V) (PStr "options") = Some x.
Proof.
  induction V as [|[k v] r IH]; simpl; [discriminate|].
  destruct (scalar_eqb k (PStr "options")) eqn:E; simpl; rewrite E.
  - reflexivity.
  - exact IH.
Qed.

Lemma dict_set_with_options x x' (V : pydict) c :
  keys_distinct V ->
  dict_get V (PStr "options") = Some c ->
  dict_set (with_options x V) (PStr "options") x' = with_options x' V.
Proof.
  induction V as [|[k v] r IH]; simpl; [discriminate|].
  intros (Hs & Hfa & Hd).
  destruct (scalar_eqb k (PStr "options")) eqn:E; simpl; rewrite E.
  - intros _. f_equal.
    rewrite !with_options_absent by (apply (options_once k); assumption).
    reflexivity.
  - intros H. f_equal. apply IH; assumption.
Qed.

Lemma with_options_id (V : pydict) x :
  keys_distinct V ->
  dict_get V (PStr "options") = Some x ->
  with_options x V = V.
Proof.
  induction V as [|[k v] r IH]; simpl; [discriminate|].
  intros (Hs & Hfa & Hd).
  destruct (scalar_eqb k (PStr "options")) eqn:E.
  - intros H. injection H as ->. f_equal.
    apply with_options_absent. apply (options_once k); assumption.
  - intros H. f_equal. apply IH; assumption.
Qed.

Lemma keys_distinct_mid (D : pydict) k e (t : pydict) :
  keys_distinct (D ++ (k, e) :: t)%list ->
  Forall (fun kv => scalar_eqb (fst kv) k = false) D /\
  scalar_eqb k k = true /\
  keys_distinct (D ++ t)%list.
Proof.
  induction D as [|[k0 v0] D IH]; simpl.
  - intros (Hs & _ & Hd). repeat split; [constructor|exact Hs|exact Hd].
  - intros (Hs & Hfa & Hd). destruct (IH Hd) as (H1 & H2 & H3).
    rewrite Forall_forall in Hfa.
    repeat split.
    + constructor; [|exact H1]. simpl.
      apply (Hfa (k, e)). apply in_or_app. right. left. reflexivity.
    + exact H2.
    + exact Hs.
    + rewrite Forall_forall. intros x Hx. apply Hfa.
      apply in_app_or in Hx. apply in_or_app.
      destruct Hx as [Hx|Hx]; [left; exact Hx|right; right; exact Hx].
    + exact H3.
Qed.

Lemma dict_get_skip_mid (D : pydict) k e (t : pydict) q :
  scalar_eqb k q = false ->
  dict_get (D ++ (k, e) :: t)%list q = dict_get (D ++ t)%list q.
Proof.
  intros Hk. induction D as [|[k0 v0] D IH]; simpl.
  - rewrite Hk. reflexivity.
  - destruct (scalar_eqb k0 q); [reflexivity|exact IH].
Qed.

Lemma dict_del_mid (D : pydict) k e (t : pydict) :
  Forall (fun kv => scalar_eqb (fst kv) k = false) D ->
  scalar_eqb k k = true ->
  dict_del (D ++ (k, e) :: t)%list k = (D ++ t)%list.
Proof.
  intros H Hk. induction H as [|[k0 v0] D Hk0 _ IH]; simpl.
  - rewrite Hk. reflexivity.
  - simpl in Hk0. rewrite Hk0. f_equal. exact IH.
Qed.

Lemma with_options_Forall_keys x (D : pydict) (P : pyval -> Prop) :
  Forall (fun kv => P (fst kv)) D ->
  Forall (fun kv => P (fst kv)) (with_options x D).
Proof.
  induction 1 as [|[k v] r Hk _ IH]; simpl; [constructor|].
  constructor; [|exact IH].
  destruct (scalar_eqb k (PStr "options")); exact Hk.
Qed.

(** The first loop on a vehicle whose options are a dict: it does not
    raise, keeps the dicts and lists in their order and stores every other
    entry in the options. *)
Lemma hoist_options_spec (T D o oX : pydict) :
  keys_distinct (D ++ T)%list ->
  dict_get (D ++ T)%list (PStr "options") = Some (PDict oX) ->
  hoist_options (map fst T) (with_options (PDict o) (D ++ T)%list)
  = (with_options (PDict (dict_update o (scalar_entries T)))
       (D ++ table_entries T)%list, Ok tt).
Proof.
  revert D o. induction T as [|[k e] t IH]; intros D o Hd Hopt.
  - simpl. reflexivity.
  - destruct (keys_distinct_mid _ _ _ _ Hd) as (HD & Hk & Hd').
    assert (Hin : In (k, e) (D ++ (k, e) :: t)%list)
      by (apply in_or_app; right; left; reflexivity).
    assert (Hget := dict_get_in_distinct _ _ _ Hd Hin).
    cbn [map fst hoist_options].
    assert (Hcur : dict_get (with_options (PDict o) (D ++ (k, e) :: t)%list) k
                   = Some (if scalar_eqb k (PStr "options") then PDict o else e)).
    { apply dict_get_in_distinct.
      - apply (keys_distinct_keys (D ++ (k, e) :: t)%list);
          [symmetry; apply with_options_keys|exact Hd].
      - unfold with_options. apply in_map_iff. exists (k, e). simpl.
        split; [|exact Hin].
        destruct (scalar_eqb k (PStr "options")); reflexivity. }
    rewrite Hcur.
    destruct (scalar_eqb k (PStr "options")) eqn:Eo.
    + (* the options themselves *)
      assert (He : e = PDict oX).
      { apply scalar_eqb_str_l in Eo. subst k. rewrite Hget in Hopt.
        injection Hopt as ->. reflexivity. }
      subst e. simpl negb. cbv iota.
      replace (D ++ (k, PDict oX) :: t)%list
        with ((D ++ [(k, PDict oX)]) ++ t)%list in *
        by (rewrite <- app_assoc; reflexivity).
      rewrite (IH _ o Hd Hopt).
      unfold scalar_entries, table_entries. simpl.
      rewrite <- app_assoc. reflexivity.
    + destruct (is_table e) eqn:Et; simpl negb; cbv iota.
      * replace (D ++ (k, e) :: t)%list
          with ((D ++ [(k, e)]) ++ t)%list in *
          by (rewrite <- app_assoc; reflexivity).
        rewrite (IH _ o Hd Hopt).
        unfold scalar_entries, table_entries. simpl. rewrite Et. simpl.
        rewrite <- app_assoc. reflexivity.
      * unfold set_in.
        rewrite (dict_get_with_options _ _ _ Hopt).
        unfold py_setitem. rewrite (scalar_eqb_hashable _ Hk).
        cbn [bind].
        rewrite (dict_set_with_options _ _ _ _ Hd Hopt).
        rewrite with_options_app. simpl with_options at 2.
        cbn [map]. simpl fst. rewrite Eo.
        rewrite dict_del_mid;
          [|apply (with_options_Forall_keys _ D
                     (fun k0 => scalar_eqb k0 k = false)); exact HD
           |exact Hk].
        rewrite <- with_options_app.
        rewrite (dict_get_skip_mid _ _ _ _ _ Eo) in Hopt.
        rewrite (IH D (dict_set o k e) Hd' Hopt).
        unfold scalar_entries, table_entries. simpl. rewrite Et. simpl.
        reflexivity.
Qed.

Lemma dict_set_get_id (d : pydict) k v :
  dict_get d k = Some v -> dict_set d k v = d.
Proof.
  induction d as [|[k0 v0] r IH]; simpl; [discriminate|].
  destruct (scalar_eqb k0 k).
  - intros H. injection H as ->. reflexivity.
  - intros H. f_equal. apply IH. exact H.
Qed.

Lemma dict_get_none_forall (d : pydict) k :
  dict_get d k = None ->
  Forall (fun kv => scalar_eqb (fst kv) k = false) d.
Proof.
  induction d as [|[k0 v0] r IH]; simpl; [constructor|].
  destruct (scalar_eqb k0 k) eqn:E; [discriminate|].
  intros H. constructor; [exact E|apply IH; exact H].
Qed.

Lemma dict_get_set_new (d : pydict) p v :
  dict_get (dict_set d (PStr p) v) (PStr p) = Some v.
Proof.
  induction d as [|[k0 v0] r IH]; simpl.
  - unfold scalar_eqb. simpl. rewrite String.eqb_refl. reflexivity.
  - destruct (scalar_eqb k0 (PStr p)) eqn:E; simpl; rewrite E;
      [reflexivity|exact IH].
Qed.

Lemma in_dict_set_keep (d : pydict) k v x :
  In x d -> scalar_eqb (fst x) k = false -> In x (dict_set d k v).
Proof.
  induction d as [|[k0 v0] r IH]; simpl; [tauto|].
  intros [<-|Hin] Hk.
  - simpl in Hk. rewrite Hk. left. reflexivity.
  - destruct (scalar_eqb k0 k); [right; exact Hin|].
    right. apply IH; assumption.
Qed.

Lemma in_dict_set_default (d : pydict) p x :
  In x d -> In x (dict_set d (PStr p) (get_or_empty d p)).
Proof.
  intros Hin. unfold get_or_empty.
  destruct (dict_get d (PStr p)) as [c|] eqn:E.
  - rewrite (dict_set_get_id _ _ _ E). exact Hin.
  - rewrite (dict_set_append _ _ _ (dict_get_none_forall _ _ E)).
    apply in_or_app. left. exact Hin.
Qed.

Lemma in_dict_set_default_inv (d : pydict) p x :
  In x (dict_set d (PStr p) (get_or_empty d p)) ->
  In x d \/ x = (PStr p, PDict []).
Proof.
  unfold get_or_empty.
  destruct (dict_get d (PStr p)) as [c|] eqn:E.
  - rewrite (dict_set_get_id _ _ _ E). tauto.
  - rewrite (dict_set_append _ _ _ (dict_get_none_forall _ _ E)).
    intros H. apply in_app_or in H. destruct H as [H|[H|[]]];
      [left; exact H|right; symmetry; exact H].
Qed.

Lemma str_self p : scalar_eqb (PStr p) (PStr p) = true.
Proof. unfold scalar_eqb. simpl. apply String.eqb_refl. Qed.

Lemma keys_distinct_with_defaults (vehicle : pydict) :
  keys_distinct vehicle -> keys_distinct (with_defaults vehicle).
Proof.
  intros H. unfold with_defaults.
  repeat apply keys_distinct_dict_set; try apply str_self. exact H.
Qed.

Lemma with_defaults_options (vehicle : pydict) :
  dict_get (with_defaults vehicle) (PStr "options")
  = Some (get_or_empty vehicle "options").
Proof.
  unfold with_defaults. rewrite dict_get_set_new. f_equal.
  unfold get_or_empty.
  rewrite !dict_get_set_str by discriminate. reflexivity.
Qed.

Lemma with_defaults_max_ids (vehicle : pydict) :
  dict_get (with_defaults vehicle) (PStr "maxIDs") = Some (PDict []).
Proof.
  unfold with_defaults.
  rewrite !dict_get_set_str by discriminate. apply dict_get_set_new.
Qed.

Lemma with_defaults_valid_tables (vehicle : pydict) :
  dict_get (with_defaults vehicle) (PStr "validTables") = Some (PDict []).
Proof.
  unfold with_defaults.
  rewrite !dict_get_set_str by discriminate. apply dict_get_set_new.
Qed.

Lemma in_with_defaults (vehicle : pydict) k v :
  In (k, v) vehicle ->
  k <> PStr "maxIDs" -> k <> PStr "validTables" ->
  In (k, v) (with_defaults vehicle).
Proof.
  intros Hin H1 H2. unfold with_defaults.
  do 2 apply in_dict_set_default.
  apply in_dict_set_keep; [apply in_dict_set_keep; [exact Hin|]|]; simpl.
  - destruct (scalar_eqb k (PStr "maxIDs")) eqn:E; [|reflexivity].
    apply scalar_eqb_str_l in E. contradiction.
  - destruct (scalar_eqb k (PStr "validTables")) eqn:E; [|reflexivity].
    apply scalar_eqb_str_l in E. contradiction.
Qed.

Lemma in_with_defaults_inv (vehicle : pydict) k v :
  In (k, v) (with_defaults vehicle) ->
  In (k, v) vehicle \/
  In k [PStr "maxIDs"; PStr "validTables"; PStr "beams"; PStr "options"].
Proof.
  unfold with_defaults. intros H.
  apply in_dict_set_default_inv in H.
  destruct H as [H|H]; [|injection H as -> _; right; simpl; auto 10].
  apply in_dict_set_default_inv in H.
  destruct H as [H|H]; [|injection H as -> _; right; simpl; auto 10].
  apply in_dict_set in H. simpl in H.
  destruct H as [H|[[_ H]|H]];
    [|apply scalar_eqb_str_l in H; right; simpl; auto 10
     |injection H as -> _; right; simpl; auto 10].
  apply in_dict_set in H. simpl in H.
  destruct H as [H|[[_ H]|H]];
    [left; exact H
    |apply scalar_eqb_str_l in H; right; simpl; auto 10
    |injection H as -> _; right; simpl; auto 10].
Qed.

(** The first loop raises at the first entry that is no dict and no list
    when the options are a plain scalar. *)
Lemma hoist_options_scalar_options (keys : list pyval) (V : pydict) v :
  dict_get V (PStr "options") = Some v ->
  plain_scalar v = true ->
  (forall k, In k keys -> exists e, dict_get V k = Some e) ->
  (exists k e, In k keys /\ dict_get V k = Some e /\ is_table e = false) ->
  hoist_options keys V = (V, Raise TypeError).
Proof.
  intros Hopt Hv. induction keys as [|k rest IH]; intros Hall Hex.
  - destruct Hex as (k & e & [] & _).
  - simpl. destruct (Hall k (or_introl eq_refl)) as (e & He). rewrite He.
    destruct (is_table e) eqn:Et; simpl.
    + apply IH.
      * intros k' Hk'. apply Hall. right. exact Hk'.
      * destruct Hex as (k' & e' & [Hk'|Hk'] & He' & Ht').
        -- subst k'. rewrite He in He'. injection He' as <-.
           rewrite Et in Ht'. discriminate.
        -- exists k', e'. repeat split; assumption.
    + unfold set_in. rewrite Hopt.
      destruct v; try discriminate Hv; reflexivity.
Qed.

Lemma hoisted_set (o : pydict) K (V : pydict) p c x :
  hoisted o K V ->
  dict_get V (PStr p) = Some c ->
  is_table x = true ->
  p <> "options" ->
  hoisted o K (dict_set V (PStr p) x).
Proof.
  intros (Hd & Ht & Ho & Hk) Hc Hx Hp. repeat split.
  - apply keys_distinct_dict_set; [exact Hd|apply str_self].
  - rewrite Forall_forall in *. intros y Hy.
    destruct (in_dict_set _ _ _ _ Hy) as [H|[[H _]|H]].
    + apply Ht; exact H.
    + rewrite H. exact Hx.
    + subst y. exact Hx.
  - rewrite dict_get_set_str; [exact Ho|]. intros H. injection H as H.
    apply Hp. symmetry. exact H.
  - rewrite keys_dict_set. unfold dict_mem. rewrite Hc. exact Hk.
Qed.

Lemma py_setitem_table c k v c' :
  py_setitem c k v = Ok c' -> is_table c' = true.
Proof.
  unfold py_setitem. destruct c; try discriminate.
  - destruct (as_index k); [|discriminate].
    destruct (resolve_idx l z); [|discriminate].
    intros H. injection H as <-. reflexivity.
  - destruct (hashable k); [|discriminate].
    intros H. injection H as <-. reflexivity.
Qed.

Lemma set_in_hoisted (o : pydict) K (V V1 : pydict) name k v :
  hoisted o K V ->
  set_in V name k v = Ok V1 ->
  name <> "options" ->
  hoisted o K V1.
Proof.
  intros H Hs Hn. unfold set_in in Hs.
  destruct (dict_get V (PStr name)) as [c|] eqn:Hc; [|discriminate].
  destruct (py_setitem c k v) as [c'|e] eqn:Hc'; [|discriminate].
  simpl in Hs. injection Hs as <-.
  apply (hoisted_set o K V name c c' H Hc (py_setitem_table _ _ _ _ Hc') Hn).
Qed.

Lemma hoisted_not_options (o : pydict) K (V : pydict) name l :
  hoisted o K V ->
  dict_get V (PStr name) = Some (PList l) ->
  name <> "options".
Proof.
  intros (_ & _ & Ho & _) Hl ->. rewrite Ho in Hl. discriminate.
Qed.

Lemma dict_get_set_eq (d : pydict) k v :
  scalar_eqb k k = true -> dict_get (dict_set d k v) k = Some v.
Proof.
  intros Hk. induction d as [|[k0 v0] r IH]; simpl.
  - rewrite Hk. reflexivity.
  - destruct (scalar_eqb k0 k) eqn:E; simpl; rewrite E; [reflexivity|exact IH].
Qed.

Lemma dict_get_set_other (d : pydict) k2 v2 k :
  scalar_eqb k2 k = false ->
  dict_get (dict_set d k2 v2) k = dict_get d k.
Proof.
  intros Hk. induction d as [|[k0 v0] r IH]; simpl.
  - rewrite Hk. reflexivity.
  - destruct (scalar_eqb k0 k2) eqn:E; simpl.
    + destruct (scalar_eqb k0 k) eqn:E2; [|reflexivity].
      exfalso. rewrite scalar_eqb_sym in E.
      rewrite (scalar_eqb_trans _ _ _ E E2) in Hk. discriminate.
    + destruct (scalar_eqb k0 k); [reflexivity|exact IH].
Qed.

Lemma dict_update_get_other (o L : pydict) k :
  Forall (fun kv => scalar_eqb k (fst kv) = false) L ->
  dict_get (dict_update o L) k = dict_get o k.
Proof.
  unfold dict_update. intros H. revert o.
  induction H as [|[k0 v0] t Hk _ IH]; intros o; simpl; [reflexivity|].
  rewrite IH. apply dict_get_set_other.
  rewrite scalar_eqb_sym. exact Hk.
Qed.

Lemma dict_update_get (o L : pydict) k v :
  keys_distinct L -> In (k, v) L ->
  dict_get (dict_update o L) k = Some v.
Proof.
  unfold dict_update. revert o.
  induction L as [|[k0 v0] t IH]; intros o; simpl; [contradiction|].
  intros (Hs & Hfa & Hd) [Heq|Hin].
  - injection Heq as -> ->.
    change (dict_get (dict_update (dict_set o k v) t) k = Some v).
    rewrite (dict_update_get_other _ _ _ Hfa).
    apply dict_get_set_eq. exact Hs.
  - apply IH; assumption.
Qed.

Lemma keys_distinct_filter (f : pyval * pyval -> bool) (V : pydict) :
  keys_distinct V -> keys_distinct (filter f V).
Proof.
  induction V as [|[k v] r IH]; simpl; [tauto|].
  intros (Hs & Hfa & Hd). destruct (f (k, v)); simpl; [|apply IH; exact Hd].
  repeat split; [exact Hs| |apply IH; exact Hd].
  rewrite Forall_forall in *. intros x Hx. apply Hfa.
  apply filter_In in Hx. apply Hx.
Qed.

Lemma distinct_unique (V : pydict) k v k0 v0 :
  keys_distinct V -> In (k, v) V -> In (k0, v0) V ->
  scalar_eqb k0 k = true -> (k0, v0) = (k, v).
Proof.
  induction V as [|[a b] r IH]; simpl; [contradiction|].
  intros (Hs & Hfa & Hd) [H1|H1] [H2|H2] E.
  - congruence.
  - exfalso. injection H1 as -> ->. rewrite Forall_forall in Hfa.
    specialize (Hfa _ H2). simpl in Hfa. rewrite scalar_eqb_sym in Hfa.
    congruence.
  - exfalso. injection H2 as -> ->. rewrite Forall_forall in Hfa.
    specialize (Hfa _ H1). simpl in Hfa. congruence.
  - apply IH; assumption.
Qed.

Lemma scalar_not_among_tables (V : pydict) k v :
  keys_distinct V -> In (k, v) V -> is_table v = false ->
  dict_get (table_entries V) k = None.
Proof.
  intros Hd Hin Hv.
  destruct (dict_get (table_entries V) k) as [c|] eqn:E; [|reflexivity].
  exfalso. destruct (dict_get_some_in _ _ _ E) as (k0 & Hin0 & Hk0).
  unfold table_entries in Hin0. apply filter_In in Hin0.
  destruct Hin0 as (Hin0 & Hc). simpl in Hc.
  pose proof (distinct_unique _ _ _ _ _ Hd Hin Hin0 Hk0) as Heq.
  injection Heq as _ ->. congruence.
Qed.

(** The state in which [process] enters its second loop, when the options
    of the vehicle are a dict or missing. *)
Lemma hoisted_with_defaults (vehicle : pydict) :
  keys_distinct vehicle ->
  options_dict_or_absent vehicle ->
  exists o0,
    get_or_empty vehicle "options" = PDict o0 /\
    let V0 := with_defaults vehicle in
    let o1 := dict_update o0 (scalar_entries V0) in
    let V1 := with_options (PDict o1) (table_entries V0) in
    hoist_options (map fst V0) V0 = (V1, Ok tt) /\
    hoisted o1 (map fst (table_entries V0)) V1.
Proof.
  intros Hd Hopt.
  assert (Ho0 : exists o0, get_or_empty vehicle "options" = PDict o0).
  { unfold options_dict_or_absent in Hopt. unfold get_or_empty.
    destruct (dict_get vehicle (PStr "options")) as [[]|];
      try contradiction; eauto. }
  destruct Ho0 as (o0 & Ho0). exists o0. split; [exact Ho0|].
  cbv zeta.
  assert (Hd0 := keys_distinct_with_defaults _ Hd).
  assert (Hg0 : dict_get (with_defaults vehicle) (PStr "options")
                = Some (PDict o0))
    by (rewrite with_defaults_options, Ho0; reflexivity).
  split.
  - pose proof (hoist_options_spec (with_defaults vehicle) [] o0 o0 Hd0 Hg0)
      as H.
    simpl app in H. rewrite (with_options_id _ _ Hd0 Hg0) in H. exact H.
  - assert (Hdt : keys_distinct (table_entries (with_defaults vehicle)))
      by (apply keys_distinct_filter; exact Hd0).
    repeat split.
    + apply (keys_distinct_keys (table_entries (with_defaults vehicle)));
        [symmetry; apply with_options_keys|exact Hdt].
    + unfold with_options. rewrite Forall_forall. intros x Hx.
      apply in_map_iff in Hx. destruct Hx as ([k v] & <- & Hin). simpl.
      destruct (scalar_eqb k (PStr "options")); [reflexivity|].
      unfold table_entries in Hin. apply filter_In in Hin. apply Hin.
    + apply (dict_get_with_options _ _ (PDict o0)).
      destruct (dict_get_some_in _ _ _ Hg0) as (k' & Hin & Hk').
      apply scalar_eqb_str_l in Hk'. subst k'.
      apply dict_get_in_distinct; [exact Hdt|].
      unfold table_entries. apply filter_In. split; [exact Hin|reflexivity].
    + apply with_options_keys.
Qed.

Lemma dict_get_with_options_other x (V : pydict) k :
  k <> PStr "options" ->
  dict_get (with_options x V) k = dict_get V k.
Proof.
  intros Hk. induction V as [|[k0 v0] r IH]; simpl; [reflexivity|].
  destruct (scalar_eqb k0 (PStr "options")) eqn:E; simpl; [|rewrite IH; reflexivity].
  apply scalar_eqb_str_l in E. subst k0.
  destruct (scalar_eqb (PStr "options") k) eqn:E2.
  - apply scalar_eqb_str_r in E2. contradiction.
  - exact IH.
Qed.

Lemma dict_get_table_entries (V : pydict) k c :
  dict_get V k = Some c -> is_table c = true ->
  dict_get (table_entries V) k = Some c.
Proof.
  intros Hg Hc. induction V as [|[k0 v0] r IH]; simpl in *; [discriminate|].
  destruct (scalar_eqb k0 k) eqn:E.
  - injection Hg as ->. rewrite Hc. simpl. rewrite E. reflexivity.
  - destruct (is_table v0); simpl; [rewrite E|]; apply IH; exact Hg.
Qed.

Lemma keys_before (V : pydict) (A B : list pyval) k :
  keys_distinct V -> map fst V = (A ++ k :: B)%list ->
  Forall (fun k0 => scalar_eqb k0 k = false) A /\ ~ In k A.
Proof.
  revert V. induction A as [|a A IH]; intros V Hd Hk.
  - split; [constructor|intros []].
  - destruct V as [|[k0 v0] r]; [discriminate|]. simpl in Hk.
    injection Hk as -> Hr. destruct Hd as (Hs & Hfa & Hd).
    destruct (IH r Hd Hr) as (H1 & H2).
    assert (Hak : scalar_eqb a k = false).
    { assert (Hin : In k (map fst r))
        by (rewrite Hr; apply in_or_app; right; left; reflexivity).
      apply in_map_iff in Hin. destruct Hin as (y & <- & Hy).
      rewrite Forall_forall in Hfa. apply (Hfa y Hy). }
    split; [constructor; assumption|].
    intros [->|Hin]; [congruence|contradiction].
Qed.

Lemma max_ids_set (ids : list pyval) (V V1 : pydict) name :
  max_ids_are ids V ->
  Forall (fun k0 => scalar_eqb k0 (PStr name) = false) ids ->
  set_in V "maxIDs" (PStr name) (PInt 0) = Ok V1 ->
  V1 = dict_set V (PStr "maxIDs")
         (PDict (map (fun k => (k, PInt 0)) (ids ++ [PStr name]))).
Proof.
  unfold max_ids_are, set_in. intros Ha Hn Hs. rewrite Ha in Hs.
  simpl in Hs. injection Hs as <-. do 2 f_equal.
  rewrite dict_set_append; [rewrite map_app; reflexivity|].
  rewrite Forall_forall in *. intros x Hx. apply in_map_iff in Hx.
  destruct Hx as (y & <- & Hy). simpl. apply Hn. exact Hy.
Qed.

Lemma settled_dict ign k x : is_dict x = true -> settled ign (k, x) = true.
Proof. destruct x; try discriminate. intros _. destruct k; reflexivity. Qed.

Lemma settled_under_set ign done (V : pydict) k x :
  settled_under ign done V ->
  is_dict x = true ->
  settled_under ign done (dict_set V k x).
Proof.
  unfold settled_under. intros H Hx. rewrite Forall_forall in *.
  intros [k' v'] Hy Hdone.
  destruct (in_dict_set _ _ _ _ Hy) as [Hin|[[Hv _]|Heq]].
  - apply (H _ Hin Hdone).
  - simpl in Hv. subst v'. apply settled_dict. exact Hx.
  - injection Heq as -> ->. apply settled_dict. exact Hx.
Qed.

Lemma settled_under_snoc ign done (V : pydict) k e :
  keys_distinct V ->
  settled_under ign done V ->
  dict_get V k = Some e ->
  settled ign (k, e) = true ->
  settled_under ign (done ++ [k]) V.
Proof.
  unfold settled_under. intros Hd H He Hs. rewrite Forall_forall in *.
  intros [k' v'] Hy Hin. apply in_app_or in Hin.
  destruct Hin as [Hin|[Hin|[]]]; [apply (H _ Hy Hin)|].
  simpl in Hin. subst k'.
  rewrite (dict_get_in_distinct _ _ _ Hd Hy) in He. injection He as ->.
  exact Hs.
Qed.

Lemma valid_within_mono (A B : list pyval) (V : pydict) :
  valid_within A V -> valid_within (A ++ B) V.
Proof.
  intros (vt & Hg & Hf). exists vt. split; [exact Hg|].
  rewrite Forall_forall in *. intros x Hx. apply in_or_app. left.
  apply Hf. exact Hx.
Qed.

Lemma valid_within_set (A : list pyval) (V : pydict) p x :
  valid_within A V -> p <> "validTables" ->
  valid_within A (dict_set V (PStr p) x).
Proof.
  intros (vt & Hg & Hf) Hp. exists vt. split; [|exact Hf].
  rewrite dict_get_set_str; [exact Hg|].
  intros H. injection H as H. apply Hp. symmetry. exact H.
Qed.

Lemma valid_within_add (A : list pyval) (V V2 : pydict) name :
  valid_within A V ->
  set_in V "validTables" (PStr name) (PBool true) = Ok V2 ->
  valid_within (A ++ [PStr name]) V2 /\
  exists vt', V2 = dict_set V (PStr "validTables") (PDict vt').
Proof.
  intros (vt & Hg & Hf) Hs. unfold set_in in Hs. rewrite Hg in Hs.
  simpl in Hs. injection Hs as <-. split; [|eauto].
  eexists. split; [apply dict_get_set_new|].
  rewrite Forall_forall in *. intros x Hx. apply in_or_app.
  destruct (in_dict_set _ _ _ _ Hx) as [Hin|[[_ Hk]|Heq]].
  - left. apply Hf. exact Hin.
  - right. apply scalar_eqb_str_l in Hk. rewrite Hk. left. reflexivity.
  - right. subst x. left. reflexivity.
Qed.

Lemma max_ids_keep (ids : list pyval) (V : pydict) p x :
  max_ids_are ids V -> p <> "maxIDs" ->
  max_ids_are ids (dict_set V (PStr p) x).
Proof.
  unfold max_ids_are. intros H Hp.
  rewrite dict_get_set_str; [exact H|].
  intros E. injection E as E. apply Hp. symmetry. exact E.
Qed.
Section ProcessProofs.

Variable Metadata_merge : pydict -> pydict -> pydict.
Variable pickled : Type.
Variable pickle_dumps : pyval -> pickled.
Variable pickle_loads : pickled -> pyval.
Variable pickled_eqb : pickled -> pickled -> bool.
Variable ignore_sections : list string.

Local Abbreviation process_vehicle :=
  (process Metadata_merge pickled pickle_dumps pickle_loads pickled_eqb
     ignore_sections).
Local Abbreviation walk :=
  (walk_sections Metadata_merge pickled pickle_dumps pickle_loads pickled_eqb
     ignore_sections).
Local Abbreviation table_call :=
  (process_section Metadata_merge pickled pickle_dumps pickle_loads
     pickled_eqb).
Local Abbreviation tabled_in :=
  (tabled Metadata_merge pickled pickle_dumps pickle_loads pickled_eqb
     ignore_sections).

(** X22: a vehicle whose top-level entry [options] is None, a boolean, a
    number or a string makes [process] raise TypeError: the first entry
    that is to be stored in the options cannot be assigned.  The vehicle
    is left with the four default entries set and nothing moved, and the
    memo is untouched. *)
Theorem process_raises_on_scalar_options (memo : memo_t pickled)
    (vehicle : pydict) (v : pyval) :
  keys_distinct vehicle ->
  dict_get vehicle (PStr "options") = Some v ->
  plain_scalar v = true ->
  process_vehicle memo vehicle
  = (with_defaults vehicle, memo, Raise TypeError).
Proof.
  intros Hd Hopt Hv. unfold process.
  assert (Hd0 := keys_distinct_with_defaults _ Hd).
  assert (Hopt0 : dict_get (with_defaults vehicle) (PStr "options") = Some v).
  { rewrite with_defaults_options. unfold get_or_empty. rewrite Hopt.
    reflexivity. }
  rewrite (hoist_options_scalar_options _ _ v Hopt0 Hv); [reflexivity| |].
  - intros k Hk. apply in_map_iff in Hk. destruct Hk as ([k' e] & <- & Hin).
    exists e. apply dict_get_in_distinct; assumption.
  - destruct (dict_get_some_in _ _ _ Hopt0) as (k' & Hin & Hk').
    apply scalar_eqb_str_l in Hk'. subst k'.
    exists (PStr "options"), v. repeat split.
    + apply in_map_iff. exists (PStr "options", v). split; [reflexivity|exact Hin].
    + exact Hopt0.
    + destruct v; try discriminate Hv; reflexivity.
Qed.



(** The second loop keeps what the first established, whatever it returns
    or raises. *)
Lemma walk_sections_hoisted (o : pydict) K keys :
  forall V memo V' memo' r,
    hoisted o K V ->
    walk keys V memo = (V', memo', r) ->
    hoisted o K V'.
Proof.
  induction keys as [|key_entry rest IH]; intros V memo V' memo' r HV Hw.
  - simpl in Hw. injection Hw as <- _ _. exact HV.
  - simpl in Hw.
    destruct key_entry as [| | | |name| | | |];
      try (injection Hw as <- _ _; exact HV).
    destruct (matches_attribute_name name); simpl in Hw;
      [|injection Hw as <- _ _; exact HV].
    destruct (set_in V "maxIDs" (PStr name) (PInt 0)) as [V1|e] eqn:Hm;
      [|injection Hw as <- _ _; exact HV].
    assert (HV1 : hoisted o K V1)
      by (apply (set_in_hoisted o K V V1 _ _ _ HV Hm); discriminate).
    destruct (dict_get V1 (PStr name)) as [entry|] eqn:He;
      [|injection Hw as <- _ _; exact HV1].
    destruct (is_table entry && negb (ignored ignore_sections name)
              && (0 <? table_len entry)) eqn:Hc;
      [|apply (IH _ _ _ _ _ HV1 Hw)].
    destruct entry as [| | | | |tbl|d| |];
      try (destruct (String.eqb name "slots");
           [destruct (set_in V1 "validTables" (PStr name) (PBool true))
              as [V2|e] eqn:Hv;
            [apply (IH _ _ _ _ _
                      (set_in_hoisted o K V1 V2 _ _ _ HV1 Hv
                         ltac:(discriminate)) Hw)
            |injection Hw as <- _ _; exact HV1]
           |apply (IH _ _ _ _ _ HV1 Hw)]).
    assert (Hn := hoisted_not_options _ _ _ _ _ HV1 He).
    destruct (dict_get V1 (PStr "validTables")) as [valid|] eqn:Hvt;
      [|injection Hw as <- _ _; exact HV1].
    destruct (py_contains valid name) as [[|]|e];
      [apply (IH _ _ _ _ _ HV1 Hw)| |injection Hw as <- _ _; exact HV1].
    destruct (dict_get V1 (PStr "options")) as [options|] eqn:Ho;
      [|injection Hw as <- _ _; exact HV1].
    set (res := process_section Metadata_merge pickled pickle_dumps
                  pickle_loads pickled_eqb memo tbl options) in Hw.
    destruct (tr_exit res) as [n|e].
    + destruct (if 0 <? n
                then set_in V1 "validTables" (PStr name) (PBool true)
                else Ok V1) as [V2|e] eqn:Hv.
      * assert (HV2 : hoisted o K V2).
        { destruct (0 <? n).
          - apply (set_in_hoisted o K V1 V2 _ _ _ HV1 Hv). discriminate.
          - injection Hv as <-. exact HV1. }
        assert (He2 : exists c, dict_get V2 (PStr name) = Some c).
        { destruct (dict_get V2 (PStr name)) as [c|] eqn:E; [eauto|].
          exfalso. destruct HV1 as (_ & _ & _ & Hk1).
          destruct HV2 as (_ & _ & _ & Hk2).
          rewrite (dict_get_keys_none V2 V1 (PStr name)) in He;
            [discriminate|congruence|exact E]. }
        destruct He2 as (c & He2).
        refine (IH _ _ _ _ _ _ Hw).
        apply (hoisted_set o K V2 name c); [exact HV2|exact He2|reflexivity|exact Hn].
      * injection Hw as <- _ _.
        apply (hoisted_set o K V1 name (PList tbl));
          [exact HV1|exact He|reflexivity|exact Hn].
    + injection Hw as <- _ _.
      apply (hoisted_set o K V1 name (PList tbl));
        [exact HV1|exact He|reflexivity|exact Hn].
Qed.

Lemma tabled_step (o start : pydict) done (V V2 : pydict) n0 :
  tabled_in o start done V ->
  ~ In (PStr n0) done ->
  (forall nm, nm <> n0 -> nm <> "maxIDs" -> nm <> "validTables" ->
              dict_get V2 (PStr nm) = dict_get V (PStr nm)) ->
  (forall tbl, dict_get V (PStr n0) = Some (PList tbl) ->
               n0 <> "maxIDs" -> n0 <> "validTables" ->
               tbl <> [] -> ignored ignore_sections n0 = false ->
               exists m,
                 dict_get V2 (PStr n0)
                 = Some (PDict (tr_new_dict (table_call m tbl (PDict o))))) ->
  tabled_in o start (done ++ [PStr n0]) V2.
Proof.
  intros Htab Hnotin Hagree Hnew name tbl Hs H1 H2.
  destruct (Htab name tbl Hs H1 H2) as (Ha & Hb).
  destruct (string_dec name n0) as [->|Hne].
  - split.
    + intros Hnot. exfalso. apply Hnot. apply in_or_app. right. left.
      reflexivity.
    + intros _ Hrows Hig. apply Hnew; try assumption. apply Ha. exact Hnotin.
  - rewrite (Hagree name Hne H1 H2). split.
    + intros Hnot. apply Ha. intros Hin. apply Hnot. apply in_or_app. left.
      exact Hin.
    + intros Hin. apply Hb. apply in_app_or in Hin.
      destruct Hin as [Hin|[Hin|[]]]; [exact Hin|].
      injection Hin as Hin. exfalso. apply Hne. symmetry. exact Hin.
Qed.

(** X23: on a vehicle whose options are a dict or missing, [process]
    leaves only dicts and lists at the top level, whatever it returns or
    raises.  Every other entry of the vehicle, except one under [maxIDs] or
    [validTables], is then an entry of the options and no longer a key of
    the vehicle. *)
Theorem process_hoists_scalars (memo : memo_t pickled) (vehicle : pydict)
    (vehicle' : pydict) (memo' : memo_t pickled) (r : res bool) :
  keys_distinct vehicle ->
  options_dict_or_absent vehicle ->
  process_vehicle memo vehicle = (vehicle', memo', r) ->
  Forall (fun kv => is_table (snd kv) = true) vehicle' /\
  exists o,
    dict_get vehicle' (PStr "options") = Some (PDict o) /\
    forall k v,
      In (k, v) vehicle -> is_table v = false ->
      k <> PStr "maxIDs" -> k <> PStr "validTables" ->
      dict_get o k = Some v /\ dict_get vehicle' k = None.
Proof.
  intros Hd Hopt Hp.
  destruct (hoisted_with_defaults vehicle Hd Hopt) as (o0 & Ho0 & Hh & HV1).
  cbv zeta in Hh, HV1. unfold process in Hp. rewrite Hh in Hp.
  pose proof (walk_sections_hoisted _ _ _ _ _ _ _ _ HV1 Hp)
    as (Hd' & Ht' & Ho' & Hk').
  split; [exact Ht'|].
  eexists. split; [exact Ho'|].
  intros k v Hin Hv H1 H2.
  assert (Hin0 := in_with_defaults _ _ _ Hin H1 H2).
  assert (Hd0 := keys_distinct_with_defaults _ Hd).
  split.
  - apply dict_update_get.
    + apply keys_distinct_filter. exact Hd0.
    + unfold scalar_entries. apply filter_In. split; [exact Hin0|].
      simpl. rewrite Hv. reflexivity.
  - apply (dict_get_keys_none (table_entries (with_defaults vehicle)));
      [symmetry; exact Hk'|].
    apply (scalar_not_among_tables _ k v); assumption.
Qed.

Lemma walk_sections_false keys :
  forall V memo V' memo',
    walk keys V memo = (V', memo', Ok false) ->
    exists name, In (PStr name) keys /\ matches_attribute_name name = false.
Proof.
  induction keys as [|key_entry rest IH]; intros V memo V' memo' Hw.
  - simpl in Hw. discriminate.
  - assert (Hrest : forall V memo,
               walk rest V memo = (V', memo', Ok false) ->
               exists name, In (PStr name) (key_entry :: rest) /\
                            matches_attribute_name name = false).
    { intros V2 m2 H2. destruct (IH _ _ _ _ H2) as (n & Hn & Hm).
      exists n. split; [right; exact Hn|exact Hm]. }
    simpl in Hw.
    destruct key_entry as [| | | |name| | | |]; try discriminate.
    destruct (matches_attribute_name name) eqn:Hmatch; simpl in Hw;
      [|exists name; split; [left; reflexivity|exact Hmatch]].
    destruct (set_in V "maxIDs" (PStr name) (PInt 0)) as [V1|e];
      [|discriminate].
    destruct (dict_get V1 (PStr name)) as [entry|]; [|discriminate].
    destruct (is_table entry && negb (ignored ignore_sections name)
              && (0 <? table_len entry));
      [|apply (Hrest _ _ Hw)].
    destruct entry as [| | | | |tbl|d| |];
      try (destruct (String.eqb name "slots");
           [destruct (set_in V1 "validTables" (PStr name) (PBool true));
            [apply (Hrest _ _ Hw)|discriminate]
           |apply (Hrest _ _ Hw)]).
    destruct (dict_get V1 (PStr "validTables")) as [valid|]; [|discriminate].
    destruct (py_contains valid name) as [[|]|e];
      [apply (Hrest _ _ Hw)| |discriminate].
    destruct (dict_get V1 (PStr "options")) as [options|]; [|discriminate].
    destruct (tr_exit _) as [n|e]; [|discriminate].
    destruct (if 0 <? n then _ else _) as [V2|e]; [|discriminate].
    apply (Hrest _ _ Hw).
Qed.

(** X24: [process] returns False only for the name of a dict or a list: on
    a vehicle whose options are a dict or missing, a returned False means
    that some key of the vehicle holds a dict or a list and does not match
    the pattern.  The key of any other entry is never looked at. *)
Theorem process_rejects_table_names_only (memo : memo_t pickled)
    (vehicle : pydict) (vehicle' : pydict) (memo' : memo_t pickled) :
  keys_distinct vehicle ->
  options_dict_or_absent vehicle ->
  process_vehicle memo vehicle = (vehicle', memo', Ok false) ->
  exists name v,
    In (PStr name, v) vehicle /\ is_table v = true /\
    matches_attribute_name name = false.
Proof.
  intros Hd Hopt Hp.
  destruct (hoisted_with_defaults vehicle Hd Hopt) as (o0 & Ho0 & Hh & HV1).
  cbv zeta in Hh, HV1. unfold process in Hp. rewrite Hh in Hp.
  destruct (walk_sections_false _ _ _ _ _ Hp) as (name & Hin & Hm).
  rewrite with_options_keys in Hin.
  apply in_map_iff in Hin. destruct Hin as ([k v] & Hk & Hin).
  simpl in Hk. subst k. unfold table_entries in Hin.
  apply filter_In in Hin. destruct Hin as (Hin & Ht). simpl in Ht.
  exists name, v.
  destruct (in_with_defaults_inv _ _ _ Hin) as [H|H].
  - repeat split; assumption.
  - exfalso. simpl in H.
    destruct H as [H|[H|[H|[H|[]]]]]; injection H as <-;
      vm_compute in Hm; discriminate.
Qed.

(** What a completed second loop has done. *)
Lemma walk_sections_true (o start : pydict) pending :
  forall done V memo V' memo',
    hoisted o (done ++ pending)%list V ->
    max_ids_are done V ->
    valid_within done V ->
    settled_under ignore_sections done V ->
    tabled_in o start done V ->
    walk pending V memo = (V', memo', Ok true) ->
    max_ids_are (done ++ pending)%list V' /\
    settled_under ignore_sections (done ++ pending)%list V' /\
    tabled_in o start (done ++ pending)%list V'.
Proof.
  induction pending as [|key_entry rest IH];
    intros done V memo V' memo' HV Ha Hb Hc Htab Hw.
  - simpl in Hw. injection Hw as <- _. rewrite app_nil_r.
    split; [assumption|split; assumption].
  - simpl in Hw.
    destruct key_entry as [| | | |name| | | |]; try discriminate.
    destruct (matches_attribute_name name); simpl in Hw; [|discriminate].
    destruct HV as (HVd & HVt & HVo & HVk).
    destruct (keys_before _ _ _ _ HVd HVk) as (Hbefore & Hnotin).
    destruct (set_in V "maxIDs" (PStr name) (PInt 0)) as [V1|e] eqn:Hm;
      [|discriminate].
    assert (HV1 : hoisted o (done ++ PStr name :: rest)%list V1).
    { apply (set_in_hoisted o _ V V1 _ _ _ (conj HVd (conj HVt (conj HVo HVk))) Hm).
      discriminate. }
    pose proof (max_ids_set _ _ _ _ Ha Hbefore Hm) as HV1eq.
    assert (Ha1 : max_ids_are (done ++ [PStr name]) V1).
    { unfold max_ids_are. rewrite HV1eq. apply dict_get_set_new. }
    assert (Hb1 : valid_within done V1).
    { rewrite HV1eq. apply valid_within_set; [exact Hb|discriminate]. }
    assert (Hc1 : settled_under ignore_sections done V1).
    { rewrite HV1eq. apply settled_under_set; [exact Hc|reflexivity]. }
    assert (Hstep : forall V2 : pydict,
               (forall nm, nm <> name -> nm <> "maxIDs" ->
                           nm <> "validTables" ->
                           dict_get V2 (PStr nm) = dict_get V1 (PStr nm)) ->
               (forall tbl, dict_get V1 (PStr name) = Some (PList tbl) ->
                            name <> "maxIDs" -> name <> "validTables" ->
                            tbl <> [] ->
                            ignored ignore_sections name = false ->
                            exists m,
                              dict_get V2 (PStr name)
                              = Some (PDict (tr_new_dict
                                       (table_call m tbl (PDict o))))) ->
               tabled_in o start (done ++ [PStr name]) V2).
    { intros V2 Hagree Hnew.
      apply (tabled_step o start done V V2 name Htab Hnotin).
      - intros nm H0 H1 H2. rewrite (Hagree nm H0 H1 H2). rewrite HV1eq.
        apply dict_get_set_str. congruence.
      - intros tbl Hl H1 H2. apply Hnew; [|exact H1|exact H2].
        rewrite HV1eq. rewrite dict_get_set_str by congruence. exact Hl. }
    clear HV1eq Hm Ha Hb Hc Htab HVd HVt HVo HVk V.
    replace (done ++ PStr name :: rest)%list
      with ((done ++ [PStr name]) ++ rest)%list in *
      by (rewrite <- app_assoc; reflexivity).
    assert (Hgo : forall V2 memo2,
               hoisted o ((done ++ [PStr name]) ++ rest)%list V2 ->
               max_ids_are (done ++ [PStr name]) V2 ->
               valid_within (done ++ [PStr name]) V2 ->
               settled_under ignore_sections done V2 ->
               (forall e, dict_get V2 (PStr name) = Some e ->
                          settled ignore_sections (PStr name, e) = true) ->
               tabled_in o start (done ++ [PStr name]) V2 ->
               walk rest V2 memo2 = (V', memo', Ok true) ->
               max_ids_are ((done ++ [PStr name]) ++ rest)%list V' /\
               settled_under ignore_sections
                 ((done ++ [PStr name]) ++ rest)%list V' /\
               tabled_in o start ((done ++ [PStr name]) ++ rest)%list V').
    { intros V2 memo2 H2 Ha2 Hb2 Hc2 He2 Ht2 Hw2.
      apply (IH (done ++ [PStr name])%list V2 memo2 V' memo' H2 Ha2 Hb2);
        [|exact Ht2|exact Hw2].
      destruct (dict_get V2 (PStr name)) as [e|] eqn:E.
      - apply (settled_under_snoc _ _ _ _ e); [apply H2|exact Hc2|exact E|].
        apply He2. reflexivity.
      - unfold settled_under in *. rewrite Forall_forall in *.
        intros [k' v'] Hy Hin. apply in_app_or in Hin.
        destruct Hin as [Hin|[Hin|[]]]; [apply (Hc2 _ Hy Hin)|].
        simpl in Hin. subst k'. exfalso.
        destruct H2 as (Hd2 & _).
        rewrite (dict_get_in_distinct _ _ _ Hd2 Hy) in E. discriminate. }
    destruct (dict_get V1 (PStr name)) as [entry|] eqn:He; [|discriminate].
    assert (Hte : is_table entry = true).
    { destruct HV1 as (_ & Ht1 & _). rewrite Forall_forall in Ht1.
      destruct (dict_get_some_in _ _ _ He) as (k' & Hin & _).
      apply (Ht1 _ Hin). }
    destruct (is_table entry && negb (ignored ignore_sections name)
              && (0 <? table_len entry)) eqn:Hcond.
    + destruct entry as [| | | | |tbl|d| |]; try discriminate Hte.
      * (* a list with rows *)
        assert (Hn := hoisted_not_options _ _ _ _ _ HV1 He).
        destruct Hb1 as (vt & Hvt & Hfvt). rewrite Hvt in Hw.
        assert (Hmem : dict_mem vt (PStr name) = false).
        { unfold dict_mem. destruct (dict_get vt (PStr name)) eqn:E;
            [|reflexivity].
          exfalso. destruct (dict_get_some_in _ _ _ E) as (k' & Hin & Hk').
          apply scalar_eqb_str_l in Hk'. subst k'.
          rewrite Forall_forall in Hfvt. apply Hnotin.
          apply (Hfvt _ Hin). }
        simpl py_contains in Hw. rewrite Hmem in Hw.
        assert (Ho : dict_get V1 (PStr "options") = Some (PDict o))
          by apply HV1.
        rewrite Ho in Hw.
        set (res := process_section Metadata_merge pickled pickle_dumps
                      pickle_loads pickled_eqb memo tbl (PDict o)) in Hw.
        destruct (tr_exit res) as [n|e]; [|discriminate].
        assert (Hname1 : name <> "maxIDs").
        { intros ->. unfold max_ids_are in Ha1. rewrite Ha1 in He.
          discriminate. }
        assert (Hname2 : name <> "validTables").
        { intros ->. rewrite Hvt in He. discriminate. }
        destruct (0 <? n).
        -- destruct (set_in V1 "validTables" (PStr name) (PBool true))
             as [V2|e] eqn:Hv; [|discriminate].
           assert (HV2 : hoisted o ((done ++ [PStr name]) ++ rest)%list V2)
             by (apply (set_in_hoisted o _ V1 V2 _ _ _ HV1 Hv); discriminate).
           destruct (valid_within_add done V1 V2 name
                       (ex_intro _ vt (conj Hvt Hfvt)) Hv)
             as (Hb2 & vt' & HV2eq).
           assert (He2 : dict_get V2 (PStr name) = Some (PList tbl)).
           { rewrite HV2eq. rewrite dict_get_set_str; [exact He|].
             intros E. injection E as E. apply Hname2. exact E. }
           refine (Hgo _ _ _ _ _ _ _ _ Hw).
           ++ apply (hoisted_set o _ V2 name (PList tbl));
                [exact HV2|exact He2|reflexivity|exact Hn].
           ++ apply max_ids_keep; [|exact Hname1].
              rewrite HV2eq. apply max_ids_keep; [exact Ha1|discriminate].
           ++ apply valid_within_set; [exact Hb2|exact Hname2].
           ++ apply settled_under_set; [|reflexivity].
              rewrite HV2eq. apply settled_under_set; [exact Hc1|reflexivity].
           ++ intros e. rewrite dict_get_set_new. intros E. injection E as <-.
              reflexivity.
           ++ apply Hstep.
              ** intros nm H0 H1 H2. rewrite HV2eq.
                 rewrite !dict_get_set_str by congruence. reflexivity.
              ** intros tbl0 Hl _ _ _ _. rewrite ?He in Hl. injection Hl as <-.
                 exists memo. apply dict_get_set_new.
        -- refine (Hgo _ _ _ _ _ _ _ _ Hw).
           ++ apply (hoisted_set o _ V1 name (PList tbl));
                [exact HV1|exact He|reflexivity|exact Hn].
           ++ apply max_ids_keep; [exact Ha1|exact Hname1].
           ++ apply valid_within_set; [|exact Hname2].
              apply valid_within_mono. exists vt. split; assumption.
           ++ apply settled_under_set; [exact Hc1|reflexivity].
           ++ intros e. rewrite dict_get_set_new. intros E. injection E as <-.
              reflexivity.
           ++ apply Hstep.
              ** intros nm H0 H1 H2.
                 rewrite !dict_get_set_str by congruence. reflexivity.
              ** intros tbl0 Hl _ _ _ _. rewrite ?He in Hl. injection Hl as <-.
                 exists memo. apply dict_get_set_new.
      * (* a dict with entries *)
        assert (Htd : tabled_in o start (done ++ [PStr name]) V1).
        { apply Hstep; [reflexivity|].
          intros tbl0 Hl. rewrite ?He in Hl. discriminate. }
        destruct (String.eqb name "slots") eqn:Hslots.
        -- destruct (set_in V1 "validTables" (PStr name) (PBool true))
             as [V2|e] eqn:Hv; [|discriminate].
           assert (HV2 : hoisted o ((done ++ [PStr name]) ++ rest)%list V2)
             by (apply (set_in_hoisted o _ V1 V2 _ _ _ HV1 Hv); discriminate).
           destruct (valid_within_add done V1 V2 name Hb1 Hv)
             as (Hb2 & vt' & HV2eq).
           apply String.eqb_eq in Hslots. subst name.
           refine (Hgo _ _ HV2 _ Hb2 _ _ _ Hw).
           ++ rewrite HV2eq. apply max_ids_keep; [exact Ha1|discriminate].
           ++ rewrite HV2eq. apply settled_under_set; [exact Hc1|reflexivity].
           ++ intros e. rewrite HV2eq.
              rewrite dict_get_set_str by discriminate. rewrite He.
              intros E. injection E as <-. reflexivity.
           ++ apply Hstep.
              ** intros nm H0 H1 H2. rewrite HV2eq.
                 rewrite !dict_get_set_str by congruence. reflexivity.
              ** intros tbl0 Hl. rewrite ?He in Hl. discriminate.
        -- refine (Hgo _ _ HV1 Ha1 (valid_within_mono _ _ _ Hb1) Hc1 _ Htd Hw).
           intros e. rewrite He. intros E. injection E as <-. reflexivity.
    + assert (Hrows : forall tbl, entry = PList tbl ->
                 tbl = [] \/ ignored ignore_sections name = true).
      { intros tbl ->. simpl in Hcond. destruct tbl as [|row tbl];
          [left; reflexivity|right].
        destruct (ignored ignore_sections name); [reflexivity|].
        simpl in Hcond. apply Z.ltb_ge in Hcond.
        unfold llen in Hcond. simpl List.length in Hcond. lia. }
      refine (Hgo _ _ HV1 Ha1 (valid_within_mono _ _ _ Hb1) Hc1 _ _ Hw).
      * intros e. rewrite He. intros E. injection E as <-.
        destruct entry as [| | | | |tbl|d| |]; try discriminate Hte;
          [|reflexivity].
        destruct (Hrows tbl eq_refl) as [->|Hig]; [reflexivity|].
        simpl. rewrite Hig. destruct tbl; reflexivity.
      * apply Hstep; [reflexivity|].
        intros tbl0 Hl _ _ Hne Hig. rewrite ?He in Hl. injection Hl as ->.
        exfalso. destruct (Hrows tbl0 eq_refl) as [H|H];
          [exact (Hne H)|congruence].
Qed.

(** The state in which the second loop starts, and the state a completed
    loop ends in. *)
Lemma process_true (memo : memo_t pickled) (vehicle : pydict)
    (vehicle' : pydict) (memo' : memo_t pickled) :
  keys_distinct vehicle ->
  options_dict_or_absent vehicle ->
  process_vehicle memo vehicle = (vehicle', memo', Ok true) ->
  exists o0,
    get_or_empty vehicle "options" = PDict o0 /\
    let V0 := with_defaults vehicle in
    let o1 := dict_update o0 (scalar_entries V0) in
    let V1 := with_options (PDict o1) (table_entries V0) in
    hoisted o1 (map fst V1) vehicle' /\
    max_ids_are (map fst vehicle') vehicle' /\
    settled_under ignore_sections (map fst vehicle') vehicle' /\
    tabled_in o1 V1 (map fst V1) vehicle'.
Proof.
  intros Hd Hopt Hp.
  destruct (hoisted_with_defaults vehicle Hd Hopt) as (o0 & Ho0 & Hh & HV1).
  exists o0. split; [exact Ho0|].
  cbv zeta in Hh, HV1 |- *. unfold process in Hp. rewrite Hh in Hp.
  rewrite <- (with_options_keys
                (PDict (dict_update o0 (scalar_entries (with_defaults vehicle)))))
    in HV1.
  pose proof (walk_sections_hoisted _ _ _ _ _ _ _ _ HV1 Hp) as HV'.
  split; [exact HV'|].
  destruct HV' as (_ & _ & _ & Hk'). rewrite Hk'.
  assert (Hd0 := keys_distinct_with_defaults _ Hd).
  apply (walk_sections_true _
           (with_options
              (PDict (dict_update o0 (scalar_entries (with_defaults vehicle))))
              (table_entries (with_defaults vehicle)))
           _ [] _ _ _ _ HV1) in Hp; [exact Hp| | | |].
  - unfold max_ids_are. rewrite dict_get_with_options_other by discriminate.
    apply dict_get_table_entries; [apply with_defaults_max_ids|reflexivity].
  - exists []. split; [|constructor].
    rewrite dict_get_with_options_other by discriminate.
    apply dict_get_table_entries;
      [apply with_defaults_valid_tables|reflexivity].
  - unfold settled_under. rewrite Forall_forall. intros x _ [].
  - intros name tbl Hs _ _. split; [intros _; exact Hs|intros []].
Qed.

(** X25: when [process] returns True on a vehicle whose options are a dict
    or missing, the only lists left at the top level are empty or stand
    under an ignored name: every list with rows under another name has been
    replaced by a dict. *)
Theorem process_leaves_no_table_as_list (memo : memo_t pickled)
    (vehicle : pydict) (vehicle' : pydict) (memo' : memo_t pickled) :
  keys_distinct vehicle ->
  options_dict_or_absent vehicle ->
  process_vehicle memo vehicle = (vehicle', memo', Ok true) ->
  Forall (fun kv => settled ignore_sections kv = true) vehicle'.
Proof.
  intros Hd Hopt Hp.
  destruct (process_true _ _ _ _ Hd Hopt Hp) as (o0 & _ & _ & _ & Hs & _).
  unfold settled_under in Hs. rewrite Forall_forall in *.
  intros x Hx. apply (Hs x Hx). apply in_map. exact Hx.
Qed.

(** X26: when [process] returns True on a vehicle whose options are a dict
    or missing, [maxIDs] holds 0 under every key of the vehicle, in the
    order of the keys, the key [maxIDs] among them, and nothing else. *)
Theorem process_max_ids (memo : memo_t pickled)
    (vehicle : pydict) (vehicle' : pydict) (memo' : memo_t pickled) :
  keys_distinct vehicle ->
  options_dict_or_absent vehicle ->
  process_vehicle memo vehicle = (vehicle', memo', Ok true) ->
  dict_get vehicle' (PStr "maxIDs")
  = Some (PDict (map (fun kv => (fst kv, PInt 0)) vehicle')).
Proof.
  intros Hd Hopt Hp.
  destruct (process_true _ _ _ _ Hd Hopt Hp) as (o0 & _ & _ & Hm & _).
  unfold max_ids_are in Hm. rewrite map_map in Hm. exact Hm.
Qed.


End ProcessProofs.

Lemma process_raises_on_scalar_options_witness :
  process update_merge pyval id_dumps id_loads py_eqb [] []
    vehicle_scalar_options
  = (with_defaults vehicle_scalar_options, [], Raise TypeError).
Proof.
  apply (process_raises_on_scalar_options update_merge pyval id_dumps
           id_loads py_eqb [] [] vehicle_scalar_options (PInt 5)).
  - vm_compute. repeat split; repeat constructor.
  - reflexivity.
  - reflexivity.
Defined.

Lemma process_hoists_scalars_witness :
  match process update_merge pyval id_dumps id_loads py_eqb [] []
          vehicle_raw with
  | (vehicle', _, _) =>
      Forall (fun kv => is_table (snd kv) = true) vehicle' /\
      exists o,
        dict_get vehicle' (PStr "options") = Some (PDict o) /\
        forall k v,
          In (k, v) vehicle_raw -> is_table v = false ->
          k <> PStr "maxIDs" -> k <> PStr "validTables" ->
          dict_get o k = Some v /\ dict_get vehicle' k = None
  end.
Proof.
  destruct (process update_merge pyval id_dumps id_loads py_eqb [] []
              vehicle_raw) as [[vehicle' memo'] r] eqn:H.
  apply (process_hoists_scalars update_merge pyval id_dumps id_loads py_eqb
           [] [] vehicle_raw vehicle' memo' r).
  - vm_compute. repeat split; repeat constructor.
  - vm_compute. exact I.
  - exact H.
Defined.

Lemma process_rejects_table_names_only_witness :
  match process update_merge pyval id_dumps id_loads py_eqb [] []
          vehicle_bad_name with
  | (_, _, Ok false) =>
      exists name v,
        In (PStr name, v) vehicle_bad_name /\ is_table v = true /\
        matches_attribute_name name = false
  | _ => False
  end.
Proof.
  destruct (process update_merge pyval id_dumps id_loads py_eqb [] []
              vehicle_bad_name) as [[vehicle' memo'] [[|]|e]] eqn:H;
    try (vm_compute in H; discriminate H).
  apply (process_rejects_table_names_only update_merge pyval id_dumps
           id_loads py_eqb [] [] vehicle_bad_name vehicle' memo').
  - vm_compute. repeat split; repeat constructor.
  - vm_compute. exact I.
  - exact H.
Defined.

Lemma process_leaves_no_table_as_list_witness :
  match process update_merge pyval id_dumps id_loads py_eqb [] []
          vehicle_raw with
  | (vehicle', _, Ok true) => Forall (fun kv => settled [] kv = true) vehicle'
  | _ => False
  end.
Proof.
  destruct (process update_merge pyval id_dumps id_loads py_eqb [] []
              vehicle_raw) as [[vehicle' memo'] [[|]|e]] eqn:H;
    try (vm_compute in H; discriminate H).
  apply (process_leaves_no_table_as_list update_merge pyval id_dumps
           id_loads py_eqb [] [] vehicle_raw vehicle' memo').
  - vm_compute. repeat split; repeat constructor.
  - vm_compute. exact I.
  - exact H.
Defined.

Lemma process_max_ids_witness :
  match process update_merge pyval id_dumps id_loads py_eqb [] []
          vehicle_raw with
  | (vehicle', _, Ok true) =>
      dict_get vehicle' (PStr "maxIDs")
      = Some (PDict (map (fun kv => (fst kv, PInt 0)) vehicle'))
  | _ => False
  end.
Proof.
  destruct (process update_merge pyval id_dumps id_loads py_eqb [] []
              vehicle_raw) as [[vehicle' memo'] [[|]|e]] eqn:H;
    try (vm_compute in H; discriminate H).
  apply (process_max_ids update_merge pyval id_dumps id_loads py_eqb [] []
           vehicle_raw vehicle' memo').
  - vm_compute. repeat split; repeat constructor.
  - vm_compute. exact I.
  - exact H.
Defined.


Lemma length_dict_set_le (d : pydict) k v :
  (List.length (dict_set d k v) <= S (List.length d))%nat.
Proof.
  induction d as [|[k0 v0] r IH]; simpl; [lia|].
  destruct (scalar_eqb k0 k); simpl; lia.
Qed.

Section TableCount.

Variable Metadata_merge : pydict -> pydict -> pydict.
Variable pickled : Type.
Variable pickle_dumps : pyval -> pickled.
Variable pickle_loads : pickled -> pyval.
Variable pickled_eqb : pickled -> pickled -> bool.

(** A completed walk has counted the list rows, and has added at most one
    entry to the output for each of them. *)
Lemma process_rows_count header hs :
  forall rows rk opts nd n rows' nd' m,
    process_rows Metadata_merge header hs rows rk opts nd n
    = (rows', nd', Completed m) ->
    m = n + llen (list_rows rows) /\
    llen nd <= llen nd' <= llen nd + llen (list_rows rows).
Proof.
  unfold llen.
  induction rows as [|row rest IH]; intros rk opts nd n rows' nd' m H.
  - simpl in H. inversion H; subst. simpl. lia.
  - simpl in H.
    destruct row as [| b | z | f | s | cells | d | | md]; try discriminate.
    + destruct (hs + 1 <? llen cells); [discriminate|].
      destruct (process_list_row Metadata_merge header hs opts rk cells)
        as [row' [[new_id new_row]|e]]; [|discriminate].
      destruct (hashable new_id); [|discriminate].
      destruct (process_rows Metadata_merge header hs rest (rk + 1) opts
                  (dict_set nd new_id (PDict new_row)) (n + 1))
        as [[rest' nd1] ex1] eqn:Hrest.
      inversion H; subst.
      destruct (IH _ _ _ _ _ _ _ Hrest) as (Hm & Hlen).
      pose proof (length_dict_set_le nd new_id (PDict new_row)).
      assert (List.length nd <= List.length (dict_set nd new_id (PDict new_row)))%nat.
      { clear. induction nd as [|[k0 v0] r IHr]; simpl; [lia|].
        destruct (scalar_eqb k0 new_id); simpl; lia. }
      simpl list_rows. simpl List.length. lia.
    + destruct (process_dict_row Metadata_merge opts d)
        as [row' [opts'|e]]; [|discriminate].
      destruct (process_rows Metadata_merge header hs rest (rk + 1) opts' nd n)
        as [[rest' nd1] ex1] eqn:Hrest.
      inversion H; subst.
      destruct (IH _ _ _ _ _ _ _ Hrest) as (Hm & Hlen).
      simpl list_rows. lia.
Qed.

(** X28: a call of [process_table_with_schema_destructive] that is not
    answered from the memo and does not return -1 returns the number of
    rows that are lists.  The output dict has gained at most that many
    entries, and fewer when rows share an id; rows that are dicts add
    none. *)
Theorem process_table_counts_list_rows (memo : memo_t pickled)
    (jbeam_table : list pyval) (new_dict : pydict)
    (input_options : option pydict) (n : Z) :
  memo_get pickled_eqb memo (encoded pickle_dumps jbeam_table input_options)
  = None ->
  tr_exit (process_table_with_schema_destructive Metadata_merge pickled
             pickle_dumps pickle_loads pickled_eqb memo jbeam_table new_dict
             input_options) = Returned n ->
  n <> -1 ->
  n = llen (list_rows (tl jbeam_table)) /\
  llen new_dict
  <= llen (tr_new_dict
             (process_table_with_schema_destructive Metadata_merge pickled
                pickle_dumps pickle_loads pickled_eqb memo jbeam_table
                new_dict input_options))
  <= llen new_dict + n.
Proof.
  intros Hmiss. unfold process_table_with_schema_destructive. rewrite Hmiss.
  destruct jbeam_table as [|first rows]; [discriminate|].
  destruct first as [| | | | |header| | |];
    try (simpl; intros H Hn; injection H as <-; contradiction Hn; reflexivity).
  destruct (py_nth header (-1)) as [last|]; [|discriminate].
  destruct (process_rows Metadata_merge (header_with_options header last)
              (llen header) rows 0 (initial_options input_options)
              new_dict 0) as [[rows' nd] [m| |e]] eqn:Hrows; simpl.
  - intros H _. injection H as <-.
    destruct (process_rows_count _ _ _ _ _ _ _ _ _ _ Hrows) as (Hm & Hlen).
    split; [lia|]. lia.
  - intros H Hn. injection H as <-. contradiction Hn. reflexivity.
  - discriminate.
Qed.

End TableCount.

Lemma process_table_counts_list_rows_witness :
  2 = llen (list_rows (tl twice_n1_table)) /\
  llen (@nil (pyval * pyval))
  <= llen (tr_new_dict
             (process_table_with_schema_destructive update_merge pyval
                id_dumps id_loads py_eqb [] twice_n1_table [] None))
  <= llen (@nil (pyval * pyval)) + 2.
Proof.
  apply (process_table_counts_list_rows update_merge pyval id_dumps id_loads
           py_eqb [] twice_n1_table [] None 2).
  - reflexivity.
  - vm_compute. reflexivity.
  - discriminate.
Defined.
